(** * BattleBoats: the message codec, the negotiation and the agent protocol

    A shallow embedding of [Message.c], [Field.c] and [Agent.c], with the
    properties of the protocol stack stated over it.

    Conventions.
    - A C [char] / [unsigned char] is an [ascii] (exactly the 256 byte values).
    - A C string is the [list ascii] of the characters before its terminator;
      a [char] array is a [list ascii] of the declared size, and the string
      held in it is read with [cstr].
    - Integers are [Z]; the width of the C type is written out where a value
      is stored ([to_u8], [to_u16], [to_u32], [to_i32]).
    - A store outside an array, or a read past its end, is undefined in C:
      operations that may do so return [option], [None] standing for it. *)

From Stdlib Require Import ZArith Ascii String List Bool Lia.
From stdpp Require Import base list.
Import ListNotations.

#[local] Open Scope char_scope.
#[local] Open Scope Z_scope.

(* ===================================================================== *)
(** ** Characters, C strings and fixed-width integers                     *)
(* ===================================================================== *)

Module C.

Definition to_u8 (z : Z) : Z := z mod 256.
Definition to_u16 (z : Z) : Z := z mod 65536.
Definition to_u32 (z : Z) : Z := z mod 4294967296.
Definition to_i32 (z : Z) : Z := (z + 2147483648) mod 4294967296 - 2147483648.
Definition to_i8 (z : Z) : Z := (z + 128) mod 256 - 128.

(** The code of a character, as an [unsigned char]. *)
Definition code (c : ascii) : Z := Z.of_N (N_of_ascii c).
Definition chr (z : Z) : ascii := ascii_of_N (Z.to_N (to_u8 z)).

Definition NUL : ascii := "000".
Definition CR : ascii := "013".
Definition LF : ascii := "010".

(** A string literal of the source, with its escape sequences. *)
Fixpoint unescape (s : list ascii) (escaped : bool) : list ascii :=
  match s with
  | [] => []
  | c :: s' =>
      if escaped then
        (if Ascii.eqb c "r" then CR
         else if Ascii.eqb c "n" then LF
         else if Ascii.eqb c "t" then "009"
         else if Ascii.eqb c "0" then NUL
         else c) :: unescape s' false
      else if Ascii.eqb c "\" then unescape s' true
      else c :: unescape s' false
  end.

Definition lit (s : string) : list ascii :=
  unescape (list_ascii_of_string s) false.

Definition between (lo hi : ascii) (c : ascii) : bool :=
  (code lo <=? code c) && (code c <=? code hi).

(** <ctype.h>, in the C locale. *)
Definition isdigit (c : ascii) : bool := between "0" "9" c.
Definition isxdigit (c : ascii) : bool :=
  isdigit c || between "A" "F" c || between "a" "f" c.
Definition isspace (c : ascii) : bool :=
  Ascii.eqb c " " || between "009" "013" c.

Definition digit_val (c : ascii) : Z := code c - code "0".
Definition xdigit_val (c : ascii) : Z :=
  if isdigit c then code c - code "0"
  else if between "A" "F" c then code c - code "A" + 10
  else code c - code "a" + 10.

Definition is_digit_in (base : Z) (c : ascii) : bool :=
  if base =? 16 then isxdigit c else isdigit c.
Definition val_in (base : Z) (c : ascii) : Z :=
  if base =? 16 then xdigit_val c else digit_val c.

(** [strlen], [strcmp(...) == 0] on strings. *)
Definition strlen (s : list ascii) : Z := Z.of_nat (length s).
Fixpoint streq (a b : list ascii) : bool :=
  match a, b with
  | [], [] => true
  | x :: a', y :: b' => Ascii.eqb x y && streq a' b'
  | _, _ => false
  end.

(** *** Arrays of [char] *)

(** The string held in an array: the characters before the first NUL.
    [None] when the array holds no terminator. *)
Fixpoint cstr (a : list ascii) : option (list ascii) :=
  match a with
  | [] => None
  | c :: a' => if Ascii.eqb c NUL then Some []
               else match cstr a' with
                    | Some s => Some (c :: s)
                    | None => None
                    end
  end.

(** [a[i] = v]; [None] when [i] is outside the array. *)
Definition store (a : list ascii) (i : Z) (v : ascii) : option (list ascii) :=
  if (0 <=? i) && (i <? Z.of_nat (length a))
  then Some (<[Z.to_nat i := v]> a)
  else None.

(** [memset(a, 0, sizeof(a))]. *)
Definition memset0 (a : list ascii) : list ascii := replicate (length a) NUL.

(** *** Formats of the printf and scanf families

    A format is read into directives: a literal character, or a conversion
    with its zero-padding flag, its width and its conversion character. *)

Inductive directive :=
| Lit (c : ascii)
| Conv (zero : bool) (width : option nat) (spec : ascii).

Fixpoint parse_format_aux (s : list ascii) (pending : option (bool * option nat))
  : list directive :=
  match s with
  | [] => []
  | c :: s' =>
      match pending with
      | None =>
          if Ascii.eqb c "%" then parse_format_aux s' (Some (false, None))
          else Lit c :: parse_format_aux s' None
      | Some (z, w) =>
          if isdigit c then
            match w with
            | None =>
                if Ascii.eqb c "0" then parse_format_aux s' (Some (true, None))
                else parse_format_aux s' (Some (z, Some (Z.to_nat (digit_val c))))
            | Some n =>
                parse_format_aux s'
                  (Some (z, Some (10 * n + Z.to_nat (digit_val c))%nat))
            end
          else Conv z w c :: parse_format_aux s' None
      end
  end.

Definition parse_format (fmt : string) : list directive :=
  parse_format_aux (lit fmt) None.

(** *** Printing *)

Definition digit_char (d : Z) : ascii := chr (code "0" + d).
Definition xdigit_char (d : Z) : ascii :=
  if d <? 10 then chr (code "0" + d) else chr (code "A" + (d - 10)).

Definition digit_in (base : Z) (d : Z) : ascii :=
  if base =? 16 then xdigit_char d else digit_char d.

(** The digits of [n >= 0] in [base], most significant first, no leading
    zero; [fuel] bounds the number of digits. *)
Fixpoint print_nat_fuel (fuel : nat) (base : Z) (n : Z) : list ascii :=
  match fuel with
  | O => []
  | S f =>
      if n <? base then [digit_in base n]
      else print_nat_fuel f base (n / base) ++ [digit_in base (n mod base)]
  end.

(** A 32-bit value has at most 10 decimal and 8 hexadecimal digits. *)
Definition print_u32 (base : Z) (n : Z) : list ascii :=
  print_nat_fuel 10 base (to_u32 n).

Definition pad_left (zero : bool) (width : option nat) (s : list ascii) : list ascii :=
  match width with
  | None => s
  | Some w => replicate (w - length s) (if zero then "0" else " ") ++ s
  end.

(** An argument of a printf call. *)
Inductive parg :=
| A_uint (z : Z)              (* unsigned int *)
| A_int (z : Z)               (* int *)
| A_str (s : list ascii).     (* char * *)

Definition print_conv (zero : bool) (width : option nat) (spec : ascii) (a : parg)
  : list ascii :=
  match a with
  | A_str s => if Ascii.eqb spec "s" then pad_left false width s else []
  | A_uint z =>
      if Ascii.eqb spec "u" then pad_left zero width (print_u32 10 z)
      else if Ascii.eqb spec "X" then pad_left zero width (print_u32 16 z)
      else []
  | A_int z =>
      if Ascii.eqb spec "d" then
        let v := to_i32 z in
        pad_left zero width
          (if v <? 0 then "-" :: print_u32 10 (- v) else print_u32 10 v)
      else if Ascii.eqb spec "X" then pad_left zero width (print_u32 16 z)
      else []
  end.

Fixpoint format_out (ds : list directive) (args : list parg) : list ascii :=
  match ds with
  | [] => []
  | Lit c :: ds' => c :: format_out ds' args
  | Conv z w spec :: ds' =>
      match args with
      | a :: args' => print_conv z w spec a ++ format_out ds' args'
      | [] => []
      end
  end.

(** [snprintf(buf, size, fmt, args...)]: the string left in [buf] (at most
    [size - 1] characters) and the returned length of the whole output. *)
Definition snprintf (size : nat) (fmt : string) (args : list parg)
  : list ascii * Z :=
  let out := format_out (parse_format fmt) args in
  (take (size - 1) out, Z.of_nat (length out)).

Definition sprintf (fmt : string) (args : list parg) : list ascii :=
  format_out (parse_format fmt) args.

(** *** Scanning *)

Fixpoint skip_space (s : list ascii) : list ascii :=
  match s with
  | c :: s' => if isspace c then skip_space s' else s
  | [] => []
  end.

(** At most [w] leading characters satisfying [p], and the rest. *)
Fixpoint span_upto (p : ascii -> bool) (w : nat) (s : list ascii)
  : list ascii * list ascii :=
  match w, s with
  | S w', c :: s' =>
      if p c then let '(a, b) := span_upto p w' s' in (c :: a, b)
      else ([], s)
  | _, _ => ([], s)
  end.

Definition number_of (base : Z) (ds : list ascii) : Z :=
  fold_left (fun acc c => acc * base + val_in base c) ds 0.

Inductive scan_result (A : Type) :=
| Scanned (v : A) (rest : list ascii)
| MatchFailure
| InputFailure.
Arguments Scanned {A} v rest.
Arguments MatchFailure {A}.
Arguments InputFailure {A}.

(** The input item of a numeric conversion: white space is skipped, then an
    optional sign and digits of [base] are taken, at most [width] characters
    in all. Yields the sign and the magnitude. *)
Definition scan_number (base : Z) (width : option nat) (input : list ascii)
  : scan_result (bool * Z) :=
  match skip_space input with
  | [] => InputFailure
  | c :: s' =>
      let w := match width with Some w => w | None => length input end in
      let '(neg, w1, s1) :=
        if (Ascii.eqb c "-" || Ascii.eqb c "+") && (0 <? w)%nat
        then (Ascii.eqb c "-", (w - 1)%nat, s')
        else (false, w, c :: s') in
      match span_upto (is_digit_in base) w1 s1 with
      | ([], _) => MatchFailure
      | (ds, rest) => Scanned (neg, number_of base ds) rest
      end
  end.

(** The value stored by [%u] and [%X], as [strtoul] on a 32-bit [long]
    delivers it: saturated at [ULONG_MAX], negated modulo 2^32. *)
Definition unsigned_of (sm : bool * Z) : Z :=
  let '(neg, m) := sm in
  if 4294967295 <? m then 4294967295
  else if neg then to_u32 (- m) else m.

(** The value stored by [%d], as [strtol] delivers it: saturated at
    [LONG_MIN] and [LONG_MAX]. *)
Definition signed_of (sm : bool * Z) : Z :=
  let '(neg, m) := sm in
  if neg then (if 2147483648 <? m then -2147483648 else - m)
  else (if 2147483647 <? m then 2147483647 else m).

(** A value assigned by a scanf conversion. *)
Inductive sval :=
| V_num (z : Z)
| V_str (s : list ascii).

Definition scan_conv (width : option nat) (spec : ascii) (input : list ascii)
  : scan_result sval :=
  if Ascii.eqb spec "u" then
    match scan_number 10 width input with
    | Scanned sm rest => Scanned (V_num (unsigned_of sm)) rest
    | MatchFailure => MatchFailure
    | InputFailure => InputFailure
    end
  else if Ascii.eqb spec "X" then
    match scan_number 16 width input with
    | Scanned sm rest => Scanned (V_num (unsigned_of sm)) rest
    | MatchFailure => MatchFailure
    | InputFailure => InputFailure
    end
  else if Ascii.eqb spec "d" then
    match scan_number 10 width input with
    | Scanned sm rest => Scanned (V_num (signed_of sm)) rest
    | MatchFailure => MatchFailure
    | InputFailure => InputFailure
    end
  else if Ascii.eqb spec "s" then
    match skip_space input with
    | [] => InputFailure
    | s =>
        let w := match width with Some w => w | None => length s end in
        let '(a, rest) := span_upto (fun c => negb (isspace c)) w s in
        Scanned (V_str a) rest
    end
  else MatchFailure.

Definition EOF : Z := -1.

(** [sscanf(input, fmt, ...)]: the returned count ([EOF] when the input ends
    before the first conversion) and the values assigned, in order. *)
Fixpoint scan_directives (ds : list directive) (input : list ascii)
  (acc : list sval) : Z * list sval :=
  match ds with
  | [] => (Z.of_nat (length acc), acc)
  | Lit c :: ds' =>
      match input with
      | [] => (if (length acc =? 0)%nat then EOF else Z.of_nat (length acc), acc)
      | x :: input' =>
          if Ascii.eqb x c then scan_directives ds' input' acc
          else (Z.of_nat (length acc), acc)
      end
  | Conv _ w spec :: ds' =>
      match scan_conv w spec input with
      | Scanned v rest => scan_directives ds' rest (acc ++ [v])
      | MatchFailure => (Z.of_nat (length acc), acc)
      | InputFailure =>
          (if (length acc =? 0)%nat then EOF else Z.of_nat (length acc), acc)
      end
  end.

Definition sscanf (input : list ascii) (fmt : string) : Z * list sval :=
  scan_directives (parse_format fmt) input [].

End C.

Import C.

(* ===================================================================== *)
(** ** BattleBoats.h, Message.h, BOARD.h: the shared types                *)
(* ===================================================================== *)

(** Modelled from the spec: the headers are not part of the sources. The
    message types and the events are those the data model lists; a parameter
    is an unsigned 16-bit value. *)
Inductive MessageType :=
| MESSAGE_NONE | MESSAGE_CHA | MESSAGE_ACC | MESSAGE_REV | MESSAGE_SHO
| MESSAGE_RES.

Record Message := mkMessage {
  m_type : MessageType;
  m_param0 : Z;
  m_param1 : Z;
  m_param2 : Z }.

Inductive BB_EventType :=
| BB_EVENT_NO_EVENT | BB_EVENT_START_BUTTON | BB_EVENT_RESET_BUTTON
| BB_EVENT_CHA_RECEIVED | BB_EVENT_ACC_RECEIVED | BB_EVENT_REV_RECEIVED
| BB_EVENT_SHO_RECEIVED | BB_EVENT_RES_RECEIVED | BB_EVENT_MESSAGE_SENT
| BB_EVENT_ERROR.

Record BB_Event := mkEvent {
  e_type : BB_EventType;
  param0 : Z;
  param1 : Z;
  param2 : Z }.

(** Assignments to the fields of an event, through the pointer. *)
Definition set_type (t : BB_EventType) (e : BB_Event) : BB_Event :=
  mkEvent t (param0 e) (param1 e) (param2 e).
Definition set_param0 (v : Z) (e : BB_Event) : BB_Event :=
  mkEvent (e_type e) (to_u16 v) (param1 e) (param2 e).
Definition set_param1 (v : Z) (e : BB_Event) : BB_Event :=
  mkEvent (e_type e) (param0 e) (to_u16 v) (param2 e).
Definition set_param2 (v : Z) (e : BB_Event) : BB_Event :=
  mkEvent (e_type e) (param0 e) (param1 e) (to_u16 v).

(** The two results of BOARD.h; [!x] holds of [STANDARD_ERROR] only. *)
Inductive Status := SUCCESS | STANDARD_ERROR.

Definition MessageType_eqb (a b : MessageType) : bool :=
  match a, b with
  | MESSAGE_NONE, MESSAGE_NONE | MESSAGE_CHA, MESSAGE_CHA
  | MESSAGE_ACC, MESSAGE_ACC | MESSAGE_REV, MESSAGE_REV
  | MESSAGE_SHO, MESSAGE_SHO | MESSAGE_RES, MESSAGE_RES => true
  | _, _ => false
  end.

Definition BB_EventType_eqb (a b : BB_EventType) : bool :=
  match a, b with
  | BB_EVENT_NO_EVENT, BB_EVENT_NO_EVENT
  | BB_EVENT_START_BUTTON, BB_EVENT_START_BUTTON
  | BB_EVENT_RESET_BUTTON, BB_EVENT_RESET_BUTTON
  | BB_EVENT_CHA_RECEIVED, BB_EVENT_CHA_RECEIVED
  | BB_EVENT_ACC_RECEIVED, BB_EVENT_ACC_RECEIVED
  | BB_EVENT_REV_RECEIVED, BB_EVENT_REV_RECEIVED
  | BB_EVENT_SHO_RECEIVED, BB_EVENT_SHO_RECEIVED
  | BB_EVENT_RES_RECEIVED, BB_EVENT_RES_RECEIVED
  | BB_EVENT_MESSAGE_SENT, BB_EVENT_MESSAGE_SENT
  | BB_EVENT_ERROR, BB_EVENT_ERROR => true
  | _, _ => false
  end.

(* ===================================================================== *)
(** ** Message.c                                                          *)
(* ===================================================================== *)

Module Msg.

Definition MESSAGE_MAX_LEN : Z := 82.
Definition MESSAGE_MAX_PAYLOAD_LEN : Z := MESSAGE_MAX_LEN - 1 - 1 - 2 - 1 - 1.
Definition MESSAGE_CHECKSUM_LEN : Z := 2.

Definition PAYLOAD_TEMPLATE_CHA : string := "CHA,%u".
Definition PAYLOAD_TEMPLATE_ACC : string := "ACC,%u".
Definition PAYLOAD_TEMPLATE_REV : string := "REV,%u".
Definition PAYLOAD_TEMPLATE_SHO : string := "SHO,%d,%d".
Definition PAYLOAD_TEMPLATE_RES : string := "RES,%u,%u,%u".
Definition MESSAGE_TEMPLATE : string := "$%s*%02X\r\n".

(** [checksum ^= (uint8_t)payload[i]] over the string. *)
Definition Message_CalculateChecksum (payload : list ascii) : Z :=
  fold_left (fun checksum c => Z.lxor checksum (code c)) payload 0.

Definition Message_ParseMessage (payload checksum_string : list ascii)
  (message_event : BB_Event) : Status * BB_Event :=
  let error := (STANDARD_ERROR, set_type BB_EVENT_ERROR message_event) in
  if negb (strlen checksum_string =? MESSAGE_CHECKSUM_LEN) then error else
  let computed_checksum := Message_CalculateChecksum payload in
  match sscanf checksum_string "%2X" with
  | (1, [V_num parsed_checksum]) =>
    if negb (computed_checksum =? to_u8 parsed_checksum) then error else
    match sscanf payload "%3s" with
    | (1, [V_str message_type]) =>
      if streq message_type (lit "CHA") then
        match sscanf payload "CHA,%u" with
        | (1, [V_num p0]) =>
            (SUCCESS, set_param0 p0 (set_type BB_EVENT_CHA_RECEIVED message_event))
        | _ => error
        end
      else if streq message_type (lit "ACC") then
        match sscanf payload "ACC,%u" with
        | (1, [V_num p0]) =>
            (SUCCESS, set_param0 p0 (set_type BB_EVENT_ACC_RECEIVED message_event))
        | _ => error
        end
      else if streq message_type (lit "REV") then
        match sscanf payload "REV,%u" with
        | (1, [V_num p0]) =>
            (SUCCESS, set_param0 p0 (set_type BB_EVENT_REV_RECEIVED message_event))
        | _ => error
        end
      else if streq message_type (lit "SHO") then
        match sscanf payload "SHO,%d,%d" with
        | (2, [V_num row; V_num col]) =>
            (SUCCESS,
             set_param1 (to_u32 col)
               (set_param0 (to_u32 row)
                  (set_type BB_EVENT_SHO_RECEIVED message_event)))
        | _ => error
        end
      else if streq message_type (lit "RES") then
        match sscanf payload "RES,%u,%u,%u" with
        | (3, [V_num row; V_num col; V_num guess_result]) =>
            (SUCCESS,
             set_param2 guess_result
               (set_param1 col
                  (set_param0 row
                     (set_type BB_EVENT_RES_RECEIVED message_event))))
        | _ => error
        end
      else error
    | _ => error
    end
  | _ => error
  end.

(** The encoded string and the returned length. *)
Definition Message_Encode (message_to_encode : Message) : list ascii * Z :=
  if MessageType_eqb (m_type message_to_encode) MESSAGE_NONE then ([], 0) else
  let size := Z.to_nat (MESSAGE_MAX_PAYLOAD_LEN + 1) in
  let payload :=
    match m_type message_to_encode with
    | MESSAGE_CHA =>
        Some (fst (snprintf size PAYLOAD_TEMPLATE_CHA
                     [A_uint (m_param0 message_to_encode)]))
    | MESSAGE_ACC =>
        Some (fst (snprintf size PAYLOAD_TEMPLATE_ACC
                     [A_uint (m_param0 message_to_encode)]))
    | MESSAGE_REV =>
        Some (fst (snprintf size PAYLOAD_TEMPLATE_REV
                     [A_uint (m_param0 message_to_encode)]))
    | MESSAGE_SHO =>
        Some (fst (snprintf size PAYLOAD_TEMPLATE_SHO
                     [A_int (to_i32 (m_param0 message_to_encode));
                      A_int (to_i32 (m_param1 message_to_encode))]))
    | MESSAGE_RES =>
        Some (fst (snprintf size PAYLOAD_TEMPLATE_RES
                     [A_uint (m_param0 message_to_encode);
                      A_uint (m_param1 message_to_encode);
                      A_uint (m_param2 message_to_encode)]))
    | MESSAGE_NONE => None
    end in
  match payload with
  | None => ([], 0)
  | Some payload =>
      let checksum := Message_CalculateChecksum payload in
      snprintf (Z.to_nat (MESSAGE_MAX_LEN + 1)) MESSAGE_TEMPLATE
        [A_str payload; A_uint checksum]
  end.

(** *** The streaming decoder *)

Inductive DecodeState :=
| WAIT_FOR_START_DELIMITER | RECORDING_PAYLOAD | RECORDING_CHECKSUM.

(** The file-scope statics of the decoder. *)
Record DecoderStatics := mkDecoder {
  decode_state : DecodeState;
  payload_buffer : list ascii;      (* char [MESSAGE_MAX_PAYLOAD_LEN + 1] *)
  checksum_buffer : list ascii;     (* char [MESSAGE_CHECKSUM_LEN + 1] *)
  payload_index : Z;
  checksum_index : Z }.

(** The statics as the program starts: zero-initialised. *)
Definition decoder_boot : DecoderStatics :=
  mkDecoder WAIT_FOR_START_DELIMITER
    (replicate (Z.to_nat (MESSAGE_MAX_PAYLOAD_LEN + 1)) NUL)
    (replicate (Z.to_nat (MESSAGE_CHECKSUM_LEN + 1)) NUL)
    0 0.

Definition set_decode_state (s : DecodeState) (d : DecoderStatics) :=
  mkDecoder s (payload_buffer d) (checksum_buffer d)
    (payload_index d) (checksum_index d).
Definition set_payload (b : list ascii) (i : Z) (d : DecoderStatics) :=
  mkDecoder (decode_state d) b (checksum_buffer d) i (checksum_index d).
Definition set_checksum (b : list ascii) (i : Z) (d : DecoderStatics) :=
  mkDecoder (decode_state d) (payload_buffer d) b (payload_index d) i.

Section Decode.

(** The parser called on a complete frame; [Message_Decode] below is the
    decoder with [Message_ParseMessage] here. *)
Variable parse : list ascii -> list ascii -> BB_Event -> Status * BB_Event.

Definition Message_Decode_with (d : DecoderStatics) (char_in : ascii)
  (decoded_message_event : BB_Event)
  : option (DecoderStatics * BB_Event * Status) :=
  let no_event := set_type BB_EVENT_NO_EVENT decoded_message_event in
  let error :=
    Some (set_decode_state WAIT_FOR_START_DELIMITER d,
          set_type BB_EVENT_ERROR decoded_message_event, STANDARD_ERROR) in
  match decode_state d with
  | WAIT_FOR_START_DELIMITER =>
      let d' :=
        if Ascii.eqb char_in "$" then
          mkDecoder RECORDING_PAYLOAD
            (memset0 (payload_buffer d)) (memset0 (checksum_buffer d)) 0 0
        else d in
      Some (d', no_event, SUCCESS)
  | RECORDING_PAYLOAD =>
      if Ascii.eqb char_in "*" then
        Some (set_decode_state RECORDING_CHECKSUM d, no_event, SUCCESS)
      else if Ascii.eqb char_in CR || Ascii.eqb char_in "$" then error
      else if payload_index d >=? MESSAGE_MAX_PAYLOAD_LEN then error
      else
        match store (payload_buffer d) (payload_index d) char_in with
        | None => None
        | Some b =>
            let i := payload_index d + 1 in
            match store b i NUL with
            | None => None
            | Some b' => Some (set_payload b' i d, no_event, SUCCESS)
            end
        end
  | RECORDING_CHECKSUM =>
      if checksum_index d <? MESSAGE_CHECKSUM_LEN then
        if isxdigit char_in then
          match store (checksum_buffer d) (checksum_index d) char_in with
          | None => None
          | Some b =>
              let i := checksum_index d + 1 in
              match store b i NUL with
              | None => None
              | Some b' => Some (set_checksum b' i d, no_event, SUCCESS)
              end
          end
        else error
      else if checksum_index d =? MESSAGE_CHECKSUM_LEN then
        if Ascii.eqb char_in CR then
          Some (set_checksum (checksum_buffer d) (checksum_index d + 1) d,
                no_event, SUCCESS)
        else error
      else if checksum_index d =? MESSAGE_CHECKSUM_LEN + 1 then
        if Ascii.eqb char_in LF then
          match cstr (payload_buffer d), cstr (checksum_buffer d) with
          | Some payload, Some checksum_string =>
              let '(parse_result, ev) :=
                parse payload checksum_string decoded_message_event in
              let d' := set_decode_state WAIT_FOR_START_DELIMITER d in
              match parse_result with
              | SUCCESS => Some (d', ev, SUCCESS)
              | STANDARD_ERROR =>
                  Some (d', set_type BB_EVENT_ERROR ev, STANDARD_ERROR)
              end
          | _, _ => None
          end
        else error
      else error
  end.

(** Feeding a sequence of bytes, one call each, with the same event
    structure handed to every call: the statics, the structure at the end
    and the structure as each call left it. *)
Fixpoint decode_all_with (d : DecoderStatics) (ev : BB_Event)
  (bytes : list ascii) : option (DecoderStatics * BB_Event * list BB_Event) :=
  match bytes with
  | [] => Some (d, ev, [])
  | c :: bytes' =>
      match Message_Decode_with d c ev with
      | None => None
      | Some (d', ev', _) =>
          match decode_all_with d' ev' bytes' with
          | None => None
          | Some (d'', ev'', evs) => Some (d'', ev'', ev' :: evs)
          end
      end
  end.

End Decode.

Definition Message_Decode := Message_Decode_with Message_ParseMessage.
Definition decode_all := decode_all_with Message_ParseMessage.

End Msg.
Import Msg.

(* ===================================================================== *)
(** ** Negotiation                                                        *)
(* ===================================================================== *)

Module Negotiation.

(** Modelled from the spec: Negotiation.c is not among the sources (only its
    test is). The commitment squares the secret modulo a fixed public 16-bit
    modulus; 48879 (0xBEEF) is the only 16-bit modulus for which the
    commitment of 12345 is 43182. *)
Definition PUBLIC_KEY : Z := 48879.

(** Modelled from the spec: [commit(secret)], deterministic, below
    [PUBLIC_KEY]. *)
Definition NegotiationHash (secret : Z) : Z :=
  (to_u16 secret * to_u16 secret) mod PUBLIC_KEY.

(** Modelled from the spec: [verify] is true iff [commit(secret)] is the
    commitment. *)
Definition NegotiationVerify (secret commitment : Z) : bool :=
  NegotiationHash secret =? to_u16 commitment.

Inductive NegotiationOutcome := HEADS | TAILS.

(** The parity of the number of set bits among the low 16. *)
Definition parity16 (x : Z) : bool :=
  fold_left (fun p i => xorb p (Z.testbit x (Z.of_nat i))) (seq 0 16) false.

(** Modelled from the spec: HEADS iff the population count of [A XOR B] is
    odd. *)
Definition NegotiateCoinFlip (A B : Z) : NegotiationOutcome :=
  if parity16 (Z.lxor (to_u16 A) (to_u16 B)) then HEADS else TAILS.

End Negotiation.
Import Negotiation.

(* ===================================================================== *)
(** ** Field.h and Field.c                                                *)
(* ===================================================================== *)

Module Fld.

Definition FIELD_COLS : Z := 10.
Definition FIELD_ROWS : Z := 6.
Definition FIELD_NUM_BOATS : Z := 4.

(** Modelled from the spec: Field.h is not among the sources. The names are
    those Field.c uses. *)
Inductive SquareStatus :=
| FIELD_SQUARE_EMPTY | FIELD_SQUARE_SMALL_BOAT | FIELD_SQUARE_MEDIUM_BOAT
| FIELD_SQUARE_LARGE_BOAT | FIELD_SQUARE_HUGE_BOAT | FIELD_SQUARE_UNKNOWN
| FIELD_SQUARE_HIT | FIELD_SQUARE_MISS | FIELD_SQUARE_CURSOR
| FIELD_SQUARE_INVALID.

Inductive BoatDirection := FIELD_DIR_SOUTH | FIELD_DIR_EAST.

Inductive BoatType :=
| FIELD_BOAT_TYPE_SMALL | FIELD_BOAT_TYPE_MEDIUM | FIELD_BOAT_TYPE_LARGE
| FIELD_BOAT_TYPE_HUGE.

(** What Field.c takes from Field.h without the sources fixing it: the
    lengths of the four boats and the numbering of the [SquareStatus]
    enumeration. *)
Class Field_h := {
  FIELD_BOAT_SIZE_SMALL : Z;
  FIELD_BOAT_SIZE_MEDIUM : Z;
  FIELD_BOAT_SIZE_LARGE : Z;
  FIELD_BOAT_SIZE_HUGE : Z;
  SquareStatus_value : SquareStatus -> Z }.

(** Modelled from the spec: the result tags of a guess, numbered in the order
    the data model lists them. A [ShotResult] is held as its number, since
    the agent stores a received parameter in it. *)
Definition RESULT_MISS : Z := 0.
Definition RESULT_HIT : Z := 1.
Definition RESULT_SMALL_BOAT_SUNK : Z := 2.
Definition RESULT_MEDIUM_BOAT_SUNK : Z := 3.
Definition RESULT_LARGE_BOAT_SUNK : Z := 4.
Definition RESULT_HUGE_BOAT_SUNK : Z := 5.

(** One bit per boat, from the smallest at the least significant bit. *)
Definition FIELD_BOAT_STATUS_SMALL : Z := 1.
Definition FIELD_BOAT_STATUS_MEDIUM : Z := 2.
Definition FIELD_BOAT_STATUS_LARGE : Z := 4.
Definition FIELD_BOAT_STATUS_HUGE : Z := 8.

Record GuessData := mkGuess {
  g_row : Z;        (* uint8_t *)
  g_col : Z;        (* uint8_t *)
  g_result : Z }.   (* ShotResult *)

Record Field := mkField {
  grid : list (list SquareStatus);   (* [FIELD_ROWS][FIELD_COLS] *)
  smallBoatLives : Z;                (* uint8_t *)
  mediumBoatLives : Z;
  largeBoatLives : Z;
  hugeBoatLives : Z }.

Definition SquareStatus_eqb (a b : SquareStatus) : bool :=
  match a, b with
  | FIELD_SQUARE_EMPTY, FIELD_SQUARE_EMPTY
  | FIELD_SQUARE_SMALL_BOAT, FIELD_SQUARE_SMALL_BOAT
  | FIELD_SQUARE_MEDIUM_BOAT, FIELD_SQUARE_MEDIUM_BOAT
  | FIELD_SQUARE_LARGE_BOAT, FIELD_SQUARE_LARGE_BOAT
  | FIELD_SQUARE_HUGE_BOAT, FIELD_SQUARE_HUGE_BOAT
  | FIELD_SQUARE_UNKNOWN, FIELD_SQUARE_UNKNOWN
  | FIELD_SQUARE_HIT, FIELD_SQUARE_HIT
  | FIELD_SQUARE_MISS, FIELD_SQUARE_MISS
  | FIELD_SQUARE_CURSOR, FIELD_SQUARE_CURSOR
  | FIELD_SQUARE_INVALID, FIELD_SQUARE_INVALID => true
  | _, _ => false
  end.

(** [f->grid[row][col]], [None] outside the array. *)
Definition grid_get (g : list (list SquareStatus)) (row col : Z)
  : option SquareStatus :=
  if (0 <=? row) && (0 <=? col) then
    match g !! Z.to_nat row with
    | Some r => r !! Z.to_nat col
    | None => None
    end
  else None.

(** [f->grid[row][col] = p], [None] outside the array. *)
Definition grid_set (g : list (list SquareStatus)) (row col : Z)
  (p : SquareStatus) : option (list (list SquareStatus)) :=
  match grid_get g row col, g !! Z.to_nat row with
  | Some _, Some r => Some (<[Z.to_nat row := <[Z.to_nat col := p]> r]> g)
  | _, _ => None
  end.

Definition set_grid (g : list (list SquareStatus)) (f : Field) : Field :=
  mkField g (smallBoatLives f) (mediumBoatLives f) (largeBoatLives f)
    (hugeBoatLives f).
Definition set_smallBoatLives (v : Z) (f : Field) : Field :=
  mkField (grid f) (to_u8 v) (mediumBoatLives f) (largeBoatLives f)
    (hugeBoatLives f).
Definition set_mediumBoatLives (v : Z) (f : Field) : Field :=
  mkField (grid f) (smallBoatLives f) (to_u8 v) (largeBoatLives f)
    (hugeBoatLives f).
Definition set_largeBoatLives (v : Z) (f : Field) : Field :=
  mkField (grid f) (smallBoatLives f) (mediumBoatLives f) (to_u8 v)
    (hugeBoatLives f).
Definition set_hugeBoatLives (v : Z) (f : Field) : Field :=
  mkField (grid f) (smallBoatLives f) (mediumBoatLives f) (largeBoatLives f)
    (to_u8 v).

Section WithHeader.
Context `{Field_h}.

(** The two loops assign every square of both arrays. *)
Definition FieldInit : Field * Field :=
  let all p := replicate (Z.to_nat FIELD_ROWS) (replicate (Z.to_nat FIELD_COLS) p) in
  (set_hugeBoatLives 0
     (set_largeBoatLives 0
        (set_mediumBoatLives 0
           (set_smallBoatLives 0 (mkField (all FIELD_SQUARE_EMPTY) 0 0 0 0)))),
   set_hugeBoatLives FIELD_BOAT_SIZE_HUGE
     (set_largeBoatLives FIELD_BOAT_SIZE_LARGE
        (set_mediumBoatLives FIELD_BOAT_SIZE_MEDIUM
           (set_smallBoatLives FIELD_BOAT_SIZE_SMALL
              (mkField (all FIELD_SQUARE_UNKNOWN) 0 0 0 0))))).

Definition FieldGetSquareStatus (f : Field) (row col : Z) : SquareStatus :=
  if (row >=? FIELD_ROWS) || (col >=? FIELD_COLS) then FIELD_SQUARE_INVALID
  else match grid_get (grid f) row col with
       | Some p => p
       | None => FIELD_SQUARE_INVALID
       end.

Definition FieldSetSquareStatus (f : Field) (row col : Z) (p : SquareStatus)
  : SquareStatus * Field :=
  if (row >=? FIELD_ROWS) || (col >=? FIELD_COLS) then (FIELD_SQUARE_INVALID, f)
  else match grid_get (grid f) row col, grid_set (grid f) row col p with
       | Some oldStatus, Some g => (oldStatus, set_grid g f)
       | _, _ => (FIELD_SQUARE_INVALID, f)
       end.

(** The squares of a boat: [i] runs over [0 .. length - 1], the coordinates
    are [uint8_t]. *)
Definition boat_squares (row col : Z) (dir : BoatDirection) (length : Z)
  : list (Z * Z) :=
  map (fun i : nat =>
         (to_u8 (row + match dir with FIELD_DIR_SOUTH => Z.of_nat i | _ => 0 end),
          to_u8 (col + match dir with FIELD_DIR_EAST => Z.of_nat i | _ => 0 end)))
      (seq 0 (Z.to_nat length)).

(** The overlap loop: [Some true] when every square is empty, [None] when a
    square read lies outside the array. *)
Fixpoint all_empty (g : list (list SquareStatus)) (sq : list (Z * Z))
  : option bool :=
  match sq with
  | [] => Some true
  | (r, c) :: sq' =>
      match grid_get g r c with
      | None => None
      | Some p =>
          if negb (SquareStatus_eqb p FIELD_SQUARE_EMPTY) then Some false
          else all_empty g sq'
      end
  end.

Fixpoint place_squares (g : list (list SquareStatus)) (sq : list (Z * Z))
  (boatStatus : SquareStatus) : option (list (list SquareStatus)) :=
  match sq with
  | [] => Some g
  | (r, c) :: sq' =>
      match grid_set g r c boatStatus with
      | None => None
      | Some g' => place_squares g' sq' boatStatus
      end
  end.

Definition FieldAddBoat (ownField : Field) (row col : Z) (dir : BoatDirection)
  (boatType : BoatType) : option (Status * Field) :=
  let '(length, boatStatus) :=
    match boatType with
    | FIELD_BOAT_TYPE_SMALL => (to_u8 FIELD_BOAT_SIZE_SMALL, FIELD_SQUARE_SMALL_BOAT)
    | FIELD_BOAT_TYPE_MEDIUM => (to_u8 FIELD_BOAT_SIZE_MEDIUM, FIELD_SQUARE_MEDIUM_BOAT)
    | FIELD_BOAT_TYPE_LARGE => (to_u8 FIELD_BOAT_SIZE_LARGE, FIELD_SQUARE_LARGE_BOAT)
    | FIELD_BOAT_TYPE_HUGE => (to_u8 FIELD_BOAT_SIZE_HUGE, FIELD_SQUARE_HUGE_BOAT)
    end in
  if (match dir with FIELD_DIR_EAST => col + length >? FIELD_COLS | _ => false end)
     || (match dir with FIELD_DIR_SOUTH => row + length >? FIELD_ROWS | _ => false end)
  then Some (STANDARD_ERROR, ownField)
  else
    let sq := boat_squares row col dir length in
    match all_empty (grid ownField) sq with
    | None => None
    | Some false => Some (STANDARD_ERROR, ownField)
    | Some true =>
        match place_squares (grid ownField) sq boatStatus with
        | None => None
        | Some g =>
            let f := set_grid g ownField in
            Some (SUCCESS,
                  match boatType with
                  | FIELD_BOAT_TYPE_SMALL =>
                      set_smallBoatLives (smallBoatLives f + length) f
                  | FIELD_BOAT_TYPE_MEDIUM =>
                      set_mediumBoatLives (mediumBoatLives f + length) f
                  | FIELD_BOAT_TYPE_LARGE =>
                      set_largeBoatLives (largeBoatLives f + length) f
                  | FIELD_BOAT_TYPE_HUGE =>
                      set_hugeBoatLives (hugeBoatLives f + length) f
                  end)
        end
    end.

(** The returned square, the field and the guess with its result set. *)
Definition FieldRegisterEnemyAttack (ownField : Field) (opp_guess : GuessData)
  : SquareStatus * Field * GuessData :=
  let row := g_row opp_guess in
  let col := g_col opp_guess in
  let result r := mkGuess (g_row opp_guess) (g_col opp_guess) r in
  if (row >=? FIELD_ROWS) || (col >=? FIELD_COLS)
  then (FIELD_SQUARE_INVALID, ownField, result RESULT_MISS)
  else
    match grid_get (grid ownField) row col with
    | None => (FIELD_SQUARE_INVALID, ownField, result RESULT_MISS)
    | Some current =>
        let hit f :=
          match grid_set (grid f) row col FIELD_SQUARE_HIT with
          | Some g => set_grid g f
          | None => f
          end in
        match current with
        | FIELD_SQUARE_SMALL_BOAT =>
            let f := hit ownField in
            let f := if smallBoatLives f >? 0
                     then set_smallBoatLives (smallBoatLives f - 1) f else f in
            (current, f,
             result (if smallBoatLives f =? 0 then RESULT_SMALL_BOAT_SUNK
                     else RESULT_HIT))
        | FIELD_SQUARE_MEDIUM_BOAT =>
            let f := hit ownField in
            let f := if mediumBoatLives f >? 0
                     then set_mediumBoatLives (mediumBoatLives f - 1) f else f in
            (current, f,
             result (if mediumBoatLives f =? 0 then RESULT_MEDIUM_BOAT_SUNK
                     else RESULT_HIT))
        | FIELD_SQUARE_LARGE_BOAT =>
            let f := hit ownField in
            let f := if largeBoatLives f >? 0
                     then set_largeBoatLives (largeBoatLives f - 1) f else f in
            (current, f,
             result (if largeBoatLives f =? 0 then RESULT_LARGE_BOAT_SUNK
                     else RESULT_HIT))
        | FIELD_SQUARE_HUGE_BOAT =>
            let f := hit ownField in
            let f := if hugeBoatLives f >? 0
                     then set_hugeBoatLives (hugeBoatLives f - 1) f else f in
            (current, f,
             result (if hugeBoatLives f =? 0 then RESULT_HUGE_BOAT_SUNK
                     else RESULT_HIT))
        | FIELD_SQUARE_EMPTY =>
            (current,
             match grid_set (grid ownField) row col FIELD_SQUARE_MISS with
             | Some g => set_grid g ownField
             | None => ownField
             end,
             result RESULT_MISS)
        | _ => (current, ownField, result RESULT_MISS)
        end
    end.

Definition FieldUpdateKnowledge (oppField : Field) (own_guess : GuessData)
  : SquareStatus * Field :=
  let row := g_row own_guess in
  let col := g_col own_guess in
  if (row >=? FIELD_ROWS) || (col >=? FIELD_COLS)
  then (FIELD_SQUARE_INVALID, oppField)
  else
    match grid_get (grid oppField) row col with
    | None => (FIELD_SQUARE_INVALID, oppField)
    | Some prevStatus =>
        let r := g_result own_guess in
        let mark p f :=
          match grid_set (grid f) row col p with
          | Some g => set_grid g f
          | None => f
          end in
        let f :=
          if (r =? RESULT_HIT) || (r =? RESULT_SMALL_BOAT_SUNK)
             || (r =? RESULT_MEDIUM_BOAT_SUNK) || (r =? RESULT_LARGE_BOAT_SUNK)
             || (r =? RESULT_HUGE_BOAT_SUNK)
          then mark FIELD_SQUARE_HIT oppField
          else if r =? RESULT_MISS then mark FIELD_SQUARE_MISS oppField
          else oppField in
        let f :=
          if r =? RESULT_SMALL_BOAT_SUNK then set_smallBoatLives 0 f
          else if r =? RESULT_MEDIUM_BOAT_SUNK then set_mediumBoatLives 0 f
          else if r =? RESULT_LARGE_BOAT_SUNK then set_largeBoatLives 0 f
          else if r =? RESULT_HUGE_BOAT_SUNK then set_hugeBoatLives 0 f
          else f in
        (prevStatus, f)
    end.

Definition FieldGetBoatStates (f : Field) : Z :=
  let status := 0 in
  let status := if smallBoatLives f >? 0
                then Z.lor status FIELD_BOAT_STATUS_SMALL else status in
  let status := if mediumBoatLives f >? 0
                then Z.lor status FIELD_BOAT_STATUS_MEDIUM else status in
  let status := if largeBoatLives f >? 0
                then Z.lor status FIELD_BOAT_STATUS_LARGE else status in
  let status := if hugeBoatLives f >? 0
                then Z.lor status FIELD_BOAT_STATUS_HUGE else status in
  status.

(** *** The two functions that choose for the agent *)

(** [rand()]: the sequence of values the library will deliver, and how many
    have been drawn. *)
Record Rand := mkRand {
  rand_source : nat -> N;
  rand_calls : nat }.

Definition rand (r : Rand) : Z * Rand :=
  (Z.of_N (rand_source r (rand_calls r)),
   mkRand (rand_source r) (S (rand_calls r))).

(** One random placement: row, column and direction, three calls. *)
Definition random_placement (r : Rand) : Z * Z * BoatDirection * Rand :=
  let '(x, r) := rand r in
  let row := to_u8 (x mod FIELD_ROWS) in
  let '(x, r) := rand r in
  let col := to_u8 (x mod FIELD_COLS) in
  let '(x, r) := rand r in
  let dir := if x mod 2 =? 0 then FIELD_DIR_SOUTH else FIELD_DIR_EAST in
  (row, col, dir, r).

(** The [while] loop that retries a boat; [None] when [fuel] iterations do
    not place it (or a square outside the array is read). *)
Fixpoint place_retry (fuel : nat) (ownField : Field) (row col : Z)
  (dir : BoatDirection) (boatType : BoatType) (r : Rand)
  : option (Field * Rand) :=
  match fuel with
  | O => None
  | S fuel' =>
      match FieldAddBoat ownField row col dir boatType with
      | None => None
      | Some (SUCCESS, f) => Some (f, r)
      | Some (STANDARD_ERROR, f) =>
          let '(row, col, dir, r) := random_placement r in
          place_retry fuel' f row col dir boatType r
      end
  end.

Fixpoint place_each (fuel : nat) (boatTypes : list BoatType) (ownField : Field)
  (r : Rand) : option (Field * Rand) :=
  match boatTypes with
  | [] => Some (ownField, r)
  | boatType :: rest =>
      let '(row, col, dir, r) := random_placement r in
      match place_retry fuel ownField row col dir boatType r with
      | None => None
      | Some (f, r) => place_each fuel rest f r
      end
  end.

Definition FieldAIPlaceAllBoats (fuel : nat) (ownField : Field) (r : Rand)
  : option (Status * Field * Rand) :=
  let boatTypes :=
    [FIELD_BOAT_TYPE_HUGE; FIELD_BOAT_TYPE_LARGE; FIELD_BOAT_TYPE_MEDIUM;
     FIELD_BOAT_TYPE_SMALL] in
  match place_each fuel boatTypes ownField r with
  | None => None
  | Some (f, r) => Some (SUCCESS, f, r)
  end.

(** The function-local statics of [FieldAIDecideGuess]. *)
Record GuessStatics := mkGuessStatics {
  targeting : Z;            (* uint8_t *)
  orientationKnown : Z;     (* uint8_t *)
  direction : Z;            (* int8_t *)
  reverse : Z;              (* uint8_t *)
  hitsInARow : Z;           (* uint8_t *)
  originRow : Z;            (* uint8_t *)
  originCol : Z;            (* uint8_t *)
  lastGuess : GuessData }.

(** Their initialisers. *)
Definition guess_boot : GuessStatics :=
  mkGuessStatics 0 0 (-1) 0 0 FIELD_ROWS FIELD_COLS (mkGuess 0 0 RESULT_MISS).

Definition directions : list (Z * Z) := [(-1, 0); (1, 0); (0, -1); (0, 1)].

(** [directions[d]], [None] outside the array. *)
Definition directions_at (d : Z) : option (Z * Z) :=
  if 0 <=? d then directions !! Z.to_nat d else None.

(** The squares in the order of the two nested loops. *)
Definition squares_row_major : list (Z * Z) :=
  flat_map (fun row : nat =>
              map (fun col : nat => (Z.of_nat row, Z.of_nat col))
                  (seq 0 (Z.to_nat FIELD_COLS)))
           (seq 0 (Z.to_nat FIELD_ROWS)).

(** The first square of [sq] that is unknown and satisfies [p]. *)
Fixpoint first_unknown (g : list (list SquareStatus)) (p : Z -> Z -> bool)
  (sq : list (Z * Z)) : option (option (Z * Z)) :=
  match sq with
  | [] => Some None
  | (row, col) :: sq' =>
      if p row col then
        match grid_get g row col with
        | None => None
        | Some st =>
            if SquareStatus_eqb st FIELD_SQUARE_UNKNOWN then Some (Some (row, col))
            else first_unknown g p sq'
        end
      else first_unknown g p sq'
  end.

(** Hunt mode and the fallback. When no square is unknown the function
    returns [guess] with its coordinates never assigned: [None]. *)
Definition hunt (oppField : Field) (s : GuessStatics)
  : option (GuessData * GuessStatics) :=
  match first_unknown (grid oppField) (fun row col => (row + col) mod 4 =? 0)
          squares_row_major with
  | None => None
  | Some (Some (row, col)) => Some (mkGuess row col RESULT_MISS, s)
  | Some None =>
      match first_unknown (grid oppField) (fun _ _ => true) squares_row_major with
      | Some (Some (row, col)) => Some (mkGuess row col RESULT_MISS, s)
      | _ => None
      end
  end.

(** The loop over the four neighbours of the origin. *)
Fixpoint first_adjacent (g : list (list SquareStatus)) (s : GuessStatics)
  (ds : list Z) : option (option (Z * Z * Z)) :=
  match ds with
  | [] => Some None
  | d :: ds' =>
      match directions_at d with
      | None => None
      | Some (dr, dc) =>
          let newRow := to_i8 (originRow s + dr) in
          let newCol := to_i8 (originCol s + dc) in
          if (newRow >=? 0) && (newRow <? FIELD_ROWS)
             && (newCol >=? 0) && (newCol <? FIELD_COLS) then
            match grid_get g newRow newCol with
            | None => None
            | Some st =>
                if SquareStatus_eqb st FIELD_SQUARE_UNKNOWN
                then Some (Some (d, newRow, newCol))
                else first_adjacent g s ds'
            end
          else first_adjacent g s ds'
      end
  end.

(** [fuel] bounds the depth of the self-call. *)
Fixpoint FieldAIDecideGuess (fuel : nat) (oppField : Field) (s : GuessStatics)
  : option (GuessData * GuessStatics) :=
  match fuel with
  | O => None
  | S fuel' =>
      let last := lastGuess s in
      let s :=
        if (g_result last >=? RESULT_SMALL_BOAT_SUNK)
           && (g_result last <=? RESULT_HUGE_BOAT_SUNK)
        then mkGuessStatics 0 0 (-1) 0 0 FIELD_ROWS FIELD_COLS last
        else s in
      let s :=
        if g_result last =? RESULT_HIT then
          let s :=
            if targeting s =? 0 then
              mkGuessStatics 1 (orientationKnown s) (direction s) (reverse s)
                (hitsInARow s) (g_row last) (g_col last) last
            else s in
          mkGuessStatics (targeting s) (orientationKnown s) (direction s)
            (reverse s) (to_u8 (hitsInARow s + 1)) (originRow s) (originCol s)
            last
        else s in
      if negb (targeting s =? 0) then
        if negb (orientationKnown s =? 0) && negb (direction s =? -1) then
          let d := to_i8 (if negb (reverse s =? 0)
                          then Z.lxor (direction s) 1 else direction s) in
          match directions_at d with
          | None => None
          | Some (dr, dc) =>
              let k := hitsInARow s + (if negb (reverse s =? 0) then 0 else 1) in
              let newRow := to_i8 (originRow s + dr * k) in
              let newCol := to_i8 (originCol s + dc * k) in
              let otherwise :=
                if reverse s =? 0 then
                  FieldAIDecideGuess fuel' oppField
                    (mkGuessStatics (targeting s) (orientationKnown s)
                       (direction s) 1 (hitsInARow s) (originRow s)
                       (originCol s) last)
                else
                  hunt oppField
                    (mkGuessStatics 0 0 (-1) 0 0 (originRow s) (originCol s) last)
              in
              if (newRow <? FIELD_ROWS) && (newCol <? FIELD_COLS) then
                match grid_get (grid oppField) newRow newCol with
                | None => None
                | Some st =>
                    if SquareStatus_eqb st FIELD_SQUARE_UNKNOWN
                    then Some (mkGuess (to_u8 newRow) (to_u8 newCol) RESULT_MISS, s)
                    else otherwise
                end
              else otherwise
          end
        else
          match first_adjacent (grid oppField) s [0; 1; 2; 3] with
          | None => None
          | Some (Some (d, newRow, newCol)) =>
              Some (mkGuess (to_u8 newRow) (to_u8 newCol) RESULT_MISS,
                    mkGuessStatics (targeting s)
                      (if (d =? 0) || (d =? 1) then 2 else 1) d (reverse s)
                      (hitsInARow s) (originRow s) (originCol s) last)
          | Some None =>
              hunt oppField
                (mkGuessStatics 0 (orientationKnown s) (direction s) (reverse s)
                   (hitsInARow s) (originRow s) (originCol s) last)
          end
      else hunt oppField s
  end.

End WithHeader.

End Fld.
Import Fld.

(* ===================================================================== *)
(** ** Agent.c                                                            *)
(* ===================================================================== *)

Module Agent.

Definition NUM_BOATS : Z := 4.

Inductive AgentState :=
| AGENT_STATE_START | AGENT_STATE_CHALLENGING | AGENT_STATE_ACCEPTING
| AGENT_STATE_ATTACKING | AGENT_STATE_DEFENDING | AGENT_STATE_WAITING_TO_SEND
| AGENT_STATE_END_SCREEN.

(** Modelled from the spec: FieldOled.h and Oled.h are not among the
    sources; the display is an external collaborator, and a call to it is
    recorded with its arguments. *)
Inductive FieldOledTurn :=
| FIELD_OLED_TURN_NONE | FIELD_OLED_TURN_MINE | FIELD_OLED_TURN_THEIRS.

Inductive OledColor := OLED_COLOR_BLACK.

(** What a call of the agent does outside its own variables: the display,
    the delay and the standard output, in the order of the calls. *)
Inductive Effect :=
| OLED_Init
| OLED_Clear (c : OledColor)
| OLED_DrawString (s : list ascii)
| OLED_Update
| FieldOledDrawField (f : Field) (xOffset : Z)
| FieldOledDrawScreen (own opp : Field) (turn : FieldOledTurn) (counter : Z)
| HAL_Delay (ms : Z)
| printf (s : list ascii).

(** The file-scope statics of Agent.c, with what the functions it calls keep
    between calls: the statics of [FieldAIDecideGuess], the state of
    [rand()], and the effects so far. *)
Record World := mkWorld {
  agentState : AgentState;
  turn_counter : Z;                (* uint8_t *)
  oppField : Field;
  ownField : Field;
  A : Z;                           (* uint16_t *)
  B : Z;                           (* uint16_t *)
  hashA : Z;                       (* uint16_t *)
  own_guess : GuessData;
  playerTurn : FieldOledTurn;
  turn_order : NegotiationOutcome;
  endScreenDrawn : bool;
  guess_statics : GuessStatics;
  rand_state : Rand;
  output : list Effect }.

Definition set_agentState (v : AgentState) (w : World) : World :=
  mkWorld v (turn_counter w) (oppField w) (ownField w) (A w) (B w) (hashA w)
    (own_guess w) (playerTurn w) (turn_order w) (endScreenDrawn w)
    (guess_statics w) (rand_state w) (output w).
Definition set_turn_counter (v : Z) (w : World) : World :=
  mkWorld (agentState w) (to_u8 v) (oppField w) (ownField w) (A w) (B w)
    (hashA w) (own_guess w) (playerTurn w) (turn_order w) (endScreenDrawn w)
    (guess_statics w) (rand_state w) (output w).
Definition set_oppField (v : Field) (w : World) : World :=
  mkWorld (agentState w) (turn_counter w) v (ownField w) (A w) (B w)
    (hashA w) (own_guess w) (playerTurn w) (turn_order w) (endScreenDrawn w)
    (guess_statics w) (rand_state w) (output w).
Definition set_ownField (v : Field) (w : World) : World :=
  mkWorld (agentState w) (turn_counter w) (oppField w) v (A w) (B w)
    (hashA w) (own_guess w) (playerTurn w) (turn_order w) (endScreenDrawn w)
    (guess_statics w) (rand_state w) (output w).
Definition set_A (v : Z) (w : World) : World :=
  mkWorld (agentState w) (turn_counter w) (oppField w) (ownField w)
    (to_u16 v) (B w) (hashA w) (own_guess w) (playerTurn w) (turn_order w)
    (endScreenDrawn w) (guess_statics w) (rand_state w) (output w).
Definition set_B (v : Z) (w : World) : World :=
  mkWorld (agentState w) (turn_counter w) (oppField w) (ownField w) (A w)
    (to_u16 v) (hashA w) (own_guess w) (playerTurn w) (turn_order w)
    (endScreenDrawn w) (guess_statics w) (rand_state w) (output w).
Definition set_hashA (v : Z) (w : World) : World :=
  mkWorld (agentState w) (turn_counter w) (oppField w) (ownField w) (A w)
    (B w) (to_u16 v) (own_guess w) (playerTurn w) (turn_order w)
    (endScreenDrawn w) (guess_statics w) (rand_state w) (output w).
Definition set_own_guess (v : GuessData) (w : World) : World :=
  mkWorld (agentState w) (turn_counter w) (oppField w) (ownField w) (A w)
    (B w) (hashA w) v (playerTurn w) (turn_order w) (endScreenDrawn w)
    (guess_statics w) (rand_state w) (output w).
Definition set_playerTurn (v : FieldOledTurn) (w : World) : World :=
  mkWorld (agentState w) (turn_counter w) (oppField w) (ownField w) (A w)
    (B w) (hashA w) (own_guess w) v (turn_order w) (endScreenDrawn w)
    (guess_statics w) (rand_state w) (output w).
Definition set_turn_order (v : NegotiationOutcome) (w : World) : World :=
  mkWorld (agentState w) (turn_counter w) (oppField w) (ownField w) (A w)
    (B w) (hashA w) (own_guess w) (playerTurn w) v (endScreenDrawn w)
    (guess_statics w) (rand_state w) (output w).
Definition set_endScreenDrawn (v : bool) (w : World) : World :=
  mkWorld (agentState w) (turn_counter w) (oppField w) (ownField w) (A w)
    (B w) (hashA w) (own_guess w) (playerTurn w) (turn_order w) v
    (guess_statics w) (rand_state w) (output w).
Definition set_guess_statics (v : GuessStatics) (w : World) : World :=
  mkWorld (agentState w) (turn_counter w) (oppField w) (ownField w) (A w)
    (B w) (hashA w) (own_guess w) (playerTurn w) (turn_order w)
    (endScreenDrawn w) v (rand_state w) (output w).
Definition set_rand_state (v : Rand) (w : World) : World :=
  mkWorld (agentState w) (turn_counter w) (oppField w) (ownField w) (A w)
    (B w) (hashA w) (own_guess w) (playerTurn w) (turn_order w)
    (endScreenDrawn w) (guess_statics w) v (output w).
Definition set_output (v : list Effect) (w : World) : World :=
  mkWorld (agentState w) (turn_counter w) (oppField w) (ownField w) (A w)
    (B w) (hashA w) (own_guess w) (playerTurn w) (turn_order w)
    (endScreenDrawn w) (guess_statics w) (rand_state w) v.

(** *** Statements: a state monad over [World], that may be undefined *)

Definition M (T : Type) : Type := World -> option (T * World).

Definition ret {T} (x : T) : M T := fun w => Some (x, w).
Definition bind {T U} (m : M T) (k : T -> M U) : M U :=
  fun w => match m w with
           | Some (x, w') => k x w'
           | None => None
           end.
Definition get : M World := fun w => Some (w, w).
Definition modify (f : World -> World) : M unit := fun w => Some (tt, f w).
Definition emit (e : Effect) : M unit :=
  modify (fun w => set_output (output w ++ [e]) w).
Definition undefined {T} : M T := fun _ => None.

Declare Scope agent_scope.
Delimit Scope agent_scope with agent.
Notation "x <- m ;; k" := (bind m (fun x => k))
  (at level 100, m at next level, k at level 200, right associativity)
  : agent_scope.
Notation "m ;; k" := (bind m (fun _ => k))
  (at level 100, k at level 200, right associativity) : agent_scope.
#[local] Open Scope agent_scope.

Section WithHeader.
Context `{Field_h}.

Definition draw_screen : M unit :=
  w <- get ;;
  emit (FieldOledDrawScreen (ownField w) (oppField w) (playerTurn w)
          (turn_counter w)).

Definition call_rand : M Z :=
  fun w => let '(x, r) := rand (rand_state w) in Some (x, set_rand_state r w).

Definition place_all_boats (fuel : nat) : M Status :=
  fun w =>
    match FieldAIPlaceAllBoats fuel (ownField w) (rand_state w) with
    | None => None
    | Some (st, f, r) => Some (st, set_rand_state r (set_ownField f w))
    end.

(** [own_guess = FieldAIDecideGuess(&oppField)]. The self-call is at most one
    deep. *)
Definition decide_guess : M unit :=
  fun w =>
    match FieldAIDecideGuess 2 (oppField w) (guess_statics w) with
    | None => None
    | Some (g, s) => Some (tt, set_guess_statics s (set_own_guess g w))
    end.

Definition welcome : string :=
  "BATTLEBOATS:\n\nPress BTN4 to begin\nor wait for PLAYER2.".

Definition AgentInit : M unit :=
  emit OLED_Init ;;
  modify (set_agentState AGENT_STATE_START) ;;
  modify (set_turn_counter 0) ;;
  modify (set_hashA 0) ;;
  modify (set_B 0) ;;
  modify (set_A 0) ;;
  modify (set_playerTurn FIELD_OLED_TURN_NONE) ;;
  modify (set_endScreenDrawn false) ;;
  modify (fun w => set_oppField (snd FieldInit) (set_ownField (fst FieldInit) w)).

Definition AgentRun (fuel : nat) (event : BB_Event) : M Message :=
  let messageToSend := mkMessage MESSAGE_NONE 0 0 0 in
  if BB_EventType_eqb (e_type event) BB_EVENT_RESET_BUTTON then
    AgentInit ;;
    modify (set_agentState AGENT_STATE_START) ;;
    emit (OLED_Clear OLED_COLOR_BLACK) ;;
    emit (OLED_DrawString (lit welcome)) ;;
    emit OLED_Update ;;
    ret messageToSend
  else
  w <- get ;;
  match agentState w with
  | AGENT_STATE_START =>
      emit (OLED_Clear OLED_COLOR_BLACK) ;;
      emit (OLED_DrawString (lit welcome)) ;;
      emit (FieldOledDrawField (ownField w) 0) ;;
      emit OLED_Update ;;
      if BB_EventType_eqb (e_type event) BB_EVENT_START_BUTTON then
        x <- call_rand ;;
        modify (set_A (x mod 65536)) ;;
        modify (fun w => set_hashA (NegotiationHash (A w)) w) ;;
        w <- get ;;
        let messageToSend := mkMessage MESSAGE_CHA (hashA w) 0 0 in
        placed <- place_all_boats fuel ;;
        match placed with
        | SUCCESS =>
            modify (set_agentState AGENT_STATE_CHALLENGING) ;;
            emit (OLED_Clear OLED_COLOR_BLACK) ;;
            emit (OLED_DrawString
                    (sprintf "CHALLENGING\n%u = A\n%u = hashA"
                       [A_uint (A w); A_uint (hashA w)])) ;;
            emit OLED_Update ;;
            emit (HAL_Delay 100) ;;
            emit (OLED_Clear OLED_COLOR_BLACK) ;;
            draw_screen ;;
            ret messageToSend
        | STANDARD_ERROR => ret messageToSend
        end
      else if BB_EventType_eqb (e_type event) BB_EVENT_CHA_RECEIVED then
        modify (set_hashA (param0 event)) ;;
        x <- call_rand ;;
        modify (set_B (x mod 65536)) ;;
        w <- get ;;
        let messageToSend := mkMessage MESSAGE_ACC (B w) 0 0 in
        placed <- place_all_boats fuel ;;
        match placed with
        | SUCCESS =>
            modify (set_agentState AGENT_STATE_ACCEPTING) ;;
            emit (printf (lit "START -> ACCEPTING\n")) ;;
            emit (OLED_Clear OLED_COLOR_BLACK) ;;
            emit (OLED_DrawString
                    (sprintf "ACCEPTING\n%u = hashA\n%u = B"
                       [A_uint (hashA w); A_uint (B w)])) ;;
            emit OLED_Update ;;
            emit (HAL_Delay 100) ;;
            emit (OLED_Clear OLED_COLOR_BLACK) ;;
            draw_screen ;;
            ret messageToSend
        | STANDARD_ERROR => ret messageToSend
        end
      else ret messageToSend
  | AGENT_STATE_CHALLENGING =>
      if BB_EventType_eqb (e_type event) BB_EVENT_ACC_RECEIVED then
        let messageToSend := mkMessage MESSAGE_REV (A w) 0 0 in
        modify (set_turn_order (NegotiateCoinFlip (A w) (param0 event))) ;;
        match NegotiateCoinFlip (A w) (param0 event) with
        | HEADS =>
            emit (OLED_Clear OLED_COLOR_BLACK) ;;
            modify (set_playerTurn FIELD_OLED_TURN_MINE) ;;
            emit OLED_Update ;;
            modify (set_agentState AGENT_STATE_WAITING_TO_SEND) ;;
            emit (printf (lit "CHALLENGING -> WAITING TO SEND\n")) ;;
            draw_screen ;;
            ret messageToSend
        | TAILS =>
            emit (OLED_Clear OLED_COLOR_BLACK) ;;
            modify (set_playerTurn FIELD_OLED_TURN_THEIRS) ;;
            emit OLED_Update ;;
            modify (set_agentState AGENT_STATE_DEFENDING) ;;
            emit (printf (lit "CHALLENGING -> DEFENDING\n")) ;;
            draw_screen ;;
            ret messageToSend
        end
      else ret messageToSend
  | AGENT_STATE_ACCEPTING =>
      if BB_EventType_eqb (e_type event) BB_EVENT_REV_RECEIVED then
        if negb (NegotiationVerify (param0 event) (hashA w)) then
          modify (set_agentState AGENT_STATE_END_SCREEN) ;;
          emit (printf (lit "ACCEPTING -> END SCREEN\n")) ;;
          emit (OLED_Clear OLED_COLOR_BLACK) ;;
          emit (OLED_DrawString (lit "ERROR: Cheating Detected")) ;;
          emit OLED_Update ;;
          ret messageToSend
        else
          modify (set_turn_order (NegotiateCoinFlip (param1 event) (B w))) ;;
          decide_guess ;;
          w <- get ;;
          let messageToSend :=
            mkMessage MESSAGE_SHO (g_row (own_guess w)) (g_col (own_guess w)) 0 in
          match turn_order w with
          | TAILS =>
              emit (OLED_Clear OLED_COLOR_BLACK) ;;
              modify (set_playerTurn FIELD_OLED_TURN_MINE) ;;
              emit OLED_Update ;;
              modify (set_agentState AGENT_STATE_ATTACKING) ;;
              emit (printf (lit "ACCEPTING -> ATTACKING\n")) ;;
              draw_screen ;;
              ret messageToSend
          | HEADS =>
              emit (OLED_Clear OLED_COLOR_BLACK) ;;
              modify (set_playerTurn FIELD_OLED_TURN_THEIRS) ;;
              emit OLED_Update ;;
              modify (set_agentState AGENT_STATE_DEFENDING) ;;
              emit (printf (lit "ACCEPTING -> DEFENDING\n")) ;;
              draw_screen ;;
              ret messageToSend
          end
      else ret messageToSend
  | AGENT_STATE_ATTACKING =>
      if BB_EventType_eqb (e_type event) BB_EVENT_RES_RECEIVED then
        modify (fun w =>
                  set_own_guess
                    (mkGuess (g_row (own_guess w)) (g_col (own_guess w))
                       (param2 event)) w) ;;
        modify (fun w =>
                  set_oppField
                    (snd (FieldUpdateKnowledge (oppField w) (own_guess w))) w) ;;
        w <- get ;;
        let oppState := to_u8 (FieldGetBoatStates (oppField w)) in
        emit (printf (sprintf "DEBUG: Opponent boat state after update = %u\n"
                        [A_uint oppState])) ;;
        draw_screen ;;
        emit OLED_Update ;;
        if oppState =? 0 then
          emit (OLED_Clear OLED_COLOR_BLACK) ;;
          emit (OLED_DrawString (lit "VICTORY")) ;;
          emit OLED_Update ;;
          emit (HAL_Delay 1000) ;;
          modify (set_agentState AGENT_STATE_END_SCREEN) ;;
          emit (printf (lit "ATTACKING -> END SCREEN\n")) ;;
          ret messageToSend
        else
          modify (set_agentState AGENT_STATE_DEFENDING) ;;
          emit (printf (lit "ATTACKING -> DEFENDING\n")) ;;
          ret messageToSend
      else ret messageToSend
  | AGENT_STATE_DEFENDING =>
      if BB_EventType_eqb (e_type event) BB_EVENT_SHO_RECEIVED then
        let incomingGuess :=
          mkGuess (to_u8 (param0 event)) (to_u8 (param1 event)) 0 in
        let '(square, f, incomingGuess) :=
          FieldRegisterEnemyAttack (ownField w) incomingGuess in
        (* the returned square is stored over the result the call has set *)
        let incomingGuess :=
          mkGuess (g_row incomingGuess) (g_col incomingGuess)
            (SquareStatus_value square) in
        modify (set_ownField f) ;;
        let messageToSend :=
          mkMessage MESSAGE_RES (g_row incomingGuess) (g_col incomingGuess)
            (to_u16 (g_result incomingGuess)) in
        draw_screen ;;
        emit OLED_Update ;;
        if FieldGetBoatStates f =? 0 then
          modify (set_agentState AGENT_STATE_END_SCREEN) ;;
          emit (printf (lit "DEFENDING -> END SCREEN\n")) ;;
          ret messageToSend
        else
          modify (set_agentState AGENT_STATE_WAITING_TO_SEND) ;;
          emit (printf (lit "DEFENDING -> WAITING TO SEND\n")) ;;
          ret messageToSend
      else ret messageToSend
  | AGENT_STATE_WAITING_TO_SEND =>
      if BB_EventType_eqb (e_type event) BB_EVENT_MESSAGE_SENT then
        modify (fun w => set_turn_counter (turn_counter w + 1) w) ;;
        decide_guess ;;
        w <- get ;;
        let messageToSend :=
          mkMessage MESSAGE_SHO (g_row (own_guess w)) (g_col (own_guess w)) 0 in
        modify (set_agentState AGENT_STATE_ATTACKING) ;;
        emit (printf (lit "WAITING TO SEND -> ATTACKING\n")) ;;
        draw_screen ;;
        ret messageToSend
      else ret messageToSend
  | AGENT_STATE_END_SCREEN =>
      if negb (endScreenDrawn w) then
        emit (OLED_Clear OLED_COLOR_BLACK) ;;
        let oppState := to_u8 (FieldGetBoatStates (oppField w)) in
        let ownState := to_u8 (FieldGetBoatStates (ownField w)) in
        emit (printf (sprintf "DEBUG: Opponent boat state = %u\n"
                        [A_uint oppState])) ;;
        emit (printf (sprintf "DEBUG: Own boat state = %u\n"
                        [A_uint ownState])) ;;
        (if (oppState =? 0) && negb (ownState =? 0) then
           emit (OLED_DrawString (lit "VICTORY")) ;;
           emit (printf (lit "GAME OVER: YOU WIN\n"))
         else if (ownState =? 0) && negb (oppState =? 0) then
           emit (OLED_DrawString (lit "ALAS DEFEAT...")) ;;
           emit (printf (lit "GAME OVER: YOU LOSE\n"))
         else if (ownState =? 0) && (oppState =? 0) then
           emit (OLED_DrawString (lit "DRAW")) ;;
           emit (printf (lit "GAME OVER: DRAW\n"))
         else ret tt) ;;
        emit OLED_Update ;;
        modify (set_endScreenDrawn true) ;;
        ret messageToSend
      else ret messageToSend
  end.

Definition AgentGetState : M AgentState := w <- get ;; ret (agentState w).
Definition AgentSetState (newState : AgentState) : M unit :=
  modify (set_agentState newState).

End WithHeader.

End Agent.
Import Agent.

(* ===================================================================== *)
(** ** Notions the properties are stated with                             *)
(* ===================================================================== *)

(** *** The decoder *)

(** The arguments with which a call of the decoder reaches
    [Message_ParseMessage] (the call in the branch of the terminating line
    feed), when it does. *)
Definition parser_arguments (d : DecoderStatics) (char_in : ascii)
  : option (list ascii * list ascii) :=
  match decode_state d with
  | RECORDING_CHECKSUM =>
      if (checksum_index d =? MESSAGE_CHECKSUM_LEN + 1) && Ascii.eqb char_in LF
      then match cstr (payload_buffer d), cstr (checksum_buffer d) with
           | Some payload, Some checksum_string => Some (payload, checksum_string)
           | _, _ => None
           end
      else None
  | _ => None
  end.

(** [received bytes d]: the statics are [d] once the decoder, started with
    the program, has been called on each of [bytes] in turn. *)
Inductive received : list ascii -> DecoderStatics -> Prop :=
| received_boot : received [] decoder_boot
| received_byte bytes d c ev d' ev' st :
    received bytes d ->
    Message_Decode d c ev = Some (d', ev', st) ->
    received (bytes ++ [c]) d'.

(** The characters that end or restart a payload. *)
Definition delimiter (c : ascii) : bool :=
  Ascii.eqb c "*" || Ascii.eqb c CR || Ascii.eqb c "$".

(** A complete frame: start delimiter, payload, checksum delimiter, two
    hexadecimal digits, carriage return, line feed. *)
Definition frame (body : list ascii) (h1 h2 : ascii) : list ascii :=
  "$" :: body ++ "*" :: h1 :: h2 :: CR :: LF :: [].

(** One bit of a character inverted. *)
Definition flip_bit (k : Z) (c : ascii) : ascii :=
  chr (Z.lxor (code c) (2 ^ k)).

(** The event type a message is received as. *)
Definition received_as (t : MessageType) : BB_EventType :=
  match t with
  | MESSAGE_NONE => BB_EVENT_NO_EVENT
  | MESSAGE_CHA => BB_EVENT_CHA_RECEIVED
  | MESSAGE_ACC => BB_EVENT_ACC_RECEIVED
  | MESSAGE_REV => BB_EVENT_REV_RECEIVED
  | MESSAGE_SHO => BB_EVENT_SHO_RECEIVED
  | MESSAGE_RES => BB_EVENT_RES_RECEIVED
  end.

(** The number of parameters the payload template of a type has. *)
Definition arity (t : MessageType) : nat :=
  match t with
  | MESSAGE_NONE => 0
  | MESSAGE_CHA | MESSAGE_ACC | MESSAGE_REV => 1
  | MESSAGE_SHO => 2
  | MESSAGE_RES => 3
  end.

Definition u16 (z : Z) : Prop := 0 <= z < 65536.

(** The parameters of the template are unsigned 16-bit values. *)
Definition fits_template (m : Message) : Prop :=
  (1 <= arity (m_type m) -> u16 (m_param0 m))%nat /\
  (2 <= arity (m_type m) -> u16 (m_param1 m))%nat /\
  (3 <= arity (m_type m) -> u16 (m_param2 m))%nat.

(** The event carries the parameters of the message's template. *)
Definition carries (e : BB_Event) (m : Message) : Prop :=
  e_type e = received_as (m_type m) /\
  (1 <= arity (m_type m) -> param0 e = m_param0 m)%nat /\
  (2 <= arity (m_type m) -> param1 e = m_param1 m)%nat /\
  (3 <= arity (m_type m) -> param2 e = m_param2 m)%nat.

(** *** The agent *)

(** The events a state tests for in [AgentRun]. *)
Definition handled (s : AgentState) (t : BB_EventType) : bool :=
  match s, t with
  | AGENT_STATE_START, BB_EVENT_START_BUTTON
  | AGENT_STATE_START, BB_EVENT_CHA_RECEIVED
  | AGENT_STATE_CHALLENGING, BB_EVENT_ACC_RECEIVED
  | AGENT_STATE_ACCEPTING, BB_EVENT_REV_RECEIVED
  | AGENT_STATE_ATTACKING, BB_EVENT_RES_RECEIVED
  | AGENT_STATE_DEFENDING, BB_EVENT_SHO_RECEIVED
  | AGENT_STATE_WAITING_TO_SEND, BB_EVENT_MESSAGE_SENT => true
  | _, _ => false
  end.

(** What the agent shows when it detects a cheating peer. *)
Definition cheat_outcome : list Effect :=
  [printf (lit "ACCEPTING -> END SCREEN\n");
   OLED_Clear OLED_COLOR_BLACK;
   OLED_DrawString (lit "ERROR: Cheating Detected");
   OLED_Update].

(** A sequence of calls of [AgentRun], each with the fuel of its placement
    loop: the messages returned. *)
Fixpoint AgentRun_all `{Field_h} (calls : list (nat * BB_Event)) (w : World)
  : option (list Message * World) :=
  match calls with
  | [] => Some ([], w)
  | (fuel, event) :: calls' =>
      match AgentRun fuel event w with
      | None => None
      | Some (m, w') =>
          match AgentRun_all calls' w' with
          | None => None
          | Some (ms, w'') => Some (m :: ms, w'')
          end
      end
  end.

(** Modelled from the spec: a Field.h to evaluate the code with, where a
    concrete one is needed: boats of 3, 4, 5 and 6 squares, the squares
    numbered in the order [SquareStatus] lists them. *)
Definition Field_h_usual : Field_h :=
  {| FIELD_BOAT_SIZE_SMALL := 3;
     FIELD_BOAT_SIZE_MEDIUM := 4;
     FIELD_BOAT_SIZE_LARGE := 5;
     FIELD_BOAT_SIZE_HUGE := 6;
     SquareStatus_value p :=
       match p with
       | FIELD_SQUARE_EMPTY => 0 | FIELD_SQUARE_SMALL_BOAT => 1
       | FIELD_SQUARE_MEDIUM_BOAT => 2 | FIELD_SQUARE_LARGE_BOAT => 3
       | FIELD_SQUARE_HUGE_BOAT => 4 | FIELD_SQUARE_UNKNOWN => 5
       | FIELD_SQUARE_HIT => 6 | FIELD_SQUARE_MISS => 7
       | FIELD_SQUARE_CURSOR => 8 | FIELD_SQUARE_INVALID => 9
       end |}.

(** An acceptor that has received the commitment of the secret 1 and has
    answered with [B = 0]: state ACCEPTING, fields as [AgentInit] leaves
    them. *)
Definition accepting_world : World :=
  mkWorld AGENT_STATE_ACCEPTING 0
    (snd (@FieldInit Field_h_usual)) (fst (@FieldInit Field_h_usual))
    0 0 (NegotiationHash 1) (mkGuess 0 0 0) FIELD_OLED_TURN_NONE TAILS false
    guess_boot (mkRand (fun _ => 0%N) 0) [].

(** Two worlds in the same match: they agree on every variable but the two
    that are written before they are read, [turn_order] and [own_guess];
    of [own_guess] the coordinates agree while the result of that guess is
    awaited. *)
Definition same_match (w1 w2 : World) : Prop :=
  agentState w1 = agentState w2 /\
  turn_counter w1 = turn_counter w2 /\
  oppField w1 = oppField w2 /\
  ownField w1 = ownField w2 /\
  A w1 = A w2 /\ B w1 = B w2 /\ hashA w1 = hashA w2 /\
  playerTurn w1 = playerTurn w2 /\
  endScreenDrawn w1 = endScreenDrawn w2 /\
  guess_statics w1 = guess_statics w2 /\
  rand_state w1 = rand_state w2 /\
  output w1 = output w2 /\
  (agentState w1 = AGENT_STATE_ATTACKING ->
   g_row (own_guess w1) = g_row (own_guess w2) /\
   g_col (own_guess w1) = g_col (own_guess w2)).

(** Two runs in step: both undefined, or the same result and related
    worlds. *)
Definition in_step {T} (R : World -> World -> Prop)
  (r1 r2 : option (T * World)) : Prop :=
  match r1, r2 with
  | Some (x1, u1), Some (x2, u2) => x1 = x2 /\ R u1 u2
  | None, None => True
  | _, _ => False
  end.

(** The variables [AgentInit] assigns, as it leaves them. *)
Definition freshly_initialized `{Field_h} (w : World) : Prop :=
  agentState w = AGENT_STATE_START /\
  turn_counter w = 0 /\
  A w = 0 /\ B w = 0 /\ hashA w = 0 /\
  playerTurn w = FIELD_OLED_TURN_NONE /\
  endScreenDrawn w = false /\
  ownField w = fst FieldInit /\
  oppField w = snd FieldInit.

(** What lies outside the agent's own variables. *)
Definition same_surroundings (w1 w2 : World) : Prop :=
  guess_statics w1 = guess_statics w2 /\
  rand_state w1 = rand_state w2 /\
  output w1 = output w2.

(** *** The decoder, continued *)

(** A cleared event structure. *)
Definition ev0 : BB_Event := mkEvent BB_EVENT_NO_EVENT 0 0 0.

(** The statics as a start delimiter leaves them. *)
Definition frame_begun : DecoderStatics :=
  mkDecoder RECORDING_PAYLOAD
    (replicate (Z.to_nat (MESSAGE_MAX_PAYLOAD_LEN + 1)) NUL)
    (replicate (Z.to_nat (MESSAGE_CHECKSUM_LEN + 1)) NUL)
    0 0.

(** A character that may stand in a payload. *)
Definition plain (c : ascii) : bool := negb (delimiter c).

(** A plain character other than NUL. *)
Definition clean (c : ascii) : bool := plain c && negb (Ascii.eqb c NUL).

(** The branches of the decoder that report a framing error: a carriage
    return or a start delimiter in the payload, a payload byte beyond the
    maximum, a checksum character that is no hexadecimal digit, a byte other
    than the carriage return and then the line feed after the checksum. *)
Definition framing_error (d : DecoderStatics) (c : ascii) : bool :=
  match decode_state d with
  | WAIT_FOR_START_DELIMITER => false
  | RECORDING_PAYLOAD =>
      negb (Ascii.eqb c "*") &&
      (Ascii.eqb c CR || Ascii.eqb c "$" ||
       (payload_index d >=? MESSAGE_MAX_PAYLOAD_LEN))
  | RECORDING_CHECKSUM =>
      if checksum_index d <? MESSAGE_CHECKSUM_LEN then negb (isxdigit c)
      else if checksum_index d =? MESSAGE_CHECKSUM_LEN then negb (Ascii.eqb c CR)
      else if checksum_index d =? MESSAGE_CHECKSUM_LEN + 1
           then negb (Ascii.eqb c LF)
      else true
  end.

(** The array [a] of [size] characters holds the string [s]: [s], then NUL
    to the end. *)
Definition holds (size : nat) (a s : list ascii) : Prop :=
  a = s ++ replicate (size - length s) NUL /\ (length s < size)%nat.

(** The invariant of the decoder: the buffers hold what has been recorded
    since the last start delimiter, the indices count it, and while a frame
    is being recorded the bytes received end with it. *)
Definition framed (bytes : list ascii) (d : DecoderStatics) : Prop :=
  exists body cs,
    holds (Z.to_nat (MESSAGE_MAX_PAYLOAD_LEN + 1)) (payload_buffer d) body /\
    holds (Z.to_nat (MESSAGE_CHECKSUM_LEN + 1)) (checksum_buffer d) cs /\
    payload_index d = Z.of_nat (length body) /\
    payload_index d <= MESSAGE_MAX_PAYLOAD_LEN /\
    0 <= checksum_index d <= MESSAGE_CHECKSUM_LEN + 1 /\
    match decode_state d with
    | WAIT_FOR_START_DELIMITER => True
    | RECORDING_PAYLOAD =>
        cs = [] /\ checksum_index d = 0 /\ forallb plain body = true /\
        exists pre, bytes = pre ++ "$" :: body
    | RECORDING_CHECKSUM =>
        forallb plain body = true /\ forallb isxdigit cs = true /\
        ((checksum_index d = Z.of_nat (length cs) /\
          exists pre, bytes = pre ++ "$" :: body ++ "*" :: cs) \/
         (checksum_index d = MESSAGE_CHECKSUM_LEN + 1 /\ length cs = 2%nat /\
          exists pre, bytes = pre ++ "$" :: body ++ "*" :: cs ++ [CR]))
    end.

(** The statics while a frame is recorded: the state, the payload and the
    checksum characters recorded so far, and the checksum index. *)
Definition in_frame (d : DecoderStatics) (st : DecodeState)
  (body cs : list ascii) (ci : Z) : Prop :=
  decode_state d = st /\
  holds (Z.to_nat (MESSAGE_MAX_PAYLOAD_LEN + 1)) (payload_buffer d) body /\
  payload_index d = Z.of_nat (length body) /\
  holds (Z.to_nat (MESSAGE_CHECKSUM_LEN + 1)) (checksum_buffer d) cs /\
  checksum_index d = ci.

(** No event on any byte of [m]. *)
Definition quiet (ev : BB_Event) (m : list ascii) : list BB_Event :=
  map (fun _ => set_type BB_EVENT_NO_EVENT ev) m.

(** The malformations of a frame, one for each branch of [Message_Decode]
    that reports an error. [malformation m c]: the bytes [m] are the
    beginning of a frame, from its start delimiter on, and the byte [c] that
    follows breaks it. [body] is the payload so far, of plain characters and
    at most MESSAGE_MAX_PAYLOAD_LEN of them, [cs] the checksum characters so
    far. The parser is given the payload as a C string; the status it returns
    does not depend on the event structure, for which [ev0] stands. *)
Inductive malformation : list ascii -> ascii -> Prop :=
| delimiter_in_payload body c :
    (* a carriage return or a start delimiter in the payload *)
    forallb plain body = true ->
    (length body <= Z.to_nat MESSAGE_MAX_PAYLOAD_LEN)%nat ->
    c = CR \/ c = "$" ->
    malformation ("$" :: body) c
| oversized_payload body c :
    (* a payload byte beyond the maximum *)
    forallb plain body = true ->
    length body = Z.to_nat MESSAGE_MAX_PAYLOAD_LEN ->
    c <> "*" ->
    malformation ("$" :: body) c
| bad_checksum_character body cs c :
    (* a checksum character that is no hexadecimal digit *)
    forallb plain body = true ->
    (length body <= Z.to_nat MESSAGE_MAX_PAYLOAD_LEN)%nat ->
    forallb isxdigit cs = true ->
    (length cs < Z.to_nat MESSAGE_CHECKSUM_LEN)%nat ->
    isxdigit c = false ->
    malformation ("$" :: body ++ "*" :: cs) c
| missing_carriage_return body cs c :
    (* another byte than the carriage return after the two digits *)
    forallb plain body = true ->
    (length body <= Z.to_nat MESSAGE_MAX_PAYLOAD_LEN)%nat ->
    forallb isxdigit cs = true ->
    length cs = Z.to_nat MESSAGE_CHECKSUM_LEN ->
    c <> CR ->
    malformation ("$" :: body ++ "*" :: cs) c
| missing_line_feed body cs c :
    (* another byte than the line feed after the carriage return *)
    forallb plain body = true ->
    (length body <= Z.to_nat MESSAGE_MAX_PAYLOAD_LEN)%nat ->
    forallb isxdigit cs = true ->
    length cs = Z.to_nat MESSAGE_CHECKSUM_LEN ->
    c <> LF ->
    malformation ("$" :: body ++ "*" :: cs ++ [CR]) c
| parse_failure body cs p :
    (* a complete frame that the parser refuses *)
    forallb plain body = true ->
    (length body <= Z.to_nat MESSAGE_MAX_PAYLOAD_LEN)%nat ->
    forallb isxdigit cs = true ->
    length cs = Z.to_nat MESSAGE_CHECKSUM_LEN ->
    cstr (body ++ [NUL]) = Some p ->
    fst (Message_ParseMessage p cs ev0) = STANDARD_ERROR ->
    malformation ("$" :: body ++ "*" :: cs ++ [CR]) LF.

(** *** Numerals and payloads *)

(** [dn] is the decimal numeral of [n]. *)
Definition decimal (dn : list ascii) (n : Z) : Prop :=
  forallb isdigit dn = true /\ dn <> [] /\ number_of 10 dn = n.

(** A numeral ends where [rest] begins. *)
Definition stops (rest : list ascii) : Prop :=
  match rest with [] => True | c :: _ => isdigit c = false end.

(** The decimal numeral [%u] prints of a parameter. *)
Definition numeral (n : Z) : list ascii := print_u32 10 n.

(** The two digits [%02X] prints of a byte. *)
Definition hex2 (k : Z) : list ascii := pad_left true (Some 2%nat) (print_u32 16 k).

(** [%2X] scans the two digits of [k] back to [k]. *)
Definition hex2_scans (k : Z) : bool :=
  match hex2 k with
  | [h1; h2] =>
      isxdigit h1 && isxdigit h2 &&
      match sscanf [h1; h2] "%2X" with
      | (1, [V_num v]) => v =? k
      | _ => false
      end
  | _ => false
  end.

(** The payload of a message, as its template prints it. *)
Definition payload_of (m : Message) : list ascii :=
  match m_type m with
  | MESSAGE_NONE => []
  | MESSAGE_CHA => lit "CHA," ++ numeral (m_param0 m)
  | MESSAGE_ACC => lit "ACC," ++ numeral (m_param0 m)
  | MESSAGE_REV => lit "REV," ++ numeral (m_param0 m)
  | MESSAGE_SHO => lit "SHO," ++ numeral (m_param0 m) ++ "," :: numeral (m_param1 m)
  | MESSAGE_RES =>
      lit "RES," ++ numeral (m_param0 m) ++ "," :: numeral (m_param1 m)
        ++ "," :: numeral (m_param2 m)
  end.

(** *** The fields *)

(** The grid has FIELD_ROWS rows of FIELD_COLS squares each. *)
Definition grid_shape (g : list (list SquareStatus)) : Prop :=
  length g = Z.to_nat FIELD_ROWS /\
  Forall (fun r => length r = Z.to_nat FIELD_COLS) g.

Definition well_formed (f : Field) : Prop := grid_shape (grid f).

(** The squares the accessors accept. *)
Definition on_field (row col : Z) : Prop :=
  0 <= row < FIELD_ROWS /\ 0 <= col < FIELD_COLS.

(** The status [FieldAddBoat] writes for a boat type. *)
Definition boat_square (t : BoatType) : SquareStatus :=
  match t with
  | FIELD_BOAT_TYPE_SMALL => FIELD_SQUARE_SMALL_BOAT
  | FIELD_BOAT_TYPE_MEDIUM => FIELD_SQUARE_MEDIUM_BOAT
  | FIELD_BOAT_TYPE_LARGE => FIELD_SQUARE_LARGE_BOAT
  | FIELD_BOAT_TYPE_HUGE => FIELD_SQUARE_HUGE_BOAT
  end.

(** The length of a boat, as the [uint8_t] [FieldAddBoat] holds it in. *)
Definition boat_size `{Field_h} (t : BoatType) : Z :=
  to_u8 match t with
        | FIELD_BOAT_TYPE_SMALL => FIELD_BOAT_SIZE_SMALL
        | FIELD_BOAT_TYPE_MEDIUM => FIELD_BOAT_SIZE_MEDIUM
        | FIELD_BOAT_TYPE_LARGE => FIELD_BOAT_SIZE_LARGE
        | FIELD_BOAT_TYPE_HUGE => FIELD_BOAT_SIZE_HUGE
        end.

(** The lives field of a boat type. *)
Definition boat_lives (t : BoatType) (f : Field) : Z :=
  match t with
  | FIELD_BOAT_TYPE_SMALL => smallBoatLives f
  | FIELD_BOAT_TYPE_MEDIUM => mediumBoatLives f
  | FIELD_BOAT_TYPE_LARGE => largeBoatLives f
  | FIELD_BOAT_TYPE_HUGE => hugeBoatLives f
  end.

(** The result that reports a boat type sunk. *)
Definition sunk (t : BoatType) : Z :=
  match t with
  | FIELD_BOAT_TYPE_SMALL => RESULT_SMALL_BOAT_SUNK
  | FIELD_BOAT_TYPE_MEDIUM => RESULT_MEDIUM_BOAT_SUNK
  | FIELD_BOAT_TYPE_LARGE => RESULT_LARGE_BOAT_SUNK
  | FIELD_BOAT_TYPE_HUGE => RESULT_HUGE_BOAT_SUNK
  end.

(** The [i]-th square of a boat laid from the pivot [(row, col)]. *)
Definition boat_at (row col : Z) (dir : BoatDirection) (i : Z) : Z * Z :=
  match dir with
  | FIELD_DIR_SOUTH => (row + i, col)
  | FIELD_DIR_EAST => (row, col + i)
  end.

(** The boundary test of [FieldAddBoat]. *)
Definition fits (row col : Z) (dir : BoatDirection) (len : Z) : Prop :=
  match dir with
  | FIELD_DIR_EAST => col + len <= FIELD_COLS
  | FIELD_DIR_SOUTH => row + len <= FIELD_ROWS
  end.

(** [FieldGetSquareStatus] on a pair of coordinates. *)
Definition status_at (f : Field) (rc : Z * Z) : SquareStatus :=
  FieldGetSquareStatus f (fst rc) (snd rc).

(** The boat a square belongs to. *)
Definition boat_of (p : SquareStatus) : option BoatType :=
  match p with
  | FIELD_SQUARE_SMALL_BOAT => Some FIELD_BOAT_TYPE_SMALL
  | FIELD_SQUARE_MEDIUM_BOAT => Some FIELD_BOAT_TYPE_MEDIUM
  | FIELD_SQUARE_LARGE_BOAT => Some FIELD_BOAT_TYPE_LARGE
  | FIELD_SQUARE_HUGE_BOAT => Some FIELD_BOAT_TYPE_HUGE
  | _ => None
  end.

Definition BoatType_eqb (a b : BoatType) : bool :=
  match a, b with
  | FIELD_BOAT_TYPE_SMALL, FIELD_BOAT_TYPE_SMALL
  | FIELD_BOAT_TYPE_MEDIUM, FIELD_BOAT_TYPE_MEDIUM
  | FIELD_BOAT_TYPE_LARGE, FIELD_BOAT_TYPE_LARGE
  | FIELD_BOAT_TYPE_HUGE, FIELD_BOAT_TYPE_HUGE => true
  | _, _ => false
  end.

(** How many squares of the grid hold [p]. *)
Definition squares_of (p : SquareStatus) (f : Field) : Z :=
  Z.of_nat (length (List.filter (SquareStatus_eqb p) (concat (grid f)))).

(** The lives of each boat are the squares of that boat left on the grid. *)
Definition lives_match (f : Field) : Prop :=
  forall t, boat_lives t f = squares_of (boat_square t) f.

(** The order in which the two nested loops visit the squares. *)
Definition scanned_before (a b : Z * Z) : Prop :=
  fst a < fst b \/ (fst a = fst b /\ snd a < snd b).

(** The squares hunt mode tries first. *)
Definition on_parity (rc : Z * Z) : bool := (fst rc + snd rc) mod 4 =? 0.

(** *** The agent, continued *)

(** The message type [AgentRun] returns for an event a state tests for (on a
    REV, when the reveal verifies). *)
Definition reply_to (s : AgentState) (t : BB_EventType) : MessageType :=
  match s, t with
  | AGENT_STATE_START, BB_EVENT_START_BUTTON => MESSAGE_CHA
  | AGENT_STATE_START, BB_EVENT_CHA_RECEIVED => MESSAGE_ACC
  | AGENT_STATE_CHALLENGING, BB_EVENT_ACC_RECEIVED => MESSAGE_REV
  | AGENT_STATE_ACCEPTING, BB_EVENT_REV_RECEIVED => MESSAGE_SHO
  | AGENT_STATE_DEFENDING, BB_EVENT_SHO_RECEIVED => MESSAGE_RES
  | AGENT_STATE_WAITING_TO_SEND, BB_EVENT_MESSAGE_SENT => MESSAGE_SHO
  | _, _ => MESSAGE_NONE
  end.

(** The states an event can lead to. *)
Definition successors (s : AgentState) (t : BB_EventType) : list AgentState :=
  match s, t with
  | _, BB_EVENT_RESET_BUTTON => [AGENT_STATE_START]
  | AGENT_STATE_START, BB_EVENT_START_BUTTON => [AGENT_STATE_CHALLENGING]
  | AGENT_STATE_START, BB_EVENT_CHA_RECEIVED => [AGENT_STATE_ACCEPTING]
  | AGENT_STATE_CHALLENGING, BB_EVENT_ACC_RECEIVED =>
      [AGENT_STATE_WAITING_TO_SEND; AGENT_STATE_DEFENDING]
  | AGENT_STATE_ACCEPTING, BB_EVENT_REV_RECEIVED =>
      [AGENT_STATE_ATTACKING; AGENT_STATE_DEFENDING; AGENT_STATE_END_SCREEN]
  | AGENT_STATE_ATTACKING, BB_EVENT_RES_RECEIVED =>
      [AGENT_STATE_DEFENDING; AGENT_STATE_END_SCREEN]
  | AGENT_STATE_DEFENDING, BB_EVENT_SHO_RECEIVED =>
      [AGENT_STATE_WAITING_TO_SEND; AGENT_STATE_END_SCREEN]
  | AGENT_STATE_WAITING_TO_SEND, BB_EVENT_MESSAGE_SENT => [AGENT_STATE_ATTACKING]
  | _, _ => [s]
  end.

(** What every call of the agent keeps: the grids have their shape, the
    lives of the agent's boats are their squares left, and the statics of
    [FieldAIDecideGuess] are as the program starts. *)
Definition sound (w : World) : Prop :=
  well_formed (ownField w) /\ well_formed (oppField w) /\
  lives_match (ownField w) /\ guess_statics w = guess_boot.

(** *** The codec, continued *)

(** The parameters of an event, by position. *)
Definition param_at (i : nat) (e : BB_Event) : Z :=
  match i with
  | 0%nat => param0 e
  | 1%nat => param1 e
  | 2%nat => param2 e
  | _ => 0
  end.

(** What is sent for a sequence of messages, each after some bytes of line
    noise. *)
Definition on_the_wire (items : list (list ascii * Message)) : list ascii :=
  flat_map (fun item => fst item ++ fst (Message_Encode (snd item))) items.

(** The events of a run other than NO_EVENT. *)
Definition events_of (evs : list BB_Event) : list BB_Event :=
  List.filter (fun e => negb (BB_EventType_eqb (e_type e) BB_EVENT_NO_EVENT)) evs.

(** What an attack leaves on a square. *)
Definition attacked (p : SquareStatus) : SquareStatus :=
  match boat_of p with
  | Some _ => FIELD_SQUARE_HIT
  | None => match p with FIELD_SQUARE_EMPTY => FIELD_SQUARE_MISS | _ => p end
  end.

(** *** Concrete inputs *)

(** The two fields as [FieldInit] leaves them, with the usual header. *)
Definition fresh_own : Field := fst (@FieldInit Field_h_usual).
Definition fresh_opp : Field := snd (@FieldInit Field_h_usual).

(** The agent's own field with the small boat, three squares long, along the
    first row from the corner. *)
Definition small_boat_placed : Field :=
  mkField
    (([FIELD_SQUARE_SMALL_BOAT; FIELD_SQUARE_SMALL_BOAT; FIELD_SQUARE_SMALL_BOAT]
        ++ replicate 7 FIELD_SQUARE_EMPTY)
     :: replicate 5 (replicate 10 FIELD_SQUARE_EMPTY))
    3 0 0 0.

(** Values of [rand()]: one for a secret, then those that put the four boats
    side by side, each running south from the first row. *)
Definition berths : Rand :=
  mkRand (fun n => nth n [7; 0; 0; 0; 0; 1; 0; 0; 2; 0; 0; 3; 0]%N 0%N) 0.

(** [r] after [n] calls. *)
Definition drawn (n : nat) (r : Rand) : Rand := mkRand (rand_source r) n.

(** An agent in state [s] with nothing else done since [AgentInit]. *)
Definition world_in (s : AgentState) : World :=
  mkWorld s 0 fresh_opp fresh_own 0 0 0 (mkGuess 0 0 0) FIELD_OLED_TURN_NONE
    TAILS false guess_boot berths [].

(** A match up to the agent's second shot: the agent challenges with the
    secret 7, the peer accepts with 0, the coin is HEADS and the agent shoots
    first, at (0, 0); it is told a miss, is shot at on (5, 9) and shoots
    again, at (0, 4). Each call with the fuel of its placement loop. *)
Definition match_played : list (nat * BB_Event) :=
  [(1%nat, mkEvent BB_EVENT_START_BUTTON 0 0 0);
   (0%nat, mkEvent BB_EVENT_ACC_RECEIVED 0 0 0);
   (0%nat, mkEvent BB_EVENT_MESSAGE_SENT 0 0 0);
   (0%nat, mkEvent BB_EVENT_RES_RECEIVED 0 0 RESULT_MISS);
   (0%nat, mkEvent BB_EVENT_SHO_RECEIVED 5 9 0);
   (0%nat, mkEvent BB_EVENT_MESSAGE_SENT 0 0 0)].

(** An opponent's field on which every square has been shot at and
    missed. *)
Definition all_missed : Field :=
  mkField (replicate 6 (replicate 10 FIELD_SQUARE_MISS)) 0 0 0 0.

(* ===================================================================== *)
(** ** The message codec                                                  *)
(* ===================================================================== *)

(** *** Buffers *)

Lemma holds_length size a s : holds size a s -> length a = size.
Proof.
  intros [-> L]. rewrite length_app, length_replicate. lia.
Qed.

Lemma holds_memset0 size a s : holds size a s -> holds size (memset0 a) [].
Proof.
  intros Hh. pose proof (holds_length _ _ _ Hh) as L. destruct Hh as [_ L'].
  unfold memset0. rewrite L. split; [cbn; f_equal; lia | cbn; lia].
Qed.

Lemma store_app (s : list ascii) c v rest :
  store (s ++ c :: rest) (Z.of_nat (length s)) v = Some (s ++ v :: rest).
Proof.
  unfold store. rewrite length_app. cbn [length].
  replace ((0 <=? Z.of_nat (length s)) &&
           (Z.of_nat (length s) <? Z.of_nat (length s + S (length rest)))) with true
    by (symmetry; apply andb_true_iff; split; [apply Z.leb_le | apply Z.ltb_lt]; lia).
  rewrite Nat2Z.id. f_equal.
  rewrite insert_app_r_alt by lia. rewrite Nat.sub_diag. reflexivity.
Qed.

(** Appending a character to the string an array holds: the two stores of
    the decoder. *)
Lemma holds_append size a s c :
  holds size a s -> (S (length s) < size)%nat ->
  exists b b',
    store a (Z.of_nat (length s)) c = Some b /\
    store b (Z.of_nat (length s) + 1) NUL = Some b' /\
    holds size b' (s ++ [c]).
Proof.
  intros [-> L] L2.
  destruct (size - length s)%nat as [| [| k]] eqn:E; try lia.
  cbn [replicate].
  exists (s ++ c :: NUL :: replicate k NUL), (s ++ c :: NUL :: replicate k NUL).
  split; [apply store_app |]. split.
  - replace (s ++ c :: NUL :: replicate k NUL)
      with ((s ++ [c]) ++ NUL :: replicate k NUL) by (rewrite <- app_assoc; reflexivity).
    replace (Z.of_nat (length s) + 1) with (Z.of_nat (length (s ++ [c])))
      by (rewrite length_app; cbn; lia).
    apply store_app.
  - split.
    + rewrite <- app_assoc. cbn. do 2 f_equal. rewrite length_app. cbn [length].
      replace (size - (length s + 1))%nat with (S k) by lia. reflexivity.
    + rewrite length_app. cbn. lia.
Qed.

Lemma cstr_app_nonzero s rest :
  forallb (fun c => negb (Ascii.eqb c NUL)) s = true ->
  cstr (s ++ NUL :: rest) = Some s.
Proof.
  induction s as [| c s IH]; cbn; [reflexivity |].
  intros Hc. apply andb_true_iff in Hc as [Hc Hs].
  destruct (Ascii.eqb c NUL); [discriminate |]. rewrite (IH Hs). reflexivity.
Qed.

Lemma cstr_app_NUL s rest :
  exists p, cstr (s ++ NUL :: rest) = Some p /\ (length p <= length s)%nat.
Proof.
  induction s as [| c s (p & E & L)]; cbn.
  - exists (@nil ascii). split; [reflexivity | cbn; lia].
  - destruct (Ascii.eqb c NUL).
    + exists (@nil ascii). split; [reflexivity | cbn; lia].
    + rewrite E. exists (c :: p). split; [reflexivity | cbn; lia].
Qed.

Lemma holds_cstr size a s :
  holds size a s -> exists p, cstr a = Some p /\ (length p <= length s)%nat.
Proof.
  intros [-> L].
  destruct (size - length s)%nat as [| k] eqn:E; [lia |].
  cbn [replicate]. apply cstr_app_NUL.
Qed.

Lemma holds_cstr_nonzero size a s :
  holds size a s ->
  forallb (fun c => negb (Ascii.eqb c NUL)) s = true ->
  cstr a = Some s.
Proof.
  intros [-> L] Hs.
  destruct (size - length s)%nat as [| k] eqn:E; [lia |].
  cbn [replicate]. apply cstr_app_nonzero, Hs.
Qed.

Lemma app_cons_assoc {T} (pre : list T) x body c :
  (pre ++ x :: body) ++ [c] = pre ++ x :: (body ++ [c]).
Proof. rewrite <- app_assoc. reflexivity. Qed.

Lemma forallb_snoc {T} (p : T -> bool) s c :
  forallb p (s ++ [c]) = forallb p s && p c.
Proof. rewrite forallb_app. cbn. rewrite andb_true_r. reflexivity. Qed.

Ltac sizes :=
  change (Z.to_nat (MESSAGE_MAX_PAYLOAD_LEN + 1)) with 77%nat in *;
  change (Z.to_nat (MESSAGE_CHECKSUM_LEN + 1)) with 3%nat in *;
  change (MESSAGE_CHECKSUM_LEN + 1) with 3 in *;
  change MESSAGE_MAX_PAYLOAD_LEN with 76 in *;
  change MESSAGE_CHECKSUM_LEN with 2 in *.

Ltac conjs := repeat match goal with |- _ /\ _ => split end.

Ltac statics :=
  cbv beta iota delta [set_decode_state set_payload set_checksum];
  cbn [decode_state payload_buffer checksum_buffer payload_index
       checksum_index length].

Ltac fin :=
  statics; conjs; try first [assumption | lia | exact I | reflexivity].

Section Step.
Variable parse : list ascii -> list ascii -> BB_Event -> Status * BB_Event.

(** Every call of the decoder is defined, and keeps the statics framed. *)
Lemma decode_step_framed bytes d c ev :
  framed bytes d ->
  exists d' ev' st,
    Message_Decode_with parse d c ev = Some (d', ev', st) /\
    framed (bytes ++ [c]) d'.
Proof.
  destruct d as [state pb cb pi ci].
  intros (body & cs & Hp & Hc & Hpi & Hmax & Hci & Hst).
  unfold Message_Decode_with, framed.
  cbn [decode_state payload_buffer checksum_buffer payload_index checksum_index] in *.
  sizes.
  destruct state.
  - (* waiting for the start delimiter *)
    destruct (Ascii.eqb_spec c "$") as [-> | Hne].
    + eexists _, _, _. split; [reflexivity |].
      exists [], []. statics.
      fin; eauto using holds_memset0.
    + eexists _, _, _. split; [reflexivity |].
      exists body, cs. fin.
  - (* recording the payload *)
    destruct Hst as (-> & -> & Hplain & pre & ->).
    destruct (Ascii.eqb_spec c "*") as [-> | Hstar].
    { eexists _, _, _. split; [reflexivity |].
      exists body, []. statics.
      fin.
      left. split; [reflexivity |]. exists pre. apply app_cons_assoc. }
    destruct (Ascii.eqb c CR || Ascii.eqb c "$") eqn:Hd.
    { eexists _, _, _. split; [reflexivity |].
      exists body, []. fin. }
    destruct (pi >=? 76) eqn:Hfull.
    { eexists _, _, _. split; [reflexivity |].
      exists body, []. fin. }
    assert (Hlt : (S (length body) < 77)%nat) by lia.
    destruct (holds_append _ _ _ c Hp Hlt) as (b & b' & S1 & S2 & Hb').
    subst pi. rewrite S1, S2.
    eexists _, _, _. split; [reflexivity |].
    exists (body ++ [c]), []. statics.
    rewrite length_app. cbn [length].
    fin.
    + rewrite forallb_snoc, Hplain. unfold plain, delimiter.
      destruct (Ascii.eqb_spec c "*"); [contradiction |].
      cbn [orb] in *. rewrite Hd. reflexivity.
    + exists pre. apply app_cons_assoc.
  - (* recording the checksum *)
    destruct Hst as (Hplain & Hx & Hcs).
    destruct (ci <? 2) eqn:H2.
    { destruct (isxdigit c) eqn:Hxc.
      - destruct Hcs as [[Hlen (pre & ->)] | [Hlen _]]; [| lia].
        assert (Hlt : (S (length cs) < 3)%nat) by lia.
        destruct (holds_append _ _ _ c Hc Hlt) as (b & b' & S1 & S2 & Hb').
        subst ci. rewrite S1, S2.
        eexists _, _, _. split; [reflexivity |].
        exists body, (cs ++ [c]).
        statics.
        rewrite length_app. cbn [length].
        fin.
        + rewrite forallb_snoc, Hx, Hxc. reflexivity.
        + left. split; [lia |]. exists pre.
          rewrite <- !app_assoc. cbn. rewrite <- app_assoc. reflexivity.
      - eexists _, _, _. split; [reflexivity |].
        exists body, cs. fin. }
    destruct (ci =? 2) eqn:H3.
    { destruct (Ascii.eqb_spec c CR) as [-> | Hcr].
      - destruct Hcs as [[Hlen (pre & ->)] | [Hlen _]]; [| lia].
        eexists _, _, _. split; [reflexivity |].
        exists body, cs.
        statics.
        fin.
        right. split; [lia |]. split; [lia |]. exists pre.
        rewrite <- !app_assoc. cbn. rewrite <- app_assoc. reflexivity.
      - eexists _, _, _. split; [reflexivity |].
        exists body, cs. fin. }
    destruct (ci =? 3) eqn:H4.
    { destruct (Ascii.eqb_spec c LF) as [-> | Hlf].
      - destruct (holds_cstr _ _ _ Hp) as (p & -> & _).
        destruct (holds_cstr _ _ _ Hc) as (k & -> & _).
        destruct (parse p k ev) as [[|] e].
        + eexists _, _, _. split; [reflexivity |].
          exists body, cs. fin.
        + eexists _, _, _. split; [reflexivity |].
          exists body, cs. fin.
      - eexists _, _, _. split; [reflexivity |].
        exists body, cs. fin. }
    eexists _, _, _. split; [reflexivity |].
    exists body, cs. fin.
Qed.

End Step.

Lemma framed_boot : framed [] decoder_boot.
Proof.
  exists [], []. unfold decoder_boot. sizes. statics. unfold holds.
  conjs; try reflexivity; try (cbn; lia).
Qed.

Lemma received_framed bytes d : received bytes d -> framed bytes d.
Proof.
  induction 1 as [| bytes d c ev d' ev' st _ IH E].
  - apply framed_boot.
  - destruct (decode_step_framed Message_ParseMessage bytes d c ev IH)
      as (d2 & ev2 & st2 & E2 & F).
    unfold Message_Decode in E. rewrite E in E2. injection E2 as <- _ _. exact F.
Qed.

(** Case analysis on the result of a [sscanf] expected to assign [n] values. *)
Ltac scanned1 a b :=
  destruct (sscanf a b) as [[|[?|?|]|?] [|[?|?] [|? ?]]].
Ltac scanned2 a b :=
  destruct (sscanf a b) as [[|[?|[?|?|]|]|?] [|[?|?] [|[?|?] [|? ?]]]].
Ltac scanned3 a b :=
  destruct (sscanf a b) as [[|[[?|?|]|?|]|?] [|[?|?] [|[?|?] [|[?|?] [|? ?]]]]].

Lemma ParseMessage_status p k ev :
  match Message_ParseMessage p k ev with
  | (SUCCESS, e) => e_type e <> BB_EVENT_ERROR /\ e_type e <> BB_EVENT_NO_EVENT
  | (STANDARD_ERROR, e) => e = set_type BB_EVENT_ERROR ev
  end.
Proof.
  unfold Message_ParseMessage.
  destruct (negb _); [reflexivity |].
  scanned1 k ("%2X"%string); try reflexivity.
  destruct (negb _); [reflexivity |].
  scanned1 p ("%3s"%string); try reflexivity.
  destruct (streq _ _); [scanned1 p ("CHA,%u"%string); try reflexivity; cbn; split; discriminate |].
  destruct (streq _ _); [scanned1 p ("ACC,%u"%string); try reflexivity; cbn; split; discriminate |].
  destruct (streq _ _); [scanned1 p ("REV,%u"%string); try reflexivity; cbn; split; discriminate |].
  destruct (streq _ _);
    [scanned2 p ("SHO,%d,%d"%string); try reflexivity; cbn; split; discriminate |].
  destruct (streq _ _);
    [scanned3 p ("RES,%u,%u,%u"%string); try reflexivity; cbn; split; discriminate |].
  reflexivity.
Qed.

(** The status the parser returns does not depend on the event structure it
    is given. *)
Lemma ParseMessage_status_event p k ev ev' :
  fst (Message_ParseMessage p k ev) = fst (Message_ParseMessage p k ev').
Proof.
  unfold Message_ParseMessage.
  destruct (negb _); [reflexivity |].
  scanned1 k ("%2X"%string); try reflexivity.
  destruct (negb _); [reflexivity |].
  scanned1 p ("%3s"%string); try reflexivity.
  destruct (streq _ _); [scanned1 p ("CHA,%u"%string); reflexivity |].
  destruct (streq _ _); [scanned1 p ("ACC,%u"%string); reflexivity |].
  destruct (streq _ _); [scanned1 p ("REV,%u"%string); reflexivity |].
  destruct (streq _ _); [scanned2 p ("SHO,%d,%d"%string); reflexivity |].
  destruct (streq _ _); [scanned3 p ("RES,%u,%u,%u"%string); reflexivity |].
  reflexivity.
Qed.

Section Outcome.
Variable parse : list ascii -> list ascii -> BB_Event -> Status * BB_Event.

(** What a call of the decoder returns: the result of the parser on a
    terminating line feed, an ERROR and the wait for a start delimiter on a
    framing error, NO_EVENT otherwise. *)
Lemma decode_step_outcome d c ev d' ev' st :
  Message_Decode_with parse d c ev = Some (d', ev', st) ->
  match parser_arguments d c with
  | Some (p, k) =>
      d' = set_decode_state WAIT_FOR_START_DELIMITER d /\
      st = fst (parse p k ev) /\
      ev' = match fst (parse p k ev) with
            | SUCCESS => snd (parse p k ev)
            | STANDARD_ERROR => set_type BB_EVENT_ERROR (snd (parse p k ev))
            end
  | None =>
      if framing_error d c
      then d' = set_decode_state WAIT_FOR_START_DELIMITER d /\
           ev' = set_type BB_EVENT_ERROR ev /\ st = STANDARD_ERROR
      else ev' = set_type BB_EVENT_NO_EVENT ev /\ st = SUCCESS
  end.
Proof.
  destruct d as [state pb cb pi ci].
  unfold Message_Decode_with, parser_arguments, framing_error.
  cbn [decode_state payload_buffer checksum_buffer payload_index checksum_index].
  destruct state.
  - intros [= <- <- <-]. split; reflexivity.
  - destruct (Ascii.eqb c "*"); cbn [negb andb].
    { intros [= <- <- <-]. split; reflexivity. }
    destruct (Ascii.eqb c CR || Ascii.eqb c "$"); cbn [orb].
    { intros [= <- <- <-]. repeat split. }
    destruct (pi >=? MESSAGE_MAX_PAYLOAD_LEN).
    { intros [= <- <- <-]. repeat split. }
    destruct (store pb pi c) as [b|]; [| discriminate].
    destruct (store b (pi + 1) NUL) as [b'|]; [| discriminate].
    intros [= <- <- <-]. split; reflexivity.
  - destruct (ci <? MESSAGE_CHECKSUM_LEN) eqn:H2.
    { assert ((ci =? MESSAGE_CHECKSUM_LEN + 1) = false) as ->
        by (unfold MESSAGE_CHECKSUM_LEN in *; lia).
      cbn [andb]. destruct (isxdigit c); cbn [negb].
      - destruct (store cb ci c) as [b|]; [| discriminate].
        destruct (store b (ci + 1) NUL) as [b'|]; [| discriminate].
        intros [= <- <- <-]. split; reflexivity.
      - intros [= <- <- <-]. repeat split. }
    destruct (ci =? MESSAGE_CHECKSUM_LEN) eqn:H3.
    { assert ((ci =? MESSAGE_CHECKSUM_LEN + 1) = false) as ->
        by (unfold MESSAGE_CHECKSUM_LEN in *; lia).
      cbn [andb]. destruct (Ascii.eqb c CR); cbn [negb].
      - intros [= <- <- <-]. split; reflexivity.
      - intros [= <- <- <-]. repeat split. }
    destruct (ci =? MESSAGE_CHECKSUM_LEN + 1); cbn [andb].
    + destruct (Ascii.eqb c LF); cbn [negb].
      * destruct (cstr pb) as [p|]; [| discriminate].
        destruct (cstr cb) as [k|]; [| discriminate].
        destruct (parse p k ev) as [[|] e]; cbn [fst snd];
          intros [= <- <- <-]; repeat split.
      * intros [= <- <- <-]. repeat split.
    + intros [= <- <- <-]. repeat split.
Qed.

(** Without a call to the parser the result does not depend on it. *)
Lemma decode_step_parser_free parse' d c ev :
  parser_arguments d c = None ->
  Message_Decode_with parse d c ev = Message_Decode_with parse' d c ev.
Proof.
  destruct d as [state pb cb pi ci].
  unfold Message_Decode_with, parser_arguments.
  cbn [decode_state payload_buffer checksum_buffer payload_index checksum_index].
  destruct state; try reflexivity.
  destruct (ci <? MESSAGE_CHECKSUM_LEN); [reflexivity |].
  destruct (ci =? MESSAGE_CHECKSUM_LEN); [reflexivity |].
  destruct (ci =? MESSAGE_CHECKSUM_LEN + 1); [| reflexivity].
  destruct (Ascii.eqb c LF); [| reflexivity]. cbn [andb].
  destruct (cstr pb), (cstr cb); try reflexivity. discriminate.
Qed.

End Outcome.

(** The parser is reached with a complete frame behind it. *)
Lemma parser_arguments_framed bytes d c p k :
  framed bytes d ->
  parser_arguments d c = Some (p, k) ->
  exists pre body h1 h2,
    bytes ++ [c] = pre ++ frame body h1 h2 /\
    forallb plain body = true /\
    isxdigit h1 = true /\ isxdigit h2 = true /\
    k = [h1; h2] /\
    cstr (body ++ [NUL]) = Some p /\
    (length body <= Z.to_nat MESSAGE_MAX_PAYLOAD_LEN)%nat.
Proof.
  destruct d as [state pb cb pi ci].
  intros (body & cs & Hp & Hc & Hpi & Hmax & Hci & Hst).
  unfold parser_arguments.
  cbn [decode_state payload_buffer checksum_buffer payload_index checksum_index] in *.
  sizes.
  destruct state; try discriminate.
  destruct (ci =? 3) eqn:H3; [| discriminate].
  destruct (Ascii.eqb_spec c LF) as [-> | ?]; [| discriminate]. cbn [andb].
  destruct Hst as (Hplain & Hx & [[Hlen _] | (_ & Hlen & pre & ->)]).
  { destruct Hc as [_ Hc]. lia. }
  destruct cs as [| h1 [| h2 [| ? ?]]]; try discriminate.
  cbn in Hx. apply andb_true_iff in Hx as [Hx1 Hx2].
  apply andb_true_iff in Hx2 as [Hx2 _].
  assert (Hk : cstr cb = Some [h1; h2]).
  { apply (holds_cstr_nonzero _ _ _ Hc). cbn.
    destruct (Ascii.eqb_spec h1 NUL) as [-> |]; [discriminate |].
    destruct (Ascii.eqb_spec h2 NUL) as [-> |]; [discriminate |]. reflexivity. }
  rewrite Hk.
  destruct Hp as [-> Hl].
  destruct (77 - length body)%nat as [| n] eqn:E; [lia |].
  cbn [replicate].
  destruct (cstr_app_NUL body (replicate n NUL)) as (q & Hq & _).
  rewrite Hq. intros [= <- <-].
  exists pre, body, h1, h2. unfold frame.
  split; [repeat (rewrite <- app_assoc; cbn [app]); reflexivity |].
  repeat (split; [assumption || reflexivity |]).
  split; [| lia].
  clear -Hq. revert q Hq. induction body as [| x body IH]; intros q; cbn.
  - intros [= <-]. reflexivity.
  - destruct (Ascii.eqb x NUL); [intros [= <-]; reflexivity |].
    destruct (cstr (body ++ NUL :: replicate n NUL)) as [q'|] eqn:E; [| discriminate].
    intros [= <-]. rewrite (IH q' eq_refl). reflexivity.
Qed.

(** *** Characters *)

Lemma code_range c : 0 <= code c < 256.
Proof.
  unfold code. pose proof (N_ascii_bounded c) as Hb. lia.
Qed.

Lemma code_inj a b : code a = code b -> a = b.
Proof.
  unfold code. intros E. apply N2Z.inj in E.
  rewrite <- (ascii_N_embedding a), <- (ascii_N_embedding b), E. reflexivity.
Qed.

Lemma code_chr z : 0 <= z < 256 -> code (chr z) = z.
Proof.
  intros Hz. unfold code, chr, to_u8. rewrite Z.mod_small by lia.
  rewrite N_ascii_embedding; [apply Z2N.id; lia |].
  change 256%N with (Z.to_N 256). apply Z2N.inj_lt; lia.
Qed.

Lemma eqb_code a b : Ascii.eqb a b = (code a =? code b).
Proof.
  destruct (Ascii.eqb_spec a b) as [-> | Hne]; symmetry.
  - apply Z.eqb_refl.
  - apply Z.eqb_neq. intros E. apply Hne, code_inj, E.
Qed.

(** Reasoning on the class of a character goes through its code. *)
Ltac by_code :=
  unfold plain, delimiter, isdigit, isxdigit, isspace, between, NUL, CR, LF in *;
  rewrite ?eqb_code in *;
  repeat match goal with
         | c : ascii |- _ =>
             lazymatch goal with
             | H : 0 <= code c < 256 |- _ => fail
             | _ => pose proof (code_range c)
             end
         end;
  change (code "0") with 48 in *; change (code "9") with 57 in *;
  change (code "A") with 65 in *; change (code "F") with 70 in *;
  change (code "a") with 97 in *; change (code "f") with 102 in *;
  change (code " ") with 32 in *; change (code "009") with 9 in *;
  change (code "013") with 13 in *; change (code "010") with 10 in *;
  change (code "000") with 0 in *;
  change (code "*") with 42 in *; change (code "$") with 36 in *;
  change (code "-") with 45 in *; change (code "+") with 43 in *;
  change (code ",") with 44 in *;
  lia.

Lemma isdigit_not_space c : isdigit c = true -> isspace c = false.
Proof. intros. by_code. Qed.

Lemma isdigit_not_sign c :
  isdigit c = true -> Ascii.eqb c "-" || Ascii.eqb c "+" = false.
Proof. intros. by_code. Qed.

Lemma isdigit_plain c : isdigit c = true -> plain c = true.
Proof. intros. by_code. Qed.

Lemma isdigit_nonzero c : isdigit c = true -> negb (Ascii.eqb c NUL) = true.
Proof. intros. by_code. Qed.

Lemma digit_char_isdigit d : 0 <= d < 10 -> isdigit (digit_char d) = true.
Proof.
  intros Hd. unfold isdigit, between, digit_char.
  change (code "0") with 48. change (code "9") with 57.
  rewrite code_chr by lia. lia.
Qed.

Lemma digit_val_char d : 0 <= d < 10 -> digit_val (digit_char d) = d.
Proof.
  intros Hd. unfold digit_val, digit_char. change (code "0") with 48.
  rewrite code_chr by lia. lia.
Qed.

(** *** Printing and scanning a number *)

Lemma number_of_snoc base s c :
  number_of base (s ++ [c]) = number_of base s * base + val_in base c.
Proof. unfold number_of. rewrite fold_left_app. reflexivity. Qed.

Lemma print_nat_fuel_decimal fuel : forall n,
  (0 < fuel)%nat -> 0 <= n < 10 ^ Z.of_nat fuel ->
  let s := print_nat_fuel fuel 10 n in
  forallb isdigit s = true /\ s <> [] /\ number_of 10 s = n /\
  (length s <= fuel)%nat.
Proof.
  induction fuel as [| fuel IH]; intros n Hf Hn; [lia |].
  cbn [print_nat_fuel]. destruct (n <? 10) eqn:Hlt.
  - change (digit_in 10 n) with (digit_char n). cbn zeta.
    repeat split.
    + cbn. rewrite digit_char_isdigit by lia. reflexivity.
    + discriminate.
    + unfold number_of. cbn. change (val_in 10 (digit_char n)) with (digit_val (digit_char n)).
      rewrite digit_val_char by lia. reflexivity.
    + cbn. lia.
  - assert (Hq : 0 <= n / 10 < 10 ^ Z.of_nat fuel).
    { split; [apply Z.div_pos; lia |].
      apply Z.div_lt_upper_bound; [lia |].
      rewrite Nat2Z.inj_succ, Z.pow_succ_r in Hn by lia. lia. }
    assert (Hfuel : (0 < fuel)%nat).
    { destruct fuel; [| lia]. cbn in Hn. lia. }
    destruct (IH (n / 10) Hfuel Hq) as (Hd & Hne & Hv & Hl).
    change (digit_in 10 (n mod 10)) with (digit_char (n mod 10)). cbn zeta.
    pose proof (Z.mod_pos_bound n 10 ltac:(lia)) as Hm.
    repeat split.
    + rewrite forallb_app, Hd. cbn. rewrite digit_char_isdigit by lia. reflexivity.
    + intros E. apply app_eq_nil in E as [_ E]. discriminate.
    + rewrite number_of_snoc, Hv.
      change (val_in 10 (digit_char (n mod 10))) with (digit_val (digit_char (n mod 10))).
      rewrite digit_val_char by lia. pose proof (Z.div_mod n 10 ltac:(lia)). lia.
    + rewrite length_app. cbn. lia.
Qed.

(** The decimal digits of a 32-bit value. *)
Lemma print_u32_decimal n :
  0 <= n < 4294967296 ->
  let s := print_u32 10 n in
  forallb isdigit s = true /\ s <> [] /\ number_of 10 s = n /\
  (length s <= 10)%nat.
Proof.
  intros Hn. unfold print_u32, to_u32. rewrite Z.mod_small by lia.
  apply print_nat_fuel_decimal; [lia |]. change (10 ^ Z.of_nat 10) with 10000000000. lia.
Qed.

Lemma span_upto_app p s : forall w rest,
  forallb p s = true -> (length s <= w)%nat ->
  match rest with [] => True | c :: _ => p c = false end ->
  span_upto p w (s ++ rest) = (s, rest).
Proof.
  induction s as [| c s IH]; intros w rest Hs Hw Hr.
  - destruct w, rest; cbn; try reflexivity. cbn in Hr. rewrite Hr. reflexivity.
  - cbn in Hs. apply andb_true_iff in Hs as [Hc Hs].
    destruct w as [| w]; [cbn in Hw; lia |].
    cbn. rewrite Hc, (IH w rest Hs); [reflexivity | cbn in Hw; lia | exact Hr].
Qed.

Lemma scan_number_decimal s rest :
  forallb isdigit s = true -> s <> [] -> stops rest ->
  scan_number 10 None (s ++ rest) = Scanned (false, number_of 10 s) rest.
Proof.
  intros Hs Hne Hr. destruct s as [| c s]; [contradiction |].
  pose proof Hs as Hs'. cbn in Hs'. apply andb_true_iff in Hs' as [Hc _].
  unfold scan_number. cbn [app skip_space].
  rewrite (isdigit_not_space c Hc), (isdigit_not_sign c Hc). cbn [andb].
  change (c :: s ++ rest) with ((c :: s) ++ rest).
  change (is_digit_in 10) with isdigit.
  rewrite span_upto_app; [reflexivity | exact Hs | rewrite length_app; lia | exact Hr].
Qed.

Lemma print_u32_is_decimal n :
  0 <= n < 4294967296 -> decimal (print_u32 10 n) n.
Proof.
  intros Hn. destruct (print_u32_decimal n Hn) as (Hd & Hne & Hv & _).
  repeat split; assumption.
Qed.

Lemma scan_u_decimal dn n rest :
  decimal dn n -> 0 <= n < 4294967296 -> stops rest ->
  scan_conv None "u" (dn ++ rest) = Scanned (V_num n) rest.
Proof.
  intros (Hd & Hne & Hv) Hn Hr.
  unfold scan_conv. cbn [Ascii.eqb Bool.eqb].
  rewrite scan_number_decimal by assumption. rewrite Hv.
  unfold unsigned_of. destruct (4294967295 <? n) eqn:E; [lia | reflexivity].
Qed.

Lemma scan_d_decimal dn n rest :
  decimal dn n -> 0 <= n < 2147483648 -> stops rest ->
  scan_conv None "d" (dn ++ rest) = Scanned (V_num n) rest.
Proof.
  intros (Hd & Hne & Hv) Hn Hr.
  unfold scan_conv. cbn [Ascii.eqb Bool.eqb].
  rewrite scan_number_decimal by assumption. rewrite Hv.
  unfold signed_of. destruct (2147483647 <? n) eqn:E; [lia | reflexivity].
Qed.

(** *** The checksum *)

Lemma log2_byte a : 0 <= a < 256 -> Z.log2 a < 8.
Proof.
  intros Ha. destruct (Z.eq_dec a 0) as [-> | Hne]; [cbn; lia |].
  apply Z.log2_lt_pow2; [lia |]. change (2 ^ 8) with 256. lia.
Qed.

Lemma lxor_byte a b : 0 <= a < 256 -> 0 <= b < 256 -> 0 <= Z.lxor a b < 256.
Proof.
  intros Ha Hb.
  assert (Hnn : 0 <= Z.lxor a b) by (apply Z.lxor_nonneg; lia).
  split; [exact Hnn |].
  destruct (Z.eq_dec (Z.lxor a b) 0) as [-> | Hne]; [lia |].
  change 256 with (2 ^ 8). apply Z.log2_lt_pow2; [lia |].
  eapply Z.le_lt_trans; [apply Z.log2_lxor; lia |].
  apply Z.max_lub_lt; apply log2_byte; assumption.
Qed.

Lemma checksum_fold_range p : forall k,
  0 <= k < 256 ->
  0 <= fold_left (fun checksum c => Z.lxor checksum (code c)) p k < 256.
Proof.
  induction p as [| c p IH]; intros k Hk; cbn; [exact Hk |].
  apply IH, lxor_byte; [exact Hk | apply code_range].
Qed.

Lemma checksum_range p : 0 <= Message_CalculateChecksum p < 256.
Proof. apply checksum_fold_range. lia. Qed.

Lemma hex2_scans_all : forallb hex2_scans (map Z.of_nat (seq 0 256)) = true.
Proof. vm_compute. reflexivity. Qed.

Lemma hex2_round_trip k :
  0 <= k < 256 ->
  exists h1 h2,
    hex2 k = [h1; h2] /\ isxdigit h1 = true /\ isxdigit h2 = true /\
    sscanf [h1; h2] "%2X" = (1, [V_num k]).
Proof.
  intros Hk.
  assert (Hin : In k (map Z.of_nat (seq 0 256))).
  { apply in_map_iff. exists (Z.to_nat k). split; [lia |]. apply in_seq. lia. }
  pose proof (proj1 (forallb_forall _ _) hex2_scans_all k Hin) as Hs.
  unfold hex2_scans in Hs.
  destruct (hex2 k) as [| h1 [| h2 [| ? ?]]]; try discriminate.
  exists h1, h2. apply andb_true_iff in Hs as [Hs Hv].
  apply andb_true_iff in Hs as [H1 H2].
  repeat (split; [assumption || reflexivity |]).
  destruct (sscanf [h1; h2] "%2X") as [[|[?|?|]|?] [|[v|?] [|? ?]]]; try discriminate.
  apply Z.eqb_eq in Hv. subst v. reflexivity.
Qed.

(** *** Parsing the payload of a message *)

Lemma to_u16_small n : 0 <= n < 65536 -> to_u16 n = n.
Proof. intros. unfold to_u16. apply Z.mod_small. lia. Qed.

Lemma to_u32_small n : 0 <= n < 4294967296 -> to_u32 n = n.
Proof. intros. unfold to_u32. apply Z.mod_small. lia. Qed.

Lemma to_i32_small n : -2147483648 <= n < 2147483648 -> to_i32 n = n.
Proof. intros. unfold to_i32. rewrite Z.mod_small; lia. Qed.

Lemma stops_nil : stops [].
Proof. exact I. Qed.

Lemma stops_comma rest : stops ("," :: rest).
Proof. reflexivity. Qed.

Lemma scan_literals s : forall ds input acc,
  scan_directives (map Lit s ++ ds) (s ++ input) acc = scan_directives ds input acc.
Proof.
  induction s as [| c s IH]; intros ds input acc; [reflexivity |].
  cbn. rewrite Ascii.eqb_refl. apply IH.
Qed.

Lemma scan_u_step dn n ds rest acc :
  decimal dn n -> 0 <= n < 4294967296 -> stops rest ->
  scan_directives (Conv false None "u" :: ds) (dn ++ rest) acc =
  scan_directives ds rest (acc ++ [V_num n]).
Proof.
  intros Hd Hn Hr. cbn [scan_directives].
  rewrite (scan_u_decimal dn n rest Hd Hn Hr). reflexivity.
Qed.

Lemma scan_d_step dn n ds rest acc :
  decimal dn n -> 0 <= n < 2147483648 -> stops rest ->
  scan_directives (Conv false None "d" :: ds) (dn ++ rest) acc =
  scan_directives ds rest (acc ++ [V_num n]).
Proof.
  intros Hd Hn Hr. cbn [scan_directives].
  rewrite (scan_d_decimal dn n rest Hd Hn Hr). reflexivity.
Qed.

Lemma sscanf_tag a b c rest :
  isspace a = false -> isspace b = false -> isspace c = false ->
  sscanf (a :: b :: c :: rest) "%3s" = (1, [V_str [a; b; c]]).
Proof.
  intros Ha Hb Hc. unfold sscanf.
  change (parse_format "%3s") with [Conv false (Some 3%nat) "s"].
  cbn [scan_directives]. unfold scan_conv. cbn [Ascii.eqb Bool.eqb skip_space].
  rewrite Ha. cbn [span_upto]. rewrite Ha, Hb, Hc. cbn [negb].
  destruct rest; reflexivity.
Qed.

(** The payloads the templates print, and what the parser scans in them. *)
Lemma sscanf_one (tag : string) dn n :
  decimal dn n -> u16 n ->
  parse_format (tag ++ ",%u") = map Lit (lit tag ++ [","]) ++ [Conv false None "u"] ->
  sscanf ((lit tag ++ [","]) ++ dn) (tag ++ ",%u") = (1, [V_num n]).
Proof.
  intros Hd Hn Hf. unfold sscanf. rewrite Hf, scan_literals.
  rewrite <- (app_nil_r dn). red in Hn.
  rewrite (scan_u_step dn n [] [] []) by (assumption || lia || exact stops_nil).
  reflexivity.
Qed.

Lemma sscanf_SHO d0 n0 d1 n1 :
  decimal d0 n0 -> u16 n0 -> decimal d1 n1 -> u16 n1 ->
  sscanf (lit "SHO," ++ d0 ++ "," :: d1) "SHO,%d,%d" = (2, [V_num n0; V_num n1]).
Proof.
  intros H0 R0 H1 R1. unfold sscanf. red in R0, R1.
  change (parse_format "SHO,%d,%d")
    with (map Lit (lit "SHO,") ++
          Conv false None "d" :: map Lit [","] ++ [Conv false None "d"]).
  rewrite scan_literals.
  rewrite (scan_d_step d0 n0) by (assumption || lia || apply stops_comma).
  change ("," :: d1) with ([","] ++ d1). rewrite scan_literals.
  rewrite <- (app_nil_r d1).
  rewrite (scan_d_step d1 n1) by (assumption || lia || exact stops_nil).
  reflexivity.
Qed.

Lemma sscanf_RES d0 n0 d1 n1 d2 n2 :
  decimal d0 n0 -> u16 n0 -> decimal d1 n1 -> u16 n1 -> decimal d2 n2 -> u16 n2 ->
  sscanf (lit "RES," ++ d0 ++ "," :: d1 ++ "," :: d2) "RES,%u,%u,%u"
  = (3, [V_num n0; V_num n1; V_num n2]).
Proof.
  intros H0 R0 H1 R1 H2 R2. unfold sscanf. red in R0, R1, R2.
  change (parse_format "RES,%u,%u,%u")
    with (map Lit (lit "RES,") ++
          Conv false None "u" :: map Lit [","] ++
          Conv false None "u" :: map Lit [","] ++ [Conv false None "u"]).
  rewrite scan_literals.
  rewrite (scan_u_step d0 n0) by (assumption || lia || apply stops_comma).
  change ("," :: d1 ++ "," :: d2) with ([","] ++ d1 ++ "," :: d2).
  rewrite scan_literals.
  rewrite (scan_u_step d1 n1) by (assumption || lia || apply stops_comma).
  change ("," :: d2) with ([","] ++ d2). rewrite scan_literals.
  rewrite <- (app_nil_r d2).
  rewrite (scan_u_step d2 n2) by (assumption || lia || exact stops_nil).
  reflexivity.
Qed.

Lemma numeral_decimal n : u16 n -> decimal (numeral n) n.
Proof. intros Hn. apply print_u32_is_decimal. red in Hn. lia. Qed.

Ltac norm_lit :=
  cbn [lit unescape list_ascii_of_string app Ascii.eqb Bool.eqb String.append
       map streq andb].
Tactic Notation "norm_lit" "in" hyp(H) :=
  cbn [lit unescape list_ascii_of_string app Ascii.eqb Bool.eqb String.append
       map streq andb] in H.

Lemma ParseMessage_payload m h1 h2 ev :
  m_type m <> MESSAGE_NONE -> fits_template m ->
  sscanf [h1; h2] "%2X" = (1, [V_num (Message_CalculateChecksum (payload_of m))]) ->
  exists e, Message_ParseMessage (payload_of m) [h1; h2] ev = (SUCCESS, e) /\
            carries e m.
Proof.
  destruct m as [t p0 p1 p2]. unfold fits_template, carries, payload_of.
  cbn [m_type m_param0 m_param1 m_param2].
  intros Ht (F0 & F1 & F2) Hx.
  pose proof (checksum_range
    (match t with
     | MESSAGE_NONE => []
     | MESSAGE_CHA => lit "CHA," ++ numeral p0
     | MESSAGE_ACC => lit "ACC," ++ numeral p0
     | MESSAGE_REV => lit "REV," ++ numeral p0
     | MESSAGE_SHO => lit "SHO," ++ numeral p0 ++ "," :: numeral p1
     | MESSAGE_RES => lit "RES," ++ numeral p0 ++ "," :: numeral p1 ++ "," :: numeral p2
     end)) as Hk.
  unfold Message_ParseMessage. rewrite Hx.
  change (negb (strlen [h1; h2] =? MESSAGE_CHECKSUM_LEN)) with false.
  unfold to_u8. rewrite (Z.mod_small _ 256 Hk), Z.eqb_refl. cbn [negb].
  clear Hx Hk.
  destruct t; [contradiction | | | | |]; cbn [arity] in *; norm_lit.
  - pose proof (F0 ltac:(lia)) as R0.
    rewrite (sscanf_tag "C" "H" "A" ("," :: numeral p0)) by reflexivity.
    pose proof (sscanf_one "CHA" _ _ (numeral_decimal p0 R0) R0 eq_refl) as S.
    norm_lit in S. rewrite S.
    eexists. split; [reflexivity |].
    cbn. rewrite to_u16_small by exact R0. repeat split; lia.
  - pose proof (F0 ltac:(lia)) as R0.
    rewrite (sscanf_tag "A" "C" "C" ("," :: numeral p0)) by reflexivity.
    pose proof (sscanf_one "ACC" _ _ (numeral_decimal p0 R0) R0 eq_refl) as S.
    norm_lit in S. norm_lit. rewrite S.
    eexists. split; [reflexivity |].
    cbn. rewrite to_u16_small by exact R0. repeat split; lia.
  - pose proof (F0 ltac:(lia)) as R0.
    rewrite (sscanf_tag "R" "E" "V" ("," :: numeral p0)) by reflexivity.
    pose proof (sscanf_one "REV" _ _ (numeral_decimal p0 R0) R0 eq_refl) as S.
    norm_lit in S. norm_lit. rewrite S.
    eexists. split; [reflexivity |].
    cbn. rewrite to_u16_small by exact R0. repeat split; lia.
  - pose proof (F0 ltac:(lia)) as R0. pose proof (F1 ltac:(lia)) as R1.
    rewrite (sscanf_tag "S" "H" "O" ("," :: numeral p0 ++ "," :: numeral p1))
      by reflexivity.
    pose proof (sscanf_SHO _ _ _ _ (numeral_decimal p0 R0) R0
                  (numeral_decimal p1 R1) R1) as S.
    norm_lit in S. norm_lit. rewrite S.
    eexists. split; [reflexivity |].
    cbn. red in R0, R1.
    rewrite !to_u32_small, !to_u16_small by lia. repeat split; lia.
  - pose proof (F0 ltac:(lia)) as R0. pose proof (F1 ltac:(lia)) as R1.
    pose proof (F2 ltac:(lia)) as R2.
    rewrite (sscanf_tag "R" "E" "S"
               ("," :: numeral p0 ++ "," :: numeral p1 ++ "," :: numeral p2))
      by reflexivity.
    pose proof (sscanf_RES _ _ _ _ _ _ (numeral_decimal p0 R0) R0
                  (numeral_decimal p1 R1) R1 (numeral_decimal p2 R2) R2) as S.
    norm_lit in S. norm_lit. rewrite S.
    eexists. split; [reflexivity |].
    cbn. rewrite !to_u16_small by assumption. repeat split; lia.
Qed.

(** *** The frame of a message *)

Lemma numeral_length n : u16 n -> (length (numeral n) <= 10)%nat.
Proof.
  intros Hn. red in Hn.
  destruct (print_u32_decimal n ltac:(lia)) as (_ & _ & _ & L). exact L.
Qed.

Lemma payload_of_length m :
  fits_template m -> (length (payload_of m) <= 36)%nat.
Proof.
  destruct m as [t p0 p1 p2]. unfold fits_template, payload_of.
  cbn [m_type m_param0 m_param1 m_param2]. intros (F0 & F1 & F2).
  destruct t; cbn [arity] in *; norm_lit;
    repeat (cbn [length]; rewrite ?length_app);
    try pose proof (numeral_length p0 (F0 ltac:(lia)));
    try pose proof (numeral_length p1 (F1 ltac:(lia)));
    try pose proof (numeral_length p2 (F2 ltac:(lia))); cbn [length]; lia.
Qed.

(** What the payload templates print for parameters that fit them. *)
Lemma print_payload m :
  fits_template m ->
  match m_type m with
  | MESSAGE_NONE => True
  | MESSAGE_CHA =>
      sprintf PAYLOAD_TEMPLATE_CHA [A_uint (m_param0 m)] = payload_of m
  | MESSAGE_ACC =>
      sprintf PAYLOAD_TEMPLATE_ACC [A_uint (m_param0 m)] = payload_of m
  | MESSAGE_REV =>
      sprintf PAYLOAD_TEMPLATE_REV [A_uint (m_param0 m)] = payload_of m
  | MESSAGE_SHO =>
      sprintf PAYLOAD_TEMPLATE_SHO
        [A_int (to_i32 (m_param0 m)); A_int (to_i32 (m_param1 m))] = payload_of m
  | MESSAGE_RES =>
      sprintf PAYLOAD_TEMPLATE_RES
        [A_uint (m_param0 m); A_uint (m_param1 m); A_uint (m_param2 m)]
      = payload_of m
  end.
Proof.
  destruct m as [t p0 p1 p2]. unfold fits_template, payload_of, sprintf.
  cbn [m_type m_param0 m_param1 m_param2]. intros (F0 & F1 & F2).
  destruct t; cbn [arity] in *; try exact I.
  - change (format_out (parse_format PAYLOAD_TEMPLATE_CHA) [A_uint p0])
      with (lit "CHA," ++ numeral p0 ++ []).
    rewrite app_nil_r. reflexivity.
  - change (format_out (parse_format PAYLOAD_TEMPLATE_ACC) [A_uint p0])
      with (lit "ACC," ++ numeral p0 ++ []).
    rewrite app_nil_r. reflexivity.
  - change (format_out (parse_format PAYLOAD_TEMPLATE_REV) [A_uint p0])
      with (lit "REV," ++ numeral p0 ++ []).
    rewrite app_nil_r. reflexivity.
  - pose proof (F0 ltac:(lia)) as R0. pose proof (F1 ltac:(lia)) as R1.
    red in R0, R1.
    change (format_out (parse_format PAYLOAD_TEMPLATE_SHO)
              [A_int (to_i32 p0); A_int (to_i32 p1)])
      with (lit "SHO," ++
            (if to_i32 (to_i32 p0) <? 0
             then "-" :: print_u32 10 (- to_i32 (to_i32 p0))
             else print_u32 10 (to_i32 (to_i32 p0))) ++
            "," ::
            (if to_i32 (to_i32 p1) <? 0
             then "-" :: print_u32 10 (- to_i32 (to_i32 p1))
             else print_u32 10 (to_i32 (to_i32 p1))) ++ []).
    rewrite !(to_i32_small p0), !(to_i32_small p1) by lia.
    destruct (p0 <? 0) eqn:E0; [lia |]. destruct (p1 <? 0) eqn:E1; [lia |].
    rewrite app_nil_r. reflexivity.
  - change (format_out (parse_format PAYLOAD_TEMPLATE_RES)
              [A_uint p0; A_uint p1; A_uint p2])
      with (lit "RES," ++ numeral p0 ++ "," :: numeral p1 ++ "," :: numeral p2 ++ []).
    rewrite app_nil_r. reflexivity.
Qed.

Lemma Encode_frame m :
  m_type m <> MESSAGE_NONE -> fits_template m ->
  exists h1 h2,
    fst (Message_Encode m) = frame (payload_of m) h1 h2 /\
    isxdigit h1 = true /\ isxdigit h2 = true /\
    sscanf [h1; h2] "%2X" = (1, [V_num (Message_CalculateChecksum (payload_of m))]).
Proof.
  intros Ht Hf.
  pose proof (print_payload m Hf) as Hp.
  pose proof (payload_of_length m Hf) as Hl.
  destruct (hex2_round_trip _ (checksum_range (payload_of m)))
    as (h1 & h2 & Hh & X1 & X2 & Hs).
  exists h1, h2. split; [| repeat split; assumption].
  assert (E :
    take (Z.to_nat (MESSAGE_MAX_LEN + 1) - 1)
      (format_out (parse_format MESSAGE_TEMPLATE)
         [A_str (take (Z.to_nat (MESSAGE_MAX_PAYLOAD_LEN + 1) - 1) (payload_of m));
          A_uint (Message_CalculateChecksum
                    (take (Z.to_nat (MESSAGE_MAX_PAYLOAD_LEN + 1) - 1)
                       (payload_of m)))])
    = frame (payload_of m) h1 h2).
  { assert (T : take (Z.to_nat (MESSAGE_MAX_PAYLOAD_LEN + 1) - 1) (payload_of m)
                 = payload_of m).
    { apply take_ge. change (Z.to_nat (MESSAGE_MAX_PAYLOAD_LEN + 1) - 1)%nat with 76%nat. lia. }
    rewrite T.
    change (format_out (parse_format MESSAGE_TEMPLATE)
              [A_str (payload_of m); A_uint (Message_CalculateChecksum (payload_of m))])
      with ("$" :: payload_of m ++ "*" ::
            hex2 (Message_CalculateChecksum (payload_of m)) ++ [CR; LF]).
    rewrite Hh. unfold frame.
    apply take_ge. cbn [length]. rewrite length_app. cbn [length app].
    change (Z.to_nat (MESSAGE_MAX_LEN + 1) - 1)%nat with 82%nat. lia. }
  unfold Message_Encode. unfold sprintf, snprintf in *.
  destruct (m_type m); try contradiction; cbn [MessageType_eqb fst];
    rewrite Hp; exact E.
Qed.

(** *** Decoding a frame *)

Lemma set_type_twice t1 t2 ev : set_type t1 (set_type t2 ev) = set_type t1 ev.
Proof. reflexivity. Qed.

Lemma Forall_map_const {T U} (y : U) (l : list T) :
  Forall (fun x => x = y) (map (fun _ => y) l).
Proof. induction l; cbn; constructor; [reflexivity | assumption]. Qed.

Section DecodeFrame.
Variable parse : list ascii -> list ascii -> BB_Event -> Status * BB_Event.

(** The calls on the bytes of a payload: NO_EVENT on each, the bytes
    appended to the string in the payload buffer. *)
Lemma decode_body body : forall d ev written,
  decode_state d = RECORDING_PAYLOAD ->
  holds (Z.to_nat (MESSAGE_MAX_PAYLOAD_LEN + 1)) (payload_buffer d) written ->
  payload_index d = Z.of_nat (length written) ->
  (length written + length body <= Z.to_nat MESSAGE_MAX_PAYLOAD_LEN)%nat ->
  forallb plain body = true ->
  exists b,
    decode_all_with parse d ev body =
      Some (set_payload b (Z.of_nat (length (written ++ body))) d,
            match body with [] => ev | _ => set_type BB_EVENT_NO_EVENT ev end,
            map (fun _ => set_type BB_EVENT_NO_EVENT ev) body) /\
    holds (Z.to_nat (MESSAGE_MAX_PAYLOAD_LEN + 1)) b (written ++ body).
Proof.
  induction body as [| c body IH]; intros d ev written Hst Hh Hi Hl Hp.
  - exists (payload_buffer d). rewrite app_nil_r, <- Hi. split; [| exact Hh].
    destruct d. reflexivity.
  - cbn in Hp. apply andb_true_iff in Hp as [Hc Hp].
    sizes. cbn [length] in Hl.
    destruct (holds_append _ _ _ c Hh ltac:(lia)) as (b1 & b2 & S1 & S2 & Hb).
    assert (Hstep : Message_Decode_with parse d c ev =
                    Some (set_payload b2 (payload_index d + 1) d,
                          set_type BB_EVENT_NO_EVENT ev, SUCCESS)).
    { unfold Message_Decode_with. rewrite Hst.
      unfold plain, delimiter in Hc. apply negb_true_iff in Hc.
      apply orb_false_iff in Hc as [Hc H3]. apply orb_false_iff in Hc as [H1 H2].
      rewrite H1, H2, H3. cbn [orb].
      sizes. destruct (payload_index d >=? 76) eqn:E; [lia |].
      rewrite Hi, S1, S2. reflexivity. }
    destruct (IH (set_payload b2 (payload_index d + 1) d)
                (set_type BB_EVENT_NO_EVENT ev) (written ++ [c]))
      as (b & Hrun & Hb').
    + exact Hst.
    + exact Hb.
    + cbn. rewrite length_app. cbn. lia.
    + rewrite length_app. cbn [length]. sizes. lia.
    + exact Hp.
    + exists b. rewrite <- app_assoc in Hb', Hrun. cbn [app] in Hb', Hrun.
      split; [| exact Hb'].
      cbn [decode_all_with]. rewrite Hstep, Hrun.
      destruct d, body; reflexivity.
Qed.

Lemma step_star d ev :
  decode_state d = RECORDING_PAYLOAD ->
  Message_Decode_with parse d "*" ev =
    Some (set_decode_state RECORDING_CHECKSUM d,
          set_type BB_EVENT_NO_EVENT ev, SUCCESS).
Proof. intros Hst. unfold Message_Decode_with. rewrite Hst. reflexivity. Qed.

Lemma step_digit d h ev cs :
  decode_state d = RECORDING_CHECKSUM ->
  holds (Z.to_nat (MESSAGE_CHECKSUM_LEN + 1)) (checksum_buffer d) cs ->
  checksum_index d = Z.of_nat (length cs) ->
  (length cs < 2)%nat ->
  isxdigit h = true ->
  exists b,
    Message_Decode_with parse d h ev =
      Some (set_checksum b (Z.of_nat (length (cs ++ [h]))) d,
            set_type BB_EVENT_NO_EVENT ev, SUCCESS) /\
    holds (Z.to_nat (MESSAGE_CHECKSUM_LEN + 1)) b (cs ++ [h]).
Proof.
  intros Hst Hh Hi Hl Hx. sizes.
  destruct (holds_append _ _ _ h Hh ltac:(lia)) as (b1 & b2 & S1 & S2 & Hb).
  exists b2. split; [| exact Hb].
  unfold Message_Decode_with. rewrite Hst. sizes.
  destruct (checksum_index d <? 2) eqn:E; [| lia].
  rewrite Hx, Hi, S1, S2. rewrite length_app. cbn [length].
  replace (Z.of_nat (length cs + 1)) with (Z.of_nat (length cs) + 1) by lia.
  reflexivity.
Qed.

Lemma step_cr d ev :
  decode_state d = RECORDING_CHECKSUM ->
  checksum_index d = MESSAGE_CHECKSUM_LEN ->
  Message_Decode_with parse d CR ev =
    Some (set_checksum (checksum_buffer d) (MESSAGE_CHECKSUM_LEN + 1) d,
          set_type BB_EVENT_NO_EVENT ev, SUCCESS).
Proof.
  intros Hst Hi. unfold Message_Decode_with. rewrite Hst, Hi. reflexivity.
Qed.

Lemma step_lf d ev p k :
  decode_state d = RECORDING_CHECKSUM ->
  checksum_index d = MESSAGE_CHECKSUM_LEN + 1 ->
  cstr (payload_buffer d) = Some p ->
  cstr (checksum_buffer d) = Some k ->
  Message_Decode_with parse d LF ev =
    Some (set_decode_state WAIT_FOR_START_DELIMITER d,
          match parse p k ev with
          | (SUCCESS, e) => e
          | (STANDARD_ERROR, e) => set_type BB_EVENT_ERROR e
          end,
          fst (parse p k ev)).
Proof.
  intros Hst Hi Hp Hk. unfold Message_Decode_with.
  rewrite Hst, Hi, Hp, Hk.
  change (MESSAGE_CHECKSUM_LEN + 1 <? MESSAGE_CHECKSUM_LEN) with false.
  change (MESSAGE_CHECKSUM_LEN + 1 =? MESSAGE_CHECKSUM_LEN) with false.
  change (MESSAGE_CHECKSUM_LEN + 1 =? MESSAGE_CHECKSUM_LEN + 1) with true.
  cbn [Ascii.eqb Bool.eqb LF]. cbv iota.
  destruct (parse p k ev) as [[|] e]; reflexivity.
Qed.

Lemma decode_all_app bytes1 : forall d ev bytes2 d1 ev1 evs1,
  decode_all_with parse d ev bytes1 = Some (d1, ev1, evs1) ->
  decode_all_with parse d ev (bytes1 ++ bytes2) =
    match decode_all_with parse d1 ev1 bytes2 with
    | Some (d2, ev2, evs2) => Some (d2, ev2, evs1 ++ evs2)
    | None => None
    end.
Proof.
  induction bytes1 as [| c bytes1 IH]; intros d ev bytes2 d1 ev1 evs1.
  - cbn. intros [= <- <- <-].
    destruct (decode_all_with parse d ev bytes2) as [[[? ?] ?]|]; reflexivity.
  - cbn [decode_all_with app].
    destruct (Message_Decode_with parse d c ev) as [[[d' ev'] st]|]; [| discriminate].
    destruct (decode_all_with parse d' ev' bytes1) as [[[d'' ev''] evs]|] eqn:E;
      [| discriminate].
    intros [= <- <- <-]. rewrite (IH _ _ bytes2 _ _ _ E).
    destruct (decode_all_with parse d'' ev'' bytes2) as [[[? ?] ?]|]; reflexivity.
Qed.

(** The calls on a complete frame, from the wait for a start delimiter:
    NO_EVENT on every byte but the last, on which the parser is called with
    the payload and the two checksum digits. *)
Lemma decode_frame d ev body h1 h2 :
  decode_state d = WAIT_FOR_START_DELIMITER ->
  length (payload_buffer d) = Z.to_nat (MESSAGE_MAX_PAYLOAD_LEN + 1) ->
  length (checksum_buffer d) = Z.to_nat (MESSAGE_CHECKSUM_LEN + 1) ->
  (length body <= Z.to_nat MESSAGE_MAX_PAYLOAD_LEN)%nat ->
  forallb plain body = true ->
  forallb (fun c => negb (Ascii.eqb c NUL)) body = true ->
  isxdigit h1 = true -> isxdigit h2 = true ->
  let last :=
    match parse body [h1; h2] (set_type BB_EVENT_NO_EVENT ev) with
    | (SUCCESS, e) => e
    | (STANDARD_ERROR, e) => set_type BB_EVENT_ERROR e
    end in
  exists d' evs,
    decode_all_with parse d ev (frame body h1 h2) = Some (d', last, evs ++ [last]) /\
    Forall (fun e => e = set_type BB_EVENT_NO_EVENT ev) evs /\
    decode_state d' = WAIT_FOR_START_DELIMITER.
Proof.
  intros Hst Lp Lc Hl Hp Hnz X1 X2 last. unfold frame.
  set (e1 := set_type BB_EVENT_NO_EVENT ev) in *.
  (* the start delimiter *)
  cbn [decode_all_with]. unfold Message_Decode_with at 1. rewrite Hst.
  cbn [Ascii.eqb Bool.eqb]. fold e1.
  set (d1 := mkDecoder RECORDING_PAYLOAD (memset0 (payload_buffer d))
               (memset0 (checksum_buffer d)) 0 0).
  (* the payload *)
  destruct (decode_body body d1 e1 []) as (b & Hrun & Hb); try reflexivity.
  { unfold d1, memset0. cbn [payload_buffer]. rewrite Lp. sizes.
    split; [reflexivity | cbn; lia]. }
  { cbn [length]. lia. }
  { exact Hp. }
  cbn [app] in Hrun, Hb. unfold e1 in Hrun. rewrite set_type_twice in Hrun. fold e1 in Hrun.
  set (d2 := set_payload b (Z.of_nat (length body)) d1) in *.
  rewrite (decode_all_app _ _ _ _ _ _ _ Hrun).
  (* the checksum delimiter and the two digits *)
  cbn [decode_all_with].
  set (e2 := match body with [] => e1 | _ :: _ => e1 end).
  assert (He2 : set_type BB_EVENT_NO_EVENT e2 = e1) by (unfold e2; destruct body; reflexivity).
  rewrite (step_star d2 e2) by reflexivity. rewrite He2.
  set (d3 := set_decode_state RECORDING_CHECKSUM d2).
  destruct (step_digit d3 h1 e1 []) as (c1 & Hs1 & Hc1); try reflexivity; try assumption.
  { unfold d3, d2, d1, memset0. cbn [checksum_buffer set_decode_state set_payload].
    rewrite Lc. sizes. split; [reflexivity | cbn; lia]. }
  { cbn; lia. }
  rewrite Hs1. unfold e1 at 1. rewrite set_type_twice. fold e1.
  set (d4 := set_checksum c1 (Z.of_nat (length ([] ++ [h1]))) d3) in *.
  destruct (step_digit d4 h2 e1 [h1]) as (c2 & Hs2 & Hc2); try reflexivity; try assumption.
  { cbn; lia. }
  rewrite Hs2. unfold e1 at 1. rewrite set_type_twice. fold e1.
  set (d5 := set_checksum c2 (Z.of_nat (length ([h1] ++ [h2]))) d4) in *.
  (* the carriage return and the line feed *)
  rewrite (step_cr d5 e1) by reflexivity.
  unfold e1 at 1. rewrite set_type_twice. fold e1.
  set (d6 := set_checksum (checksum_buffer d5) (MESSAGE_CHECKSUM_LEN + 1) d5).
  rewrite (step_lf d6 e1 body [h1; h2]); try reflexivity.
  - cbn [decode_all_with]. fold last.
    exists (set_decode_state WAIT_FOR_START_DELIMITER d6),
           (e1 :: map (fun _ => e1) body ++ [e1; e1; e1; e1]).
    split; [| split; [| reflexivity]].
    + cbn [app]. rewrite <- !app_assoc. reflexivity.
    + constructor; [reflexivity |]. apply Forall_app. split.
      * apply Forall_map_const.
      * repeat constructor.
  - apply (holds_cstr_nonzero _ _ _ Hb Hnz).
  - apply (holds_cstr_nonzero _ _ _ Hc2). cbn.
    destruct (Ascii.eqb_spec h1 NUL) as [-> |]; [discriminate |].
    destruct (Ascii.eqb_spec h2 NUL) as [-> |]; [discriminate |]. reflexivity.
Qed.

End DecodeFrame.

Lemma forallb_impl {T} (p q : T -> bool) l :
  (forall x, p x = true -> q x = true) -> forallb p l = true -> forallb q l = true.
Proof.
  intros Hpq. induction l as [| x l IH]; cbn; [reflexivity |].
  intros H. apply andb_true_iff in H as [Hx Hl].
  rewrite (Hpq x Hx), (IH Hl). reflexivity.
Qed.

Lemma numeral_clean n : u16 n -> forallb clean (numeral n) = true.
Proof.
  intros Hn. destruct (numeral_decimal n Hn) as (Hd & _).
  revert Hd. apply forallb_impl. intros c Hc. unfold clean.
  rewrite (isdigit_plain c Hc), (isdigit_nonzero c Hc). reflexivity.
Qed.

Lemma payload_of_clean m :
  fits_template m -> forallb clean (payload_of m) = true.
Proof.
  destruct m as [t p0 p1 p2]. unfold fits_template, payload_of.
  cbn [m_type m_param0 m_param1 m_param2]. intros (F0 & F1 & F2).
  destruct t; cbn [arity] in *; try reflexivity;
    repeat (rewrite forallb_app || (rewrite numeral_clean by (auto with zarith))
            || cbn [forallb]);
    reflexivity.
Qed.

Lemma clean_plain l : forallb clean l = true -> forallb plain l = true.
Proof.
  apply forallb_impl. intros c Hc. apply andb_true_iff in Hc as [Hc _]. exact Hc.
Qed.

Lemma clean_nonzero l :
  forallb clean l = true -> forallb (fun c => negb (Ascii.eqb c NUL)) l = true.
Proof.
  apply forallb_impl. intros c Hc. apply andb_true_iff in Hc as [_ Hc]. exact Hc.
Qed.

(** C3. For every message of a type other than NONE whose parameters fit its
    template, the bytes [Message_Encode] produces, given one at a time to
    [Message_Decode] in its idle state, yield NO_EVENT on every byte but the
    last and, on the last, the event of the message's type carrying the
    message's parameters. *)
Theorem encode_then_decode m bytes d ev :
  m_type m <> MESSAGE_NONE ->
  fits_template m ->
  received bytes d ->
  decode_state d = WAIT_FOR_START_DELIMITER ->
  exists d' e evs,
    decode_all d ev (fst (Message_Encode m)) = Some (d', e, evs ++ [e]) /\
    Forall (fun x => e_type x = BB_EVENT_NO_EVENT) evs /\
    carries e m /\
    decode_state d' = WAIT_FOR_START_DELIMITER.
Proof.
  intros Ht Hf Hr Hst.
  destruct (Encode_frame m Ht Hf) as (h1 & h2 & -> & X1 & X2 & Hx).
  destruct (ParseMessage_payload m h1 h2 (set_type BB_EVENT_NO_EVENT ev) Ht Hf Hx)
    as (e & Hparse & Hc).
  pose proof (payload_of_clean m Hf) as Hclean.
  pose proof (payload_of_length m Hf) as Hlen.
  destruct (received_framed bytes d Hr) as (body & cs & Hp & Hcs & _).
  destruct (decode_frame Message_ParseMessage d ev (payload_of m) h1 h2)
    as (d' & evs & Hrun & Hevs & Hd'); try assumption.
  - exact (holds_length _ _ _ Hp).
  - exact (holds_length _ _ _ Hcs).
  - sizes. change (Z.to_nat 76) with 76%nat. lia.
  - apply clean_plain, Hclean.
  - apply clean_nonzero, Hclean.
  - rewrite Hparse in Hrun. exists d', e, evs.
    split; [exact Hrun |]. split; [| split; assumption].
    eapply Forall_impl; [exact Hevs |]. intros x ->. reflexivity.
Qed.

Lemma received_step bytes d c ev :
  received bytes d ->
  exists d' ev' st,
    Message_Decode d c ev = Some (d', ev', st) /\ received (bytes ++ [c]) d'.
Proof.
  intros Hr.
  destruct (decode_step_framed Message_ParseMessage bytes d c ev
              (received_framed bytes d Hr)) as (d' & ev' & st & E & _).
  exists d', ev', st. split; [exact E |].
  exact (received_byte bytes d c ev d' ev' st Hr E).
Qed.

Lemma received_all more : forall bytes d ev d' ev' evs,
  received bytes d ->
  decode_all d ev more = Some (d', ev', evs) ->
  received (bytes ++ more) d'.
Proof.
  induction more as [| c more IH]; intros bytes d ev d' ev' evs Hr.
  - cbn. intros [= <- _ _]. rewrite app_nil_r. exact Hr.
  - unfold decode_all. cbn [decode_all_with].
    destruct (Message_Decode_with Message_ParseMessage d c ev)
      as [[[d1 ev1] st]|] eqn:E; [| discriminate].
    destruct (decode_all_with Message_ParseMessage d1 ev1 more)
      as [[[d2 ev2] evs2]|] eqn:E2; [| discriminate].
    intros [= <- _ _].
    replace (bytes ++ c :: more) with ((bytes ++ [c]) ++ more)
      by (rewrite <- app_assoc; reflexivity).
    eapply IH; [| exact E2].
    exact (received_byte bytes d c ev d1 ev1 st Hr E).
Qed.

(** The statics after the bytes the program has received since it started. *)
Lemma received_run bytes d e evs :
  decode_all decoder_boot ev0 bytes = Some (d, e, evs) -> received bytes d.
Proof. intros E. exact (received_all bytes [] decoder_boot ev0 d e evs received_boot E). Qed.

(** C10. Whatever bytes the decoder has been given, the payload index is at
    most 76 and the checksum index at most 3, the buffers have their declared
    sizes, and the next call, on any byte, is defined: every store it makes is
    inside its buffer and it returns after that one byte. *)
Theorem decoder_stays_within_its_buffers bytes d :
  received bytes d ->
  0 <= payload_index d <= 76 /\
  0 <= checksum_index d <= 3 /\
  length (payload_buffer d) = 77%nat /\
  length (checksum_buffer d) = 3%nat /\
  forall c ev, exists d' ev' st,
    Message_Decode d c ev = Some (d', ev', st) /\ received (bytes ++ [c]) d'.
Proof.
  intros Hr.
  destruct (received_framed bytes d Hr) as (body & cs & Hp & Hc & Hpi & Hmax & Hci & _).
  sizes.
  split; [lia |]. split; [lia |].
  split; [exact (holds_length _ _ _ Hp) |].
  split; [exact (holds_length _ _ _ Hc) |].
  intros c ev. apply received_step, Hr.
Qed.

(** *** Malformations *)

Lemma quiet_snoc ev m c :
  quiet ev (m ++ [c]) = quiet ev m ++ [set_type BB_EVENT_NO_EVENT ev].
Proof. unfold quiet. rewrite map_app. reflexivity. Qed.

Lemma quiet_no_event ev m :
  Forall (fun e => e_type e = BB_EVENT_NO_EVENT) (quiet ev m).
Proof. induction m; cbn; constructor; [reflexivity | assumption]. Qed.

Lemma isxdigit_nonzero cs :
  forallb isxdigit cs = true ->
  forallb (fun c => negb (Ascii.eqb c NUL)) cs = true.
Proof.
  apply forallb_impl. intros c Hc.
  destruct (Ascii.eqb_spec c NUL) as [-> |]; [discriminate | reflexivity].
Qed.

Lemma cstr_rest s rest : cstr (s ++ NUL :: rest) = cstr (s ++ [NUL]).
Proof.
  induction s as [| x s IH]; cbn; [reflexivity |].
  destruct (Ascii.eqb x NUL); [reflexivity |]. rewrite IH. reflexivity.
Qed.

Lemma holds_cstr_body size a s : holds size a s -> cstr a = cstr (s ++ [NUL]).
Proof.
  intros [-> L]. destruct (size - length s)%nat as [| k] eqn:E; [lia |].
  cbn [replicate]. apply cstr_rest.
Qed.

Section Malformations.
Variable parse : list ascii -> list ascii -> BB_Event -> Status * BB_Event.

Lemma decode_all_snoc m : forall d ev c d1 e1 evs d2 e2 st,
  decode_all_with parse d ev m = Some (d1, e1, evs) ->
  Message_Decode_with parse d1 c e1 = Some (d2, e2, st) ->
  decode_all_with parse d ev (m ++ [c]) = Some (d2, e2, evs ++ [e2]).
Proof.
  intros d ev c d1 e1 evs d2 e2 st Hm Hc.
  rewrite (decode_all_app parse m d ev [c] d1 e1 evs Hm).
  cbn [decode_all_with]. rewrite Hc. reflexivity.
Qed.

(** The start delimiter and a payload: no event, the payload recorded. *)
Lemma decode_payload d ev body :
  decode_state d = WAIT_FOR_START_DELIMITER ->
  length (payload_buffer d) = Z.to_nat (MESSAGE_MAX_PAYLOAD_LEN + 1) ->
  length (checksum_buffer d) = Z.to_nat (MESSAGE_CHECKSUM_LEN + 1) ->
  forallb plain body = true ->
  (length body <= Z.to_nat MESSAGE_MAX_PAYLOAD_LEN)%nat ->
  exists d1,
    decode_all_with parse d ev ("$" :: body) =
      Some (d1, set_type BB_EVENT_NO_EVENT ev, quiet ev ("$" :: body)) /\
    in_frame d1 RECORDING_PAYLOAD body [] 0.
Proof.
  intros Hst Lp Lc Hp Hl.
  cbn [decode_all_with]. unfold Message_Decode_with at 1. rewrite Hst.
  cbn [Ascii.eqb Bool.eqb].
  set (e1 := set_type BB_EVENT_NO_EVENT ev).
  set (d0 := mkDecoder RECORDING_PAYLOAD (memset0 (payload_buffer d))
               (memset0 (checksum_buffer d)) 0 0).
  destruct (decode_body parse body d0 e1 []) as (b & Hrun & Hb); try reflexivity.
  { unfold d0, memset0. cbn [payload_buffer]. rewrite Lp. sizes.
    split; [reflexivity | cbn; lia]. }
  { cbn [length]. lia. }
  { exact Hp. }
  cbn [app] in Hrun, Hb. rewrite Hrun.
  exists (set_payload b (Z.of_nat (length body)) d0). split.
  - unfold quiet. cbn [map]. fold e1. destruct body; reflexivity.
  - unfold in_frame, d0. statics. conjs; try reflexivity; try exact Hb.
    unfold memset0. rewrite Lc. sizes. split; [reflexivity | cbn; lia].
Qed.

(** Then the checksum delimiter and up to two hexadecimal digits. *)
Lemma decode_checksum d ev body cs :
  decode_state d = WAIT_FOR_START_DELIMITER ->
  length (payload_buffer d) = Z.to_nat (MESSAGE_MAX_PAYLOAD_LEN + 1) ->
  length (checksum_buffer d) = Z.to_nat (MESSAGE_CHECKSUM_LEN + 1) ->
  forallb plain body = true ->
  (length body <= Z.to_nat MESSAGE_MAX_PAYLOAD_LEN)%nat ->
  forallb isxdigit cs = true ->
  (length cs <= Z.to_nat MESSAGE_CHECKSUM_LEN)%nat ->
  exists d2,
    decode_all_with parse d ev ("$" :: body ++ "*" :: cs) =
      Some (d2, set_type BB_EVENT_NO_EVENT ev, quiet ev ("$" :: body ++ "*" :: cs)) /\
    in_frame d2 RECORDING_CHECKSUM body cs (Z.of_nat (length cs)).
Proof.
  intros Hst Lp Lc Hp Hl Hx Hlc.
  destruct (decode_payload d ev body Hst Lp Lc Hp Hl) as (d1 & R1 & (S1 & P1 & I1 & C1 & J1)).
  set (e1 := set_type BB_EVENT_NO_EVENT ev) in *.
  (* the checksum delimiter *)
  assert (R2 : exists d2,
    decode_all_with parse d ev (("$" :: body) ++ ["*"%char]) =
      Some (d2, e1, quiet ev (("$" :: body) ++ ["*"%char])) /\
    in_frame d2 RECORDING_CHECKSUM body [] 0).
  { exists (set_decode_state RECORDING_CHECKSUM d1). split.
    - rewrite quiet_snoc. eapply decode_all_snoc; [exact R1 |].
      rewrite (step_star parse d1 e1 S1). reflexivity.
    - unfold in_frame. statics. conjs; assumption || reflexivity. }
  destruct R2 as (d2 & R2 & (S2 & P2 & I2 & C2 & J2)).
  change (Z.to_nat MESSAGE_CHECKSUM_LEN) with 2%nat in Hlc.
  destruct cs as [| h1 cs].
  { exists d2. rewrite <- app_comm_cons in R2.
    replace (body ++ ["*"%char]) with (body ++ "*" :: []) in R2 by reflexivity.
    split; [exact R2 |]. unfold in_frame. conjs; assumption. }
  cbn [forallb] in Hx. apply andb_true_iff in Hx as [X1 Hx].
  destruct (step_digit parse d2 h1 e1 [] S2 C2) as (c1 & T1 & Hc1);
    [rewrite J2; reflexivity | cbn; lia | exact X1 |].
  set (d3 := set_checksum c1 (Z.of_nat (length ([] ++ [h1]))) d2) in *.
  assert (R3 : decode_all_with parse d ev ((("$" :: body) ++ ["*"%char]) ++ [h1]) =
               Some (d3, e1, quiet ev ((("$" :: body) ++ ["*"%char]) ++ [h1]))).
  { rewrite quiet_snoc. eapply decode_all_snoc; [exact R2 | exact T1]. }
  destruct cs as [| h2 cs].
  { exists d3. split.
    - replace ("$" :: body ++ "*" :: [h1])
        with ((("$" :: body) ++ ["*"%char]) ++ [h1])
        by (cbn; rewrite <- !app_assoc; reflexivity).
      exact R3.
    - unfold in_frame, d3. statics. conjs; try assumption; reflexivity. }
  cbn [forallb] in Hx. apply andb_true_iff in Hx as [X2 _].
  destruct cs as [| ? ?]; [| cbn in Hlc; lia].
  destruct (step_digit parse d3 h2 e1 [h1] S2 Hc1 eq_refl ltac:(cbn; lia) X2)
    as (c2 & T2 & Hc2).
  exists (set_checksum c2 (Z.of_nat (length ([h1] ++ [h2]))) d3). split.
  - replace ("$" :: body ++ "*" :: [h1; h2])
      with (((("$" :: body) ++ ["*"%char]) ++ [h1]) ++ [h2])
      by (cbn; rewrite <- !app_assoc; reflexivity).
    rewrite quiet_snoc. eapply decode_all_snoc; [exact R3 | exact T2].
  - unfold in_frame, d3. statics. conjs; try assumption; reflexivity.
Qed.

(** Then the carriage return. *)
Lemma decode_carriage_return d ev body cs :
  decode_state d = WAIT_FOR_START_DELIMITER ->
  length (payload_buffer d) = Z.to_nat (MESSAGE_MAX_PAYLOAD_LEN + 1) ->
  length (checksum_buffer d) = Z.to_nat (MESSAGE_CHECKSUM_LEN + 1) ->
  forallb plain body = true ->
  (length body <= Z.to_nat MESSAGE_MAX_PAYLOAD_LEN)%nat ->
  forallb isxdigit cs = true ->
  length cs = Z.to_nat MESSAGE_CHECKSUM_LEN ->
  exists d3,
    decode_all_with parse d ev ("$" :: body ++ "*" :: cs ++ [CR]) =
      Some (d3, set_type BB_EVENT_NO_EVENT ev,
            quiet ev ("$" :: body ++ "*" :: cs ++ [CR])) /\
    in_frame d3 RECORDING_CHECKSUM body cs (MESSAGE_CHECKSUM_LEN + 1).
Proof.
  intros Hst Lp Lc Hp Hl Hx Hlc.
  destruct (decode_checksum d ev body cs Hst Lp Lc Hp Hl Hx ltac:(lia))
    as (d2 & R2 & (S2 & P2 & I2 & C2 & J2)).
  rewrite Hlc in J2. change (Z.of_nat (Z.to_nat MESSAGE_CHECKSUM_LEN))
    with MESSAGE_CHECKSUM_LEN in J2.
  exists (set_checksum (checksum_buffer d2) (MESSAGE_CHECKSUM_LEN + 1) d2). split.
  - replace ("$" :: body ++ "*" :: cs ++ [CR])
      with (("$" :: body ++ "*" :: cs) ++ [CR])
      by (cbn; rewrite <- app_assoc; reflexivity).
    rewrite quiet_snoc. eapply decode_all_snoc; [exact R2 |].
    rewrite (step_cr parse d2 _ S2 J2). reflexivity.
  - unfold in_frame. statics. conjs; try assumption; reflexivity.
Qed.

End Malformations.

Lemma fresh_frame d body cs ci st :
  in_frame d st body cs ci ->
  forall ev,
    Message_Decode (set_decode_state WAIT_FOR_START_DELIMITER d) "$" ev =
      Some (frame_begun, set_type BB_EVENT_NO_EVENT ev, SUCCESS).
Proof.
  intros (_ & P & _ & K & _) ev.
  unfold Message_Decode, Message_Decode_with. statics.
  cbn [Ascii.eqb Bool.eqb]. unfold memset0.
  rewrite (holds_length _ _ _ P), (holds_length _ _ _ K). reflexivity.
Qed.

(** A malformation is detected on the byte that makes it: no event before
    it, ERROR on it, and the next start delimiter begins a fresh frame. *)
Lemma malformation_detected bytes d ev m c :
  received bytes d ->
  decode_state d = WAIT_FOR_START_DELIMITER ->
  malformation m c ->
  exists d1,
    decode_all d ev m = Some (d1, set_type BB_EVENT_NO_EVENT ev, quiet ev m) /\
    Message_Decode d1 c (set_type BB_EVENT_NO_EVENT ev) =
      Some (set_decode_state WAIT_FOR_START_DELIMITER d1,
            set_type BB_EVENT_ERROR ev, STANDARD_ERROR) /\
    forall ev2,
      Message_Decode (set_decode_state WAIT_FOR_START_DELIMITER d1) "$" ev2 =
        Some (frame_begun, set_type BB_EVENT_NO_EVENT ev2, SUCCESS).
Proof.
  intros Hr Hst Hm.
  destruct (received_framed bytes d Hr) as (body0 & cs0 & Hp0 & Hc0 & _).
  pose proof (holds_length _ _ _ Hp0) as Lp.
  pose proof (holds_length _ _ _ Hc0) as Lc.
  unfold decode_all, Message_Decode.
  destruct Hm as [body c Hp Hl Hc | body c Hp Hl Hc
                 | body cs c Hp Hl Hx Hlc Hc | body cs c Hp Hl Hx Hlc Hc
                 | body cs c Hp Hl Hx Hlc Hc | body cs p Hp Hl Hx Hlc Hcstr Hfail].
  - destruct (decode_payload Message_ParseMessage d ev body Hst Lp Lc Hp Hl)
      as (d1 & R & F).
    exists d1. split; [exact R |]. split; [| exact (fresh_frame _ _ _ _ _ F)].
    destruct F as (S1 & _). unfold Message_Decode_with. rewrite S1.
    destruct Hc as [-> | ->]; reflexivity.
  - destruct (decode_payload Message_ParseMessage d ev body Hst Lp Lc Hp ltac:(lia))
      as (d1 & R & F).
    exists d1. split; [exact R |]. split; [| exact (fresh_frame _ _ _ _ _ F)].
    destruct F as (S1 & _ & I1 & _). unfold Message_Decode_with. rewrite S1, I1, Hl.
    destruct (Ascii.eqb_spec c "*"); [contradiction |].
    destruct (Ascii.eqb c CR || Ascii.eqb c "$"); reflexivity.
  - destruct (decode_checksum Message_ParseMessage d ev body cs Hst Lp Lc Hp Hl Hx
                ltac:(lia)) as (d1 & R & F).
    exists d1. split; [exact R |]. split; [| exact (fresh_frame _ _ _ _ _ F)].
    destruct F as (S1 & _ & _ & _ & J1). unfold Message_Decode_with. rewrite S1, J1, Hc.
    sizes. change (Z.to_nat 2) with 2%nat in Hlc.
    destruct (Z.of_nat (length cs) <? 2) eqn:E; [reflexivity | lia].
  - destruct (decode_checksum Message_ParseMessage d ev body cs Hst Lp Lc Hp Hl Hx
                ltac:(lia)) as (d1 & R & F).
    exists d1. split; [exact R |]. split; [| exact (fresh_frame _ _ _ _ _ F)].
    destruct F as (S1 & _ & _ & _ & J1). unfold Message_Decode_with. rewrite S1, J1, Hlc.
    change (Z.of_nat (Z.to_nat MESSAGE_CHECKSUM_LEN)) with MESSAGE_CHECKSUM_LEN.
    change (MESSAGE_CHECKSUM_LEN <? MESSAGE_CHECKSUM_LEN) with false.
    change (MESSAGE_CHECKSUM_LEN =? MESSAGE_CHECKSUM_LEN) with true. cbv iota.
    destruct (Ascii.eqb_spec c CR); [contradiction | reflexivity].
  - destruct (decode_carriage_return Message_ParseMessage d ev body cs Hst Lp Lc Hp Hl Hx
                Hlc) as (d1 & R & F).
    exists d1. split; [exact R |]. split; [| exact (fresh_frame _ _ _ _ _ F)].
    destruct F as (S1 & _ & _ & _ & J1). unfold Message_Decode_with. rewrite S1, J1.
    change (MESSAGE_CHECKSUM_LEN + 1 <? MESSAGE_CHECKSUM_LEN) with false.
    change (MESSAGE_CHECKSUM_LEN + 1 =? MESSAGE_CHECKSUM_LEN) with false.
    change (MESSAGE_CHECKSUM_LEN + 1 =? MESSAGE_CHECKSUM_LEN + 1) with true. cbv iota.
    destruct (Ascii.eqb_spec c LF); [contradiction | reflexivity].
  - destruct (decode_carriage_return Message_ParseMessage d ev body cs Hst Lp Lc Hp Hl Hx
                Hlc) as (d1 & R & F).
    exists d1. split; [exact R |]. split; [| exact (fresh_frame _ _ _ _ _ F)].
    destruct F as (S1 & P1 & _ & K1 & J1).
    set (e1 := set_type BB_EVENT_NO_EVENT ev).
    assert (Ep : cstr (payload_buffer d1) = Some p).
    { rewrite (holds_cstr_body _ _ _ P1). exact Hcstr. }
    assert (Ek : cstr (checksum_buffer d1) = Some cs).
    { apply (holds_cstr_nonzero _ _ _ K1), isxdigit_nonzero, Hx. }
    rewrite (step_lf Message_ParseMessage d1 e1 p cs S1 J1 Ep Ek).
    pose proof (ParseMessage_status p cs e1) as PS.
    rewrite (ParseMessage_status_event p cs ev0 e1) in Hfail.
    destruct (Message_ParseMessage p cs e1) as [[|] e]; cbn [fst] in *;
      [discriminate |].
    subst e. reflexivity.
Qed.

(** Conversely, the decoder yields ERROR on a malformation only. *)
Lemma error_is_a_malformation bytes d c ev d' ev' st :
  received bytes d ->
  Message_Decode d c ev = Some (d', ev', st) ->
  e_type ev' = BB_EVENT_ERROR ->
  exists pre m, bytes = pre ++ m /\ malformation m c.
Proof.
  intros Hr E He. pose proof (received_framed bytes d Hr) as Hf.
  pose proof (decode_step_outcome Message_ParseMessage d c ev d' ev' st E) as O.
  destruct (parser_arguments d c) as [[p k]|] eqn:Pa.
  - (* the parser has failed *)
    destruct O as (_ & _ & ->).
    pose proof (ParseMessage_status p k ev) as PS.
    destruct (parser_arguments_framed bytes d c p k Hf Pa)
      as (pre & body & h1 & h2 & Hb & Hp & X1 & X2 & -> & Hcstr & Hl).
    unfold frame in Hb.
    replace (pre ++ "$" :: body ++ "*" :: h1 :: h2 :: CR :: LF :: [])
      with ((pre ++ "$" :: body ++ "*" :: [h1; h2] ++ [CR]) ++ [LF]) in Hb
      by (rewrite <- !app_assoc; cbn; rewrite <- !app_assoc; reflexivity).
    apply app_inj_tail in Hb as [-> ->].
    exists pre, ("$" :: body ++ "*" :: [h1; h2] ++ [CR]). split; [reflexivity |].
    apply (parse_failure body [h1; h2] p); try assumption; try reflexivity.
    + cbn [forallb]. rewrite X1, X2. reflexivity.
    + rewrite (ParseMessage_status_event p [h1; h2] ev0 ev).
      destruct (Message_ParseMessage p [h1; h2] ev) as [[|] e]; cbn [fst snd] in *;
        [destruct PS as [PS _]; contradiction | reflexivity].
  - destruct (framing_error d c) eqn:Fe;
      [| destruct O as (-> & _); discriminate He].
    clear O E He. destruct d as [state pb cb pi ci].
    destruct Hf as (body & cs & Hp & Hc & Hpi & Hmax & Hci & Hst).
    unfold framing_error in Fe.
    cbn [decode_state payload_buffer checksum_buffer payload_index checksum_index] in *.
    sizes. destruct state; [discriminate | |].
    + (* in the payload *)
      destruct Hst as (_ & _ & Hplain & pre & ->).
      exists pre, ("$" :: body). split; [reflexivity |].
      apply andb_true_iff in Fe as [Hstar Fe]. apply negb_true_iff in Hstar.
      destruct (Ascii.eqb_spec c "*") as [| Hns]; [discriminate |].
      destruct (Ascii.eqb_spec c CR) as [-> | Hncr];
        [apply delimiter_in_payload; auto; sizes; lia |].
      destruct (Ascii.eqb_spec c "$") as [-> | Hnd];
        [apply delimiter_in_payload; auto; sizes; lia |].
      cbn [orb] in Fe. apply oversized_payload; [exact Hplain | sizes; lia | exact Hns].
    + (* in the checksum *)
      destruct Hst as (Hplain & Hx & Hcs).
      assert (Hl : (length body <= Z.to_nat 76)%nat) by lia.
      destruct (ci <? 2) eqn:H2.
      { destruct Hcs as [[Hlen (pre & ->)] | [Hlen _]]; [| lia].
        exists pre, ("$" :: body ++ "*" :: cs). split; [reflexivity |].
        apply bad_checksum_character; try assumption; [sizes; lia |].
        apply negb_true_iff, Fe. }
      destruct (ci =? 2) eqn:H3.
      { destruct Hcs as [[Hlen (pre & ->)] | [Hlen _]]; [| lia].
        exists pre, ("$" :: body ++ "*" :: cs). split; [reflexivity |].
        apply missing_carriage_return; try assumption; [sizes; lia |].
        apply negb_true_iff in Fe. intros ->. discriminate Fe. }
      destruct (ci =? 3) eqn:H4; [| lia].
      destruct Hcs as [[Hlen _] | (_ & Hlen & pre & ->)].
      { destruct Hc as [_ Hc]. lia. }
      exists pre, ("$" :: body ++ "*" :: cs ++ [CR]). split; [reflexivity |].
      apply missing_line_feed; try assumption.
      apply negb_true_iff in Fe. intros ->. discriminate Fe.
Qed.

(** The decoder depends on the parser through its results on the complete
    frames among the bytes it is given only. *)
Lemma decode_all_parser_on_frames parse more : forall bytes d ev,
  framed bytes d ->
  (forall pre body h1 h2 post p evx,
     bytes ++ more = pre ++ frame body h1 h2 ++ post ->
     forallb plain body = true ->
     (length body <= Z.to_nat MESSAGE_MAX_PAYLOAD_LEN)%nat ->
     isxdigit h1 = true -> isxdigit h2 = true ->
     cstr (body ++ [NUL]) = Some p ->
     parse p [h1; h2] evx = Message_ParseMessage p [h1; h2] evx) ->
  decode_all_with parse d ev more = decode_all d ev more.
Proof.
  induction more as [| c more IH]; intros bytes d ev Hf Hagree; [reflexivity |].
  unfold decode_all. cbn [decode_all_with].
  assert (Hstep : Message_Decode_with parse d c ev =
                  Message_Decode_with Message_ParseMessage d c ev).
  { destruct (parser_arguments d c) as [[p k]|] eqn:Pa;
      [| apply decode_step_parser_free, Pa].
    destruct (parser_arguments_framed bytes d c p k Hf Pa)
      as (pre & body & h1 & h2 & Hb & Hp & X1 & X2 & -> & Hcstr & Hl).
    assert (Hsame : forall evx, parse p [h1; h2] evx = Message_ParseMessage p [h1; h2] evx).
    { intros evx. apply (Hagree pre body h1 h2 more); try assumption.
      replace (bytes ++ c :: more) with ((bytes ++ [c]) ++ more)
        by (rewrite <- app_assoc; reflexivity).
      rewrite Hb, <- app_assoc. reflexivity. }
    destruct d as [state pb cb pi ci]. unfold parser_arguments in Pa.
    unfold Message_Decode_with.
    cbn [decode_state payload_buffer checksum_buffer payload_index checksum_index] in *.
    destruct state; try discriminate Pa.
    destruct (ci <? MESSAGE_CHECKSUM_LEN); [reflexivity |].
    destruct (ci =? MESSAGE_CHECKSUM_LEN); [reflexivity |].
    destruct (ci =? MESSAGE_CHECKSUM_LEN + 1); [| reflexivity].
    destruct (Ascii.eqb c LF); [| reflexivity]. cbn [andb] in Pa.
    destruct (cstr pb) as [p'|]; [| discriminate].
    destruct (cstr cb) as [k'|]; [| discriminate].
    injection Pa as -> ->. rewrite Hsame. reflexivity. }
  rewrite Hstep.
  destruct (decode_step_framed Message_ParseMessage bytes d c ev Hf)
    as (d' & ev' & st & E & Hf').
  rewrite E. fold (decode_all d' ev' more).
  rewrite (IH (bytes ++ [c]) d' ev' Hf'); [reflexivity |].
  intros pre body h1 h2 post p evx Hb. apply (Hagree pre body h1 h2 post).
  rewrite <- Hb, <- app_assoc. reflexivity.
Qed.

(** C4. Whatever bytes the decoder has received, a malformation that
    follows in a frame begun from the wait for a start delimiter (a carriage
    return or a start delimiter in the payload, a payload byte beyond the
    maximum, a checksum character that is no hexadecimal digit, a missing
    carriage return or line feed, a frame the parser refuses) is reported
    once, on the byte that makes it: NO_EVENT on every byte before it, ERROR
    and STANDARD_ERROR on it. The decoder then waits for the start delimiter,
    silent on every other byte, and the next start delimiter begins a fresh
    frame. Conversely an ERROR is reported only on a byte that makes a
    malformation. The parser is called on complete frames only: the decoder
    with any other parser that agrees with [Message_ParseMessage] on the
    payload (as a C string) and checksum digits of the complete frames among
    the bytes behaves as [Message_Decode]. *)
Theorem malformation_is_one_ERROR_and_a_resynchronization bytes d :
  received bytes d ->
  (forall m c ev,
     decode_state d = WAIT_FOR_START_DELIMITER ->
     malformation m c ->
     exists d1 d2 evs,
       decode_all d ev m = Some (d1, set_type BB_EVENT_NO_EVENT ev, evs) /\
       Forall (fun e => e_type e = BB_EVENT_NO_EVENT) evs /\
       Message_Decode d1 c (set_type BB_EVENT_NO_EVENT ev) =
         Some (d2, set_type BB_EVENT_ERROR ev, STANDARD_ERROR) /\
       decode_state d2 = WAIT_FOR_START_DELIMITER /\
       (forall c' ev2,
          c' <> "$"%char ->
          Message_Decode d2 c' ev2 =
            Some (d2, set_type BB_EVENT_NO_EVENT ev2, SUCCESS)) /\
       (forall ev2,
          Message_Decode d2 "$" ev2 =
            Some (frame_begun, set_type BB_EVENT_NO_EVENT ev2, SUCCESS))) /\
  (forall c ev d' ev' st,
     Message_Decode d c ev = Some (d', ev', st) ->
     e_type ev' = BB_EVENT_ERROR ->
     st = STANDARD_ERROR /\
     decode_state d' = WAIT_FOR_START_DELIMITER /\
     exists pre m, bytes = pre ++ m /\ malformation m c) /\
  (forall parse more ev,
     (forall pre body h1 h2 post p evx,
        bytes ++ more = pre ++ frame body h1 h2 ++ post ->
        forallb plain body = true ->
        (length body <= Z.to_nat MESSAGE_MAX_PAYLOAD_LEN)%nat ->
        isxdigit h1 = true -> isxdigit h2 = true ->
        cstr (body ++ [NUL]) = Some p ->
        parse p [h1; h2] evx = Message_ParseMessage p [h1; h2] evx) ->
     decode_all_with parse d ev more = decode_all d ev more).
Proof.
  intros Hr. split; [| split].
  - intros m c ev Hst Hm.
    destruct (malformation_detected bytes d ev m c Hr Hst Hm) as (d1 & R & E & Hfresh).
    exists d1, (set_decode_state WAIT_FOR_START_DELIMITER d1), (quiet ev m).
    split; [exact R |]. split; [apply quiet_no_event |]. split; [exact E |].
    split; [destruct d1; reflexivity |]. split; [| exact Hfresh].
    intros c' ev2 Hc'. unfold Message_Decode, Message_Decode_with.
    destruct d1. statics.
    destruct (Ascii.eqb_spec c' "$"); [contradiction | reflexivity].
  - intros c ev d' ev' st E He.
    split; [| split; [| exact (error_is_a_malformation bytes d c ev d' ev' st Hr E He)]].
    + pose proof (decode_step_outcome Message_ParseMessage d c ev d' ev' st E) as O.
      pose proof (ParseMessage_status) as PS.
      destruct (parser_arguments d c) as [[p k]|].
      * destruct O as (_ & -> & ->). specialize (PS p k ev).
        destruct (Message_ParseMessage p k ev) as [[|] e]; cbn [fst snd] in *;
          [destruct PS as [PS _]; contradiction | reflexivity].
      * destruct (framing_error d c); [destruct O as (_ & _ & ->); reflexivity |].
        destruct O as (-> & _). discriminate He.
    + pose proof (decode_step_outcome Message_ParseMessage d c ev d' ev' st E) as O.
      destruct (parser_arguments d c) as [[p k]|].
      * destruct O as (-> & _). destruct d; reflexivity.
      * destruct (framing_error d c); [destruct O as (-> & _); destruct d; reflexivity |].
        destruct O as (-> & _). discriminate He.
  - intros parse more ev Hagree.
    apply (decode_all_parser_on_frames parse more bytes d ev (received_framed _ _ Hr) Hagree).
Qed.

(** C5, as the code has it. The decoder accepts at most 76 payload bytes per
    frame: while it records the payload, a byte other than the checksum
    delimiter that arrives when 76 are recorded yields ERROR and the wait for
    the start delimiter, and no payload longer than 76 bytes is handed to the
    parser. *)
Theorem payload_is_limited_to_76_bytes bytes d :
  received bytes d ->
  MESSAGE_MAX_PAYLOAD_LEN = 76 /\
  payload_index d <= 76 /\
  (forall c ev,
     decode_state d = RECORDING_PAYLOAD ->
     payload_index d = 76 ->
     c <> "*"%char ->
     Message_Decode d c ev =
       Some (set_decode_state WAIT_FOR_START_DELIMITER d,
             set_type BB_EVENT_ERROR ev, STANDARD_ERROR)) /\
  (forall c p k, parser_arguments d c = Some (p, k) -> strlen p <= 76).
Proof.
  intros Hr. pose proof (received_framed bytes d Hr) as Hf.
  split; [reflexivity |]. split.
  { destruct Hf as (body & cs & _ & _ & _ & Hmax & _). exact Hmax. }
  split.
  - intros c ev Hst Hi Hc. unfold Message_Decode, Message_Decode_with.
    rewrite Hst, Hi.
    destruct (Ascii.eqb_spec c "*"); [contradiction |].
    destruct (Ascii.eqb c CR || Ascii.eqb c "$"); reflexivity.
  - intros c p k Pa.
    destruct (parser_arguments_framed bytes d c p k Hf Pa)
      as (pre & body & h1 & h2 & _ & _ & _ & _ & _ & Hp & Hl).
    destruct (cstr_app_NUL body []) as (q & Hq & Lq).
    rewrite Hp in Hq. injection Hq as <-.
    unfold strlen. change (Z.to_nat MESSAGE_MAX_PAYLOAD_LEN) with 76%nat in Hl. lia.
Qed.

(** C5, as stated, fails: after the start delimiter and 75 payload bytes, a
    76th payload byte is recorded with NO_EVENT, and the payload of 76 bytes
    reaches the parser when the frame is completed. *)
Lemma a_76th_payload_byte_is_recorded :
  exists d d' d'' p k,
    received ("$" :: replicate 75 "A") d /\
    decode_state d = RECORDING_PAYLOAD /\ payload_index d = 75 /\
    Message_Decode d "A" ev0 = Some (d', ev0, SUCCESS) /\
    e_type ev0 <> BB_EVENT_ERROR /\
    decode_state d' = RECORDING_PAYLOAD /\ payload_index d' = 76 /\
    received ("$" :: replicate 76 "A" ++ lit "*00\r") d'' /\
    parser_arguments d'' LF = Some (p, k) /\ strlen p = 76.
Proof.
  destruct (decode_all decoder_boot ev0 ("$" :: replicate 75 "A"))
    as [[[d e] evs]|] eqn:E; [| vm_compute in E; discriminate].
  destruct (Message_Decode d "A" ev0) as [[[d' e'] st]|] eqn:E';
    [| vm_compute in E; injection E as <- _ _; vm_compute in E'; discriminate].
  destruct (decode_all d' ev0 (lit "*00\r")) as [[[d'' e''] evs'']|] eqn:E'';
    [| vm_compute in E; injection E as <- _ _; vm_compute in E';
       injection E' as <- _ _; vm_compute in E''; discriminate].
  pose proof (received_all _ _ _ _ _ _ _ received_boot E) as R. cbn [app] in R.
  pose proof (received_byte _ _ _ _ _ _ _ R E') as R'.
  pose proof (received_all _ _ _ _ _ _ _ R' E'') as R''.
  vm_compute in E. injection E as <- _ _.
  vm_compute in E'. injection E' as <- <- <-.
  vm_compute in E''. injection E'' as <- _ _.
  eexists _, _, _, _, _.
  split; [exact R |]. split; [reflexivity |]. split; [reflexivity |].
  split; [reflexivity |]. split; [discriminate |].
  split; [reflexivity |]. split; [reflexivity |].
  split; [exact R'' |]. split; [vm_compute; reflexivity |]. reflexivity.
Qed.

(** *** A flipped bit *)

Lemma checksum_fold_lxor p : forall k,
  fold_left (fun checksum c => Z.lxor checksum (code c)) p k =
  Z.lxor k (fold_left (fun checksum c => Z.lxor checksum (code c)) p 0).
Proof.
  induction p as [| c p IH]; intros k; cbn.
  - rewrite Z.lxor_0_r. reflexivity.
  - rewrite (IH (Z.lxor k (code c))), (IH (Z.lxor 0 (code c))).
    rewrite Z.lxor_0_l, Z.lxor_assoc. reflexivity.
Qed.

Lemma checksum_app a b :
  Message_CalculateChecksum (a ++ b) =
  Z.lxor (Message_CalculateChecksum a) (Message_CalculateChecksum b).
Proof.
  unfold Message_CalculateChecksum. rewrite fold_left_app.
  apply checksum_fold_lxor.
Qed.

Lemma checksum_cons c b :
  Message_CalculateChecksum (c :: b) = Z.lxor (code c) (Message_CalculateChecksum b).
Proof.
  unfold Message_CalculateChecksum. cbn [fold_left]. rewrite Z.lxor_0_l.
  apply checksum_fold_lxor.
Qed.

Lemma pow2_byte k : 0 <= k < 8 -> 0 < 2 ^ k < 256.
Proof.
  intros Hk. split; [apply Z.pow_pos_nonneg; lia |].
  change 256 with (2 ^ 8). apply Z.pow_lt_mono_r; lia.
Qed.

Lemma code_flip_bit k c :
  0 <= k < 8 -> code (flip_bit k c) = Z.lxor (code c) (2 ^ k).
Proof.
  intros Hk. unfold flip_bit. apply code_chr.
  apply lxor_byte; [apply code_range | pose proof (pow2_byte k Hk); lia].
Qed.

Lemma lxor_changes x y : y <> 0 -> Z.lxor x y <> x.
Proof.
  intros Hy E. apply Hy.
  assert (Hx : Z.lxor x (Z.lxor x y) = y)
    by (rewrite <- Z.lxor_assoc, Z.lxor_nilpotent; apply Z.lxor_0_l).
  rewrite E, Z.lxor_nilpotent in Hx. symmetry. exact Hx.
Qed.

Lemma checksum_flip_bit s1 c s2 k :
  0 <= k < 8 ->
  Message_CalculateChecksum (s1 ++ flip_bit k c :: s2) <>
  Message_CalculateChecksum (s1 ++ c :: s2).
Proof.
  intros Hk. rewrite !checksum_app, !checksum_cons, (code_flip_bit k c Hk).
  set (x := Message_CalculateChecksum s1). set (y := Message_CalculateChecksum s2).
  replace (Z.lxor x (Z.lxor (Z.lxor (code c) (2 ^ k)) y))
    with (Z.lxor (Z.lxor x (Z.lxor (code c) y)) (2 ^ k)).
  - apply lxor_changes. pose proof (pow2_byte k Hk). lia.
  - rewrite !Z.lxor_assoc. do 2 f_equal. apply Z.lxor_comm.
Qed.

(** One half of C6 holds: a payload that parses with its checksum is an ERROR
    once a bit of one of its characters is flipped (to a character other than
    NUL, so that the string keeps its length). *)
Lemma payload_bit_flip_is_detected s1 c s2 k cs ev e :
  0 <= k < 8 ->
  flip_bit k c <> NUL ->
  Message_ParseMessage (s1 ++ c :: s2) cs ev = (SUCCESS, e) ->
  Message_ParseMessage (s1 ++ flip_bit k c :: s2) cs ev =
    (STANDARD_ERROR, set_type BB_EVENT_ERROR ev).
Proof.
  intros Hk _. pose proof (checksum_flip_bit s1 c s2 k Hk) as Hne.
  unfold Message_ParseMessage.
  destruct (negb _); [discriminate |].
  scanned1 cs ("%2X"%string); try discriminate.
  destruct (Message_CalculateChecksum (s1 ++ c :: s2) =? to_u8 _) eqn:E;
    [| discriminate].
  intros _. apply Z.eqb_eq in E. rewrite <- E.
  destruct (Message_CalculateChecksum (s1 ++ flip_bit k c :: s2) =?
            Message_CalculateChecksum (s1 ++ c :: s2)) eqn:E'; [| reflexivity].
  apply Z.eqb_eq in E'. contradiction.
Qed.

(** C6. A flipped bit in a checksum digit is not always an ERROR: bit 5 of
    the digit F of the checksum 5F of SHO,2,9 flipped gives f, and the
    message is parsed as before, from the parser and from the decoder. *)
Theorem lower_case_checksum_digit_is_accepted :
  Message_ParseMessage (lit "SHO,2,9") (lit "5F") ev0
    = (SUCCESS, mkEvent BB_EVENT_SHO_RECEIVED 2 9 0) /\
  flip_bit 5 "F" = "f"%char /\
  Message_ParseMessage (lit "SHO,2,9") ["5"%char; flip_bit 5 "F"] ev0
    = (SUCCESS, mkEvent BB_EVENT_SHO_RECEIVED 2 9 0) /\
  exists d evs,
    decode_all decoder_boot ev0 (lit "$SHO,2,9*5f\r\n")
    = Some (d, mkEvent BB_EVENT_SHO_RECEIVED 2 9 0, evs).
Proof.
  split; [vm_compute; reflexivity |].
  split; [vm_compute; reflexivity |].
  split; [vm_compute; reflexivity |].
  eexists _, _. vm_compute. reflexivity.
Qed.

(** *** What a successful parse implies *)

Lemma scan_literal_inv c ds input n vals :
  scan_directives (Lit c :: ds) input [] = (n, vals) -> 0 < n ->
  exists input', input = c :: input' /\ scan_directives ds input' [] = (n, vals).
Proof.
  cbn [scan_directives]. destruct input as [| x input'].
  - cbn. intros [= <- _]. unfold EOF. lia.
  - destruct (Ascii.eqb_spec x c) as [-> | _].
    + intros E _. exists input'. split; [reflexivity | exact E].
    + cbn. intros [= <- _]. lia.
Qed.

Lemma scan_literals_inv s : forall ds input n vals,
  scan_directives (map Lit s ++ ds) input [] = (n, vals) -> 0 < n ->
  exists input', input = s ++ input' /\ scan_directives ds input' [] = (n, vals).
Proof.
  induction s as [| c s IH]; intros ds input n vals E Hn.
  - exists input. split; [reflexivity | exact E].
  - cbn [map app] in E.
    destruct (scan_literal_inv _ _ _ _ _ E Hn) as (i1 & -> & E1).
    destruct (IH _ _ _ _ E1 Hn) as (i2 & -> & E2).
    exists i2. split; [reflexivity | exact E2].
Qed.

(** The strictness the parser has: a payload it accepts begins with one of the
    five tags and a comma, and the event is the one of the tag. *)
Lemma ParseMessage_success_begins_with_tag p k ev e :
  Message_ParseMessage p k ev = (SUCCESS, e) ->
  exists rest,
    (p = lit "CHA," ++ rest /\ e_type e = BB_EVENT_CHA_RECEIVED) \/
    (p = lit "ACC," ++ rest /\ e_type e = BB_EVENT_ACC_RECEIVED) \/
    (p = lit "REV," ++ rest /\ e_type e = BB_EVENT_REV_RECEIVED) \/
    (p = lit "SHO," ++ rest /\ e_type e = BB_EVENT_SHO_RECEIVED) \/
    (p = lit "RES," ++ rest /\ e_type e = BB_EVENT_RES_RECEIVED).
Proof.
  unfold Message_ParseMessage.
  destruct (negb _); [discriminate |].
  scanned1 k ("%2X"%string); try discriminate.
  destruct (negb _); [discriminate |].
  scanned1 p ("%3s"%string); try discriminate.
  destruct (streq _ _).
  { destruct (sscanf p "CHA,%u") as [n vals] eqn:E.
    assert (Hn : n = 1 -> exists rest, p = lit "CHA," ++ rest).
    { intros ->. unfold sscanf in E.
      change (parse_format "CHA,%u")
        with (map Lit (lit "CHA,") ++ [Conv false None "u"]) in E.
      destruct (scan_literals_inv _ _ _ _ _ E ltac:(lia)) as (rest & -> & _).
      exists rest. reflexivity. }
    destruct n as [|[?|?|]|?]; try discriminate.
    destruct vals as [|[?|?] [|? ?]]; try discriminate.
    intros [= <-]. destruct (Hn eq_refl) as (rest & ->).
    exists rest. left. split; reflexivity. }
  destruct (streq _ _).
  { destruct (sscanf p "ACC,%u") as [n vals] eqn:E.
    assert (Hn : n = 1 -> exists rest, p = lit "ACC," ++ rest).
    { intros ->. unfold sscanf in E.
      change (parse_format "ACC,%u")
        with (map Lit (lit "ACC,") ++ [Conv false None "u"]) in E.
      destruct (scan_literals_inv _ _ _ _ _ E ltac:(lia)) as (rest & -> & _).
      exists rest. reflexivity. }
    destruct n as [|[?|?|]|?]; try discriminate.
    destruct vals as [|[?|?] [|? ?]]; try discriminate.
    intros [= <-]. destruct (Hn eq_refl) as (rest & ->).
    exists rest. right. left. split; reflexivity. }
  destruct (streq _ _).
  { destruct (sscanf p "REV,%u") as [n vals] eqn:E.
    assert (Hn : n = 1 -> exists rest, p = lit "REV," ++ rest).
    { intros ->. unfold sscanf in E.
      change (parse_format "REV,%u")
        with (map Lit (lit "REV,") ++ [Conv false None "u"]) in E.
      destruct (scan_literals_inv _ _ _ _ _ E ltac:(lia)) as (rest & -> & _).
      exists rest. reflexivity. }
    destruct n as [|[?|?|]|?]; try discriminate.
    destruct vals as [|[?|?] [|? ?]]; try discriminate.
    intros [= <-]. destruct (Hn eq_refl) as (rest & ->).
    exists rest. do 2 right. left. split; reflexivity. }
  destruct (streq _ _).
  { destruct (sscanf p "SHO,%d,%d") as [n vals] eqn:E.
    assert (Hn : n = 2 -> exists rest, p = lit "SHO," ++ rest).
    { intros ->. unfold sscanf in E.
      change (parse_format "SHO,%d,%d")
        with (map Lit (lit "SHO,") ++
              Conv false None "d" :: map Lit [","] ++ [Conv false None "d"]) in E.
      destruct (scan_literals_inv _ _ _ _ _ E ltac:(lia)) as (rest & -> & _).
      exists rest. reflexivity. }
    destruct n as [|[?|[?|?|]|]|?]; try discriminate.
    destruct vals as [|[?|?] [|[?|?] [|? ?]]]; try discriminate.
    intros [= <-]. destruct (Hn eq_refl) as (rest & ->).
    exists rest. do 3 right. left. split; reflexivity. }
  destruct (streq _ _); [| discriminate].
  destruct (sscanf p "RES,%u,%u,%u") as [n vals] eqn:E.
  assert (Hn : n = 3 -> exists rest, p = lit "RES," ++ rest).
  { intros ->. unfold sscanf in E.
    change (parse_format "RES,%u,%u,%u")
      with (map Lit (lit "RES,") ++
            Conv false None "u" :: map Lit [","] ++
            Conv false None "u" :: map Lit [","] ++ [Conv false None "u"]) in E.
    destruct (scan_literals_inv _ _ _ _ _ E ltac:(lia)) as (rest & -> & _).
    exists rest. reflexivity. }
  destruct n as [|[[?|?|]|?|]|?]; try discriminate.
  destruct vals as [|[?|?] [|[?|?] [|[?|?] [|? ?]]]]; try discriminate.
  intros [= <-]. destruct (Hn eq_refl) as (rest & ->).
  exists rest. do 4 right. split; reflexivity.
Qed.

(** Too few fields are an ERROR. *)
Example too_few_fields :
  Message_ParseMessage (lit "RES,1,2") (lit "47") ev0
    = (STANDARD_ERROR, set_type BB_EVENT_ERROR ev0) /\
  Message_ParseMessage (lit "SHO,2") (lit "4A") ev0
    = (STANDARD_ERROR, set_type BB_EVENT_ERROR ev0) /\
  Message_ParseMessage (lit "CHA,") (lit "66") ev0
    = (STANDARD_ERROR, set_type BB_EVENT_ERROR ev0).
Proof. repeat split. Qed.

(** C7. The parser is not strict: it takes a payload with characters after
    the last field of the template (a further field, any text), and a field
    with white space or a sign before its digits. *)
Theorem parser_accepts_more_than_the_templates :
  Message_ParseMessage (lit "CHA,5,6") (lit "49") ev0
    = (SUCCESS, mkEvent BB_EVENT_CHA_RECEIVED 5 0 0) /\
  Message_ParseMessage (lit "RES,1,2,3,4") (lit "40") ev0
    = (SUCCESS, mkEvent BB_EVENT_RES_RECEIVED 1 2 3) /\
  Message_ParseMessage (lit "SHO,2,9x") (lit "27") ev0
    = (SUCCESS, mkEvent BB_EVENT_SHO_RECEIVED 2 9 0) /\
  Message_ParseMessage (lit "CHA, 5") (lit "73") ev0
    = (SUCCESS, mkEvent BB_EVENT_CHA_RECEIVED 5 0 0) /\
  Message_ParseMessage (lit "CHA,+5") (lit "78") ev0
    = (SUCCESS, mkEvent BB_EVENT_CHA_RECEIVED 5 0 0) /\
  exists d evs,
    decode_all decoder_boot ev0 (lit "$CHA,5,6*49\r\n")
    = Some (d, mkEvent BB_EVENT_CHA_RECEIVED 5 0 0, evs).
Proof.
  repeat (split; [vm_compute; reflexivity |]).
  eexists _, _. vm_compute. reflexivity.
Qed.

(* ===================================================================== *)
(** ** The agent protocol                                                 *)
(* ===================================================================== *)

Section AgentProperties.
Context `{Field_h}.

Ltac run_agent :=
  cbv beta iota zeta delta
      [AgentRun AgentInit bind ret get modify emit draw_screen
       call_rand place_all_boats decide_guess in_step same_match rand
       agentState turn_counter oppField ownField A B hashA own_guess playerTurn
       turn_order endScreenDrawn guess_statics rand_state output e_type param0
       param1 param2 BB_EventType_eqb negb g_row g_col g_result
       set_agentState set_turn_counter set_oppField set_ownField set_A set_B
       set_hashA set_own_guess set_playerTurn set_turn_order set_endScreenDrawn
       set_guess_statics set_rand_state set_output].

Ltac fields :=
  cbn [agentState turn_counter oppField ownField A B hashA own_guess playerTurn
       turn_order endScreenDrawn guess_statics rand_state output e_type param0
       param1 param2].

Ltac case_on_calls :=
  repeat first
    [ match goal with
      | |- context [FieldAIPlaceAllBoats ?a ?b ?c] =>
          destruct (FieldAIPlaceAllBoats a b c) as [[[[|] ?] ?]|]
      | |- context [FieldAIDecideGuess ?a ?b ?c] =>
          destruct (FieldAIDecideGuess a b c) as [[? ?]|]
      | |- context [FieldRegisterEnemyAttack ?a ?b] =>
          destruct (FieldRegisterEnemyAttack a b) as [[? ?] ?]
      | |- context [NegotiateCoinFlip ?a ?b] =>
          destruct (NegotiateCoinFlip a b)
      | |- context [NegotiationVerify ?a ?b] =>
          destruct (NegotiationVerify a b)
      | |- context [if ?c then _ else _] => destruct c
      end; run_agent ].

(** An event no state tests for, other than the reset, runs no branch that
    assigns to the match: the world changes in its effects and in the
    end-screen flag only. *)
Lemma AgentRun_unhandled fuel event w :
  e_type event <> BB_EVENT_RESET_BUTTON ->
  handled (agentState w) (e_type event) = false ->
  exists out drawn,
    AgentRun fuel event w =
      Some (mkMessage MESSAGE_NONE 0 0 0,
            set_endScreenDrawn drawn (set_output (output w ++ out) w)).
Proof.
  intros Hreset Hh. destruct w as [st tc opp own a b h g pt to esd gs rs out].
  destruct event as [t p0 p1 p2]. cbn in Hreset, Hh.
  destruct st, t; try discriminate Hh; try congruence.
  all: try (exists [], esd; run_agent; rewrite app_nil_r; reflexivity).
  all: try (eexists _, esd; run_agent; rewrite <- !app_assoc; reflexivity).
  all: destruct esd;
    try (exists [], true; run_agent; rewrite app_nil_r; reflexivity).
  all: run_agent.
  all: repeat match goal with
         | |- context [if ?c then _ else _] => destruct c
         end.
  all: eexists _, true; rewrite <- !app_assoc; reflexivity.
Qed.

(** Conversely, an event the state tests for is never ignored: whenever the
    call returns, the agent has moved to another state or hands back a
    message to send.  [handled] is exactly the set of events that are not
    ignored. *)
Lemma handled_event_is_not_ignored fuel event w m w' :
  e_type event <> BB_EVENT_RESET_BUTTON ->
  handled (agentState w) (e_type event) = true ->
  AgentRun fuel event w = Some (m, w') ->
  agentState w' <> agentState w \/ m_type m <> MESSAGE_NONE.
Proof.
  intros Hreset Hh. destruct w as [st tc opp own a b h g pt to esd gs rs out].
  destruct event as [t p0 p1 p2]. cbn in Hreset, Hh.
  destruct st, t; try discriminate Hh; try congruence; run_agent.
  all: case_on_calls.
  all: try discriminate.
  all: intros [= <- <-]; cbn; first [left; discriminate | right; discriminate].
Qed.

Lemma ERROR_is_handled_nowhere s : handled s BB_EVENT_ERROR = false.
Proof. destruct s; reflexivity. Qed.

(** C8. In every state, an event that the state does not handle (an ERROR
    event in particular, which no state handles) and that is not the reset
    leaves the agent state and A, B and hashA as they were, and the message
    returned is of type NONE. *)
Theorem unhandled_event_is_ignored fuel event w :
  e_type event <> BB_EVENT_RESET_BUTTON ->
  handled (agentState w) (e_type event) = false \/
  e_type event = BB_EVENT_ERROR ->
  exists m w',
    AgentRun fuel event w = Some (m, w') /\
    m_type m = MESSAGE_NONE /\
    agentState w' = agentState w /\
    A w' = A w /\ B w' = B w /\ hashA w' = hashA w.
Proof.
  intros Hreset Hh.
  assert (Hf : handled (agentState w) (e_type event) = false).
  { destruct Hh as [Hh | Hh]; [exact Hh |].
    rewrite Hh. apply ERROR_is_handled_nowhere. }
  destruct (AgentRun_unhandled fuel event w Hreset Hf) as (out & drawn & E).
  eexists _, _. split; [exact E |]. repeat split.
Qed.

(** C2. In state ACCEPTING, a REV_RECEIVED event whose secret does not
    verify against hashA takes the agent to END_SCREEN, neither ATTACKING
    nor DEFENDING, showing the cheat outcome; the message returned is of
    type NONE. *)
Theorem failed_verification_ends_the_match fuel event w :
  agentState w = AGENT_STATE_ACCEPTING ->
  e_type event = BB_EVENT_REV_RECEIVED ->
  NegotiationVerify (param0 event) (hashA w) = false ->
  exists m w',
    AgentRun fuel event w = Some (m, w') /\
    m_type m = MESSAGE_NONE /\
    agentState w' = AGENT_STATE_END_SCREEN /\
    agentState w' <> AGENT_STATE_ATTACKING /\
    agentState w' <> AGENT_STATE_DEFENDING /\
    output w' = output w ++ cheat_outcome.
Proof.
  destruct w as [st tc opp own a b h g pt to esd gs rs out].
  destruct event as [t p0 p1 p2]. fields. intros -> -> V.
  run_agent. rewrite V. run_agent.
  eexists _, _. split; [reflexivity |]. cbn.
  repeat split; try discriminate. rewrite <- !app_assoc. reflexivity.
Qed.

(** What the branch of a verified reveal does: the coin is flipped on
    [param1] of the event. *)
Lemma verified_reveal fuel event w g s :
  agentState w = AGENT_STATE_ACCEPTING ->
  e_type event = BB_EVENT_REV_RECEIVED ->
  NegotiationVerify (param0 event) (hashA w) = true ->
  FieldAIDecideGuess 2 (oppField w) (guess_statics w) = Some (g, s) ->
  exists w',
    AgentRun fuel event w =
      Some (mkMessage MESSAGE_SHO (g_row g) (g_col g) 0, w') /\
    agentState w' =
      match NegotiateCoinFlip (param1 event) (B w) with
      | TAILS => AGENT_STATE_ATTACKING
      | HEADS => AGENT_STATE_DEFENDING
      end.
Proof.
  destruct w as [st tc opp own a b h g0 pt to esd gs rs out].
  destruct event as [t p0 p1 p2]. fields. intros -> -> V D.
  run_agent. rewrite V, D. run_agent.
  destruct (NegotiateCoinFlip p1 b); eexists; split; reflexivity.
Qed.

(** The worlds after a reset. *)
Lemma AgentRun_reset fuel event w :
  e_type event = BB_EVENT_RESET_BUTTON ->
  exists w',
    AgentRun fuel event w = Some (mkMessage MESSAGE_NONE 0 0 0, w') /\
    freshly_initialized w' /\
    own_guess w' = own_guess w /\ turn_order w' = turn_order w /\
    guess_statics w' = guess_statics w /\ rand_state w' = rand_state w /\
    output w' =
      output w ++ [OLED_Init; OLED_Clear OLED_COLOR_BLACK;
                   OLED_DrawString (lit welcome); OLED_Update].
Proof.
  destruct w as [st tc opp own a b h g pt to esd gs rs out].
  destruct event as [t p0 p1 p2]. fields. intros ->.
  eexists. split; [run_agent; reflexivity |].
  repeat split. run_agent. rewrite <- !app_assoc. reflexivity.
Qed.

(** Worlds in the same match stay so, call after call, and return the same
    messages. *)
Lemma AgentRun_same_match fuel event w1 w2 :
  same_match w1 w2 ->
  in_step same_match (AgentRun fuel event w1) (AgentRun fuel event w2).
Proof.
  destruct w1 as [st tc opp own a b h g pt to esd gs rs out].
  destruct w2 as [st2 tc2 opp2 own2 a2 b2 h2 g2 pt2 to2 esd2 gs2 rs2 out2].
  intros S. red in S. cbn in S.
  destruct S as (<- & <- & <- & <- & <- & <- & <- & <- & <- & <- & <- & <- & Hg).
  destruct event as [t p0 p1 p2].
  destruct t, st;
    try (destruct g as [gr gc gres], g2 as [gr2 gc2 gres2];
         destruct (Hg eq_refl) as [Hr Hc]; cbn in Hr, Hc; subst gr2 gc2);
    clear Hg; run_agent.
  all: case_on_calls.
  all: try exact I.
  all: split; [reflexivity|]; repeat (split; [reflexivity|]);
       intros; try discriminate; split; reflexivity.
Qed.

Lemma AgentRun_all_same_match calls : forall w1 w2,
  same_match w1 w2 ->
  in_step same_match (AgentRun_all calls w1) (AgentRun_all calls w2).
Proof.
  induction calls as [| [fuel event] calls IH]; intros w1 w2 S.
  - cbn. split; [reflexivity | exact S].
  - cbn [AgentRun_all].
    pose proof (AgentRun_same_match fuel event w1 w2 S) as St.
    destruct (AgentRun fuel event w1) as [[m1 u1]|],
             (AgentRun fuel event w2) as [[m2 u2]|]; cbn in St; try contradiction.
    + destruct St as [-> S']. specialize (IH u1 u2 S').
      destruct (AgentRun_all calls u1) as [[ms1 v1]|],
               (AgentRun_all calls u2) as [[ms2 v2]|]; cbn in IH |- *;
        try contradiction; [| exact I].
      destruct IH as [-> S'']. split; [reflexivity | exact S''].
    + exact I.
Qed.

Lemma hunt_statics f s g s' : hunt f s = Some (g, s') -> s' = s.
Proof.
  unfold hunt.
  repeat match goal with
         | |- context [first_unknown ?a ?b ?c] =>
             generalize (first_unknown a b c)
         end.
  intros [[[r c]|]|] [[[r' c']|]|]; try discriminate; intros [= <- <-]; reflexivity.
Qed.

Lemma FieldAIDecideGuess_hunts fuel f :
  FieldAIDecideGuess (S fuel) f guess_boot = hunt f guess_boot.
Proof. reflexivity. Qed.

(** The statics of [FieldAIDecideGuess] never leave their initial values:
    [lastGuess] is assigned nowhere, so the function stays in hunt mode. *)
Lemma FieldAIDecideGuess_statics fuel f g s :
  FieldAIDecideGuess fuel f guess_boot = Some (g, s) -> s = guess_boot.
Proof.
  destruct fuel as [| fuel]; [discriminate |].
  rewrite FieldAIDecideGuess_hunts. apply hunt_statics.
Qed.

Lemma AgentRun_guess_statics fuel event w m w' :
  guess_statics w = guess_boot ->
  AgentRun fuel event w = Some (m, w') ->
  guess_statics w' = guess_boot.
Proof.
  destruct w as [st tc opp own a b h g pt to esd gs rs out].
  destruct event as [t p0 p1 p2]. fields. intros ->.
  destruct t, st; run_agent.
  all: repeat first
    [ match goal with
      | |- context [FieldAIPlaceAllBoats ?a ?b ?c] =>
          destruct (FieldAIPlaceAllBoats a b c) as [[[[|] ?] ?]|]
      | |- context [FieldAIDecideGuess ?a ?b ?c] =>
          let E := fresh "E" in
          destruct (FieldAIDecideGuess a b c) as [[? ?]|] eqn:E;
          [apply FieldAIDecideGuess_statics in E; subst |]
      | |- context [FieldRegisterEnemyAttack ?a ?b] =>
          destruct (FieldRegisterEnemyAttack a b) as [[? ?] ?]
      | |- context [NegotiateCoinFlip ?a ?b] =>
          destruct (NegotiateCoinFlip a b)
      | |- context [NegotiationVerify ?a ?b] =>
          destruct (NegotiationVerify a b)
      | |- context [if ?c then _ else _] => destruct c
      end; run_agent ].
  all: try discriminate.
  all: intros [= <- <-]; reflexivity.
Qed.

(** What a reset assigns, and why what it leaves is not seen through
    [AgentRun]: it returns a message of type NONE and leaves the variables
    [AgentInit] assigns as it makes them. [own_guess] and [turn_order], which
    it does not assign, are written before they are read on every path of
    [AgentRun]: two agents reset from any two states, in the same
    surroundings, return the same messages and stay in the same match for
    every sequence of events that follows. *)
Lemma reset_assigns_what_AgentRun_reads fuel event w :
  e_type event = BB_EVENT_RESET_BUTTON ->
  exists m w',
    AgentRun fuel event w = Some (m, w') /\
    m_type m = MESSAGE_NONE /\
    agentState w' = AGENT_STATE_START /\
    A w' = 0 /\ B w' = 0 /\ hashA w' = 0 /\
    ownField w' = fst FieldInit /\ oppField w' = snd FieldInit /\
    freshly_initialized w' /\
    forall fuel2 event2 w2 m2 w2' calls,
      same_surroundings w w2 ->
      e_type event2 = BB_EVENT_RESET_BUTTON ->
      AgentRun fuel2 event2 w2 = Some (m2, w2') ->
      in_step same_match (AgentRun_all calls w') (AgentRun_all calls w2').
Proof.
  intros Hr.
  destruct (AgentRun_reset fuel event w Hr)
    as (w' & E & F & Hg & Ht & Hs & Hrand & Hout).
  exists (mkMessage MESSAGE_NONE 0 0 0), w'.
  split; [exact E |]. split; [reflexivity |].
  pose proof F as (F1 & F2 & F3 & F4 & F5 & F6 & F7 & F8 & F9).
  repeat (split; [assumption |]).
  intros fuel2 event2 w2 m2 w2' calls (S1 & S2 & S3) Hr2 E2.
  destruct (AgentRun_reset fuel2 event2 w2 Hr2)
    as (w2'' & E2' & G & _ & _ & Hs2 & Hrand2 & Hout2).
  rewrite E2 in E2'. injection E2' as _ <-.
  destruct G as (G1 & G2 & G3 & G4 & G5 & G6 & G7 & G8 & G9).
  apply AgentRun_all_same_match. red.
  repeat split; try congruence.
  all: rewrite F1; discriminate.
Qed.

End AgentProperties.

(** C1. In state ACCEPTING the agent flips the coin on [param1] of the
    REV_RECEIVED event, not on the revealed secret in [param0]: with
    commitment [hash(1)], [B = 0] and the event as the decoder delivers the
    frame of REV,1 into a cleared structure, the secret verifies and the coin
    of (1, 0) is HEADS, yet the agent goes to ATTACKING, the state of
    TAILS. *)
Theorem accepting_flips_the_coin_on_param1 :
  let event := mkEvent BB_EVENT_REV_RECEIVED 1 0 0 in
  (exists d evs,
     decode_all decoder_boot (mkEvent BB_EVENT_NO_EVENT 0 0 0)
       (fst (Message_Encode (mkMessage MESSAGE_REV 1 0 0)))
     = Some (d, event, evs)) /\
  NegotiationVerify (param0 event) (hashA accepting_world) = true /\
  NegotiateCoinFlip (param0 event) (B accepting_world) = HEADS /\
  exists m w',
    @AgentRun Field_h_usual 0 event accepting_world = Some (m, w') /\
    m_type m = MESSAGE_SHO /\
    agentState w' = AGENT_STATE_ATTACKING.
Proof.
  cbv zeta. split; [| split; [| split]].
  - eexists _, _. vm_compute. reflexivity.
  - vm_compute. reflexivity.
  - vm_compute. reflexivity.
  - eexists _, _. split; [vm_compute; reflexivity |]. split; reflexivity.
Qed.

(** C9. A reset does not reinitialize everything: [AgentInit] assigns
    neither [own_guess] nor [turn_order]. After a match in which the agent,
    the challenger with the coin on HEADS, has shot at (0, 0) and then at
    (0, 4), a RESET_BUTTON event returns NONE and leaves the state START, A,
    B, hashA and the turn counter zero and both fields as [FieldInit] makes
    them, but [own_guess] is still the shot at (0, 4) and [turn_order] still
    HEADS. The guess that survived is read: with the state set to ATTACKING
    by [AgentSetState], a RES_RECEIVED event marks (0, 4) of the new
    opponent's field HIT, a square no shot of the new match was aimed at. *)
Theorem reset_keeps_the_last_guess :
  exists msgs w w' w2 w3,
    @AgentRun_all Field_h_usual match_played (world_in AGENT_STATE_START) =
      Some (msgs, w) /\
    agentState w = AGENT_STATE_ATTACKING /\
    own_guess w = mkGuess 0 4 RESULT_MISS /\ turn_order w = HEADS /\
    @AgentRun Field_h_usual 0 (mkEvent BB_EVENT_RESET_BUTTON 0 0 0) w =
      Some (mkMessage MESSAGE_NONE 0 0 0, w') /\
    agentState w' = AGENT_STATE_START /\
    A w' = 0 /\ B w' = 0 /\ hashA w' = 0 /\ turn_counter w' = 0 /\
    ownField w' = mkField (replicate 6 (replicate 10 FIELD_SQUARE_EMPTY)) 0 0 0 0 /\
    oppField w' = mkField (replicate 6 (replicate 10 FIELD_SQUARE_UNKNOWN)) 3 4 5 6 /\
    own_guess w' = mkGuess 0 4 RESULT_MISS /\ turn_order w' = HEADS /\
    AgentSetState AGENT_STATE_ATTACKING w' = Some (tt, w2) /\
    @AgentRun Field_h_usual 0 (mkEvent BB_EVENT_RES_RECEIVED 0 0 RESULT_HIT) w2 =
      Some (mkMessage MESSAGE_NONE 0 0 0, w3) /\
    status_at (oppField w') (0, 4) = FIELD_SQUARE_UNKNOWN /\
    status_at (oppField w3) (0, 4) = FIELD_SQUARE_HIT.
Proof.
  destruct (@AgentRun_all Field_h_usual match_played (world_in AGENT_STATE_START))
    as [[msgs w]|] eqn:E; [| vm_compute in E; discriminate].
  vm_compute in E. injection E as <- <-.
  eexists _, _, _, _, _.
  split; [reflexivity |].
  repeat (split; [vm_compute; reflexivity |]).
  vm_compute; reflexivity.
Qed.

(* ===================================================================== *)
(** ** The fields                                                         *)
(* ===================================================================== *)

Section FieldProperties.

Context `{Field_h}.

Lemma on_field_dec row col : {on_field row col} + {~ on_field row col}.
Proof.
  unfold on_field.
  destruct (Z_le_dec 0 row), (Z_lt_dec row FIELD_ROWS),
           (Z_le_dec 0 col), (Z_lt_dec col FIELD_COLS);
    first [left; lia | right; lia].
Qed.

Lemma grid_get_on g row col :
  grid_shape g -> on_field row col -> exists p, grid_get g row col = Some p.
Proof.
  intros [Hr Hc] [Hrow Hcol]. unfold grid_get, FIELD_ROWS, FIELD_COLS in *.
  destruct (0 <=? row) eqn:E1; [| lia]. destruct (0 <=? col) eqn:E2; [| lia].
  cbn [andb].
  destruct (lookup_lt_is_Some_2 g (Z.to_nat row) ltac:(lia)) as [r Er].
  rewrite Er.
  pose proof (Forall_lookup_1 _ _ _ _ Hc Er) as Lr. cbn in Lr.
  destruct (lookup_lt_is_Some_2 r (Z.to_nat col) ltac:(lia)) as [p Ep].
  exists p. exact Ep.
Qed.

Lemma grid_get_off g row col :
  grid_shape g -> ~ on_field row col -> grid_get g row col = None.
Proof.
  intros [Hr Hc] Hoff. unfold grid_get, on_field, FIELD_ROWS, FIELD_COLS in *.
  destruct (0 <=? row) eqn:E1; [| reflexivity].
  destruct (0 <=? col) eqn:E2; [| reflexivity]. cbn [andb].
  destruct (g !! Z.to_nat row) as [r|] eqn:Er; [| reflexivity].
  pose proof (Forall_lookup_1 _ _ _ _ Hc Er) as Lr. cbn in Lr.
  pose proof (lookup_lt_is_Some_1 g (Z.to_nat row) ltac:(rewrite Er; eauto)) as Lg.
  apply lookup_ge_None_2. lia.
Qed.

Lemma grid_get_Some_on g row col p :
  grid_shape g -> grid_get g row col = Some p -> on_field row col.
Proof.
  intros Hs E. destruct (on_field_dec row col) as [|Hoff]; [assumption |].
  rewrite (grid_get_off g row col Hs Hoff) in E. discriminate.
Qed.

Lemma grid_set_on g row col p :
  grid_shape g -> on_field row col ->
  exists g', grid_set g row col p = Some g' /\ grid_shape g' /\
    grid_get g' row col = Some p /\
    forall row' col', (row', col') <> (row, col) ->
      grid_get g' row' col' = grid_get g row' col'.
Proof.
  intros Hs Hon. destruct (grid_get_on g row col Hs Hon) as [old Eold].
  unfold grid_set. rewrite Eold.
  destruct Hs as [Hr Hc]. destruct Hon as [Hrow Hcol].
  unfold grid_get, FIELD_ROWS, FIELD_COLS in *.
  destruct (0 <=? row) eqn:E1; [| lia]. destruct (0 <=? col) eqn:E2; [| lia].
  cbn [andb] in *.
  destruct (g !! Z.to_nat row) as [r|] eqn:Er; [| discriminate].
  pose proof (Forall_lookup_1 _ _ _ _ Hc Er) as Lr. cbn in Lr.
  eexists. split; [reflexivity |]. split; [| split].
  - split; [rewrite length_insert; exact Hr |].
    apply Forall_insert; [exact Hc |]. rewrite length_insert. exact Lr.
  - rewrite list_lookup_insert_eq by lia.
    apply list_lookup_insert_eq. lia.
  - intros row' col' Hne.
    destruct (0 <=? row') eqn:E3; [| reflexivity].
    destruct (0 <=? col') eqn:E4; [| reflexivity]. cbn [andb].
    destruct (Nat.eq_dec (Z.to_nat row) (Z.to_nat row')) as [Eq | Ne].
    + rewrite <- Eq, Er. rewrite list_lookup_insert_eq by lia.
      apply list_lookup_insert_ne. intros Eq2.
      apply Hne. f_equal; lia.
    + rewrite list_lookup_insert_ne by exact Ne. reflexivity.
Qed.

Lemma grid_set_off g row col p :
  grid_shape g -> ~ on_field row col -> grid_set g row col p = None.
Proof.
  intros Hs Hoff. unfold grid_set. rewrite (grid_get_off g row col Hs Hoff).
  reflexivity.
Qed.

Lemma Get_on f row col :
  well_formed f -> on_field row col ->
  grid_get (grid f) row col = Some (FieldGetSquareStatus f row col).
Proof.
  intros Hs Hon. destruct (grid_get_on _ _ _ Hs Hon) as [p Ep].
  unfold FieldGetSquareStatus. rewrite Ep.
  destruct Hon as [Hr Hc].
  destruct (row >=? FIELD_ROWS) eqn:E1; [lia |].
  destruct (col >=? FIELD_COLS) eqn:E2; [lia |]. reflexivity.
Qed.

Lemma Get_grid f row col :
  FieldGetSquareStatus f row col =
  match grid_get (grid f) row col with
  | Some p => if (row >=? FIELD_ROWS) || (col >=? FIELD_COLS)
              then FIELD_SQUARE_INVALID else p
  | None => FIELD_SQUARE_INVALID
  end.
Proof.
  unfold FieldGetSquareStatus.
  destruct ((row >=? FIELD_ROWS) || (col >=? FIELD_COLS));
    destruct (grid_get (grid f) row col); reflexivity.
Qed.

(** Two fields with the same squares read the same everywhere. *)
Lemma Get_ext f f' row col :
  grid_get (grid f') row col = grid_get (grid f) row col ->
  FieldGetSquareStatus f' row col = FieldGetSquareStatus f row col.
Proof. intros E. rewrite !Get_grid, E. reflexivity. Qed.

Lemma field_init_spec :
  well_formed (fst FieldInit) /\ well_formed (snd FieldInit) /\
  (forall row col, on_field row col ->
     FieldGetSquareStatus (fst FieldInit) row col = FIELD_SQUARE_EMPTY /\
     FieldGetSquareStatus (snd FieldInit) row col = FIELD_SQUARE_UNKNOWN) /\
  (forall t, boat_lives t (fst FieldInit) = 0 /\
             boat_lives t (snd FieldInit) = boat_size t) /\
  FieldGetBoatStates (fst FieldInit) = 0.
Proof.
  split; [| split; [| split; [| split]]].
  - split; [reflexivity |]. cbn. repeat constructor.
  - split; [reflexivity |]. cbn. repeat constructor.
  - intros row col [Hr Hc]. unfold FIELD_ROWS, FIELD_COLS in *.
    assert (Er : row = 0 \/ row = 1 \/ row = 2 \/ row = 3 \/ row = 4 \/ row = 5) by lia.
    assert (Ec : col = 0 \/ col = 1 \/ col = 2 \/ col = 3 \/ col = 4 \/
                 col = 5 \/ col = 6 \/ col = 7 \/ col = 8 \/ col = 9) by lia.
    repeat (destruct Er as [-> | Er]); try subst row;
      repeat (destruct Ec as [-> | Ec]); try subst col; split; reflexivity.
  - intros []; split; reflexivity.
  - reflexivity.
Qed.

(** X1. [FieldInit] leaves both grids with their declared shape, every
    square of the agent's own field EMPTY and every square of the opponent's
    field UNKNOWN; the agent's boats have no lives yet, so that
    [FieldGetBoatStates] of its field is 0, and the opponent's have the full
    length of each boat. *)
Theorem FieldInit_fields :
  well_formed (fst FieldInit) /\ well_formed (snd FieldInit) /\
  (forall row col, on_field row col ->
     FieldGetSquareStatus (fst FieldInit) row col = FIELD_SQUARE_EMPTY /\
     FieldGetSquareStatus (snd FieldInit) row col = FIELD_SQUARE_UNKNOWN) /\
  (forall t, boat_lives t (fst FieldInit) = 0 /\
             boat_lives t (snd FieldInit) = boat_size t) /\
  FieldGetBoatStates (fst FieldInit) = 0.
Proof. exact field_init_spec. Qed.

(** X2. On a square of the field, [FieldSetSquareStatus] returns what
    [FieldGetSquareStatus] read there before; afterwards
    [FieldGetSquareStatus] reads the new value there and the old values
    everywhere else, and the lives and the shape of the grid are untouched. *)
Theorem set_then_get f row col p :
  well_formed f -> on_field row col ->
  exists f',
    FieldSetSquareStatus f row col p = (FieldGetSquareStatus f row col, f') /\
    FieldGetSquareStatus f' row col = p /\
    (forall row' col', (row', col') <> (row, col) ->
       FieldGetSquareStatus f' row' col' = FieldGetSquareStatus f row' col') /\
    (forall t, boat_lives t f' = boat_lives t f) /\
    well_formed f'.
Proof.
  intros Hs Hon.
  destruct (grid_set_on (grid f) row col p Hs Hon) as (g' & Eset & Hs' & Eget & Hother).
  exists (set_grid g' f). unfold FieldSetSquareStatus.
  rewrite (Get_on f row col Hs Hon), Eset.
  destruct Hon as [Hr Hc].
  destruct (row >=? FIELD_ROWS) eqn:E1; [lia |].
  destruct (col >=? FIELD_COLS) eqn:E2; [lia |]. cbn [orb].
  split; [reflexivity |]. split; [| split; [| split]].
  - unfold FieldGetSquareStatus. rewrite E1, E2. cbn [orb set_grid grid].
    rewrite Eget. reflexivity.
  - intros row' col' Hne. apply Get_ext. cbn [set_grid grid].
    apply Hother, Hne.
  - intros []; reflexivity.
  - exact Hs'.
Qed.

(** X3. A row of FIELD_ROWS or more, or a column of FIELD_COLS or more, is
    refused by the four accessors: the getter and the setter return INVALID,
    an attack is registered as a MISS and returns INVALID, the knowledge
    update returns INVALID, and the field is left as it was. *)
Theorem off_field_is_invalid f row col p res :
  row >= FIELD_ROWS \/ col >= FIELD_COLS ->
  FieldGetSquareStatus f row col = FIELD_SQUARE_INVALID /\
  FieldSetSquareStatus f row col p = (FIELD_SQUARE_INVALID, f) /\
  FieldRegisterEnemyAttack f (mkGuess row col res) =
    (FIELD_SQUARE_INVALID, f, mkGuess row col RESULT_MISS) /\
  FieldUpdateKnowledge f (mkGuess row col res) = (FIELD_SQUARE_INVALID, f).
Proof.
  intros Hoff.
  assert (E : (row >=? FIELD_ROWS) || (col >=? FIELD_COLS) = true).
  { apply orb_true_iff. destruct Hoff; [left | right]; lia. }
  unfold FieldGetSquareStatus, FieldSetSquareStatus, FieldRegisterEnemyAttack,
    FieldUpdateKnowledge. cbn [g_row g_col]. rewrite E. repeat split.
Qed.

Lemma SquareStatus_eqb_eq a b : SquareStatus_eqb a b = true <-> a = b.
Proof. destruct a, b; cbn; split; congruence. Qed.

Lemma to_u8_small z : 0 <= z < 256 -> to_u8 z = z.
Proof. intros Hz. apply Z.mod_small, Hz. Qed.

Lemma boat_size_range t : 0 <= boat_size t < 256.
Proof. unfold boat_size, to_u8. apply Z.mod_pos_bound. lia. Qed.

Lemma boat_squares_at row col dir len :
  on_field row col -> fits row col dir len ->
  boat_squares row col dir len =
  map (fun i : nat => boat_at row col dir (Z.of_nat i)) (seq 0 (Z.to_nat len)).
Proof.
  intros [Hr Hc] Hf. unfold boat_squares. apply map_ext_in.
  intros i Hi. apply in_seq in Hi. unfold FIELD_ROWS, FIELD_COLS, fits in *.
  destruct dir; cbn [boat_at]; cbn beta iota in Hf;
    unfold FIELD_ROWS, FIELD_COLS in Hf;
    rewrite !to_u8_small by lia; rewrite ?Z.add_0_r; reflexivity.
Qed.

Lemma boat_at_on row col dir len i :
  on_field row col -> fits row col dir len -> 0 <= i < len ->
  on_field (fst (boat_at row col dir i)) (snd (boat_at row col dir i)).
Proof.
  intros [Hr Hc] Hf Hi. unfold on_field, fits in *.
  destruct dir; cbn in *; unfold FIELD_ROWS, FIELD_COLS in *; lia.
Qed.

Lemma In_boat_squares row col dir len rc :
  on_field row col -> fits row col dir len ->
  In rc (boat_squares row col dir len) <->
  exists i, 0 <= i < len /\ rc = boat_at row col dir i.
Proof.
  intros Hon Hf. rewrite (boat_squares_at _ _ _ _ Hon Hf), in_map_iff. split.
  - intros (i & <- & Hi). apply in_seq in Hi. exists (Z.of_nat i). split; [lia | reflexivity].
  - intros (i & Hi & ->). exists (Z.to_nat i). rewrite Z2Nat.id by lia.
    split; [reflexivity |]. apply in_seq. lia.
Qed.

Lemma square_eq_dec (x y : Z * Z) : {x = y} + {x <> y}.
Proof. decide equality; apply Z.eq_dec. Qed.

Lemma all_empty_spec g sq :
  grid_shape g ->
  (forall rc, In rc sq -> on_field (fst rc) (snd rc)) ->
  exists b, all_empty g sq = Some b /\
    (b = true <-> forall rc, In rc sq ->
                    grid_get g (fst rc) (snd rc) = Some FIELD_SQUARE_EMPTY).
Proof.
  intros Hs. induction sq as [| [r c] sq IH]; intros Hon.
  - exists true. split; [reflexivity |]. split; [intros _ rc [] | reflexivity].
  - destruct (grid_get_on g r c Hs (Hon (r, c) (or_introl eq_refl))) as [p Ep].
    cbn [all_empty]. rewrite Ep.
    destruct (SquareStatus_eqb p FIELD_SQUARE_EMPTY) eqn:E; cbn [negb].
    + apply SquareStatus_eqb_eq in E. subst p.
      destruct IH as (b & Eb & Hb); [intros rc Hrc; apply Hon; right; exact Hrc |].
      exists b. split; [exact Eb |]. rewrite Hb. split.
      * intros Hall rc [<- | Hrc]; [exact Ep | apply Hall, Hrc].
      * intros Hall rc Hrc. apply Hall. right. exact Hrc.
    + exists false. split; [reflexivity |]. split; [discriminate |].
      intros Hall. specialize (Hall (r, c) (or_introl eq_refl)). cbn in Hall.
      rewrite Ep in Hall. injection Hall as ->. discriminate.
Qed.

Lemma place_squares_spec sq b : forall g,
  grid_shape g ->
  (forall rc, In rc sq -> on_field (fst rc) (snd rc)) ->
  exists g', place_squares g sq b = Some g' /\ grid_shape g' /\
    (forall rc, In rc sq -> grid_get g' (fst rc) (snd rc) = Some b) /\
    (forall rc, ~ In rc sq ->
       grid_get g' (fst rc) (snd rc) = grid_get g (fst rc) (snd rc)).
Proof.
  induction sq as [| [r c] sq IH]; intros g Hs Hon.
  - exists g. split; [reflexivity |]. split; [exact Hs |].
    split; [intros rc [] | reflexivity].
  - destruct (grid_set_on g r c b Hs (Hon (r, c) (or_introl eq_refl)))
      as (g1 & E1 & Hs1 & Hget & Hother).
    destruct (IH g1 Hs1) as (g' & E' & Hs' & Hin & Hout);
      [intros rc Hrc; apply Hon; right; exact Hrc |].
    exists g'. cbn [place_squares]. rewrite E1.
    split; [exact E' |]. split; [exact Hs' |]. split.
    + intros rc Hrc.
      destruct (in_dec square_eq_dec rc sq) as [Hi | Hni];
        [apply Hin, Hi |].
      destruct Hrc as [<- | Hrc]; [| contradiction].
      rewrite (Hout (r, c) Hni). exact Hget.
    + intros [r' c'] Hni. rewrite (Hout (r', c')) by (intros Hi; apply Hni; right; exact Hi).
      apply Hother. intros E. apply Hni. left. symmetry. exact E.
Qed.

Lemma status_at_on f rc :
  well_formed f -> on_field (fst rc) (snd rc) ->
  grid_get (grid f) (fst rc) (snd rc) = Some (status_at f rc).
Proof. intros Hs Hon. apply Get_on; assumption. Qed.

(** What [FieldAddBoat] does with a pivot on the field, by its two tests. *)
Lemma FieldAddBoat_cases f row col dir t :
  well_formed f -> on_field row col ->
  (~ fits row col dir (boat_size t) /\
   FieldAddBoat f row col dir t = Some (STANDARD_ERROR, f)) \/
  (fits row col dir (boat_size t) /\
   (exists i, 0 <= i < boat_size t /\
              status_at f (boat_at row col dir i) <> FIELD_SQUARE_EMPTY) /\
   FieldAddBoat f row col dir t = Some (STANDARD_ERROR, f)) \/
  (fits row col dir (boat_size t) /\
   (forall i, 0 <= i < boat_size t ->
              status_at f (boat_at row col dir i) = FIELD_SQUARE_EMPTY) /\
   exists g,
     place_squares (grid f) (boat_squares row col dir (boat_size t))
       (boat_square t) = Some g /\
     FieldAddBoat f row col dir t =
       Some (SUCCESS,
             match t with
             | FIELD_BOAT_TYPE_SMALL =>
                 set_smallBoatLives (smallBoatLives f + boat_size t) (set_grid g f)
             | FIELD_BOAT_TYPE_MEDIUM =>
                 set_mediumBoatLives (mediumBoatLives f + boat_size t) (set_grid g f)
             | FIELD_BOAT_TYPE_LARGE =>
                 set_largeBoatLives (largeBoatLives f + boat_size t) (set_grid g f)
             | FIELD_BOAT_TYPE_HUGE =>
                 set_hugeBoatLives (hugeBoatLives f + boat_size t) (set_grid g f)
             end)).
Proof.
  intros Hs Hon.
  assert (Hadd : FieldAddBoat f row col dir t =
    if (match dir with FIELD_DIR_EAST => col + boat_size t >? FIELD_COLS | _ => false end)
       || (match dir with FIELD_DIR_SOUTH => row + boat_size t >? FIELD_ROWS | _ => false end)
    then Some (STANDARD_ERROR, f)
    else
      match all_empty (grid f) (boat_squares row col dir (boat_size t)) with
      | None => None
      | Some false => Some (STANDARD_ERROR, f)
      | Some true =>
          match place_squares (grid f) (boat_squares row col dir (boat_size t))
                  (boat_square t) with
          | None => None
          | Some g =>
              Some (SUCCESS,
                match t with
                | FIELD_BOAT_TYPE_SMALL =>
                    set_smallBoatLives (smallBoatLives f + boat_size t) (set_grid g f)
                | FIELD_BOAT_TYPE_MEDIUM =>
                    set_mediumBoatLives (mediumBoatLives f + boat_size t) (set_grid g f)
                | FIELD_BOAT_TYPE_LARGE =>
                    set_largeBoatLives (largeBoatLives f + boat_size t) (set_grid g f)
                | FIELD_BOAT_TYPE_HUGE =>
                    set_hugeBoatLives (hugeBoatLives f + boat_size t) (set_grid g f)
                end)
          end
      end).
  { destruct t; reflexivity. }
  rewrite Hadd. clear Hadd.
  destruct (Z_le_dec
              (match dir with FIELD_DIR_EAST => col | FIELD_DIR_SOUTH => row end
               + boat_size t)
              (match dir with FIELD_DIR_EAST => FIELD_COLS | FIELD_DIR_SOUTH => FIELD_ROWS end))
    as [Hfit | Hnofit].
  - assert (Hf : fits row col dir (boat_size t)) by (destruct dir; exact Hfit).
    assert (Htest :
      (match dir with FIELD_DIR_EAST => col + boat_size t >? FIELD_COLS | _ => false end)
      || (match dir with FIELD_DIR_SOUTH => row + boat_size t >? FIELD_ROWS | _ => false end)
      = false).
    { destruct dir; cbn [orb]; rewrite ?orb_false_r; lia. }
    rewrite Htest. right.
    assert (Hsq : forall rc, In rc (boat_squares row col dir (boat_size t)) ->
                             on_field (fst rc) (snd rc)).
    { intros rc Hrc. apply (In_boat_squares _ _ _ _ _ Hon Hf) in Hrc as (i & Hi & ->).
      eapply boat_at_on; eassumption. }
    destruct (all_empty_spec (grid f) _ Hs Hsq) as (b & Eb & Hb). rewrite Eb.
    destruct b.
    + right. split; [exact Hf |].
      assert (Hall : forall i, 0 <= i < boat_size t ->
                status_at f (boat_at row col dir i) = FIELD_SQUARE_EMPTY).
      { intros i Hi. destruct Hb as [Hb _]. specialize (Hb eq_refl (boat_at row col dir i)).
        rewrite status_at_on in Hb.
        - assert (X : Some (status_at f (boat_at row col dir i)) = Some FIELD_SQUARE_EMPTY).
          { apply Hb. apply In_boat_squares; [assumption | assumption |]. eauto. }
          injection X as X. exact X.
        - exact Hs.
        - eapply boat_at_on; eassumption. }
      split; [exact Hall |].
      destruct (place_squares_spec _ (boat_square t) (grid f) Hs Hsq) as (g & Eg & _).
      exists g. rewrite Eg. split; reflexivity.
    + left. split; [exact Hf |]. split; [| reflexivity].
      (* some square is not empty *)
      assert (Hex : ~ forall rc, In rc (boat_squares row col dir (boat_size t)) ->
                      grid_get (grid f) (fst rc) (snd rc) = Some FIELD_SQUARE_EMPTY).
      { intros Hall. destruct Hb as [_ Hb]. specialize (Hb Hall). discriminate. }
      assert (Hfind : forall l,
                (forall rc, In rc l -> on_field (fst rc) (snd rc)) ->
                (forall rc, In rc l ->
                   grid_get (grid f) (fst rc) (snd rc) = Some FIELD_SQUARE_EMPTY) \/
                exists rc, In rc l /\ status_at f rc <> FIELD_SQUARE_EMPTY).
      { induction l as [| rc l IHl]; intros Hl; [left; intros ? [] |].
        destruct (SquareStatus_eqb (status_at f rc) FIELD_SQUARE_EMPTY) eqn:E.
        - apply SquareStatus_eqb_eq in E.
          destruct IHl as [Hall | (rc' & Hin & Hne)];
            [intros ? ?; apply Hl; right; assumption | |
              right; exists rc'; split; [right |]; assumption].
          left. intros rc' [<- | Hin]; [| apply Hall, Hin].
          rewrite status_at_on, E; [reflexivity | exact Hs | apply Hl; left; reflexivity].
        - right. exists rc. split; [left; reflexivity |]. intros E'.
          rewrite E' in E. discriminate. }
      destruct (Hfind _ Hsq) as [Hall | (rc & Hin & Hne)]; [contradiction |].
      apply (In_boat_squares _ _ _ _ _ Hon Hf) in Hin as (i & Hi & ->).
      exists i. split; assumption.
  - left. split; [destruct dir; exact Hnofit |].
    assert (Htest :
      (match dir with FIELD_DIR_EAST => col + boat_size t >? FIELD_COLS | _ => false end)
      || (match dir with FIELD_DIR_SOUTH => row + boat_size t >? FIELD_ROWS | _ => false end)
      = true).
    { destruct dir; cbn [orb]; rewrite ?orb_false_r; lia. }
    rewrite Htest. reflexivity.
Qed.

(** X4. With its pivot on the field, [FieldAddBoat] always returns; it
    returns SUCCESS exactly when the boat fits on the field in its direction
    and every square it would cover is EMPTY, and when it returns
    STANDARD_ERROR the field is unmodified. *)
Theorem FieldAddBoat_succeeds_iff f row col dir t :
  well_formed f -> on_field row col ->
  exists st f',
    FieldAddBoat f row col dir t = Some (st, f') /\
    (st = SUCCESS <->
       fits row col dir (boat_size t) /\
       forall i, 0 <= i < boat_size t ->
         status_at f (boat_at row col dir i) = FIELD_SQUARE_EMPTY) /\
    (st = STANDARD_ERROR -> f' = f).
Proof.
  intros Hs Hon.
  destruct (FieldAddBoat_cases f row col dir t Hs Hon)
    as [(Hnf & E) | [(Hf & (i & Hi & Hne) & E) | (Hf & Hall & g & _ & E)]];
    rewrite E; eexists _, _; (split; [reflexivity |]).
  - split; [| reflexivity]. split; [discriminate | intros [Hf _]; contradiction].
  - split; [| reflexivity]. split; [discriminate |].
    intros [_ Hall]. elim Hne. apply Hall, Hi.
  - split; [| discriminate]. split; [intros _; split; assumption | reflexivity].
Qed.

Lemma add_boat_places f row col dir t f' :
  well_formed f -> on_field row col ->
  FieldAddBoat f row col dir t = Some (SUCCESS, f') ->
  well_formed f' /\
  (forall i, 0 <= i < boat_size t ->
     status_at f' (boat_at row col dir i) = boat_square t) /\
  (forall rc, (forall i, 0 <= i < boat_size t -> rc <> boat_at row col dir i) ->
     status_at f' rc = status_at f rc) /\
  boat_lives t f' = to_u8 (boat_lives t f + boat_size t) /\
  (forall t', t' <> t -> boat_lives t' f' = boat_lives t' f).
Proof.
  intros Hs Hon E.
  destruct (FieldAddBoat_cases f row col dir t Hs Hon)
    as [(Hnf & E') | [(Hf & _ & E') | (Hf & Hall & g & Eg & E')]];
    rewrite E' in E; try discriminate.
  injection E as <-.
  assert (Hsq : forall rc, In rc (boat_squares row col dir (boat_size t)) ->
                           on_field (fst rc) (snd rc)).
  { intros rc Hrc. apply (In_boat_squares _ _ _ _ _ Hon Hf) in Hrc as (i & Hi & ->).
    eapply boat_at_on; eassumption. }
  destruct (place_squares_spec _ (boat_square t) (grid f) Hs Hsq)
    as (g' & Eg' & Hs' & Hin & Hout).
  rewrite Eg in Eg'. injection Eg' as <-.
  assert (Hgrid : grid match t with
             | FIELD_BOAT_TYPE_SMALL =>
                 set_smallBoatLives (smallBoatLives f + boat_size t) (set_grid g f)
             | FIELD_BOAT_TYPE_MEDIUM =>
                 set_mediumBoatLives (mediumBoatLives f + boat_size t) (set_grid g f)
             | FIELD_BOAT_TYPE_LARGE =>
                 set_largeBoatLives (largeBoatLives f + boat_size t) (set_grid g f)
             | FIELD_BOAT_TYPE_HUGE =>
                 set_hugeBoatLives (hugeBoatLives f + boat_size t) (set_grid g f)
             end = g) by (destruct t; reflexivity).
  split; [red; rewrite Hgrid; exact Hs' |]. split; [| split; [| split]].
  - intros i Hi. unfold status_at. rewrite Get_grid, Hgrid.
    rewrite (Hin (boat_at row col dir i))
      by (apply In_boat_squares; [assumption | assumption | eauto]).
    destruct (boat_at_on row col dir _ i Hon Hf Hi) as [Hr Hc].
    destruct (_ >=? FIELD_ROWS) eqn:E1; [lia |].
    destruct (_ >=? FIELD_COLS) eqn:E2; [lia |]. reflexivity.
  - intros rc Hrc. unfold status_at. apply Get_ext. rewrite Hgrid.
    apply Hout. intros Hi.
    apply (In_boat_squares _ _ _ _ _ Hon Hf) in Hi as (i & Hi & ->).
    exact (Hrc i Hi eq_refl).
  - destruct t; reflexivity.
  - intros t' Hne. destruct t, t'; try reflexivity; contradiction.
Qed.

(** X5. When [FieldAddBoat] succeeds, the squares of the boat hold the
    boat's status, every other square is as before, the lives of that boat
    type have grown by its length (modulo 256) and the other lives are
    unchanged. *)
Theorem FieldAddBoat_places f row col dir t f' :
  well_formed f -> on_field row col ->
  FieldAddBoat f row col dir t = Some (SUCCESS, f') ->
  well_formed f' /\
  (forall i, 0 <= i < boat_size t ->
     status_at f' (boat_at row col dir i) = boat_square t) /\
  (forall rc, (forall i, 0 <= i < boat_size t -> rc <> boat_at row col dir i) ->
     status_at f' rc = status_at f rc) /\
  boat_lives t f' = to_u8 (boat_lives t f + boat_size t) /\
  (forall t', t' <> t -> boat_lives t' f' = boat_lives t' f).
Proof. exact (add_boat_places f row col dir t f'). Qed.

(** X6. [FieldAddBoat] tests only the extent of the boat along its
    direction: for a pivot off the field whose boat passes that test (an
    east-facing boat in a row beyond the last, a south-facing one in a column
    beyond the last), the overlap loop reads outside the grid ([None]). *)
Theorem FieldAddBoat_unchecked_pivot f row col dir t :
  well_formed f ->
  0 <= row < 256 -> 0 <= col < 256 ->
  0 < boat_size t ->
  fits row col dir (boat_size t) ->
  ~ on_field row col ->
  FieldAddBoat f row col dir t = None.
Proof.
  intros Hs Hr Hc Hpos Hf Hoff.
  assert (Hsq : exists rest, boat_squares row col dir (boat_size t) = (row, col) :: rest).
  { unfold boat_squares.
    destruct (Z.to_nat (boat_size t)) as [| n] eqn:En; [lia |].
    cbn [seq map]. eexists. f_equal.
    destruct dir; cbn; rewrite ?Z.add_0_r, !to_u8_small by lia; reflexivity. }
  destruct Hsq as [rest Hsq].
  assert (Htest :
    (match dir with FIELD_DIR_EAST => col + boat_size t >? FIELD_COLS | _ => false end)
    || (match dir with FIELD_DIR_SOUTH => row + boat_size t >? FIELD_ROWS | _ => false end)
    = false).
  { unfold fits in Hf. destruct dir; cbn [orb]; rewrite ?orb_false_r; lia. }
  assert (Hnone : all_empty (grid f) (boat_squares row col dir (boat_size t)) = None).
  { rewrite Hsq. cbn [all_empty]. rewrite (grid_get_off _ _ _ Hs Hoff). reflexivity. }
  unfold FieldAddBoat. unfold boat_size in *.
  destruct t; rewrite Htest, Hnone; reflexivity.
Qed.

Lemma register_attack_spec f g :
  well_formed f -> on_field (g_row g) (g_col g) ->
  let here := (g_row g, g_col g) in
  exists f' res,
    FieldRegisterEnemyAttack f g =
      (status_at f here, f', mkGuess (g_row g) (g_col g) res) /\
    well_formed f' /\
    status_at f' here =
      match boat_of (status_at f here), status_at f here with
      | Some _, _ => FIELD_SQUARE_HIT
      | None, FIELD_SQUARE_EMPTY => FIELD_SQUARE_MISS
      | None, p => p
      end /\
    (forall rc, rc <> here -> status_at f' rc = status_at f rc) /\
    (forall t,
       boat_lives t f' =
         match boat_of (status_at f here) with
         | Some t' => if BoatType_eqb t t' && (boat_lives t f >? 0)
                      then to_u8 (boat_lives t f - 1) else boat_lives t f
         | None => boat_lives t f
         end) /\
    res = match boat_of (status_at f here) with
          | Some t => if boat_lives t f' =? 0 then sunk t else RESULT_HIT
          | None => RESULT_MISS
          end.
Proof.
  intros Hs Hon here.
  destruct (grid_set_on (grid f) _ _ FIELD_SQUARE_HIT Hs Hon)
    as (gh & Eh & Hsh & Hgh & Hoh).
  destruct (grid_set_on (grid f) _ _ FIELD_SQUARE_MISS Hs Hon)
    as (gm & Em & Hsm & Hgm & Hom).
  pose proof (Get_on f _ _ Hs Hon) as Eget.
  assert (Hhere : forall g', grid_shape g' -> forall p lives1 lives2 lives3 lives4,
            grid_get g' (g_row g) (g_col g) = Some p ->
            status_at (mkField g' lives1 lives2 lives3 lives4) here = p).
  { intros g' Hg' p l1 l2 l3 l4 Ep. unfold status_at, here. cbn [fst snd].
    rewrite Get_grid. cbn [grid]. rewrite Ep.
    destruct Hon as [Hr Hc].
    destruct (_ >=? FIELD_ROWS) eqn:E1; [lia |].
    destruct (_ >=? FIELD_COLS) eqn:E2; [lia |]. reflexivity. }
  assert (Hthere : forall g' l1 l2 l3 l4,
            (forall row' col', (row', col') <> (g_row g, g_col g) ->
               grid_get g' row' col' = grid_get (grid f) row' col') ->
            forall rc, rc <> here ->
              status_at (mkField g' l1 l2 l3 l4) rc = status_at f rc).
  { intros g' l1 l2 l3 l4 Ho [r c] Hne. unfold status_at. apply Get_ext.
    cbn [grid fst snd]. apply Ho. exact Hne. }
  unfold FieldRegisterEnemyAttack. rewrite Eget.
  destruct Hon as [Hr Hc].
  destruct (g_row g >=? FIELD_ROWS) eqn:E1; [lia |].
  destruct (g_col g >=? FIELD_COLS) eqn:E2; [lia |]. cbn [orb].
  rewrite Eh, Em.
  change (FieldGetSquareStatus f (g_row g) (g_col g)) with (status_at f here).
  destruct f as [gr l1 l2 l3 l4]. cbn [grid] in *.
  destruct (status_at (mkField gr l1 l2 l3 l4) here) eqn:Est;
    cbn [boat_of set_grid grid smallBoatLives mediumBoatLives largeBoatLives
         hugeBoatLives].
  - (* empty *)
    eexists _, _. split; [reflexivity |]. split; [exact Hsm |].
    split; [apply Hhere; assumption |].
    split; [intros rc Hne;
               first [exact (Hthere _ _ _ _ _ Hom rc Hne)
                     | exact (Hthere _ _ _ _ _ Hoh rc Hne)] |].
    split; [intros []; reflexivity | reflexivity].
  - (* small *)
    destruct (l1 >? 0) eqn:L;
      cbn [set_smallBoatLives grid smallBoatLives mediumBoatLives largeBoatLives
           hugeBoatLives];
      (eexists _, _; split; [reflexivity |]; split; [exact Hsh |];
       split; [apply Hhere; assumption |];
       split; [intros rc Hne;
               first [exact (Hthere _ _ _ _ _ Hom rc Hne)
                     | exact (Hthere _ _ _ _ _ Hoh rc Hne)] |];
       split; [intros []; cbn [boat_lives BoatType_eqb andb smallBoatLives
                               mediumBoatLives largeBoatLives hugeBoatLives];
               rewrite ?L; reflexivity | reflexivity]).
  - destruct (l2 >? 0) eqn:L;
      cbn [set_mediumBoatLives grid smallBoatLives mediumBoatLives largeBoatLives
           hugeBoatLives];
      (eexists _, _; split; [reflexivity |]; split; [exact Hsh |];
       split; [apply Hhere; assumption |];
       split; [intros rc Hne;
               first [exact (Hthere _ _ _ _ _ Hom rc Hne)
                     | exact (Hthere _ _ _ _ _ Hoh rc Hne)] |];
       split; [intros []; cbn [boat_lives BoatType_eqb andb smallBoatLives
                               mediumBoatLives largeBoatLives hugeBoatLives];
               rewrite ?L; reflexivity | reflexivity]).
  - destruct (l3 >? 0) eqn:L;
      cbn [set_largeBoatLives grid smallBoatLives mediumBoatLives largeBoatLives
           hugeBoatLives];
      (eexists _, _; split; [reflexivity |]; split; [exact Hsh |];
       split; [apply Hhere; assumption |];
       split; [intros rc Hne;
               first [exact (Hthere _ _ _ _ _ Hom rc Hne)
                     | exact (Hthere _ _ _ _ _ Hoh rc Hne)] |];
       split; [intros []; cbn [boat_lives BoatType_eqb andb smallBoatLives
                               mediumBoatLives largeBoatLives hugeBoatLives];
               rewrite ?L; reflexivity | reflexivity]).
  - destruct (l4 >? 0) eqn:L;
      cbn [set_hugeBoatLives grid smallBoatLives mediumBoatLives largeBoatLives
           hugeBoatLives];
      (eexists _, _; split; [reflexivity |]; split; [exact Hsh |];
       split; [apply Hhere; assumption |];
       split; [intros rc Hne;
               first [exact (Hthere _ _ _ _ _ Hom rc Hne)
                     | exact (Hthere _ _ _ _ _ Hoh rc Hne)] |];
       split; [intros []; cbn [boat_lives BoatType_eqb andb smallBoatLives
                               mediumBoatLives largeBoatLives hugeBoatLives];
               rewrite ?L; reflexivity | reflexivity]).
  - eexists _, _. split; [reflexivity |]. split; [exact Hs |].
    split; [exact Est |]. split; [reflexivity |].
    split; [intros []; reflexivity | reflexivity].
  - eexists _, _. split; [reflexivity |]. split; [exact Hs |].
    split; [exact Est |]. split; [reflexivity |].
    split; [intros []; reflexivity | reflexivity].
  - eexists _, _. split; [reflexivity |]. split; [exact Hs |].
    split; [exact Est |]. split; [reflexivity |].
    split; [intros []; reflexivity | reflexivity].
  - eexists _, _. split; [reflexivity |]. split; [exact Hs |].
    split; [exact Est |]. split; [reflexivity |].
    split; [intros []; reflexivity | reflexivity].
  - eexists _, _. split; [reflexivity |]. split; [exact Hs |].
    split; [exact Est |]. split; [reflexivity |].
    split; [intros []; reflexivity | reflexivity].
Qed.

Lemma register_attack_settled f g :
  well_formed f -> on_field (g_row g) (g_col g) ->
  boat_of (status_at f (g_row g, g_col g)) = None ->
  status_at f (g_row g, g_col g) <> FIELD_SQUARE_EMPTY ->
  FieldRegisterEnemyAttack f g =
    (status_at f (g_row g, g_col g), f, mkGuess (g_row g) (g_col g) RESULT_MISS).
Proof.
  intros Hs Hon Hb He. unfold FieldRegisterEnemyAttack.
  rewrite (Get_on f _ _ Hs Hon).
  destruct Hon as [Hr Hc].
  destruct (g_row g >=? FIELD_ROWS) eqn:E1; [lia |].
  destruct (g_col g >=? FIELD_COLS) eqn:E2; [lia |]. cbn [orb].
  unfold status_at in *. cbn [fst snd] in *.
  destruct (FieldGetSquareStatus f (g_row g) (g_col g));
    try discriminate Hb; try reflexivity; contradiction.
Qed.

(** X8. An attack on a square of the field returns the status the square
    had, marks a boat square HIT and an EMPTY square MISS and leaves any
    other square as it is, touches no other square, takes one life of the
    boat that was hit (never below zero), and reports MISS when no boat was
    hit, the boat's SUNK result when its lives are then zero, HIT
    otherwise. *)
Theorem FieldRegisterEnemyAttack_marks f g :
  well_formed f -> on_field (g_row g) (g_col g) ->
  let here := (g_row g, g_col g) in
  exists f' res,
    FieldRegisterEnemyAttack f g =
      (status_at f here, f', mkGuess (g_row g) (g_col g) res) /\
    well_formed f' /\
    status_at f' here = attacked (status_at f here) /\
    (forall rc, rc <> here -> status_at f' rc = status_at f rc) /\
    (forall t,
       boat_lives t f' =
         match boat_of (status_at f here) with
         | Some t' => if BoatType_eqb t t' && (boat_lives t f >? 0)
                      then to_u8 (boat_lives t f - 1) else boat_lives t f
         | None => boat_lives t f
         end) /\
    res = match boat_of (status_at f here) with
          | Some t => if boat_lives t f' =? 0 then sunk t else RESULT_HIT
          | None => RESULT_MISS
          end.
Proof.
  intros Hs Hon here.
  destruct (register_attack_spec f g Hs Hon) as (f' & res & E & Hs' & Hst & Hrest).
  exists f', res. split; [exact E |]. split; [exact Hs' |]. split; [| exact Hrest].
  fold here in Hst. rewrite Hst. unfold attacked.
  destruct (status_at f here); reflexivity.
Qed.

(** X9. A second attack on the same square is a MISS and changes nothing:
    no life is taken twice. *)
Theorem second_attack_is_a_miss f g res :
  well_formed f -> on_field (g_row g) (g_col g) ->
  let f' := snd (fst (FieldRegisterEnemyAttack f g)) in
  FieldRegisterEnemyAttack f' (mkGuess (g_row g) (g_col g) res) =
    (status_at f' (g_row g, g_col g), f', mkGuess (g_row g) (g_col g) RESULT_MISS).
Proof.
  intros Hs Hon.
  destruct (register_attack_spec f g Hs Hon) as (f1 & r1 & E & Hs1 & Hst & _).
  rewrite E. cbn [fst snd]. cbv zeta.
  apply (register_attack_settled f1 (mkGuess (g_row g) (g_col g) res) Hs1 Hon);
    cbn [g_row g_col]; rewrite Hst;
    destruct (status_at f (g_row g, g_col g)); cbn; congruence.
Qed.

Lemma update_knowledge_spec f g :
  well_formed f -> on_field (g_row g) (g_col g) ->
  let here := (g_row g, g_col g) in
  let r := g_result g in
  exists f',
    FieldUpdateKnowledge f g = (status_at f here, f') /\
    well_formed f' /\
    status_at f' here =
      (if (r =? RESULT_HIT) || (r =? RESULT_SMALL_BOAT_SUNK)
          || (r =? RESULT_MEDIUM_BOAT_SUNK) || (r =? RESULT_LARGE_BOAT_SUNK)
          || (r =? RESULT_HUGE_BOAT_SUNK)
       then FIELD_SQUARE_HIT
       else if r =? RESULT_MISS then FIELD_SQUARE_MISS
       else status_at f here) /\
    (forall rc, rc <> here -> status_at f' rc = status_at f rc) /\
    (forall t, boat_lives t f' = if r =? sunk t then 0 else boat_lives t f).
Proof.
  intros Hs Hon here r.
  destruct (grid_set_on (grid f) _ _ FIELD_SQUARE_HIT Hs Hon)
    as (gh & Eh & Hsh & Hgh & Hoh).
  destruct (grid_set_on (grid f) _ _ FIELD_SQUARE_MISS Hs Hon)
    as (gm & Em & Hsm & Hgm & Hom).
  pose proof (Get_on f _ _ Hs Hon) as Eget.
  assert (Hhere : forall g' p l1 l2 l3 l4,
            grid_get g' (g_row g) (g_col g) = Some p ->
            status_at (mkField g' l1 l2 l3 l4) here = p).
  { intros g' p l1 l2 l3 l4 Ep. unfold status_at, here. cbn [fst snd].
    rewrite Get_grid. cbn [grid]. rewrite Ep.
    destruct Hon as [Hr Hc].
    destruct (_ >=? FIELD_ROWS) eqn:E1; [lia |].
    destruct (_ >=? FIELD_COLS) eqn:E2; [lia |]. reflexivity. }
  assert (Hthere : forall g' l1 l2 l3 l4,
            (forall row' col', (row', col') <> (g_row g, g_col g) ->
               grid_get g' row' col' = grid_get (grid f) row' col') ->
            forall rc, rc <> here ->
              status_at (mkField g' l1 l2 l3 l4) rc = status_at f rc).
  { intros g' l1 l2 l3 l4 Ho [r' c'] Hne. unfold status_at. apply Get_ext.
    cbn [grid fst snd]. apply Ho. exact Hne. }
  assert (Hsame : forall l1 l2 l3 l4 rc,
            status_at (mkField (grid f) l1 l2 l3 l4) rc = status_at f rc).
  { intros. unfold status_at. apply Get_ext. reflexivity. }
  unfold FieldUpdateKnowledge. rewrite Eget.
  destruct Hon as [Hr Hc].
  destruct (g_row g >=? FIELD_ROWS) eqn:E1; [lia |].
  destruct (g_col g >=? FIELD_COLS) eqn:E2; [lia |]. cbn [orb].
  rewrite Eh, Em. fold r.
  change (FieldGetSquareStatus f (g_row g) (g_col g)) with (status_at f here).
  unfold sunk.
  unfold RESULT_HIT, RESULT_MISS, RESULT_SMALL_BOAT_SUNK, RESULT_MEDIUM_BOAT_SUNK,
    RESULT_LARGE_BOAT_SUNK, RESULT_HUGE_BOAT_SUNK.
  destruct f as [gr l1 l2 l3 l4]. cbn [grid] in *.
  destruct (r =? 1) eqn:R1; [apply Z.eqb_eq in R1 | apply Z.eqb_neq in R1];
  (destruct (r =? 2) eqn:R2; [apply Z.eqb_eq in R2; try lia | apply Z.eqb_neq in R2]);
  (destruct (r =? 3) eqn:R3; [apply Z.eqb_eq in R3; try lia | apply Z.eqb_neq in R3]);
  (destruct (r =? 4) eqn:R4; [apply Z.eqb_eq in R4; try lia | apply Z.eqb_neq in R4]);
  (destruct (r =? 5) eqn:R5; [apply Z.eqb_eq in R5; try lia | apply Z.eqb_neq in R5]);
  (destruct (r =? 0) eqn:R0; [apply Z.eqb_eq in R0; try lia | apply Z.eqb_neq in R0]);
  cbn [orb set_grid set_smallBoatLives set_mediumBoatLives set_largeBoatLives
       set_hugeBoatLives grid smallBoatLives mediumBoatLives largeBoatLives
       hugeBoatLives];
  (eexists; split; [reflexivity |];
   split; [first [exact Hsh | exact Hsm | exact Hs] |];
   split; [first [apply Hhere; assumption | apply Hsame] |];
   split; [intros rc Hne;
           first [exact (Hthere _ _ _ _ _ Hom rc Hne)
                 | exact (Hthere _ _ _ _ _ Hoh rc Hne)
                 | apply Hsame] |];
   intros []; cbn [boat_lives smallBoatLives mediumBoatLives largeBoatLives
                   hugeBoatLives];
   rewrite ?R1, ?R2, ?R3, ?R4, ?R5, ?R0; try reflexivity;
   repeat match goal with
          | |- context [?a =? ?b] =>
              let E := fresh in destruct (a =? b) eqn:E;
              [apply Z.eqb_eq in E; try lia | apply Z.eqb_neq in E]
          end; try reflexivity; try lia).
Qed.

(** X11. [FieldUpdateKnowledge] on a square of the field returns the
    previous status, records HIT for a hit or any sunk result and MISS for a
    miss, and leaves the square for any other value; it touches no other
    square, clears the lives of the boat a SUNK result names and leaves the
    other lives. *)
Theorem FieldUpdateKnowledge_records f g :
  well_formed f -> on_field (g_row g) (g_col g) ->
  let here := (g_row g, g_col g) in
  let r := g_result g in
  exists f',
    FieldUpdateKnowledge f g = (status_at f here, f') /\
    well_formed f' /\
    status_at f' here =
      (if (r =? RESULT_HIT) || (r =? RESULT_SMALL_BOAT_SUNK)
          || (r =? RESULT_MEDIUM_BOAT_SUNK) || (r =? RESULT_LARGE_BOAT_SUNK)
          || (r =? RESULT_HUGE_BOAT_SUNK)
       then FIELD_SQUARE_HIT
       else if r =? RESULT_MISS then FIELD_SQUARE_MISS
       else status_at f here) /\
    (forall rc, rc <> here -> status_at f' rc = status_at f rc) /\
    (forall t, boat_lives t f' = if r =? sunk t then 0 else boat_lives t f).
Proof. exact (update_knowledge_spec f g). Qed.

(** X12. Registering an attack on the defender's field and recording its
    result in the attacker's view agree: the attacker records HIT exactly if
    the square held a boat before the attack and MISS otherwise (also when
    the square had been hit before), and clears the lives of a boat exactly
    when the defender reported that boat sunk, which it does only with no
    life of the boat left. *)
Theorem attack_then_knowledge own opp g :
  well_formed own -> well_formed opp -> on_field (g_row g) (g_col g) ->
  let here := (g_row g, g_col g) in
  let '(sq, own', g') := FieldRegisterEnemyAttack own g in
  let opp' := snd (FieldUpdateKnowledge opp g') in
  sq = status_at own here /\
  status_at opp' here =
    match boat_of sq with
    | Some _ => FIELD_SQUARE_HIT
    | None => FIELD_SQUARE_MISS
    end /\
  (forall t, boat_lives t opp' =
             if g_result g' =? sunk t then 0 else boat_lives t opp) /\
  (forall t, g_result g' = sunk t ->
             boat_of sq = Some t /\ boat_lives t own' = 0).
Proof.
  intros Hown Hopp Hon here.
  destruct (register_attack_spec own g Hown Hon) as (own' & res & E & _ & _ & _ & _ & Hres).
  rewrite E.
  destruct (update_knowledge_spec opp (mkGuess (g_row g) (g_col g) res) Hopp Hon)
    as (opp' & E' & _ & Hst & _ & Hlives).
  cbn [g_row g_col g_result] in *. rewrite E'. cbn [snd]. subst here.
  split; [reflexivity |]. split; [| split].
  - rewrite Hst, Hres.
    destruct (boat_of (status_at own _)) as [t|]; [| reflexivity].
    destruct (boat_lives t own' =? 0); destruct t; reflexivity.
  - exact Hlives.
  - intros t Ht. rewrite Hres in Ht.
    destruct (boat_of (status_at own _)) as [t'|]; [| destruct t; discriminate].
    destruct (boat_lives t' own' =? 0) eqn:L; [| destruct t; discriminate].
    assert (t' = t) by (destruct t, t'; try reflexivity; discriminate). subst t'.
    split; [reflexivity | apply Z.eqb_eq, L].
Qed.

Lemma boat_states_bits f :
  0 <= FieldGetBoatStates f < 16 /\
  Z.testbit (FieldGetBoatStates f) 0 = (smallBoatLives f >? 0) /\
  Z.testbit (FieldGetBoatStates f) 1 = (mediumBoatLives f >? 0) /\
  Z.testbit (FieldGetBoatStates f) 2 = (largeBoatLives f >? 0) /\
  Z.testbit (FieldGetBoatStates f) 3 = (hugeBoatLives f >? 0) /\
  (FieldGetBoatStates f = 0 <-> forall t, boat_lives t f <= 0).
Proof.
  unfold FieldGetBoatStates.
  destruct (smallBoatLives f >? 0) eqn:E1, (mediumBoatLives f >? 0) eqn:E2,
           (largeBoatLives f >? 0) eqn:E3, (hugeBoatLives f >? 0) eqn:E4;
    cbn; repeat split; try lia; try discriminate;
    try (intros Hall;
         pose proof (Hall FIELD_BOAT_TYPE_SMALL);
         pose proof (Hall FIELD_BOAT_TYPE_MEDIUM);
         pose proof (Hall FIELD_BOAT_TYPE_LARGE);
         pose proof (Hall FIELD_BOAT_TYPE_HUGE); cbn in *; lia);
    try (intros _ []; cbn; lia).
Qed.

(** *** Counting squares *)

Lemma count_app p (a b : list SquareStatus) :
  Z.of_nat (length (List.filter (SquareStatus_eqb p) (a ++ b))) =
  Z.of_nat (length (List.filter (SquareStatus_eqb p) a)) +
  Z.of_nat (length (List.filter (SquareStatus_eqb p) b)).
Proof. rewrite List.filter_app, length_app. lia. Qed.

Lemma count_cons p x (b : list SquareStatus) :
  Z.of_nat (length (List.filter (SquareStatus_eqb p) (x :: b))) =
  (if SquareStatus_eqb p x then 1 else 0) +
  Z.of_nat (length (List.filter (SquareStatus_eqb p) b)).
Proof. cbn [List.filter]. destruct (SquareStatus_eqb p x); cbn [length]; lia. Qed.

Lemma count_set p g row col old new g' :
  grid_get g row col = Some old ->
  grid_set g row col new = Some g' ->
  Z.of_nat (length (List.filter (SquareStatus_eqb p) (concat g'))) =
  Z.of_nat (length (List.filter (SquareStatus_eqb p) (concat g)))
  - (if SquareStatus_eqb p old then 1 else 0)
  + (if SquareStatus_eqb p new then 1 else 0).
Proof.
  intros Eget Eset. unfold grid_set in Eset. rewrite Eget in Eset.
  unfold grid_get in Eget.
  destruct ((0 <=? row) && (0 <=? col)); [| discriminate].
  destruct (g !! Z.to_nat row) as [r|] eqn:Er; [| discriminate].
  injection Eset as <-.
  pose proof (lookup_lt_is_Some_1 g (Z.to_nat row) ltac:(rewrite Er; eauto)) as Lg.
  pose proof (lookup_lt_is_Some_1 r (Z.to_nat col) ltac:(rewrite Eget; eauto)) as Lr.
  rewrite (insert_take_drop g _ _ Lg), (insert_take_drop r _ _ Lr).
  rewrite <- (take_drop_middle g _ _ Er) at 3.
  rewrite <- (take_drop_middle r _ _ Eget) at 3.
  rewrite !concat_app, !concat_cons, !count_app, !count_cons. lia.
Qed.

Lemma count_bound p f : well_formed f -> 0 <= squares_of p f <= 60.
Proof.
  intros [Hr Hc]. unfold squares_of.
  pose proof (List.filter_length_le (SquareStatus_eqb p) (concat (grid f))) as L.
  assert (Hlen : forall g : list (list SquareStatus),
            Forall (fun r => length r = Z.to_nat FIELD_COLS) g ->
            length (concat g) = (length g * 10)%nat).
  { induction 1 as [| r g Hr' _ IH]; [reflexivity |].
    cbn [concat length]. rewrite length_app, IH, Hr'. reflexivity. }
  rewrite (Hlen _ Hc), Hr in L. change (Z.to_nat FIELD_ROWS) with 6%nat in L. lia.
Qed.

Lemma NoDup_map_seq {T} (f : nat -> T) n : forall start,
  (forall i j, f i = f j -> i = j) -> List.NoDup (map f (seq start n)).
Proof.
  induction n as [| n IH]; intros start Hinj; cbn [seq map]; constructor.
  - intros Hin. apply in_map_iff in Hin as (j & Hj & Hin).
    apply in_seq in Hin. apply Hinj in Hj. lia.
  - apply IH, Hinj.
Qed.

Lemma boat_squares_NoDup row col dir len :
  on_field row col -> fits row col dir len ->
  List.NoDup (boat_squares row col dir len).
Proof.
  intros Hon Hf. rewrite (boat_squares_at _ _ _ _ Hon Hf).
  apply NoDup_map_seq. intros i j E.
  destruct dir; cbn in E; injection E as E; lia.
Qed.

Lemma boat_squares_length row col dir len :
  0 <= len -> Z.of_nat (length (boat_squares row col dir len)) = len.
Proof.
  intros Hl. unfold boat_squares. rewrite length_map, length_seq. lia.
Qed.

Lemma place_squares_count sq b : forall g g',
  grid_shape g -> List.NoDup sq ->
  (forall rc, In rc sq -> grid_get g (fst rc) (snd rc) = Some FIELD_SQUARE_EMPTY) ->
  place_squares g sq b = Some g' ->
  forall p,
    Z.of_nat (length (List.filter (SquareStatus_eqb p) (concat g'))) =
    Z.of_nat (length (List.filter (SquareStatus_eqb p) (concat g)))
    - (if SquareStatus_eqb p FIELD_SQUARE_EMPTY then Z.of_nat (length sq) else 0)
    + (if SquareStatus_eqb p b then Z.of_nat (length sq) else 0).
Proof.
  induction sq as [| [r c] sq IH]; intros g g' Hs Hnd Hall Eplace p.
  - cbn in Eplace. injection Eplace as <-. cbn [length].
    destruct (SquareStatus_eqb p FIELD_SQUARE_EMPTY), (SquareStatus_eqb p b); lia.
  - cbn [place_squares] in Eplace.
    pose proof (Hall (r, c) (or_introl eq_refl)) as Ehere. cbn [fst snd] in Ehere.
    pose proof (grid_get_Some_on g r c _ Hs Ehere) as Hon.
    destruct (grid_set_on g r c b Hs Hon) as (g1 & E1 & Hs1 & _ & Hother).
    rewrite E1 in Eplace.
    inversion Hnd as [| x l Hni Hnd' ]; subst x l.
    rewrite (IH g1 g' Hs1 Hnd') with (p := p); [| | exact Eplace].
    + rewrite (count_set p g r c _ b g1 Ehere E1). cbn [length].
      destruct (SquareStatus_eqb p FIELD_SQUARE_EMPTY), (SquareStatus_eqb p b); lia.
    + intros [r' c'] Hin. cbn [fst snd]. rewrite Hother.
      * apply (Hall (r', c')). right. exact Hin.
      * intros E. apply Hni. rewrite <- E. exact Hin.
Qed.

Lemma squares_of_here p f rc :
  well_formed f -> on_field (fst rc) (snd rc) -> status_at f rc = p ->
  1 <= squares_of p f.
Proof.
  intros Hs Hon E. pose proof (status_at_on f rc Hs Hon) as Eget. rewrite E in Eget.
  set (q := match p with FIELD_SQUARE_EMPTY => FIELD_SQUARE_HIT | _ => FIELD_SQUARE_EMPTY end).
  destruct (grid_set_on (grid f) _ _ q Hs Hon) as (g' & Eset & _).
  pose proof (count_set p _ _ _ _ _ _ Eget Eset) as C.
  assert (Eq : SquareStatus_eqb p q = false) by (destruct p; reflexivity).
  assert (Ep : SquareStatus_eqb p p = true) by (destruct p; reflexivity).
  rewrite Eq, Ep in C. unfold squares_of. lia.
Qed.

Lemma squares_of_none p f :
  well_formed f ->
  (squares_of p f = 0 <-> forall rc, on_field (fst rc) (snd rc) -> status_at f rc <> p).
Proof.
  intros Hs. split.
  - intros E rc Hon Hp. pose proof (squares_of_here p f rc Hs Hon Hp). lia.
  - intros Hall. unfold squares_of.
    assert (Hnil : List.filter (SquareStatus_eqb p) (concat (grid f)) = []).
    { destruct (List.filter (SquareStatus_eqb p) (concat (grid f))) as [| x l] eqn:E;
        [reflexivity |].
      assert (Hx : In x (List.filter (SquareStatus_eqb p) (concat (grid f))))
        by (rewrite E; left; reflexivity).
      apply List.filter_In in Hx as [Hin Hpx]. apply SquareStatus_eqb_eq in Hpx. subst x.
      apply in_concat in Hin as (r & Hr & Hin).
      apply list_elem_of_In, list_elem_of_lookup_1 in Hr as (i & Er).
      apply list_elem_of_In, list_elem_of_lookup_1 in Hin as (j & Ej).
      assert (Eget : grid_get (grid f) (Z.of_nat i) (Z.of_nat j) = Some p).
      { unfold grid_get.
        destruct (0 <=? Z.of_nat i) eqn:E1; [| apply Z.leb_gt in E1; lia].
        destruct (0 <=? Z.of_nat j) eqn:E2; [| apply Z.leb_gt in E2; lia].
        cbn [andb]. rewrite !Nat2Z.id, Er. exact Ej. }
      pose proof (grid_get_Some_on _ _ _ _ Hs Eget) as Hon.
      elim (Hall (Z.of_nat i, Z.of_nat j) Hon).
      pose proof (status_at_on f (Z.of_nat i, Z.of_nat j) Hs Hon) as X.
      cbn [fst snd] in X. rewrite Eget in X. injection X as <-. reflexivity. }
    rewrite Hnil. reflexivity.
Qed.

Lemma register_attack_grid f g :
  well_formed f -> on_field (g_row g) (g_col g) ->
  let f' := snd (fst (FieldRegisterEnemyAttack f g)) in
  match boat_of (status_at f (g_row g, g_col g)), status_at f (g_row g, g_col g) with
  | Some _, _ =>
      grid_set (grid f) (g_row g) (g_col g) FIELD_SQUARE_HIT = Some (grid f')
  | None, FIELD_SQUARE_EMPTY =>
      grid_set (grid f) (g_row g) (g_col g) FIELD_SQUARE_MISS = Some (grid f')
  | None, _ => f' = f
  end.
Proof.
  intros Hs Hon.
  destruct (grid_set_on (grid f) _ _ FIELD_SQUARE_HIT Hs Hon) as (gh & Eh & _).
  destruct (grid_set_on (grid f) _ _ FIELD_SQUARE_MISS Hs Hon) as (gm & Em & _).
  unfold FieldRegisterEnemyAttack. rewrite (Get_on f _ _ Hs Hon).
  destruct Hon as [Hr Hc].
  destruct (g_row g >=? FIELD_ROWS) eqn:E1; [lia |].
  destruct (g_col g >=? FIELD_COLS) eqn:E2; [lia |]. cbn [orb].
  rewrite Eh, Em. unfold status_at. cbn [fst snd].
  destruct f as [gr l1 l2 l3 l4]. cbn [grid] in *.
  destruct (FieldGetSquareStatus (mkField gr l1 l2 l3 l4) (g_row g) (g_col g));
    cbn [boat_of set_grid grid smallBoatLives mediumBoatLives largeBoatLives
         hugeBoatLives fst snd]; try reflexivity.
  - destruct (l1 >? 0); reflexivity.
  - destruct (l2 >? 0); reflexivity.
  - destruct (l3 >? 0); reflexivity.
  - destruct (l4 >? 0); reflexivity.
Qed.

Lemma register_attack_off f g :
  well_formed f -> ~ on_field (g_row g) (g_col g) ->
  FieldRegisterEnemyAttack f g =
    (FIELD_SQUARE_INVALID, f, mkGuess (g_row g) (g_col g) RESULT_MISS).
Proof.
  intros Hs Hoff. unfold FieldRegisterEnemyAttack.
  rewrite (grid_get_off _ _ _ Hs Hoff).
  destruct ((g_row g >=? FIELD_ROWS) || (g_col g >=? FIELD_COLS)); reflexivity.
Qed.

Lemma boat_square_inj t t' : boat_square t = boat_square t' -> t = t'.
Proof. destruct t, t'; cbn; congruence. Qed.

Lemma boat_of_square p t : boat_of p = Some t <-> p = boat_square t.
Proof. destruct p, t; cbn; split; congruence. Qed.

Lemma add_boat_lives_match f row col dir t st f' :
  well_formed f -> on_field row col -> lives_match f ->
  FieldAddBoat f row col dir t = Some (st, f') ->
  well_formed f' /\ lives_match f' /\
  match st with
  | SUCCESS =>
      forall t', squares_of (boat_square t') f' =
                 squares_of (boat_square t') f +
                 (if BoatType_eqb t' t then boat_size t else 0)
  | STANDARD_ERROR => f' = f
  end.
Proof.
  intros Hs Hon Hm E.
  destruct (FieldAddBoat_cases f row col dir t Hs Hon)
    as [(Hnf & E') | [(Hf & _ & E') | (Hf & Hall & g & Eg & E')]];
    rewrite E' in E; injection E as <- <-;
    try (split; [assumption | split; [assumption | reflexivity]]).
  assert (Hsq : forall rc, In rc (boat_squares row col dir (boat_size t)) ->
                           on_field (fst rc) (snd rc)).
  { intros rc Hrc. apply (In_boat_squares _ _ _ _ _ Hon Hf) in Hrc as (i & Hi & ->).
    eapply boat_at_on; eassumption. }
  destruct (place_squares_spec _ (boat_square t) (grid f) Hs Hsq)
    as (g' & Eg' & Hs' & _).
  rewrite Eg in Eg'. injection Eg' as <-.
  assert (Hempty : forall rc, In rc (boat_squares row col dir (boat_size t)) ->
            grid_get (grid f) (fst rc) (snd rc) = Some FIELD_SQUARE_EMPTY).
  { intros rc Hrc. rewrite (status_at_on f rc Hs (Hsq rc Hrc)).
    apply (In_boat_squares _ _ _ _ _ Hon Hf) in Hrc as (i & Hi & ->).
    rewrite (Hall i Hi). reflexivity. }
  pose proof (place_squares_count _ _ _ _ Hs
                (boat_squares_NoDup _ _ _ _ Hon Hf) Hempty Eg) as Hcount.
  rewrite (boat_squares_length row col dir (boat_size t))
    in Hcount by (pose proof (boat_size_range t); lia).
  remember (match t with
             | FIELD_BOAT_TYPE_SMALL =>
                 set_smallBoatLives (smallBoatLives f + boat_size t) (set_grid g f)
             | FIELD_BOAT_TYPE_MEDIUM =>
                 set_mediumBoatLives (mediumBoatLives f + boat_size t) (set_grid g f)
             | FIELD_BOAT_TYPE_LARGE =>
                 set_largeBoatLives (largeBoatLives f + boat_size t) (set_grid g f)
             | FIELD_BOAT_TYPE_HUGE =>
                 set_hugeBoatLives (hugeBoatLives f + boat_size t) (set_grid g f)
             end) as f' eqn:Ef'.
  assert (Hgrid : grid f' = g) by (subst f'; destruct t; reflexivity).
  assert (Hs'' : well_formed f') by (red; rewrite Hgrid; exact Hs').
  assert (Hsquares : forall t', squares_of (boat_square t') f' =
            squares_of (boat_square t') f +
            (if BoatType_eqb t' t then boat_size t else 0)).
  { intros t'. unfold squares_of. rewrite Hgrid, Hcount.
    destruct t, t'; cbn [boat_square SquareStatus_eqb BoatType_eqb]; lia. }
  split; [exact Hs'' |]. split; [| exact Hsquares].
  intros t'. rewrite Hsquares.
  pose proof (count_bound (boat_square t') f' Hs'') as Hb. rewrite Hsquares in Hb.
  pose proof (count_bound (boat_square t') f Hs) as Hb0.
  pose proof (Hm t') as Hm'. pose proof (boat_size_range t) as Hsz.
  destruct (BoatType_eqb t' t) eqn:Et.
  - assert (t' = t) by (destruct t, t'; try reflexivity; discriminate Et). subst t'.
    assert (Hl : boat_lives t f' = to_u8 (boat_lives t f + boat_size t))
      by (subst f'; destruct t; reflexivity).
    rewrite Hl, Hm'. apply to_u8_small. lia.
  - assert (Hl : boat_lives t' f' = boat_lives t' f).
    { subst f'. destruct t, t'; try reflexivity; discriminate Et. }
    rewrite Hl, Hm'. lia.
Qed.

(** X7. [FieldAddBoat] keeps the lives of every boat type equal to the
    number of squares of that type on the grid: a success adds the boat's
    length to the squares of its own type and to no other, a failure changes
    nothing. *)
Theorem FieldAddBoat_keeps_lives_matching f row col dir t st f' :
  well_formed f -> on_field row col -> lives_match f ->
  FieldAddBoat f row col dir t = Some (st, f') ->
  well_formed f' /\ lives_match f' /\
  match st with
  | SUCCESS =>
      forall t', squares_of (boat_square t') f' =
                 squares_of (boat_square t') f +
                 (if BoatType_eqb t' t then boat_size t else 0)
  | STANDARD_ERROR => f' = f
  end.
Proof. exact (add_boat_lives_match f row col dir t st f'). Qed.

Lemma register_attack_lives_match f g :
  well_formed f -> lives_match f -> on_field (g_row g) (g_col g) ->
  let f' := snd (fst (FieldRegisterEnemyAttack f g)) in
  lives_match f' /\
  forall t, squares_of (boat_square t) f' =
            squares_of (boat_square t) f -
            match boat_of (status_at f (g_row g, g_col g)) with
            | Some t' => if BoatType_eqb t t' then 1 else 0
            | None => 0
            end.
Proof.
  intros Hs Hm Hon. pose proof (register_attack_grid f g Hs Hon) as Hg.
  destruct (register_attack_spec f g Hs Hon) as (f1 & res & E & Hs1 & _ & _ & Hl & _).
  rewrite E in *. cbn [fst snd] in *. cbv zeta in Hg.
  pose proof (status_at_on f (g_row g, g_col g) Hs Hon) as Eget. cbn [fst snd] in Eget.
  assert (Hcount : forall t, squares_of (boat_square t) f1 =
            squares_of (boat_square t) f -
            match boat_of (status_at f (g_row g, g_col g)) with
            | Some t' => if BoatType_eqb t t' then 1 else 0
            | None => 0
            end).
  { intros t. unfold squares_of.
    destruct (boat_of (status_at f (g_row g, g_col g))) as [t'|] eqn:Eb.
    - rewrite (count_set _ _ _ _ _ _ _ Eget Hg).
      apply boat_of_square in Eb. rewrite Eb.
      destruct t, t'; cbn; lia.
    - destruct (status_at f (g_row g, g_col g)) eqn:Est; try discriminate Eb;
        try (rewrite Hg; lia).
      rewrite (count_set _ _ _ _ _ _ _ Eget Hg). destruct t; cbn; lia. }
  split; [| exact Hcount].
  intros t. rewrite Hl, Hcount. pose proof (Hm t) as Hmt.
  pose proof (count_bound (boat_square t) f Hs) as Hb.
  destruct (boat_of (status_at f (g_row g, g_col g))) as [t'|] eqn:Eb; [| lia].
  destruct (BoatType_eqb t t') eqn:Et; cbn [andb]; [| lia].
  assert (t = t') by (destruct t, t'; try reflexivity; discriminate Et). subst t'.
  apply boat_of_square in Eb.
  pose proof (squares_of_here _ f (g_row g, g_col g) Hs Hon Eb) as H1.
  destruct (boat_lives t f >? 0) eqn:L; [| lia].
  rewrite Hmt. apply to_u8_small. lia.
Qed.

(** X10. While the lives match the squares, the defender reports a boat
    sunk exactly on the hit that removes its last square and HIT on every
    earlier one, and the attack keeps lives and squares matched. *)
Theorem sunk_is_reported_on_the_last_square f g :
  well_formed f -> lives_match f -> on_field (g_row g) (g_col g) ->
  let '(sq, f', g') := FieldRegisterEnemyAttack f g in
  lives_match f' /\
  g_result g' =
    match boat_of sq with
    | Some t => if squares_of (boat_square t) f =? 1 then sunk t else RESULT_HIT
    | None => RESULT_MISS
    end /\
  forall t, squares_of (boat_square t) f' =
            squares_of (boat_square t) f -
            match boat_of sq with
            | Some t' => if BoatType_eqb t t' then 1 else 0
            | None => 0
            end.
Proof.
  intros Hs Hm Hon.
  pose proof (register_attack_lives_match f g Hs Hm Hon) as Hlm.
  destruct (register_attack_spec f g Hs Hon) as (f' & res & E & _ & _ & _ & _ & Hres).
  rewrite E in *. cbn [fst snd g_result] in *. cbv zeta in Hlm.
  destruct Hlm as [Hm' Hcount].
  split; [exact Hm' |]. split; [| exact Hcount].
  rewrite Hres.
  destruct (boat_of (status_at f (g_row g, g_col g))) as [t|]; [| reflexivity].
  rewrite (Hm' t), (Hcount t).
  assert (Et : BoatType_eqb t t = true) by (destruct t; reflexivity). rewrite Et.
  destruct (squares_of (boat_square t) f - 1 =? 0) eqn:E0,
           (squares_of (boat_square t) f =? 1) eqn:E1; try reflexivity; lia.
Qed.

(** X13. While the lives match the squares, [FieldGetBoatStates] is 0
    exactly when no boat square is left on the grid, and the bit of a boat is
    set exactly when a square of that boat is left. *)
Theorem boats_afloat_iff_squares_left f :
  well_formed f -> lives_match f ->
  (FieldGetBoatStates f = 0 <-> forall rc, boat_of (status_at f rc) = None) /\
  (forall t, Z.testbit (FieldGetBoatStates f)
               match t with
               | FIELD_BOAT_TYPE_SMALL => 0 | FIELD_BOAT_TYPE_MEDIUM => 1
               | FIELD_BOAT_TYPE_LARGE => 2 | FIELD_BOAT_TYPE_HUGE => 3
               end = true <->
             exists rc, status_at f rc = boat_square t).
Proof.
  intros Hs Hm.
  assert (Hpos : forall t, boat_lives t f > 0 <-> exists rc, status_at f rc = boat_square t).
  { intros t. rewrite (Hm t). pose proof (count_bound (boat_square t) f Hs) as Hb.
    pose proof (squares_of_none (boat_square t) f Hs) as Hn. split.
    - intros Hgt.
      assert (Hne : ~ forall rc, on_field (fst rc) (snd rc) ->
                      status_at f rc <> boat_square t).
      { intros Hall. apply Hn in Hall. lia. }
      (* search the sixty squares *)
      assert (Hfind : forall l : list (Z * Z),
                (exists rc, In rc l /\ status_at f rc = boat_square t) \/
                (forall rc, In rc l -> status_at f rc <> boat_square t)).
      { induction l as [| rc l IHl]; [right; intros ? [] |].
        destruct (SquareStatus_eqb (status_at f rc) (boat_square t)) eqn:E.
        - left. exists rc. split; [left; reflexivity | apply SquareStatus_eqb_eq, E].
        - destruct IHl as [(rc' & Hin & Hrc') | Hall].
          + left. exists rc'. split; [right; exact Hin | exact Hrc'].
          + right. intros rc' [<- | Hin]; [| apply Hall, Hin].
            intros E'. rewrite E' in E. destruct t; discriminate. }
      destruct (Hfind squares_row_major) as [(rc & _ & Hrc) | Hall];
        [exists rc; exact Hrc |].
      elim Hne. intros [r c] [Hr Hc]. apply Hall. cbn [fst snd] in *.
      unfold squares_row_major. apply in_flat_map. exists (Z.to_nat r).
      unfold FIELD_ROWS, FIELD_COLS in *.
      split; [apply in_seq; lia |]. apply in_map_iff. exists (Z.to_nat c).
      split; [f_equal; lia | apply in_seq; lia].
    - intros ([r c] & Hrc).
      assert (Hon : on_field r c).
      { destruct (on_field_dec r c) as [Hon | Hoff]; [exact Hon |].
        unfold status_at in Hrc. cbn [fst snd] in Hrc.
        rewrite Get_grid, (grid_get_off _ _ _ Hs Hoff) in Hrc.
        destruct t; discriminate. }
      pose proof (squares_of_here _ f (r, c) Hs Hon Hrc). lia. }
  split.
  - destruct (boat_states_bits f) as (_ & _ & _ & _ & _ & H0). rewrite H0. split.
    + intros Hall rc. destruct (boat_of (status_at f rc)) as [t|] eqn:E; [| reflexivity].
      apply boat_of_square in E.
      assert (boat_lives t f > 0) by (apply Hpos; exists rc; exact E).
      specialize (Hall t). lia.
    + intros Hall t.
      destruct (Z_le_dec (boat_lives t f) 0) as [| Hgt]; [assumption |].
      assert (Hex : exists rc, status_at f rc = boat_square t) by (apply Hpos; lia).
      destruct Hex as [rc Hrc]. specialize (Hall rc). rewrite Hrc in Hall.
      destruct t; discriminate.
  - intros t. rewrite <- Hpos.
    destruct (boat_states_bits f) as (_ & B0 & B1 & B2 & B3 & _).
    destruct t; cbn [boat_lives]; rewrite ?B0, ?B1, ?B2, ?B3; lia.
Qed.

(** *** The placement of the four boats *)

Lemma random_placement_on r :
  let '(row, col, dir, r') := random_placement r in
  on_field row col /\ rand_source r' = rand_source r /\
  rand_calls r' = (rand_calls r + 3)%nat.
Proof.
  unfold random_placement, rand. cbn [rand_source rand_calls].
  set (x := Z.of_N (rand_source r (rand_calls r))).
  set (y := Z.of_N (rand_source r (S (rand_calls r)))).
  assert (Hx : 0 <= x) by (unfold x; lia).
  assert (Hy : 0 <= y) by (unfold y; lia).
  unfold on_field, FIELD_ROWS, FIELD_COLS.
  pose proof (Z.mod_pos_bound x 6 ltac:(lia)).
  pose proof (Z.mod_pos_bound y 10 ltac:(lia)).
  rewrite !to_u8_small by lia. repeat split; try lia.
Qed.

Lemma place_retry_spec fuel : forall f row col dir t r f' r',
  well_formed f -> lives_match f -> on_field row col ->
  place_retry fuel f row col dir t r = Some (f', r') ->
  well_formed f' /\ lives_match f' /\
  (forall t', squares_of (boat_square t') f' =
              squares_of (boat_square t') f +
              (if BoatType_eqb t' t then boat_size t else 0)) /\
  (forall rc, status_at f rc <> FIELD_SQUARE_EMPTY -> status_at f' rc = status_at f rc) /\
  rand_source r' = rand_source r /\
  exists k, rand_calls r' = (rand_calls r + 3 * k)%nat.
Proof.
  induction fuel as [| fuel IH]; intros f row col dir t r f' r' Hs Hm Hon E;
    [discriminate |].
  cbn [place_retry] in E.
  destruct (FieldAddBoat f row col dir t) as [[[|] f1]|] eqn:Eadd; [| | discriminate].
  - injection E as <- <-.
    destruct (add_boat_lives_match _ _ _ _ _ _ _ Hs Hon Hm Eadd) as (Hs1 & Hm1 & Hsq).
    split; [exact Hs1 |]. split; [exact Hm1 |]. split; [exact Hsq |].
    split; [| split; [reflexivity | exists 0%nat; lia]].
    intros rc Hne.
    destruct (add_boat_places _ _ _ _ _ _ Hs Hon Eadd) as (_ & _ & Hother & _).
    apply Hother. intros i Hi ->.
    destruct (FieldAddBoat_cases f row col dir t Hs Hon)
      as [(_ & E') | [(_ & _ & E') | (_ & Hall & _)]];
      [rewrite E' in Eadd; discriminate | rewrite E' in Eadd; discriminate |].
    exact (Hne (Hall i Hi)).
  - destruct (add_boat_lives_match _ _ _ _ _ _ _ Hs Hon Hm Eadd) as (_ & _ & ->).
    pose proof (random_placement_on r) as Hrp.
    destruct (random_placement r) as [[[row1 col1] dir1] r1].
    destruct Hrp as (Hon1 & Hsrc & Hcalls).
    destruct (IH _ _ _ _ _ _ _ _ Hs Hm Hon1 E) as (A1 & A2 & A3 & A4 & A5 & k & A6).
    repeat (split; [assumption |]). split; [congruence |].
    exists (S k). lia.
Qed.

Lemma place_each_spec fuel ts : forall f r f' r',
  well_formed f -> lives_match f ->
  place_each fuel ts f r = Some (f', r') ->
  well_formed f' /\ lives_match f' /\
  (forall t', squares_of (boat_square t') f' =
              squares_of (boat_square t') f +
              fold_right (fun t n => (if BoatType_eqb t' t then boat_size t else 0) + n)
                0 ts) /\
  (forall rc, status_at f rc <> FIELD_SQUARE_EMPTY -> status_at f' rc = status_at f rc) /\
  rand_source r' = rand_source r /\
  exists k, (length ts <= k)%nat /\ rand_calls r' = (rand_calls r + 3 * k)%nat.
Proof.
  induction ts as [| t ts IH]; intros f r f' r' Hs Hm E.
  - injection E as <- <-. repeat (split; [first [assumption | reflexivity | cbn; intros; lia] |]).
    exists 0%nat. cbn. lia.
  - cbn [place_each] in E.
    pose proof (random_placement_on r) as Hrp.
    destruct (random_placement r) as [[[row col] dir] r1].
    destruct Hrp as (Hon & Hsrc & Hcalls).
    destruct (place_retry fuel f row col dir t r1) as [[f1 r2]|] eqn:E1; [| discriminate].
    destruct (place_retry_spec _ _ _ _ _ _ _ _ _ Hs Hm Hon E1)
      as (Hs1 & Hm1 & Hsq1 & Hkeep1 & Hsrc1 & k1 & Hk1).
    destruct (IH _ _ _ _ Hs1 Hm1 E) as (Hs2 & Hm2 & Hsq2 & Hkeep2 & Hsrc2 & k2 & Lk2 & Hk2).
    split; [exact Hs2 |]. split; [exact Hm2 |]. split; [| split; [| split]].
    + intros t'. rewrite Hsq2, Hsq1. cbn [fold_right]. lia.
    + intros rc Hne. rewrite Hkeep2; [apply Hkeep1, Hne |].
      rewrite (Hkeep1 rc Hne). exact Hne.
    + congruence.
    + exists (S (k1 + k2)). cbn [length]. lia.
Qed.

Lemma place_all_boats_spec fuel f r st f' r' :
  well_formed f -> lives_match f ->
  FieldAIPlaceAllBoats fuel f r = Some (st, f', r') ->
  st = SUCCESS /\ well_formed f' /\ lives_match f' /\
  (forall t, squares_of (boat_square t) f' =
             squares_of (boat_square t) f + boat_size t) /\
  (forall rc, status_at f rc <> FIELD_SQUARE_EMPTY ->
              status_at f' rc = status_at f rc) /\
  rand_source r' = rand_source r /\
  exists k, (4 <= k)%nat /\ rand_calls r' = (rand_calls r + 3 * k)%nat.
Proof.
  intros Hs Hm E. unfold FieldAIPlaceAllBoats in E.
  destruct (place_each fuel _ f r) as [[f1 r1]|] eqn:E1; [| discriminate].
  injection E as <- <- <-.
  destruct (place_each_spec _ _ _ _ _ _ Hs Hm E1)
    as (Hs1 & Hm1 & Hsq & Hkeep & Hsrc & k & Lk & Hk).
  split; [reflexivity |]. split; [exact Hs1 |]. split; [exact Hm1 |].
  split; [| split; [exact Hkeep | split; [exact Hsrc | exists k; split; assumption]]].
  intros t. rewrite Hsq. destruct t; cbn; lia.
Qed.

(** X14. When [FieldAIPlaceAllBoats] returns, it returns SUCCESS; each boat
    type has gained exactly its length in squares and in lives, no square
    that was not EMPTY has been overwritten, and [rand()] has been called
    three times per attempt, for at least four attempts. *)
Theorem FieldAIPlaceAllBoats_places_each_boat_once fuel f r st f' r' :
  well_formed f -> lives_match f ->
  FieldAIPlaceAllBoats fuel f r = Some (st, f', r') ->
  st = SUCCESS /\ well_formed f' /\ lives_match f' /\
  (forall t, squares_of (boat_square t) f' =
             squares_of (boat_square t) f + boat_size t) /\
  (forall rc, status_at f rc <> FIELD_SQUARE_EMPTY ->
              status_at f' rc = status_at f rc) /\
  rand_source r' = rand_source r /\
  exists k, (4 <= k)%nat /\ rand_calls r' = (rand_calls r + 3 * k)%nat.
Proof. exact (place_all_boats_spec fuel f r st f' r'). Qed.

(** *** The choice of a guess *)

Lemma first_unknown_found g p sq r c :
  first_unknown g p sq = Some (Some (r, c)) ->
  exists pre post,
    sq = pre ++ (r, c) :: post /\
    p r c = true /\ grid_get g r c = Some FIELD_SQUARE_UNKNOWN /\
    forall rc, In rc pre -> p (fst rc) (snd rc) = true ->
      exists st, grid_get g (fst rc) (snd rc) = Some st /\ st <> FIELD_SQUARE_UNKNOWN.
Proof.
  induction sq as [| [r' c'] sq IH]; [discriminate |].
  cbn [first_unknown].
  destruct (p r' c') eqn:Ep.
  - destruct (grid_get g r' c') as [st|] eqn:Eg; [| discriminate].
    destruct (SquareStatus_eqb st FIELD_SQUARE_UNKNOWN) eqn:Est.
    + intros [= <- <-]. apply SquareStatus_eqb_eq in Est. subst st.
      exists [], sq. repeat split; try assumption. intros rc [].
    + intros E. destruct (IH E) as (pre & post & -> & Hp & Hg & Hpre).
      exists ((r', c') :: pre), post. repeat split; try assumption.
      intros rc [<- | Hin] Hprc; [| apply Hpre; assumption].
      exists st. split; [exact Eg |]. intros ->. discriminate.
  - intros E. destruct (IH E) as (pre & post & -> & Hp & Hg & Hpre).
    exists ((r', c') :: pre), post. repeat split; try assumption.
    intros rc [<- | Hin] Hprc; [| apply Hpre; assumption].
    cbn [fst snd] in Hprc. congruence.
Qed.

Lemma first_unknown_none g p sq :
  first_unknown g p sq = Some None ->
  forall rc, In rc sq -> p (fst rc) (snd rc) = true ->
    exists st, grid_get g (fst rc) (snd rc) = Some st /\ st <> FIELD_SQUARE_UNKNOWN.
Proof.
  induction sq as [| [r' c'] sq IH]; [intros _ rc [] |].
  cbn [first_unknown].
  destruct (p r' c') eqn:Ep.
  - destruct (grid_get g r' c') as [st|] eqn:Eg; [| discriminate].
    destruct (SquareStatus_eqb st FIELD_SQUARE_UNKNOWN) eqn:Est; [discriminate |].
    intros E rc [<- | Hin] Hprc; [| apply IH; assumption].
    exists st. split; [exact Eg |]. intros ->. discriminate.
  - intros E rc [<- | Hin] Hprc; [| apply IH; assumption].
    cbn [fst snd] in Hprc. congruence.
Qed.

Lemma first_unknown_defined g p sq :
  grid_shape g -> (forall rc, In rc sq -> on_field (fst rc) (snd rc)) ->
  first_unknown g p sq <> None.
Proof.
  intros Hs. induction sq as [| [r c] sq IH]; intros Hon; [discriminate |].
  cbn [first_unknown].
  assert (IH' : first_unknown g p sq <> None)
    by (apply IH; intros rc Hrc; apply Hon; right; exact Hrc).
  destruct (p r c); [| exact IH'].
  destruct (grid_get_on g r c Hs (Hon (r, c) (or_introl eq_refl))) as [st ->].
  destruct (SquareStatus_eqb st FIELD_SQUARE_UNKNOWN); [discriminate | exact IH'].
Qed.

Lemma In_squares_row_major rc :
  In rc squares_row_major <-> on_field (fst rc) (snd rc).
Proof.
  destruct rc as [r c]. unfold squares_row_major, on_field, FIELD_ROWS, FIELD_COLS.
  cbn [fst snd]. rewrite in_flat_map. split.
  - intros (i & Hi & Hin). apply in_seq in Hi. apply in_map_iff in Hin as (j & E & Hj).
    apply in_seq in Hj. injection E as <- <-. lia.
  - intros [Hr Hc]. exists (Z.to_nat r). split; [apply in_seq; lia |].
    apply in_map_iff. exists (Z.to_nat c). split; [f_equal; lia | apply in_seq; lia].
Qed.

Lemma unknown_here g r c :
  grid_get g r c = Some FIELD_SQUARE_UNKNOWN -> r < FIELD_ROWS -> c < FIELD_COLS ->
  forall l1 l2 l3 l4, status_at (mkField g l1 l2 l3 l4) (r, c) = FIELD_SQUARE_UNKNOWN.
Proof.
  intros Eg Hr Hc l1 l2 l3 l4. unfold status_at. cbn [fst snd].
  rewrite Get_grid. cbn [grid]. rewrite Eg.
  destruct (r >=? FIELD_ROWS) eqn:E1; [lia |].
  destruct (c >=? FIELD_COLS) eqn:E2; [lia |]. reflexivity.
Qed.

Lemma hunt_unknown f s g s' :
  hunt f s = Some (g, s') ->
  s' = s /\ g_result g = RESULT_MISS /\
  status_at f (g_row g, g_col g) = FIELD_SQUARE_UNKNOWN.
Proof.
  unfold hunt. destruct f as [gr l1 l2 l3 l4]. cbn [grid].
  destruct (first_unknown gr (fun row col => (row + col) mod 4 =? 0) squares_row_major)
    as [[[r c]|]|] eqn:E1; [| | discriminate].
  - intros [= <- <-].
     destruct (first_unknown_found _ _ _ _ _ E1) as (pre & post & Hsq & _ & Hg & _).
    assert (Hin : In (r, c) squares_row_major) by (rewrite Hsq; apply in_elt).
    apply In_squares_row_major in Hin as [Hr Hc]. cbn [fst snd] in *.
    repeat split. apply unknown_here; [exact Hg | apply Hr | apply Hc].
  - destruct (first_unknown gr (fun _ _ => true) squares_row_major)
      as [[[r c]|]|] eqn:E2; try discriminate.
    intros [= <- <-].
     destruct (first_unknown_found _ _ _ _ _ E2) as (pre & post & Hsq & _ & Hg & _).
    assert (Hin : In (r, c) squares_row_major) by (rewrite Hsq; apply in_elt).
    apply In_squares_row_major in Hin as [Hr Hc]. cbn [fst snd] in *.
    repeat split. apply unknown_here; [exact Hg | apply Hr | apply Hc].
Qed.

Lemma first_adjacent_unknown g s ds d newRow newCol :
  first_adjacent g s ds = Some (Some (d, newRow, newCol)) ->
  grid_get g newRow newCol = Some FIELD_SQUARE_UNKNOWN /\
  0 <= newRow < FIELD_ROWS /\ 0 <= newCol < FIELD_COLS.
Proof.
  induction ds as [| d' ds IH]; [discriminate |].
  cbn [first_adjacent].
  destruct (directions_at d') as [[dr dc]|]; [| discriminate]. cbv zeta.
  destruct ((to_i8 (originRow s + dr) >=? 0) && (to_i8 (originRow s + dr) <? FIELD_ROWS)
            && (to_i8 (originCol s + dc) >=? 0) && (to_i8 (originCol s + dc) <? FIELD_COLS))
    eqn:Ein; [| exact IH].
  destruct (grid_get g (to_i8 _) (to_i8 _)) as [st|] eqn:Eg; [| discriminate].
  destruct (SquareStatus_eqb st FIELD_SQUARE_UNKNOWN) eqn:Est; [| exact IH].
  intros [= <- <- <-]. apply SquareStatus_eqb_eq in Est. subst st.
  split; [exact Eg |]. lia.
Qed.

Lemma decide_guess_unknown fuel : forall f s g s',
  FieldAIDecideGuess fuel f s = Some (g, s') ->
  g_result g = RESULT_MISS /\
  status_at f (g_row g, g_col g) = FIELD_SQUARE_UNKNOWN.
Proof.
  induction fuel as [| fuel IH]; intros f s g s'; [discriminate |].
  cbn [FieldAIDecideGuess].
  set (s1 := if (g_result (lastGuess s) >=? RESULT_SMALL_BOAT_SUNK)
                && (g_result (lastGuess s) <=? RESULT_HUGE_BOAT_SUNK)
             then _ else s).
  set (s2 := if g_result (lastGuess s) =? RESULT_HIT then _ else s1).
  clearbody s2. clear s1.
  assert (Hhunt : forall s0, hunt f s0 = Some (g, s') ->
            g_result g = RESULT_MISS /\
            status_at f (g_row g, g_col g) = FIELD_SQUARE_UNKNOWN).
  { intros s0 E. destruct (hunt_unknown _ _ _ _ E) as (_ & A & B). split; assumption. }
  destruct (negb (targeting s2 =? 0)); [| apply Hhunt].
  destruct (negb (orientationKnown s2 =? 0) && negb (direction s2 =? -1)).
  - destruct (directions_at _) as [[dr dc]|]; [| discriminate].
    set (k := hitsInARow s2 + _).
    set (otherwise := if reverse s2 =? 0 then _ else _).
    assert (Hother : otherwise = Some (g, s') ->
              g_result g = RESULT_MISS /\
              status_at f (g_row g, g_col g) = FIELD_SQUARE_UNKNOWN).
    { unfold otherwise. destruct (reverse s2 =? 0); [apply IH | apply Hhunt]. }
    clearbody otherwise.
    destruct ((to_i8 (originRow s2 + dr * k) <? FIELD_ROWS)
              && (to_i8 (originCol s2 + dc * k) <? FIELD_COLS)) eqn:Ein;
      [| exact Hother].
    destruct (grid_get (grid f) _ _) as [st|] eqn:Eg; [| discriminate].
    destruct (SquareStatus_eqb st FIELD_SQUARE_UNKNOWN) eqn:Est; [| exact Hother].
    intros [= <- <-]. apply SquareStatus_eqb_eq in Est. subst st.
    cbn [g_result g_row g_col]. split; [reflexivity |].
    assert (Hnn : 0 <= to_i8 (originRow s2 + dr * k) /\ 0 <= to_i8 (originCol s2 + dc * k)).
    { unfold grid_get in Eg.
      destruct (0 <=? to_i8 (originRow s2 + dr * k)) eqn:A; [| discriminate].
      destruct (0 <=? to_i8 (originCol s2 + dc * k)) eqn:B; [| discriminate]. lia. }
    unfold FIELD_ROWS, FIELD_COLS in *.
    rewrite !to_u8_small by lia.
    destruct f. apply unknown_here; [exact Eg | |]; unfold FIELD_ROWS, FIELD_COLS; lia.
  - destruct (first_adjacent (grid f) s2 [0; 1; 2; 3]) as [[[[d r] c]|]|] eqn:Ea;
      [| apply Hhunt | discriminate].
    intros [= <- <-]. cbn [g_result g_row g_col]. split; [reflexivity |].
    destruct (first_adjacent_unknown _ _ _ _ _ _ Ea) as (Eg & Hr & Hc).
    unfold FIELD_ROWS, FIELD_COLS in *.
    rewrite !to_u8_small by lia.
    destruct f. apply unknown_here; [exact Eg | |]; unfold FIELD_ROWS, FIELD_COLS; lia.
Qed.

Lemma seq_split a n : forall (l1 l2 : list Z) v,
  map Z.of_nat (seq a n) = l1 ++ v :: l2 ->
  (forall u, In u l1 -> u < v) /\ (forall u, In u l2 -> v < u).
Proof.
  revert a. induction n as [| n IH]; intros a l1 l2 v E.
  - destruct l1; discriminate.
  - cbn [seq map] in E. destruct l1 as [| u l1].
    + cbn [app] in E. injection E as <- <-. split; [intros u [] |].
      intros u Hu. apply in_map_iff in Hu as (k & <- & Hk). apply in_seq in Hk. lia.
    + cbn [app] in E. injection E as <- E.
      destruct (IH _ _ _ _ E) as [H1 H2]. split; [| exact H2].
      intros u [<- | Hu]; [| apply H1, Hu].
      assert (Hv : In v (map Z.of_nat (seq (S a) n))) by (rewrite E; apply in_elt).
      apply in_map_iff in Hv as (k & <- & Hk). apply in_seq in Hk. lia.
Qed.

Lemma row_major_order pre x post :
  squares_row_major = pre ++ x :: post ->
  (forall y, In y pre -> scanned_before y x) /\
  (forall y, In y post -> scanned_before x y).
Proof.
  intros E.
  assert (Hidx : map (fun rc : Z * Z => 10 * fst rc + snd rc) squares_row_major
                 = map Z.of_nat (seq 0 60)) by reflexivity.
  rewrite E, map_app in Hidx. cbn [map] in Hidx. symmetry in Hidx.
  destruct (seq_split _ _ _ _ _ Hidx) as [H1 H2].
  assert (Hon : forall y, In y (pre ++ x :: post) -> on_field (fst y) (snd y)).
  { intros y Hy. rewrite <- E in Hy. apply In_squares_row_major, Hy. }
  pose proof (Hon x (in_elt _ _ _)) as [Hxr Hxc].
  unfold scanned_before, FIELD_ROWS, FIELD_COLS in *. split; intros y Hy.
  - pose proof (Hon y ltac:(apply in_or_app; left; exact Hy)) as [Hyr Hyc].
    specialize (H1 _ (in_map (fun rc : Z * Z => 10 * fst rc + snd rc) _ _ Hy)).
    cbn beta in H1. unfold on_field, FIELD_ROWS, FIELD_COLS in *. lia.
  - pose proof (Hon y ltac:(apply in_or_app; right; right; exact Hy)) as [Hyr Hyc].
    specialize (H2 _ (in_map (fun rc : Z * Z => 10 * fst rc + snd rc) _ _ Hy)).
    cbn beta in H2. unfold on_field, FIELD_ROWS, FIELD_COLS in *. lia.
Qed.

Lemma first_unknown_least f p r c :
  well_formed f ->
  first_unknown (grid f) p squares_row_major = Some (Some (r, c)) ->
  status_at f (r, c) = FIELD_SQUARE_UNKNOWN /\ p r c = true /\
  forall rc, status_at f rc = FIELD_SQUARE_UNKNOWN -> p (fst rc) (snd rc) = true ->
             ~ scanned_before rc (r, c).
Proof.
  intros Hs E.
  destruct (first_unknown_found _ _ _ _ _ E) as (pre & post & Hsq & Hp & Hg & Hpre).
  destruct (row_major_order _ _ _ Hsq) as [Hbefore Hafter].
  assert (Hin : In (r, c) squares_row_major) by (rewrite Hsq; apply in_elt).
  apply In_squares_row_major in Hin. cbn [fst snd] in Hin.
  split; [| split; [exact Hp |]].
  - pose proof (status_at_on f (r, c) Hs Hin) as X. cbn [fst snd] in X.
    rewrite Hg in X. injection X as <-. reflexivity.
  - intros rc Hrc Hprc Hlt.
    assert (Hon : on_field (fst rc) (snd rc)).
    { destruct (on_field_dec (fst rc) (snd rc)) as [Hon | Hoff]; [exact Hon |].
      unfold status_at in Hrc. rewrite Get_grid, (grid_get_off _ _ _ Hs Hoff) in Hrc.
      discriminate. }
    apply In_squares_row_major in Hon as Hin'. rewrite Hsq in Hin'.
    apply in_app_or in Hin' as [Hin' | [<- | Hin']].
    + destruct (Hpre rc Hin' Hprc) as (st & Est & Hne).
      rewrite (status_at_on f rc Hs Hon) in Est. injection Est as <-. contradiction.
    + unfold scanned_before in Hlt. cbn [fst snd] in Hlt. lia.
    + specialize (Hafter rc Hin'). unfold scanned_before in *. cbn [fst snd] in *. lia.
Qed.

Lemma first_unknown_absent f p :
  well_formed f ->
  first_unknown (grid f) p squares_row_major = Some None ->
  forall rc, status_at f rc = FIELD_SQUARE_UNKNOWN -> p (fst rc) (snd rc) = false.
Proof.
  intros Hs E rc Hrc.
  assert (Hon : on_field (fst rc) (snd rc)).
  { destruct (on_field_dec (fst rc) (snd rc)) as [Hon | Hoff]; [exact Hon |].
    unfold status_at in Hrc. rewrite Get_grid, (grid_get_off _ _ _ Hs Hoff) in Hrc.
    discriminate. }
  destruct (p (fst rc) (snd rc)) eqn:Ep; [| reflexivity].
  destruct (first_unknown_none _ _ _ E rc (proj2 (In_squares_row_major rc) Hon) Ep)
    as (st & Est & Hne).
  rewrite (status_at_on f rc Hs Hon) in Est. injection Est as <-. contradiction.
Qed.

Lemma hunt_scans_in_order f s :
  well_formed f ->
  match hunt f s with
  | Some (g, s') =>
      s' = s /\ g_result g = RESULT_MISS /\
      status_at f (g_row g, g_col g) = FIELD_SQUARE_UNKNOWN /\
      forall rc, status_at f rc = FIELD_SQUARE_UNKNOWN ->
        (on_parity rc = true -> on_parity (g_row g, g_col g) = true) /\
        (on_parity rc = on_parity (g_row g, g_col g) ->
         ~ scanned_before rc (g_row g, g_col g))
  | None => forall rc, status_at f rc <> FIELD_SQUARE_UNKNOWN
  end.
Proof.
  intros Hs. unfold hunt.
  assert (Hall : forall rc, In rc squares_row_major -> on_field (fst rc) (snd rc))
    by (intros rc; apply In_squares_row_major).
  pose proof (first_unknown_defined (grid f) (fun row col => (row + col) mod 4 =? 0)
                squares_row_major Hs Hall) as D1.
  pose proof (first_unknown_defined (grid f) (fun _ _ => true)
                squares_row_major Hs Hall) as D2.
  destruct (first_unknown (grid f) (fun row col => (row + col) mod 4 =? 0) squares_row_major)
    as [[[r c]|]|] eqn:E1; [| | contradiction].
  - destruct (first_unknown_least f _ r c Hs E1) as (Hu & Hp & Hleast).
    cbn [g_row g_col g_result]. repeat (split; [first [reflexivity | exact Hu] |]).
    intros rc Hrc. split; [intros _; exact Hp |].
    intros Hpar. apply Hleast; [exact Hrc |].
    change ((fst rc + snd rc) mod 4 =? 0) with (on_parity rc).
    rewrite Hpar. exact Hp.
  - pose proof (first_unknown_absent f _ Hs E1) as Hoff.
    destruct (first_unknown (grid f) (fun _ _ => true) squares_row_major)
      as [[[r c]|]|] eqn:E2; [| | contradiction].
    + destruct (first_unknown_least f _ r c Hs E2) as (Hu & _ & Hleast).
      cbn [g_row g_col g_result]. repeat (split; [first [reflexivity | exact Hu] |]).
      intros rc Hrc. split.
      * intros Hpar. specialize (Hoff rc Hrc). cbn beta in Hoff.
        unfold on_parity in Hpar. congruence.
      * intros _. apply Hleast; [exact Hrc | reflexivity].
    + pose proof (first_unknown_absent f _ Hs E2) as Hnone.
      intros rc Hrc. specialize (Hnone rc Hrc). discriminate.
Qed.

Lemma no_square_left p f :
  well_formed f -> squares_of p f = 0 ->
  p <> FIELD_SQUARE_INVALID ->
  forall rc, status_at f rc <> p.
Proof.
  intros Hs Hz Hp rc.
  destruct (on_field_dec (fst rc) (snd rc)) as [Hon | Hoff].
  - apply (proj1 (squares_of_none p f Hs) Hz rc Hon).
  - unfold status_at. rewrite Get_grid, (grid_get_off _ _ _ Hs Hoff).
    intros E. apply Hp. symmetry. exact E.
Qed.

(** X16. Whatever its statics, whenever [FieldAIDecideGuess] assigns the
    coordinates of its guess they are those of a square that is UNKNOWN in
    the opponent's field, and the result is MISS. When no square is UNKNOWN
    it assigns none: the guess the C function returns then has the row and
    column it was declared with ([None], as where target mode reads outside
    the grid), so that it can name a square already guessed. *)
Theorem FieldAIDecideGuess_targets_unknown fuel f s :
  (forall g s',
     FieldAIDecideGuess fuel f s = Some (g, s') ->
     g_result g = RESULT_MISS /\
     status_at f (g_row g, g_col g) = FIELD_SQUARE_UNKNOWN) /\
  ((forall rc, status_at f rc <> FIELD_SQUARE_UNKNOWN) ->
   FieldAIDecideGuess fuel f s = None).
Proof.
  split; [apply decide_guess_unknown |].
  intros Hnone. destruct (FieldAIDecideGuess fuel f s) as [[g s']|] eqn:E; [| reflexivity].
  destruct (decide_guess_unknown fuel f s g s' E) as [_ Hu].
  elim (Hnone _ Hu).
Qed.

(** X17. From the statics as the program starts, [FieldAIDecideGuess]
    leaves them unchanged and returns the first UNKNOWN square in the order
    of the loops among those with (row + col) a multiple of 4 or, when there
    is none, the first UNKNOWN square of all; the coordinates of the guess are
    left unassigned ([None]) exactly when no square is UNKNOWN. *)
Theorem FieldAIDecideGuess_scans_in_order fuel f :
  well_formed f ->
  match FieldAIDecideGuess (S fuel) f guess_boot with
  | Some (g, s') =>
      s' = guess_boot /\ g_result g = RESULT_MISS /\
      status_at f (g_row g, g_col g) = FIELD_SQUARE_UNKNOWN /\
      forall rc, status_at f rc = FIELD_SQUARE_UNKNOWN ->
        (on_parity rc = true -> on_parity (g_row g, g_col g) = true) /\
        (on_parity rc = on_parity (g_row g, g_col g) ->
         ~ scanned_before rc (g_row g, g_col g))
  | None => forall rc, status_at f rc <> FIELD_SQUARE_UNKNOWN
  end.
Proof.
  intros Hs. change (FieldAIDecideGuess (S fuel) f guess_boot) with (hunt f guess_boot).
  apply hunt_scans_in_order, Hs.
Qed.

(** *** A constant [rand()] *)

Lemma random_placement_constant v n :
  random_placement (mkRand (fun _ => v) n) =
  (to_u8 (Z.of_N v mod FIELD_ROWS), to_u8 (Z.of_N v mod FIELD_COLS),
   (if Z.of_N v mod 2 =? 0 then FIELD_DIR_SOUTH else FIELD_DIR_EAST),
   mkRand (fun _ => v) (S (S (S n)))).
Proof. reflexivity. Qed.

Lemma place_retry_forever v f row col dir t fuel : forall n,
  (row, col, dir) =
    (to_u8 (Z.of_N v mod FIELD_ROWS), to_u8 (Z.of_N v mod FIELD_COLS),
     (if Z.of_N v mod 2 =? 0 then FIELD_DIR_SOUTH else FIELD_DIR_EAST)) ->
  FieldAddBoat f row col dir t = Some (STANDARD_ERROR, f) ->
  place_retry fuel f row col dir t (mkRand (fun _ => v) n) = None.
Proof.
  induction fuel as [| fuel IH]; intros n Hp E; [reflexivity |].
  cbn [place_retry]. rewrite E, random_placement_constant.
  injection Hp as -> -> ->. apply IH; [reflexivity | exact E].
Qed.

(** X15. The placement loop has no bound of its own: when [rand()] returns
    the same value on every call, [FieldAIPlaceAllBoats] does not return
    (the second boat is tried at the pivot of the first for ever), however
    many iterations it is allowed. *)
Theorem FieldAIPlaceAllBoats_needs_a_varying_rand fuel f v n :
  well_formed f ->
  0 < boat_size FIELD_BOAT_TYPE_HUGE ->
  0 < boat_size FIELD_BOAT_TYPE_LARGE ->
  FieldAIPlaceAllBoats fuel f (mkRand (fun _ => v) n) = None.
Proof.
  intros Hs Hh Hl. unfold FieldAIPlaceAllBoats. cbn [place_each].
  rewrite random_placement_constant.
  set (row := to_u8 (Z.of_N v mod FIELD_ROWS)).
  set (col := to_u8 (Z.of_N v mod FIELD_COLS)).
  set (dir := if Z.of_N v mod 2 =? 0 then FIELD_DIR_SOUTH else FIELD_DIR_EAST).
  assert (Hon : on_field row col).
  { pose proof (random_placement_on (mkRand (fun _ => v) n)) as X.
    rewrite random_placement_constant in X. destruct X as (X & _). exact X. }
  destruct (place_retry fuel f row col dir FIELD_BOAT_TYPE_HUGE _)
    as [[f1 r1]|] eqn:E1; [| reflexivity].
  (* the huge boat lies on the pivot: the large one cannot *)
  assert (Hstuck : forall fuel0 m f0,
            well_formed f0 ->
            status_at f0 (row, col) <> FIELD_SQUARE_EMPTY ->
            place_retry fuel0 f0 row col dir FIELD_BOAT_TYPE_LARGE
              (mkRand (fun _ => v) m) = None).
  { intros fuel0 m f0 Hs0 Hne. apply place_retry_forever; [reflexivity |].
    destruct (FieldAddBoat_cases f0 row col dir FIELD_BOAT_TYPE_LARGE Hs0 Hon)
      as [(_ & E) | [(_ & _ & E) | (_ & Hall & _)]]; try exact E.
    elim Hne. specialize (Hall 0 ltac:(lia)).
    destruct dir; cbn [boat_at] in Hall; rewrite Z.add_0_r in Hall; exact Hall. }
  assert (Hrun : forall fuel0 m f0 f2 r2,
            well_formed f0 ->
            place_retry fuel0 f0 row col dir FIELD_BOAT_TYPE_HUGE
              (mkRand (fun _ => v) m) = Some (f2, r2) ->
            well_formed f2 /\ status_at f2 (row, col) = FIELD_SQUARE_HUGE_BOAT /\
            exists m', r2 = mkRand (fun _ => v) m').
  { induction fuel0 as [| fuel0 IH]; intros m f0 f2 r2 Hs0 E; [discriminate |].
    cbn [place_retry] in E.
    destruct (FieldAddBoat f0 row col dir FIELD_BOAT_TYPE_HUGE) as [[[|] f3]|] eqn:Ea;
      [| | discriminate].
    - injection E as <- <-.
      destruct (add_boat_places _ _ _ _ _ _ Hs0 Hon Ea) as (Hs3 & Hsq & _).
      split; [exact Hs3 |]. split; [| eexists; reflexivity].
      specialize (Hsq 0 ltac:(lia)).
      destruct dir; cbn [boat_at] in Hsq; rewrite Z.add_0_r in Hsq; exact Hsq.
    - rewrite random_placement_constant in E. fold row col dir in E.
      destruct (FieldAddBoat_cases f0 row col dir FIELD_BOAT_TYPE_HUGE Hs0 Hon)
        as [(_ & E') | [(_ & _ & E') | (_ & _ & g & _ & E')]];
        rewrite E' in Ea; try discriminate; injection Ea as <-;
        exact (IH _ _ _ _ Hs0 E). }
  destruct (Hrun _ _ _ _ _ Hs E1) as (Hs1 & Hsq1 & m' & ->).
  rewrite random_placement_constant. fold row col dir.
  rewrite Hstuck; [reflexivity | exact Hs1 |]. rewrite Hsq1. discriminate.
Qed.

(** *** What the agent's calls keep *)

Lemma register_attack_sound f g :
  well_formed f -> lives_match f ->
  well_formed (snd (fst (FieldRegisterEnemyAttack f g))) /\
  lives_match (snd (fst (FieldRegisterEnemyAttack f g))).
Proof.
  intros Hs Hm. destruct (on_field_dec (g_row g) (g_col g)) as [Hon | Hoff].
  - destruct (register_attack_spec f g Hs Hon) as (f' & res & E & Hs' & _).
    pose proof (register_attack_lives_match f g Hs Hm Hon) as [Hm' _].
    rewrite E in *. split; assumption.
  - rewrite (register_attack_off f g Hs Hoff). split; assumption.
Qed.

Lemma update_knowledge_off f g :
  well_formed f -> ~ on_field (g_row g) (g_col g) ->
  FieldUpdateKnowledge f g = (FIELD_SQUARE_INVALID, f).
Proof.
  intros Hs Hoff. unfold FieldUpdateKnowledge.
  rewrite (grid_get_off _ _ _ Hs Hoff).
  destruct ((g_row g >=? FIELD_ROWS) || (g_col g >=? FIELD_COLS)); reflexivity.
Qed.

Lemma update_knowledge_sound f g :
  well_formed f -> well_formed (snd (FieldUpdateKnowledge f g)).
Proof.
  intros Hs. destruct (on_field_dec (g_row g) (g_col g)) as [Hon | Hoff].
  - destruct (update_knowledge_spec f g Hs Hon) as (f' & E & Hs' & _).
    rewrite E. exact Hs'.
  - rewrite (update_knowledge_off f g Hs Hoff). exact Hs.
Qed.

Lemma update_knowledge_unknown_result f g :
  ~ 0 <= g_result g <= 5 -> snd (FieldUpdateKnowledge f g) = f.
Proof.
  intros Hr. unfold FieldUpdateKnowledge.
  destruct ((g_row g >=? FIELD_ROWS) || (g_col g >=? FIELD_COLS)); [reflexivity |].
  destruct (grid_get (grid f) (g_row g) (g_col g)); [| reflexivity].
  unfold RESULT_HIT, RESULT_MISS, RESULT_SMALL_BOAT_SUNK, RESULT_MEDIUM_BOAT_SUNK,
    RESULT_LARGE_BOAT_SUNK, RESULT_HUGE_BOAT_SUNK.
  destruct (g_result g =? 1) eqn:R1; [lia |].
  destruct (g_result g =? 2) eqn:R2; [lia |].
  destruct (g_result g =? 3) eqn:R3; [lia |].
  destruct (g_result g =? 4) eqn:R4; [lia |].
  destruct (g_result g =? 5) eqn:R5; [lia |].
  destruct (g_result g =? 0) eqn:R0; [lia |]. reflexivity.
Qed.

End FieldProperties.

(* ===================================================================== *)
(** ** The agent, continued                                               *)
(* ===================================================================== *)

Section AgentProtocol.

Context `{Field_h}.

Ltac agent_step :=
  cbv beta iota zeta delta
      [AgentRun AgentInit bind ret get modify emit draw_screen
       call_rand place_all_boats decide_guess rand
       agentState turn_counter oppField ownField A B hashA own_guess playerTurn
       turn_order endScreenDrawn guess_statics rand_state output e_type param0
       param1 param2 BB_EventType_eqb negb g_row g_col g_result
       set_agentState set_turn_counter set_oppField set_ownField set_A set_B
       set_hashA set_own_guess set_playerTurn set_turn_order set_endScreenDrawn
       set_guess_statics set_rand_state set_output].

Lemma place_all_boats_status fuel f r st f' r' :
  FieldAIPlaceAllBoats fuel f r = Some (st, f', r') -> st = SUCCESS.
Proof.
  unfold FieldAIPlaceAllBoats. destruct (place_each _ _ _ _) as [[? ?]|]; [| discriminate].
  intros [= <- _ _]. reflexivity.
Qed.

Ltac agent_cases :=
  repeat first
    [ match goal with
      | |- context [FieldAIPlaceAllBoats ?a ?b ?c] =>
          let E := fresh "Eplace" in
          destruct (FieldAIPlaceAllBoats a b c) as [[[[|] ?] ?]|] eqn:E;
          [| apply place_all_boats_status in E; discriminate E |]
      | |- context [FieldAIDecideGuess ?a ?b ?c] =>
          destruct (FieldAIDecideGuess a b c) as [[? ?]|]
      | |- context [FieldRegisterEnemyAttack ?a ?b] =>
          destruct (FieldRegisterEnemyAttack a b) as [[? ?] ?]
      | |- context [NegotiateCoinFlip ?a ?b] =>
          destruct (NegotiateCoinFlip a b)
      | |- context [NegotiationVerify ?a ?b] =>
          destruct (NegotiationVerify a b)
      | |- context [if ?c then _ else _] => destruct c
      end; agent_step ].

Lemma agent_table fuel event w m w' :
  AgentRun fuel event w = Some (m, w') ->
  In (agentState w') (successors (agentState w) (e_type event)) /\
  m_type m =
    (if BB_EventType_eqb (e_type event) BB_EVENT_REV_RECEIVED
        && negb (NegotiationVerify (param0 event) (hashA w))
     then MESSAGE_NONE
     else reply_to (agentState w) (e_type event)).
Proof.
  destruct w as [st tc opp own a b h g pt to esd gs rs out].
  destruct event as [t p0 p1 p2].
  cbn [agentState e_type param0 hashA].
  destruct t, st; cbn [BB_EventType_eqb andb]; agent_step.
  all: agent_cases.
  all: try discriminate.
  all: intros [= <- <-]; cbn; auto 10.
Qed.

(** X18. The transition table of [AgentRun]: when a call returns, the new
    state is one of the successors of the state for the event, and the
    message has the type the state answers the event with: NONE for an event
    the state does not test for and for a REV that fails verification; on a
    verified REV the agent returns a SHO whichever way the coin falls. *)
Theorem AgentRun_follows_the_table fuel event w m w' :
  AgentRun fuel event w = Some (m, w') ->
  In (agentState w') (successors (agentState w) (e_type event)) /\
  m_type m =
    (if BB_EventType_eqb (e_type event) BB_EVENT_REV_RECEIVED
        && negb (NegotiationVerify (param0 event) (hashA w))
     then MESSAGE_NONE
     else reply_to (agentState w) (e_type event)).
Proof. exact (agent_table fuel event w m w'). Qed.

Lemma sound_step fuel event w m w' :
  sound w -> AgentRun fuel event w = Some (m, w') -> sound w'.
Proof.
  destruct w as [st tc opp own a b h g pt to esd gs rs out].
  destruct event as [t p0 p1 p2].
  unfold sound. cbn [ownField oppField guess_statics].
  intros (Hown & Hopp & Hlm & ->).
  pose proof (@field_init_spec _) as (Hi1 & Hi2 & _ & Hi3 & _).
  assert (Hilm : lives_match (fst FieldInit)) by (intros []; reflexivity).
  destruct t, st; agent_step.
  all: repeat first
    [ match goal with
      | |- context [FieldAIPlaceAllBoats ?a ?b ?c] =>
          let E := fresh "Eplace" in
          destruct (FieldAIPlaceAllBoats a b c) as [[[[|] ?] ?]|] eqn:E;
          [ apply place_all_boats_spec in E as (_ & ? & ? & _); [| assumption | assumption]
          | apply place_all_boats_status in E; discriminate E |]
      | |- context [FieldAIDecideGuess ?a ?b ?c] =>
          let E := fresh "Eguess" in
          destruct (FieldAIDecideGuess a b c) as [[? ?]|] eqn:E;
          [apply FieldAIDecideGuess_statics in E; subst |]
      | |- context [FieldRegisterEnemyAttack ?a ?b] =>
          let Hs := fresh "Hattack" in
          pose proof (register_attack_sound a b ltac:(assumption) ltac:(assumption)) as Hs;
          destruct (FieldRegisterEnemyAttack a b) as [[? ?] ?];
          cbn [fst snd] in Hs; destruct Hs
      | |- context [FieldUpdateKnowledge ?a ?b] =>
          let Hs := fresh "Hknow" in
          pose proof (update_knowledge_sound a b ltac:(assumption)) as Hs;
          destruct (FieldUpdateKnowledge a b) as [? ?];
          cbn [fst snd] in Hs
      | |- context [NegotiateCoinFlip ?a ?b] =>
          destruct (NegotiateCoinFlip a b)
      | |- context [NegotiationVerify ?a ?b] =>
          destruct (NegotiationVerify a b)
      | |- context [if ?c then _ else _] => destruct c
      end; agent_step ].
  all: try discriminate.
  all: intros [= <- <-]; cbn [ownField oppField guess_statics fst snd];
       repeat match goal with |- _ /\ _ => split end;
       first [assumption | reflexivity].
Qed.

(** X19. Every call of [AgentRun] keeps both grids in shape, the lives of
    the agent's boats equal to their squares left and the statics of the
    guesser as the program starts; a reset establishes this from any state
    with those statics. *)
Theorem AgentRun_keeps_the_fields_sound fuel event w m w' :
  sound w \/
  (e_type event = BB_EVENT_RESET_BUTTON /\ guess_statics w = guess_boot) ->
  AgentRun fuel event w = Some (m, w') ->
  sound w'.
Proof.
  intros [Hs | [Hr Hg]]; [apply sound_step, Hs |].
  destruct w as [st tc opp own a b h g pt to esd gs rs out].
  destruct event as [t p0 p1 p2]. cbn [e_type guess_statics] in Hr, Hg. subst t gs.
  agent_step. intros [= <- <-]. unfold sound. cbn [ownField oppField guess_statics].
  pose proof (@field_init_spec _) as (Hi1 & Hi2 & _).
  repeat match goal with |- _ /\ _ => split end;
    first [assumption | reflexivity | intros []; reflexivity].
Qed.

(** X20. In a sound world (both grids in shape, lives matching squares,
    the statics of the guesser as the program starts), [AgentRun] is defined
    on every event that does not place the boats, as long as the opponent's
    field has an UNKNOWN square: no access outside a grid, no guess with
    unassigned coordinates. *)
Theorem AgentRun_is_defined fuel event w :
  sound w ->
  (agentState w = AGENT_STATE_START ->
   e_type event <> BB_EVENT_START_BUTTON /\ e_type event <> BB_EVENT_CHA_RECEIVED) ->
  (exists rc, status_at (oppField w) rc = FIELD_SQUARE_UNKNOWN) ->
  exists m w', AgentRun fuel event w = Some (m, w').
Proof.
  destruct w as [st tc opp own a b h g pt to esd gs rs out].
  destruct event as [t p0 p1 p2].
  unfold sound. cbn [ownField oppField guess_statics agentState e_type].
  intros (Hown & Hopp & Hlm & ->) Hstart [rc Hrc].
  assert (Hguess : exists g0, FieldAIDecideGuess 2 opp guess_boot = Some (g0, guess_boot)).
  { pose proof (hunt_scans_in_order opp guess_boot Hopp) as Hh.
    change (FieldAIDecideGuess 2 opp guess_boot) with (hunt opp guess_boot).
    destruct (hunt opp guess_boot) as [[g0 s0]|].
    - destruct Hh as (-> & _). exists g0. reflexivity.
    - elim (Hh rc Hrc). }
  destruct Hguess as [g0 Eg].
  destruct t, st;
    try (destruct (Hstart eq_refl) as [N1 N2]; congruence);
    agent_step; rewrite ?Eg.
  all: repeat first
    [ match goal with
      | |- context [FieldRegisterEnemyAttack ?a ?b] =>
          destruct (FieldRegisterEnemyAttack a b) as [[? ?] ?]
      | |- context [NegotiateCoinFlip ?a ?b] =>
          destruct (NegotiateCoinFlip a b)
      | |- context [NegotiationVerify ?a ?b] =>
          destruct (NegotiationVerify a b)
      | |- context [if ?c then _ else _] => destruct c
      end; agent_step; rewrite ?Eg ].
  all: eexists _, _; reflexivity.
Qed.

Lemma register_attack_returns f g :
  well_formed f ->
  fst (fst (FieldRegisterEnemyAttack f g)) = status_at f (g_row g, g_col g) /\
  g_row (snd (FieldRegisterEnemyAttack f g)) = g_row g /\
  g_col (snd (FieldRegisterEnemyAttack f g)) = g_col g.
Proof.
  intros Hs. destruct (on_field_dec (g_row g) (g_col g)) as [Hon | Hoff].
  - destruct (register_attack_spec f g Hs Hon) as (f' & res & E & _).
    rewrite E. repeat split.
  - rewrite (register_attack_off f g Hs Hoff). cbn [fst snd g_row g_col].
    unfold status_at. cbn [fst snd].
    rewrite Get_grid, (grid_get_off _ _ _ Hs Hoff). repeat split.
Qed.

(** X23. In DEFENDING, the coordinates of a SHO_RECEIVED event are taken
    modulo 256, the attack is registered on the agent's own field, and the
    RES returned carries those coordinates and, as its third parameter, the
    status the square had before the attack (the value
    [FieldRegisterEnemyAttack] returns, stored over the shot result). The
    agent goes to END_SCREEN when none of its boats has lives left, to
    WAITING_TO_SEND otherwise. *)
Theorem defending_reply_carries_the_old_square fuel event w :
  agentState w = AGENT_STATE_DEFENDING ->
  e_type event = BB_EVENT_SHO_RECEIVED ->
  well_formed (ownField w) ->
  let row := to_u8 (param0 event) in
  let col := to_u8 (param1 event) in
  exists w',
    AgentRun fuel event w =
      Some (mkMessage MESSAGE_RES row col
              (to_u16 (SquareStatus_value (status_at (ownField w) (row, col)))),
            w') /\
    ownField w' =
      snd (fst (FieldRegisterEnemyAttack (ownField w) (mkGuess row col 0))) /\
    oppField w' = oppField w /\
    agentState w' =
      (if FieldGetBoatStates (ownField w') =? 0 then AGENT_STATE_END_SCREEN
       else AGENT_STATE_WAITING_TO_SEND).
Proof.
  destruct w as [st tc opp own a b h g pt to esd gs rs out].
  destruct event as [t p0 p1 p2].
  cbn [agentState e_type ownField oppField param0 param1].
  intros -> -> Hs. set (row := to_u8 p0). set (col := to_u8 p1).
  pose proof (register_attack_returns own (mkGuess row col 0) Hs) as (R1 & R2 & R3).
  cbn [g_row g_col] in R1, R2, R3.
  agent_step. fold row col.
  destruct (FieldRegisterEnemyAttack own (mkGuess row col 0)) as [[sq f'] [gr gc gres]].
  cbn [fst snd g_row g_col] in *. subst sq gr gc. agent_step.
  destruct (FieldGetBoatStates f' =? 0) eqn:E; agent_step;
    (eexists; split; [reflexivity |]);
    cbn [ownField oppField agentState]; rewrite ?E; repeat split.
Qed.

(** X24. END_SCREEN is left only by a reset and the outcome is shown once:
    a call with any other event returns NONE and stays in END_SCREEN with the
    drawn flag set, and once the flag is set such a call changes nothing, the
    display included. *)
Theorem end_screen_is_shown_once fuel event w :
  agentState w = AGENT_STATE_END_SCREEN ->
  e_type event <> BB_EVENT_RESET_BUTTON ->
  exists w1,
    AgentRun fuel event w = Some (mkMessage MESSAGE_NONE 0 0 0, w1) /\
    agentState w1 = AGENT_STATE_END_SCREEN /\
    endScreenDrawn w1 = true /\
    (endScreenDrawn w = true -> w1 = w) /\
    forall fuel' event',
      e_type event' <> BB_EVENT_RESET_BUTTON ->
      AgentRun fuel' event' w1 = Some (mkMessage MESSAGE_NONE 0 0 0, w1).
Proof.
  destruct w as [st tc opp own a b h g pt to esd gs rs out].
  destruct event as [t p0 p1 p2]. cbn [agentState e_type endScreenDrawn].
  intros -> Ht.
  assert (Hagain : forall out' fuel' event',
    e_type event' <> BB_EVENT_RESET_BUTTON ->
    AgentRun fuel' event'
      (mkWorld AGENT_STATE_END_SCREEN tc opp own a b h g pt to true gs rs out')
    = Some (mkMessage MESSAGE_NONE 0 0 0,
            mkWorld AGENT_STATE_END_SCREEN tc opp own a b h g pt to true gs rs out')).
  { intros out' fuel' [t' q0 q1 q2] Ht'. cbn [e_type] in Ht'.
    destruct t'; try contradiction; reflexivity. }
  destruct esd.
  - eexists. split; [apply Hagain; exact Ht |].
    split; [reflexivity |]. split; [reflexivity |]. split; [reflexivity |].
    apply Hagain.
  - assert (Hfirst : exists out',
      AgentRun fuel (mkEvent t p0 p1 p2)
        (mkWorld AGENT_STATE_END_SCREEN tc opp own a b h g pt to false gs rs out)
      = Some (mkMessage MESSAGE_NONE 0 0 0,
              mkWorld AGENT_STATE_END_SCREEN tc opp own a b h g pt to true gs rs out')).
    { destruct t; try contradiction; agent_step;
        repeat match goal with
               | |- context [if ?c then _ else _] => destruct c; agent_step
               end; eexists; reflexivity. }
    destruct Hfirst as [out' Hfirst]. eexists. split; [exact Hfirst |].
    split; [reflexivity |]. split; [reflexivity |]. split; [discriminate |].
    apply Hagain.
Qed.

(** X22. In ATTACKING, a RES_RECEIVED event is applied to the agent's own
    last guess: the row and column of the event are not read, only its third
    parameter, which is the result [FieldUpdateKnowledge] records. A third
    parameter outside the six results leaves the opponent's field as it was.
    The agent goes to END_SCREEN when no boat of the opponent has lives left,
    to DEFENDING otherwise, and returns no message. *)
Theorem attack_result_is_applied_to_the_own_guess fuel event w :
  agentState w = AGENT_STATE_ATTACKING ->
  e_type event = BB_EVENT_RES_RECEIVED ->
  let shot := mkGuess (g_row (own_guess w)) (g_col (own_guess w)) (param2 event) in
  exists w',
    AgentRun fuel event w = Some (mkMessage MESSAGE_NONE 0 0 0, w') /\
    own_guess w' = shot /\
    oppField w' = snd (FieldUpdateKnowledge (oppField w) shot) /\
    ownField w' = ownField w /\
    agentState w' =
      (if to_u8 (FieldGetBoatStates (oppField w')) =? 0 then AGENT_STATE_END_SCREEN
       else AGENT_STATE_DEFENDING) /\
    (~ 0 <= param2 event <= 5 -> oppField w' = oppField w).
Proof.
  destruct w as [st tc opp own a b h [gr gc gres] pt to esd gs rs out].
  destruct event as [t p0 p1 p2].
  cbn [agentState e_type own_guess oppField ownField param2 g_row g_col].
  intros -> ->.
  pose proof (update_knowledge_unknown_result opp (mkGuess gr gc p2)) as Hu.
  cbn [g_result] in Hu. agent_step.
  destruct (to_u8 (FieldGetBoatStates (snd (FieldUpdateKnowledge opp (mkGuess gr gc p2)))) =? 0)
    eqn:E; agent_step;
    (eexists; split; [reflexivity |]);
    cbn [own_guess oppField ownField agentState]; rewrite ?E;
    repeat match goal with |- _ /\ _ => split end; try reflexivity; exact Hu.
Qed.

(** X21. The challenger reveals what it committed to: on START_BUTTON it
    draws A = rand() mod 65536 and returns CHA with the hash of A; on the
    ACC_RECEIVED that follows it returns REV with that same A, which verifies
    against the CHA it sent, and its state follows the coin of A and the B
    received. ([NegotiationHash], [NegotiationVerify] and
    [NegotiateCoinFlip] are those of the module [Negotiation].) *)
Theorem challenger_reveals_what_it_committed fuel1 fuel2 e1 e2 w m1 w1 :
  agentState w = AGENT_STATE_START ->
  e_type e1 = BB_EVENT_START_BUTTON ->
  e_type e2 = BB_EVENT_ACC_RECEIVED ->
  AgentRun fuel1 e1 w = Some (m1, w1) ->
  exists m2 w2,
    AgentRun fuel2 e2 w1 = Some (m2, w2) /\
    m1 = mkMessage MESSAGE_CHA (NegotiationHash (A w1)) 0 0 /\
    m2 = mkMessage MESSAGE_REV (A w1) 0 0 /\
    A w1 = fst (rand (rand_state w)) mod 65536 /\
    NegotiationVerify (m_param0 m2) (m_param0 m1) = true /\
    agentState w2 =
      match NegotiateCoinFlip (A w1) (param0 e2) with
      | HEADS => AGENT_STATE_WAITING_TO_SEND
      | TAILS => AGENT_STATE_DEFENDING
      end.
Proof.
  destruct w as [st tc opp own a b h g pt to esd gs rs out].
  destruct e1 as [t1 p0 p1 p2]. destruct e2 as [t2 q0 q1 q2].
  cbn [agentState e_type param0 rand_state].
  intros -> -> ->. agent_step.
  set (a1 := to_u16 (Z.of_N (rand_source rs (rand_calls rs)) mod 65536)).
  assert (Ha1 : a1 = Z.of_N (rand_source rs (rand_calls rs)) mod 65536).
  { unfold a1, to_u16. apply Z.mod_small, Z.mod_pos_bound. lia. }
  assert (Hh : to_u16 (NegotiationHash a1) = NegotiationHash a1).
  { unfold NegotiationHash, to_u16 at 1.
    apply Z.mod_small.
    pose proof (Z.mod_pos_bound (to_u16 a1 * to_u16 a1) PUBLIC_KEY ltac:(reflexivity)).
    unfold PUBLIC_KEY in *. lia. }
  destruct (FieldAIPlaceAllBoats fuel1 own _) as [[[[|] f'] r']|] eqn:Eplace;
    [| apply place_all_boats_status in Eplace; discriminate Eplace | discriminate].
  agent_step. intros [= <- <-]. agent_step. fold a1. rewrite Hh.
  assert (Hv : NegotiationVerify a1 (NegotiationHash a1) = true).
  { unfold NegotiationVerify. rewrite Hh. apply Z.eqb_refl. }
  destruct (NegotiateCoinFlip a1 q0); agent_step;
    (eexists _, _; split; [reflexivity |]);
    cbn [A m_param0 agentState]; repeat split; assumption.
Qed.

End AgentProtocol.

(* ===================================================================== *)
(** ** The codec, continued                                               *)
(* ===================================================================== *)

(** *** The checksum *)

Lemma checksum_permutation p q :
  Permutation p q -> Message_CalculateChecksum p = Message_CalculateChecksum q.
Proof.
  induction 1 as [| c p q _ IH | a b p | p q r _ IH1 _ IH2].
  - reflexivity.
  - rewrite !checksum_cons, IH. reflexivity.
  - rewrite !checksum_cons, <- !Z.lxor_assoc. f_equal. apply Z.lxor_comm.
  - congruence.
Qed.

Lemma checksum_is_xor p :
  Message_CalculateChecksum p = fold_right (fun c x => Z.lxor (code c) x) 0 p.
Proof.
  induction p as [| c p IH]; [reflexivity |].
  rewrite checksum_cons, IH. reflexivity.
Qed.

(** X25. The checksum is the XOR of the bytes, a value below 256, and so
    does not see their order: two payloads that are permutations of one
    another have the same checksum. *)
Theorem reordered_payload_has_the_same_checksum p q :
  Permutation p q ->
  Message_CalculateChecksum p = fold_right (fun c x => Z.lxor (code c) x) 0 p /\
  Message_CalculateChecksum q = fold_right (fun c x => Z.lxor (code c) x) 0 q /\
  Message_CalculateChecksum p = Message_CalculateChecksum q /\
  0 <= Message_CalculateChecksum p < 256.
Proof.
  intros Hp. split; [apply checksum_is_xor |]. split; [apply checksum_is_xor |].
  split; [apply checksum_permutation, Hp | apply checksum_range].
Qed.

(** *** The fields the parser assigns *)

Lemma u16_to_u16 v : u16 (to_u16 v).
Proof. unfold u16, to_u16. apply Z.mod_pos_bound. lia. Qed.

Ltac template_fields t :=
  exists t; split; [discriminate |]; split; [reflexivity |]; split;
  [ intros [| [| [| i]]] Hi; cbn in Hi |- *; first [lia | reflexivity]
  | intros [| [| [| i]]] Hi; cbn in Hi |- *; first [lia | apply u16_to_u16] ].

(** X26. [Message_ParseMessage] assigns only the fields of the template:
    on failure the event is the caller's with the type ERROR; on success
    the type is that of one of the five messages, the parameters the
    template has are 16-bit values, and the parameters beyond them keep what
    the caller's structure held. *)
Theorem parser_assigns_only_the_template_fields p k ev :
  match Message_ParseMessage p k ev with
  | (STANDARD_ERROR, e) => e = set_type BB_EVENT_ERROR ev
  | (SUCCESS, e) =>
      exists t, t <> MESSAGE_NONE /\ e_type e = received_as t /\
        (forall i, (arity t <= i)%nat -> param_at i e = param_at i ev) /\
        (forall i, (i < arity t)%nat -> u16 (param_at i e))
  end.
Proof.
  unfold Message_ParseMessage.
  destruct (negb _); [reflexivity |].
  scanned1 k ("%2X"%string); try reflexivity.
  destruct (negb _); [reflexivity |].
  scanned1 p ("%3s"%string); try reflexivity.
  destruct (streq _ _);
    [scanned1 p ("CHA,%u"%string); try reflexivity; template_fields MESSAGE_CHA |].
  destruct (streq _ _);
    [scanned1 p ("ACC,%u"%string); try reflexivity; template_fields MESSAGE_ACC |].
  destruct (streq _ _);
    [scanned1 p ("REV,%u"%string); try reflexivity; template_fields MESSAGE_REV |].
  destruct (streq _ _);
    [scanned2 p ("SHO,%d,%d"%string); try reflexivity; template_fields MESSAGE_SHO |].
  destruct (streq _ _);
    [scanned3 p ("RES,%u,%u,%u"%string); try reflexivity; template_fields MESSAGE_RES |].
  reflexivity.
Qed.

(** *** The length of an encoded message *)

Lemma print_nat_fuel_length fuel : forall (k : nat) n,
  (1 <= k)%nat -> 0 <= n < 10 ^ Z.of_nat k ->
  (length (print_nat_fuel fuel 10 n) <= k)%nat.
Proof.
  induction fuel as [| fuel IH]; intros k n Hk Hn; cbn [print_nat_fuel length]; [lia |].
  destruct (n <? 10) eqn:E; [cbn [length]; lia |].
  apply Z.ltb_ge in E. rewrite length_app. cbn [length].
  destruct k as [| [| k]]; [lia | cbn in Hn; lia |].
  assert (Hdiv : 0 <= n / 10 < 10 ^ Z.of_nat (S k)).
  { replace (Z.of_nat (S (S k))) with (Z.succ (Z.of_nat (S k))) in Hn by lia.
    rewrite Z.pow_succ_r in Hn by lia.
    split; [apply Z.div_pos; lia | apply Z.div_lt_upper_bound; lia]. }
  specialize (IH (S k) (n / 10) ltac:(lia) Hdiv). lia.
Qed.

Lemma numeral_short n : u16 n -> (1 <= length (numeral n) <= 5)%nat.
Proof.
  intros Hn. red in Hn. split.
  - destruct (numeral_decimal n Hn) as (_ & Hne & _).
    destruct (numeral n); [contradiction | cbn; lia].
  - unfold numeral, print_u32. rewrite to_u32_small by lia.
    apply print_nat_fuel_length; [lia |]. change (10 ^ Z.of_nat 5) with 100000. lia.
Qed.

Lemma payload_of_short m :
  m_type m <> MESSAGE_NONE -> fits_template m ->
  (5 <= length (payload_of m) <= 21)%nat.
Proof.
  destruct m as [t p0 p1 p2]. unfold fits_template, payload_of.
  cbn [m_type m_param0 m_param1 m_param2]. intros Ht (F0 & F1 & F2).
  destruct t; [contradiction | | | | |]; cbn [arity] in *; norm_lit;
    repeat (cbn [length]; rewrite ?length_app);
    try pose proof (numeral_short p0 (F0 ltac:(lia)));
    try pose proof (numeral_short p1 (F1 ltac:(lia)));
    try pose proof (numeral_short p2 (F2 ltac:(lia))); cbn [length]; lia.
Qed.

Lemma Encode_whole m :
  m_type m <> MESSAGE_NONE -> fits_template m ->
  exists h1 h2,
    Message_Encode m =
      (frame (payload_of m) h1 h2,
       Z.of_nat (length (frame (payload_of m) h1 h2))) /\
    hex2 (Message_CalculateChecksum (payload_of m)) = [h1; h2].
Proof.
  intros Ht Hf.
  pose proof (print_payload m Hf) as Hp.
  pose proof (payload_of_length m Hf) as Hl.
  destruct (hex2_round_trip _ (checksum_range (payload_of m)))
    as (h1 & h2 & Hh & X1 & X2 & Hs).
  exists h1, h2. split; [| exact Hh].
  assert (T : take (Z.to_nat (MESSAGE_MAX_PAYLOAD_LEN + 1) - 1) (payload_of m)
               = payload_of m).
  { apply take_ge. change (Z.to_nat (MESSAGE_MAX_PAYLOAD_LEN + 1) - 1)%nat with 76%nat. lia. }
  assert (E :
    snprintf (Z.to_nat (MESSAGE_MAX_LEN + 1)) MESSAGE_TEMPLATE
      [A_str (take (Z.to_nat (MESSAGE_MAX_PAYLOAD_LEN + 1) - 1) (payload_of m));
       A_uint (Message_CalculateChecksum
                 (take (Z.to_nat (MESSAGE_MAX_PAYLOAD_LEN + 1) - 1) (payload_of m)))]
    = (frame (payload_of m) h1 h2, Z.of_nat (length (frame (payload_of m) h1 h2)))).
  { rewrite T. unfold snprintf.
    change (format_out (parse_format MESSAGE_TEMPLATE)
              [A_str (payload_of m); A_uint (Message_CalculateChecksum (payload_of m))])
      with ("$" :: payload_of m ++ "*" ::
            hex2 (Message_CalculateChecksum (payload_of m)) ++ [CR; LF]).
    rewrite Hh. unfold frame. cbn [app]. f_equal.
    apply take_ge. cbn [length]. rewrite length_app. cbn [length].
    change (Z.to_nat (MESSAGE_MAX_LEN + 1) - 1)%nat with 82%nat. lia. }
  unfold Message_Encode. unfold sprintf in Hp. unfold snprintf at 1 2 3 4 5.
  destruct (m_type m); try contradiction; cbn [MessageType_eqb fst];
    rewrite Hp; exact E.
Qed.

(** X27. For 16-bit parameters [Message_Encode] returns the length of the
    string it stores, at most 27 characters, so that nothing is truncated:
    nothing and 0 for NONE, otherwise the start delimiter, the payload, the
    checksum delimiter, the two upper-case hexadecimal digits of the
    checksum, carriage return and line feed. *)
Theorem Message_Encode_fits_the_buffer m :
  fits_template m ->
  snd (Message_Encode m) = Z.of_nat (length (fst (Message_Encode m))) /\
  snd (Message_Encode m) <= 27 /\
  (m_type m = MESSAGE_NONE -> Message_Encode m = ([], 0)) /\
  (m_type m <> MESSAGE_NONE ->
   11 <= snd (Message_Encode m) /\
   fst (Message_Encode m) =
     "$" :: payload_of m ++ "*" ::
       hex2 (Message_CalculateChecksum (payload_of m)) ++ [CR; LF]).
Proof.
  intros Hf. destruct (MessageType_eqb (m_type m) MESSAGE_NONE) eqn:Et.
  - assert (Hn : m_type m = MESSAGE_NONE) by (destruct (m_type m); try discriminate; reflexivity).
    assert (E : Message_Encode m = ([], 0)) by (unfold Message_Encode; rewrite Et; reflexivity).
    rewrite E. cbn. repeat split; try lia; congruence.
  - assert (Hn : m_type m <> MESSAGE_NONE) by (intros E; rewrite E in Et; discriminate).
    destruct (Encode_whole m Hn Hf) as (h1 & h2 & E & Hh).
    pose proof (payload_of_short m Hn Hf) as Hl.
    rewrite E, Hh. cbn [fst snd]. unfold frame. cbn [length].
    rewrite length_app. cbn [length].
    repeat split; try lia; congruence.
Qed.

(** *** Bytes between frames *)

Lemma decode_noise parse noise : forall d ev,
  decode_state d = WAIT_FOR_START_DELIMITER ->
  forallb (fun c => negb (Ascii.eqb c "$")) noise = true ->
  decode_all_with parse d ev noise =
    Some (d, match noise with [] => ev | _ => set_type BB_EVENT_NO_EVENT ev end,
          map (fun _ => set_type BB_EVENT_NO_EVENT ev) noise).
Proof.
  induction noise as [| c noise IH]; intros d ev Hst Hn; [reflexivity |].
  cbn [forallb] in Hn. apply andb_true_iff in Hn as [Hc Hn].
  apply negb_true_iff in Hc.
  cbn [decode_all_with]. unfold Message_Decode_with at 1. rewrite Hst, Hc.
  rewrite (IH d (set_type BB_EVENT_NO_EVENT ev) Hst Hn).
  destruct noise; reflexivity.
Qed.

Lemma plain_no_start c : plain c = true -> negb (Ascii.eqb c "$") = true.
Proof.
  unfold plain, delimiter. intros Hp. apply negb_true_iff in Hp.
  apply orb_false_iff in Hp as [_ Hp]. rewrite Hp. reflexivity.
Qed.

Lemma isxdigit_no_start c : isxdigit c = true -> negb (Ascii.eqb c "$") = true.
Proof.
  intros Hx. destruct (Ascii.eqb_spec c "$") as [-> |]; [discriminate | reflexivity].
Qed.

Lemma start_in_a_frame parse d ev :
  decode_state d <> WAIT_FOR_START_DELIMITER ->
  Message_Decode_with parse d "$" ev =
    Some (set_decode_state WAIT_FOR_START_DELIMITER d,
          set_type BB_EVENT_ERROR ev, STANDARD_ERROR).
Proof.
  intros Hst. unfold Message_Decode_with.
  destruct (decode_state d); [contradiction | reflexivity |].
  cbn [isxdigit Ascii.eqb Bool.eqb CR LF].
  destruct (checksum_index d <? MESSAGE_CHECKSUM_LEN); [reflexivity |].
  destruct (checksum_index d =? MESSAGE_CHECKSUM_LEN); [reflexivity |].
  destruct (checksum_index d =? MESSAGE_CHECKSUM_LEN + 1); reflexivity.
Qed.

(** X28. A start delimiter inside a frame is an ERROR and does not begin a
    frame: a complete frame that arrives while the decoder records a payload
    or a checksum yields ERROR on its start delimiter and NO_EVENT on every
    other byte; the frame is lost. *)
Theorem frame_after_an_unfinished_frame_is_lost d ev body h1 h2 :
  decode_state d <> WAIT_FOR_START_DELIMITER ->
  forallb plain body = true ->
  isxdigit h1 = true -> isxdigit h2 = true ->
  decode_all d ev (frame body h1 h2) =
    Some (set_decode_state WAIT_FOR_START_DELIMITER d,
          set_type BB_EVENT_NO_EVENT ev,
          set_type BB_EVENT_ERROR ev ::
          map (fun _ => set_type BB_EVENT_NO_EVENT ev) (body ++ "*" :: h1 :: h2 :: CR :: LF :: [])).
Proof.
  intros Hst Hb X1 X2. unfold decode_all, frame. cbn [decode_all_with].
  rewrite (start_in_a_frame _ d ev Hst).
  rewrite (decode_noise Message_ParseMessage (body ++ "*" :: h1 :: h2 :: CR :: LF :: [])
             (set_decode_state WAIT_FOR_START_DELIMITER d) (set_type BB_EVENT_ERROR ev)).
  - destruct body; reflexivity.
  - reflexivity.
  - rewrite forallb_app. apply andb_true_iff. split.
    + revert Hb. apply forallb_impl. apply plain_no_start.
    + cbn [forallb]. rewrite (isxdigit_no_start h1 X1), (isxdigit_no_start h2 X2).
      reflexivity.
Qed.

(** *** A stream of messages *)

Lemma decode_encoded m bytes d ev :
  m_type m <> MESSAGE_NONE -> fits_template m ->
  received bytes d -> decode_state d = WAIT_FOR_START_DELIMITER ->
  exists d' e evs,
    decode_all d ev (fst (Message_Encode m)) = Some (d', e, evs ++ [e]) /\
    Forall (fun x => e_type x = BB_EVENT_NO_EVENT) evs /\
    carries e m /\
    decode_state d' = WAIT_FOR_START_DELIMITER /\
    received (bytes ++ fst (Message_Encode m)) d'.
Proof.
  intros Ht Hf Hr Hst.
  destruct (Encode_frame m Ht Hf) as (h1 & h2 & E & X1 & X2 & Hx).
  destruct (ParseMessage_payload m h1 h2 (set_type BB_EVENT_NO_EVENT ev) Ht Hf Hx)
    as (e & Hparse & Hc).
  pose proof (payload_of_clean m Hf) as Hclean.
  pose proof (payload_of_length m Hf) as Hlen.
  destruct (received_framed bytes d Hr) as (body & cs & Hp & Hcs & _).
  destruct (decode_frame Message_ParseMessage d ev (payload_of m) h1 h2)
    as (d' & evs & Hrun & Hevs & Hd'); try assumption.
  - exact (holds_length _ _ _ Hp).
  - exact (holds_length _ _ _ Hcs).
  - sizes. change (Z.to_nat 76) with 76%nat. lia.
  - apply clean_plain, Hclean.
  - apply clean_nonzero, Hclean.
  - rewrite Hparse in Hrun. rewrite E. exists d', e, evs.
    split; [exact Hrun |]. split; [| split; [exact Hc | split; [exact Hd' |]]].
    + eapply Forall_impl; [exact Hevs |]. intros x ->. reflexivity.
    + eapply received_all; [exact Hr | exact Hrun].
Qed.

Lemma events_of_app a b : events_of (a ++ b) = events_of a ++ events_of b.
Proof. apply List.filter_app. Qed.

Lemma events_of_silent evs :
  Forall (fun x => e_type x = BB_EVENT_NO_EVENT) evs -> events_of evs = [].
Proof.
  induction 1 as [| x evs Hx _ IH]; [reflexivity |].
  unfold events_of in *. cbn [List.filter]. rewrite Hx. exact IH.
Qed.

Lemma carries_event e m :
  m_type m <> MESSAGE_NONE -> carries e m -> events_of [e] = [e].
Proof.
  intros Ht (He & _). unfold events_of. cbn [List.filter]. rewrite He.
  destruct (m_type m); [contradiction | | | | |]; reflexivity.
Qed.

Lemma stream_decoded items : forall bytes d ev,
  received bytes d -> decode_state d = WAIT_FOR_START_DELIMITER ->
  Forall (fun item =>
            forallb (fun c => negb (Ascii.eqb c "$")) (fst item) = true /\
            m_type (snd item) <> MESSAGE_NONE /\ fits_template (snd item)) items ->
  exists d' ev' evs,
    decode_all d ev (on_the_wire items) = Some (d', ev', evs) /\
    decode_state d' = WAIT_FOR_START_DELIMITER /\
    Forall2 carries (events_of evs) (map snd items).
Proof.
  induction items as [| [noise m] items IH]; intros bytes d ev Hr Hst Hall.
  - exists d, ev, []. repeat split; [exact Hst | constructor].
  - inversion Hall as [| x l (Hn & Ht & Hf) Hrest]; subst x l. cbn [fst snd] in *.
    pose proof (decode_noise Message_ParseMessage noise d ev Hst Hn) as Hnoise.
    set (ev1 := match noise with [] => ev | _ => set_type BB_EVENT_NO_EVENT ev end) in *.
    pose proof (received_all _ _ _ _ _ _ _ Hr Hnoise) as Hr1.
    destruct (decode_encoded m _ d ev1 Ht Hf Hr1 Hst)
      as (d2 & e & evs2 & Hrun2 & Hsilent & Hc & Hst2 & Hr2).
    destruct (IH _ d2 e Hr2 Hst2 Hrest) as (d3 & ev3 & evs3 & Hrun3 & Hst3 & Hall3).
    exists d3, ev3,
      (map (fun _ => set_type BB_EVENT_NO_EVENT ev) noise ++ (evs2 ++ [e]) ++ evs3).
    split; [| split; [exact Hst3 |]].
    + unfold on_the_wire. cbn [flat_map fst snd]. fold (on_the_wire items).
      unfold decode_all in *. rewrite <- !app_assoc.
      rewrite (decode_all_app _ _ _ _ _ _ _ _ Hnoise).
      rewrite (decode_all_app _ _ _ _ _ _ _ _ Hrun2), Hrun3.
      rewrite <- !app_assoc. reflexivity.
    + rewrite !events_of_app.
      rewrite (events_of_silent (map _ noise)), (events_of_silent evs2 Hsilent).
      * rewrite (carries_event e m Ht Hc). cbn [app map snd].
        constructor; assumption.
      * clear. induction noise; cbn; constructor; [reflexivity | assumption].
Qed.

(** X29. A stream of encoded messages, each preceded by any bytes other
    than the start delimiter, is decoded by a decoder that waits for a start
    delimiter to those messages in order: the
    events other than NO_EVENT carry the types and the template parameters of
    the messages, and the decoder ends waiting for a start delimiter. *)
Theorem a_stream_of_messages_is_decoded_in_order items bytes d ev :
  received bytes d -> decode_state d = WAIT_FOR_START_DELIMITER ->
  Forall (fun item =>
            forallb (fun c => negb (Ascii.eqb c "$")) (fst item) = true /\
            m_type (snd item) <> MESSAGE_NONE /\ fits_template (snd item)) items ->
  exists d' ev' evs,
    decode_all d ev (on_the_wire items) = Some (d', ev', evs) /\
    decode_state d' = WAIT_FOR_START_DELIMITER /\
    Forall2 carries (events_of evs) (map snd items).
Proof. apply stream_decoded. Qed.

(** *** A corrupted payload *)

(** X30. A flipped bit in a payload character of a frame that would be
    accepted by a decoder waiting for a start delimiter is reported: when
    the corrupted character is still a payload character (no delimiter, not
    NUL), the decoder yields NO_EVENT up to the last byte and ERROR on the
    line feed. *)
Theorem corrupted_payload_is_an_ERROR bytes d ev s1 c s2 k h1 h2 :
  received bytes d -> decode_state d = WAIT_FOR_START_DELIMITER ->
  0 <= k < 8 ->
  (length (s1 ++ c :: s2) <= 76)%nat ->
  forallb clean (s1 ++ flip_bit k c :: s2) = true ->
  isxdigit h1 = true -> isxdigit h2 = true ->
  fst (Message_ParseMessage (s1 ++ c :: s2) [h1; h2] (set_type BB_EVENT_NO_EVENT ev))
    = SUCCESS ->
  exists d' evs,
    decode_all d ev (frame (s1 ++ flip_bit k c :: s2) h1 h2) =
      Some (d', set_type BB_EVENT_ERROR ev, evs ++ [set_type BB_EVENT_ERROR ev]) /\
    Forall (fun e => e_type e = BB_EVENT_NO_EVENT) evs /\
    decode_state d' = WAIT_FOR_START_DELIMITER.
Proof.
  intros Hr Hst Hk Hlen Hclean X1 X2 Hok.
  destruct (Message_ParseMessage (s1 ++ c :: s2) [h1; h2] (set_type BB_EVENT_NO_EVENT ev))
    as [st e] eqn:Eparse. cbn [fst] in Hok. subst st.
  assert (Hnz : flip_bit k c <> NUL).
  { rewrite forallb_app in Hclean. apply andb_true_iff in Hclean as [_ Hclean].
    cbn [forallb] in Hclean. apply andb_true_iff in Hclean as [Hc _].
    unfold clean in Hc. apply andb_true_iff in Hc as [_ Hc]. intros E.
    rewrite E in Hc. discriminate. }
  pose proof (payload_bit_flip_is_detected s1 c s2 k [h1; h2] _ e Hk Hnz Eparse) as Hbad.
  destruct (received_framed bytes d Hr) as (body & cs & Hp & Hcs & _).
  destruct (decode_frame Message_ParseMessage d ev (s1 ++ flip_bit k c :: s2) h1 h2)
    as (d' & evs & Hrun & Hevs & Hd'); try assumption.
  - exact (holds_length _ _ _ Hp).
  - exact (holds_length _ _ _ Hcs).
  - sizes. change (Z.to_nat 76) with 76%nat.
    rewrite length_app in *. cbn [length] in *. lia.
  - apply clean_plain, Hclean.
  - apply clean_nonzero, Hclean.
  - rewrite Hbad in Hrun. exists d', evs. split; [exact Hrun |].
    split; [| exact Hd'].
    eapply Forall_impl; [exact Hevs |]. intros x ->. reflexivity.
Qed.

(* ===================================================================== *)
(** ** The properties at concrete inputs                                  *)
(* ===================================================================== *)

(** The worked examples of the negotiation. *)
Example NegotiationHash_examples :
  NegotiationHash 3 = 9 /\ NegotiationHash 12345 = 43182.
Proof. split; reflexivity. Qed.

Example NegotiateCoinFlip_examples :
  NegotiateCoinFlip 0 0 = TAILS /\ NegotiateCoinFlip 1 0 = HEADS /\
  NegotiateCoinFlip 43690 21845 = TAILS.
Proof. repeat split. Qed.

(** The literal frame of the protocol description. *)
Example decode_SHO_2_9 :
  exists d evs,
    decode_all decoder_boot ev0 (lit "$SHO,2,9*5F\r\n")
    = Some (d, mkEvent BB_EVENT_SHO_RECEIVED 2 9 0, evs).
Proof. eexists _, _. vm_compute. reflexivity. Qed.

Example decode_SHO_2_9_bad_checksum :
  exists d evs,
    decode_all decoder_boot ev0 (lit "$SHO,2,9*00\r\n")
    = Some (d, mkEvent BB_EVENT_ERROR 0 0 0, evs).
Proof. eexists _, _. vm_compute. reflexivity. Qed.

(** C2 at the acceptor holding the commitment of 1, on the reveal of 2. *)
Lemma failed_verification_witness :
  agentState accepting_world = AGENT_STATE_ACCEPTING /\
  e_type (mkEvent BB_EVENT_REV_RECEIVED 2 0 0) = BB_EVENT_REV_RECEIVED /\
  NegotiationVerify (param0 (mkEvent BB_EVENT_REV_RECEIVED 2 0 0))
    (hashA accepting_world) = false /\
  exists m w',
    @AgentRun Field_h_usual 0 (mkEvent BB_EVENT_REV_RECEIVED 2 0 0)
      accepting_world = Some (m, w') /\
    m_type m = MESSAGE_NONE /\
    agentState w' = AGENT_STATE_END_SCREEN /\
    agentState w' <> AGENT_STATE_ATTACKING /\
    agentState w' <> AGENT_STATE_DEFENDING /\
    output w' = output accepting_world ++ cheat_outcome.
Proof.
  split; [reflexivity |]. split; [reflexivity |]. split; [reflexivity |].
  apply (@failed_verification_ends_the_match Field_h_usual 0
           (mkEvent BB_EVENT_REV_RECEIVED 2 0 0) accepting_world);
    reflexivity.
Defined.

(** C3 at the message SHO(2, 9), from the decoder as the program starts. *)
Lemma encode_then_decode_witness :
  m_type (mkMessage MESSAGE_SHO 2 9 0) <> MESSAGE_NONE /\
  fits_template (mkMessage MESSAGE_SHO 2 9 0) /\
  received [] decoder_boot /\
  decode_state decoder_boot = WAIT_FOR_START_DELIMITER /\
  exists d' e evs,
    decode_all decoder_boot ev0 (fst (Message_Encode (mkMessage MESSAGE_SHO 2 9 0)))
    = Some (d', e, evs ++ [e]) /\
    Forall (fun x => e_type x = BB_EVENT_NO_EVENT) evs /\
    carries e (mkMessage MESSAGE_SHO 2 9 0) /\
    decode_state d' = WAIT_FOR_START_DELIMITER.
Proof.
  assert (Hf : fits_template (mkMessage MESSAGE_SHO 2 9 0)).
  { unfold fits_template, u16. cbn. repeat split; lia. }
  split; [discriminate |]. split; [exact Hf |].
  split; [exact received_boot |]. split; [reflexivity |].
  apply (encode_then_decode (mkMessage MESSAGE_SHO 2 9 0) [] decoder_boot ev0);
    [discriminate | exact Hf | exact received_boot | reflexivity].
Defined.

(** C4 at the decoder as the program starts: a checksum character that is
    no hexadecimal digit, and a frame whose checksum the parser refuses. *)
Lemma malformation_witness :
  received [] decoder_boot /\
  decode_state decoder_boot = WAIT_FOR_START_DELIMITER /\
  malformation (lit "$SHO,2,9*5") "G" /\
  malformation (lit "$SHO,2,9*00\r") LF /\
  (exists d1 d2 evs,
     decode_all decoder_boot ev0 (lit "$SHO,2,9*5") =
       Some (d1, set_type BB_EVENT_NO_EVENT ev0, evs) /\
     Forall (fun e => e_type e = BB_EVENT_NO_EVENT) evs /\
     Message_Decode d1 "G" (set_type BB_EVENT_NO_EVENT ev0) =
       Some (d2, set_type BB_EVENT_ERROR ev0, STANDARD_ERROR) /\
     decode_state d2 = WAIT_FOR_START_DELIMITER /\
     (forall c' ev2,
        c' <> "$"%char ->
        Message_Decode d2 c' ev2 =
          Some (d2, set_type BB_EVENT_NO_EVENT ev2, SUCCESS)) /\
     (forall ev2,
        Message_Decode d2 "$" ev2 =
          Some (frame_begun, set_type BB_EVENT_NO_EVENT ev2, SUCCESS))) /\
  (exists d1 d2 evs,
     decode_all decoder_boot ev0 (lit "$SHO,2,9*00\r") =
       Some (d1, set_type BB_EVENT_NO_EVENT ev0, evs) /\
     Forall (fun e => e_type e = BB_EVENT_NO_EVENT) evs /\
     Message_Decode d1 LF (set_type BB_EVENT_NO_EVENT ev0) =
       Some (d2, set_type BB_EVENT_ERROR ev0, STANDARD_ERROR) /\
     decode_state d2 = WAIT_FOR_START_DELIMITER /\
     (forall c' ev2,
        c' <> "$"%char ->
        Message_Decode d2 c' ev2 =
          Some (d2, set_type BB_EVENT_NO_EVENT ev2, SUCCESS)) /\
     (forall ev2,
        Message_Decode d2 "$" ev2 =
          Some (frame_begun, set_type BB_EVENT_NO_EVENT ev2, SUCCESS))).
Proof.
  assert (M1 : malformation (lit "$SHO,2,9*5") "G").
  { apply (bad_checksum_character (lit "SHO,2,9") (lit "5") "G");
      first [reflexivity | vm_compute; lia]. }
  assert (M2 : malformation (lit "$SHO,2,9*00\r") LF).
  { apply (parse_failure (lit "SHO,2,9") (lit "00") (lit "SHO,2,9"));
      first [reflexivity | vm_compute; lia]. }
  split; [exact received_boot |]. split; [reflexivity |].
  split; [exact M1 |]. split; [exact M2 |].
  split.
  - apply (proj1 (malformation_is_one_ERROR_and_a_resynchronization
                    [] decoder_boot received_boot));
      [reflexivity | exact M1].
  - apply (proj1 (malformation_is_one_ERROR_and_a_resynchronization
                    [] decoder_boot received_boot));
      [reflexivity | exact M2].
Defined.

(** C5, as the code has it, at the decoder that has recorded 76 payload
    bytes, on a 77th, and at the decoder that has received a frame with a
    payload of 76 bytes up to its carriage return, on the line feed. *)
Lemma payload_limit_witness :
  exists d d2,
    received ("$" :: replicate 76 "A") d /\
    decode_state d = RECORDING_PAYLOAD /\
    payload_index d = 76 /\
    "A"%char <> "*"%char /\
    Message_Decode d "A" ev0 =
      Some (set_decode_state WAIT_FOR_START_DELIMITER d,
            set_type BB_EVENT_ERROR ev0, STANDARD_ERROR) /\
    received ("$" :: replicate 76 "A" ++ lit "*00\r") d2 /\
    parser_arguments d2 LF = Some (replicate 76 "A", lit "00") /\
    strlen (replicate 76 "A") <= 76.
Proof.
  destruct (decode_all decoder_boot ev0 ("$" :: replicate 76 "A"))
    as [[[d e] evs]|] eqn:E; [| vm_compute in E; discriminate].
  destruct (decode_all decoder_boot ev0 ("$" :: replicate 76 "A" ++ lit "*00\r"))
    as [[[d2 e2] evs2]|] eqn:E2; [| vm_compute in E2; discriminate].
  pose proof (received_run _ _ _ _ E) as Hr.
  pose proof (received_run _ _ _ _ E2) as Hr2.
  exists d, d2.
  assert (Hst : decode_state d = RECORDING_PAYLOAD)
    by (vm_compute in E; injection E as <- _ _; reflexivity).
  assert (Hi : payload_index d = 76)
    by (vm_compute in E; injection E as <- _ _; reflexivity).
  assert (Hc : "A"%char <> "*"%char) by discriminate.
  assert (Pa : parser_arguments d2 LF = Some (replicate 76 "A", lit "00"))
    by (vm_compute in E2; injection E2 as <- _ _; vm_compute; reflexivity).
  split; [exact Hr |]. split; [exact Hst |]. split; [exact Hi |]. split; [exact Hc |].
  split.
  - destruct (payload_is_limited_to_76_bytes _ d Hr) as (_ & _ & Hfull & _).
    exact (Hfull "A"%char ev0 Hst Hi Hc).
  - split; [exact Hr2 |]. split; [exact Pa |].
    destruct (payload_is_limited_to_76_bytes _ d2 Hr2) as (_ & _ & _ & Hparser).
    exact (Hparser LF _ _ Pa).
Defined.

(** C8 at the acceptor, on an ERROR event. *)
Lemma unhandled_event_witness :
  e_type (mkEvent BB_EVENT_ERROR 0 0 0) <> BB_EVENT_RESET_BUTTON /\
  (handled (agentState accepting_world) (e_type (mkEvent BB_EVENT_ERROR 0 0 0))
   = false \/
   e_type (mkEvent BB_EVENT_ERROR 0 0 0) = BB_EVENT_ERROR) /\
  exists m w',
    @AgentRun Field_h_usual 0 (mkEvent BB_EVENT_ERROR 0 0 0) accepting_world
    = Some (m, w') /\
    m_type m = MESSAGE_NONE /\
    agentState w' = agentState accepting_world /\
    A w' = A accepting_world /\ B w' = B accepting_world /\
    hashA w' = hashA accepting_world.
Proof.
  split; [discriminate |]. split; [right; reflexivity |].
  apply (@unhandled_event_is_ignored Field_h_usual 0
           (mkEvent BB_EVENT_ERROR 0 0 0) accepting_world);
    [discriminate | right; reflexivity].
Defined.

(** C10 at the decoder as the program starts. *)
Lemma decoder_bounds_witness :
  received [] decoder_boot /\
  0 <= payload_index decoder_boot <= 76 /\
  0 <= checksum_index decoder_boot <= 3 /\
  length (payload_buffer decoder_boot) = 77%nat /\
  length (checksum_buffer decoder_boot) = 3%nat /\
  forall c ev, exists d' ev' st,
    Message_Decode decoder_boot c ev = Some (d', ev', st) /\
    received ([] ++ [c]) d'.
Proof.
  split; [exact received_boot |].
  apply (decoder_stays_within_its_buffers [] decoder_boot). exact received_boot.
Defined.

(** *** The inputs are as the properties need them *)

Lemma fresh_own_well_formed : well_formed fresh_own.
Proof. split; [reflexivity | cbn; repeat constructor]. Qed.

Lemma fresh_opp_well_formed : well_formed fresh_opp.
Proof. split; [reflexivity | cbn; repeat constructor]. Qed.

Lemma small_boat_placed_well_formed : well_formed small_boat_placed.
Proof. split; [reflexivity | cbn; repeat constructor]. Qed.

Lemma fresh_own_lives_match : lives_match fresh_own.
Proof. intros []; reflexivity. Qed.

Lemma small_boat_placed_lives_match : lives_match small_boat_placed.
Proof. intros []; reflexivity. Qed.

Lemma on_the_field row col :
  (0 <=? row) && (row <? FIELD_ROWS) && (0 <=? col) && (col <? FIELD_COLS) = true ->
  on_field row col.
Proof. unfold on_field, FIELD_ROWS, FIELD_COLS. lia. Qed.

Lemma world_in_sound s : sound (world_in s).
Proof.
  repeat split; try reflexivity; try (cbn; repeat constructor).
  intros []; reflexivity.
Qed.

(** X2 at the cursor put on the fresh field. *)
Lemma set_then_get_witness :
  well_formed fresh_own /\ on_field 2 3 /\
  exists f',
    FieldSetSquareStatus fresh_own 2 3 FIELD_SQUARE_CURSOR =
      (FieldGetSquareStatus fresh_own 2 3, f') /\
    FieldGetSquareStatus f' 2 3 = FIELD_SQUARE_CURSOR /\
    (forall row' col', (row', col') <> (2, 3) ->
       FieldGetSquareStatus f' row' col' = FieldGetSquareStatus fresh_own row' col') /\
    (forall t, boat_lives t f' = boat_lives t fresh_own) /\
    well_formed f'.
Proof.
  split; [exact fresh_own_well_formed |].
  split; [apply on_the_field; reflexivity |].
  apply (set_then_get fresh_own 2 3 FIELD_SQUARE_CURSOR fresh_own_well_formed).
  apply on_the_field. reflexivity.
Defined.

(** X3 one row below the field. *)
Lemma off_field_witness :
  (6 >= FIELD_ROWS \/ 0 >= FIELD_COLS) /\
  FieldGetSquareStatus fresh_own 6 0 = FIELD_SQUARE_INVALID /\
  FieldSetSquareStatus fresh_own 6 0 FIELD_SQUARE_HIT = (FIELD_SQUARE_INVALID, fresh_own) /\
  FieldRegisterEnemyAttack fresh_own (mkGuess 6 0 RESULT_HIT) =
    (FIELD_SQUARE_INVALID, fresh_own, mkGuess 6 0 RESULT_MISS) /\
  FieldUpdateKnowledge fresh_own (mkGuess 6 0 RESULT_HIT) =
    (FIELD_SQUARE_INVALID, fresh_own).
Proof.
  split; [left; unfold FIELD_ROWS; lia |].
  apply (off_field_is_invalid fresh_own 6 0 FIELD_SQUARE_HIT RESULT_HIT).
  left. unfold FIELD_ROWS. lia.
Defined.

(** X4 at the small boat laid east from the corner of the fresh field. *)
Lemma add_boat_iff_witness :
  well_formed fresh_own /\ on_field 0 0 /\
  exists st f',
    @FieldAddBoat Field_h_usual fresh_own 0 0 FIELD_DIR_EAST FIELD_BOAT_TYPE_SMALL
      = Some (st, f') /\
    (st = SUCCESS <->
       fits 0 0 FIELD_DIR_EAST (@boat_size Field_h_usual FIELD_BOAT_TYPE_SMALL) /\
       forall i, 0 <= i < @boat_size Field_h_usual FIELD_BOAT_TYPE_SMALL ->
         status_at fresh_own (boat_at 0 0 FIELD_DIR_EAST i) = FIELD_SQUARE_EMPTY) /\
    (st = STANDARD_ERROR -> f' = fresh_own).
Proof.
  split; [exact fresh_own_well_formed |].
  split; [apply on_the_field; reflexivity |].
  apply (@FieldAddBoat_succeeds_iff Field_h_usual fresh_own 0 0 FIELD_DIR_EAST
           FIELD_BOAT_TYPE_SMALL fresh_own_well_formed).
  apply on_the_field. reflexivity.
Defined.

(** X5 at the same boat. *)
Lemma add_boat_places_witness :
  well_formed fresh_own /\ on_field 0 0 /\
  @FieldAddBoat Field_h_usual fresh_own 0 0 FIELD_DIR_EAST FIELD_BOAT_TYPE_SMALL
    = Some (SUCCESS, small_boat_placed) /\
  well_formed small_boat_placed /\
  (forall i, 0 <= i < @boat_size Field_h_usual FIELD_BOAT_TYPE_SMALL ->
     status_at small_boat_placed (boat_at 0 0 FIELD_DIR_EAST i)
     = boat_square FIELD_BOAT_TYPE_SMALL) /\
  (forall rc,
     (forall i, 0 <= i < @boat_size Field_h_usual FIELD_BOAT_TYPE_SMALL ->
                rc <> boat_at 0 0 FIELD_DIR_EAST i) ->
     status_at small_boat_placed rc = status_at fresh_own rc) /\
  boat_lives FIELD_BOAT_TYPE_SMALL small_boat_placed =
    to_u8 (boat_lives FIELD_BOAT_TYPE_SMALL fresh_own
           + @boat_size Field_h_usual FIELD_BOAT_TYPE_SMALL) /\
  (forall t', t' <> FIELD_BOAT_TYPE_SMALL ->
     boat_lives t' small_boat_placed = boat_lives t' fresh_own).
Proof.
  split; [exact fresh_own_well_formed |].
  split; [apply on_the_field; reflexivity |].
  split; [reflexivity |].
  apply (@FieldAddBoat_places Field_h_usual fresh_own 0 0 FIELD_DIR_EAST
           FIELD_BOAT_TYPE_SMALL small_boat_placed fresh_own_well_formed);
    [apply on_the_field; reflexivity | reflexivity].
Defined.

(** X6 at the small boat laid east from the row below the last. *)
Lemma unchecked_pivot_witness :
  well_formed fresh_own /\ 0 <= 6 < 256 /\ 0 <= 0 < 256 /\
  0 < @boat_size Field_h_usual FIELD_BOAT_TYPE_SMALL /\
  fits 6 0 FIELD_DIR_EAST (@boat_size Field_h_usual FIELD_BOAT_TYPE_SMALL) /\
  ~ on_field 6 0 /\
  @FieldAddBoat Field_h_usual fresh_own 6 0 FIELD_DIR_EAST FIELD_BOAT_TYPE_SMALL = None.
Proof.
  assert (Hoff : ~ on_field 6 0) by (unfold on_field, FIELD_ROWS; lia).
  assert (Hfits : fits 6 0 FIELD_DIR_EAST (@boat_size Field_h_usual FIELD_BOAT_TYPE_SMALL))
    by (vm_compute; discriminate).
  split; [exact fresh_own_well_formed |]. split; [lia |]. split; [lia |].
  split; [reflexivity |]. split; [exact Hfits |]. split; [exact Hoff |].
  apply (@FieldAddBoat_unchecked_pivot Field_h_usual fresh_own 6 0 FIELD_DIR_EAST
           FIELD_BOAT_TYPE_SMALL fresh_own_well_formed);
    [lia | lia | reflexivity | exact Hfits | exact Hoff].
Defined.

(** X8 at a shot on the middle of the small boat. *)
Lemma register_attack_witness :
  well_formed small_boat_placed /\ on_field 0 1 /\
  exists f' res,
    FieldRegisterEnemyAttack small_boat_placed (mkGuess 0 1 0) =
      (status_at small_boat_placed (0, 1), f', mkGuess 0 1 res) /\
    well_formed f' /\
    status_at f' (0, 1) = attacked (status_at small_boat_placed (0, 1)) /\
    (forall rc, rc <> (0, 1) -> status_at f' rc = status_at small_boat_placed rc) /\
    (forall t,
       boat_lives t f' =
         match boat_of (status_at small_boat_placed (0, 1)) with
         | Some t' => if BoatType_eqb t t' && (boat_lives t small_boat_placed >? 0)
                      then to_u8 (boat_lives t small_boat_placed - 1)
                      else boat_lives t small_boat_placed
         | None => boat_lives t small_boat_placed
         end) /\
    res = match boat_of (status_at small_boat_placed (0, 1)) with
          | Some t => if boat_lives t f' =? 0 then sunk t else RESULT_HIT
          | None => RESULT_MISS
          end.
Proof.
  split; [exact small_boat_placed_well_formed |].
  split; [apply on_the_field; reflexivity |].
  apply (FieldRegisterEnemyAttack_marks small_boat_placed (mkGuess 0 1 0)
           small_boat_placed_well_formed).
  apply on_the_field. reflexivity.
Defined.

(** X9 at the same shot, repeated. *)
Lemma second_attack_witness :
  well_formed small_boat_placed /\ on_field 0 1 /\
  FieldRegisterEnemyAttack
    (snd (fst (FieldRegisterEnemyAttack small_boat_placed (mkGuess 0 1 0))))
    (mkGuess 0 1 RESULT_HIT) =
  (status_at (snd (fst (FieldRegisterEnemyAttack small_boat_placed (mkGuess 0 1 0))))
     (0, 1),
   snd (fst (FieldRegisterEnemyAttack small_boat_placed (mkGuess 0 1 0))),
   mkGuess 0 1 RESULT_MISS).
Proof.
  split; [exact small_boat_placed_well_formed |].
  split; [apply on_the_field; reflexivity |].
  apply (second_attack_is_a_miss small_boat_placed (mkGuess 0 1 0) RESULT_HIT
           small_boat_placed_well_formed).
  apply on_the_field. reflexivity.
Defined.

(** X11 at a hit reported for a square of the opponent's fresh field. *)
Lemma update_knowledge_witness :
  well_formed fresh_opp /\ on_field 2 3 /\
  exists f',
    FieldUpdateKnowledge fresh_opp (mkGuess 2 3 RESULT_HIT) =
      (status_at fresh_opp (2, 3), f') /\
    well_formed f' /\
    status_at f' (2, 3) =
      (if (RESULT_HIT =? RESULT_HIT) || (RESULT_HIT =? RESULT_SMALL_BOAT_SUNK)
          || (RESULT_HIT =? RESULT_MEDIUM_BOAT_SUNK)
          || (RESULT_HIT =? RESULT_LARGE_BOAT_SUNK)
          || (RESULT_HIT =? RESULT_HUGE_BOAT_SUNK)
       then FIELD_SQUARE_HIT
       else if RESULT_HIT =? RESULT_MISS then FIELD_SQUARE_MISS
       else status_at fresh_opp (2, 3)) /\
    (forall rc, rc <> (2, 3) -> status_at f' rc = status_at fresh_opp rc) /\
    (forall t, boat_lives t f' =
               if RESULT_HIT =? sunk t then 0 else boat_lives t fresh_opp).
Proof.
  split; [exact fresh_opp_well_formed |].
  split; [apply on_the_field; reflexivity |].
  apply (FieldUpdateKnowledge_records fresh_opp (mkGuess 2 3 RESULT_HIT)
           fresh_opp_well_formed).
  apply on_the_field. reflexivity.
Defined.

(** X12 at the same shot, the attacker knowing nothing yet. *)
Lemma attack_then_knowledge_witness :
  well_formed small_boat_placed /\ well_formed fresh_opp /\ on_field 0 1 /\
  let '(sq, own', g') := FieldRegisterEnemyAttack small_boat_placed (mkGuess 0 1 0) in
  let opp' := snd (FieldUpdateKnowledge fresh_opp g') in
  sq = status_at small_boat_placed (0, 1) /\
  status_at opp' (0, 1) =
    match boat_of sq with
    | Some _ => FIELD_SQUARE_HIT
    | None => FIELD_SQUARE_MISS
    end /\
  (forall t, boat_lives t opp' =
             if g_result g' =? sunk t then 0 else boat_lives t fresh_opp) /\
  (forall t, g_result g' = sunk t ->
             boat_of sq = Some t /\ boat_lives t own' = 0).
Proof.
  split; [exact small_boat_placed_well_formed |].
  split; [exact fresh_opp_well_formed |].
  split; [apply on_the_field; reflexivity |].
  apply (attack_then_knowledge small_boat_placed fresh_opp (mkGuess 0 1 0)
           small_boat_placed_well_formed fresh_opp_well_formed).
  apply on_the_field. reflexivity.
Defined.

(** X7 at the small boat laid on the fresh field. *)
Lemma add_boat_lives_witness :
  well_formed fresh_own /\ on_field 0 0 /\ lives_match fresh_own /\
  @FieldAddBoat Field_h_usual fresh_own 0 0 FIELD_DIR_EAST FIELD_BOAT_TYPE_SMALL
    = Some (SUCCESS, small_boat_placed) /\
  well_formed small_boat_placed /\ lives_match small_boat_placed /\
  forall t', squares_of (boat_square t') small_boat_placed =
             squares_of (boat_square t') fresh_own +
             (if BoatType_eqb t' FIELD_BOAT_TYPE_SMALL
              then @boat_size Field_h_usual FIELD_BOAT_TYPE_SMALL else 0).
Proof.
  split; [exact fresh_own_well_formed |].
  split; [apply on_the_field; reflexivity |].
  split; [exact fresh_own_lives_match |].
  split; [reflexivity |].
  apply (@FieldAddBoat_keeps_lives_matching Field_h_usual fresh_own 0 0
           FIELD_DIR_EAST FIELD_BOAT_TYPE_SMALL SUCCESS small_boat_placed
           fresh_own_well_formed);
    [apply on_the_field; reflexivity | exact fresh_own_lives_match | reflexivity].
Defined.

(** X10 at a shot on the small boat, two of its squares remaining after. *)
Lemma sunk_on_last_square_witness :
  well_formed small_boat_placed /\ lives_match small_boat_placed /\ on_field 0 1 /\
  let '(sq, f', g') := FieldRegisterEnemyAttack small_boat_placed (mkGuess 0 1 0) in
  lives_match f' /\
  g_result g' =
    match boat_of sq with
    | Some t => if squares_of (boat_square t) small_boat_placed =? 1
                then sunk t else RESULT_HIT
    | None => RESULT_MISS
    end /\
  forall t, squares_of (boat_square t) f' =
            squares_of (boat_square t) small_boat_placed -
            match boat_of sq with
            | Some t' => if BoatType_eqb t t' then 1 else 0
            | None => 0
            end.
Proof.
  split; [exact small_boat_placed_well_formed |].
  split; [exact small_boat_placed_lives_match |].
  split; [apply on_the_field; reflexivity |].
  apply (sunk_is_reported_on_the_last_square small_boat_placed (mkGuess 0 1 0)
           small_boat_placed_well_formed small_boat_placed_lives_match).
  apply on_the_field. reflexivity.
Defined.

(** X13 at the field with the small boat. *)
Lemma boats_afloat_witness :
  well_formed small_boat_placed /\ lives_match small_boat_placed /\
  (FieldGetBoatStates small_boat_placed = 0 <->
   forall rc, boat_of (status_at small_boat_placed rc) = None) /\
  (forall t, Z.testbit (FieldGetBoatStates small_boat_placed)
               match t with
               | FIELD_BOAT_TYPE_SMALL => 0 | FIELD_BOAT_TYPE_MEDIUM => 1
               | FIELD_BOAT_TYPE_LARGE => 2 | FIELD_BOAT_TYPE_HUGE => 3
               end = true <->
             exists rc, status_at small_boat_placed rc = boat_square t).
Proof.
  split; [exact small_boat_placed_well_formed |].
  split; [exact small_boat_placed_lives_match |].
  apply (boats_afloat_iff_squares_left small_boat_placed
           small_boat_placed_well_formed small_boat_placed_lives_match).
Defined.

(** X14 at the fresh field and the berths. *)
Lemma place_all_boats_witness :
  well_formed fresh_own /\ lives_match fresh_own /\
  exists st f' r',
    @FieldAIPlaceAllBoats Field_h_usual 1 fresh_own (drawn 1 berths)
      = Some (st, f', r') /\
    st = SUCCESS /\ well_formed f' /\ lives_match f' /\
    (forall t, squares_of (boat_square t) f' =
               squares_of (boat_square t) fresh_own + @boat_size Field_h_usual t) /\
    (forall rc, status_at fresh_own rc <> FIELD_SQUARE_EMPTY ->
                status_at f' rc = status_at fresh_own rc) /\
    rand_source r' = rand_source (drawn 1 berths) /\
    exists k, (4 <= k)%nat /\
              rand_calls r' = (rand_calls (drawn 1 berths) + 3 * k)%nat.
Proof.
  split; [exact fresh_own_well_formed |].
  split; [exact fresh_own_lives_match |].
  eexists _, _, _. split; [vm_compute; reflexivity |].
  apply (@FieldAIPlaceAllBoats_places_each_boat_once Field_h_usual 1 fresh_own
           (drawn 1 berths));
    [exact fresh_own_well_formed | exact fresh_own_lives_match
    | vm_compute; reflexivity].
Defined.

(** X15 at a [rand()] that always returns 0. *)
Lemma constant_rand_witness :
  well_formed fresh_own /\
  0 < @boat_size Field_h_usual FIELD_BOAT_TYPE_HUGE /\
  0 < @boat_size Field_h_usual FIELD_BOAT_TYPE_LARGE /\
  @FieldAIPlaceAllBoats Field_h_usual 100 fresh_own (mkRand (fun _ => 0%N) 0) = None.
Proof.
  split; [exact fresh_own_well_formed |].
  split; [reflexivity |]. split; [reflexivity |].
  apply (@FieldAIPlaceAllBoats_needs_a_varying_rand Field_h_usual 100 fresh_own
           0%N 0%nat fresh_own_well_formed); reflexivity.
Defined.

Lemma all_missed_no_unknown rc : status_at all_missed rc <> FIELD_SQUARE_UNKNOWN.
Proof.
  apply no_square_left; [| reflexivity | discriminate].
  split; [reflexivity |]. repeat constructor.
Qed.

(** X16 at the first guess of a match, and at a field whose squares have
    all been shot at and missed. *)
Lemma decide_guess_witness :
  FieldAIDecideGuess 2 fresh_opp guess_boot = Some (mkGuess 0 0 RESULT_MISS, guess_boot) /\
  (g_result (mkGuess 0 0 RESULT_MISS) = RESULT_MISS /\
   status_at fresh_opp (g_row (mkGuess 0 0 RESULT_MISS), g_col (mkGuess 0 0 RESULT_MISS))
     = FIELD_SQUARE_UNKNOWN) /\
  (forall rc, status_at all_missed rc <> FIELD_SQUARE_UNKNOWN) /\
  FieldAIDecideGuess 2 all_missed guess_boot = None.
Proof.
  split; [reflexivity |]. split.
  - apply (proj1 (FieldAIDecideGuess_targets_unknown 2 fresh_opp guess_boot)
             (mkGuess 0 0 RESULT_MISS) guess_boot).
    reflexivity.
  - split; [exact all_missed_no_unknown |].
    apply (proj2 (FieldAIDecideGuess_targets_unknown 2 all_missed guess_boot)).
    exact all_missed_no_unknown.
Defined.

(** X17 at the first guess of a match. *)
Lemma scan_order_witness :
  well_formed fresh_opp /\
  match FieldAIDecideGuess 1 fresh_opp guess_boot with
  | Some (g, s') =>
      s' = guess_boot /\ g_result g = RESULT_MISS /\
      status_at fresh_opp (g_row g, g_col g) = FIELD_SQUARE_UNKNOWN /\
      forall rc, status_at fresh_opp rc = FIELD_SQUARE_UNKNOWN ->
        (on_parity rc = true -> on_parity (g_row g, g_col g) = true) /\
        (on_parity rc = on_parity (g_row g, g_col g) ->
         ~ scanned_before rc (g_row g, g_col g))
  | None => forall rc, status_at fresh_opp rc <> FIELD_SQUARE_UNKNOWN
  end.
Proof.
  split; [exact fresh_opp_well_formed |].
  apply (FieldAIDecideGuess_scans_in_order 0 fresh_opp fresh_opp_well_formed).
Defined.

(** X18 at the challenger, on the acceptance. *)
Lemma table_witness :
  exists m w',
    @AgentRun Field_h_usual 0 (mkEvent BB_EVENT_ACC_RECEIVED 7 0 0)
      (world_in AGENT_STATE_CHALLENGING) = Some (m, w') /\
    In (agentState w')
       (successors (agentState (world_in AGENT_STATE_CHALLENGING))
          (e_type (mkEvent BB_EVENT_ACC_RECEIVED 7 0 0))) /\
    m_type m =
      (if BB_EventType_eqb (e_type (mkEvent BB_EVENT_ACC_RECEIVED 7 0 0))
            BB_EVENT_REV_RECEIVED
          && negb (NegotiationVerify (param0 (mkEvent BB_EVENT_ACC_RECEIVED 7 0 0))
                     (hashA (world_in AGENT_STATE_CHALLENGING)))
       then MESSAGE_NONE
       else reply_to (agentState (world_in AGENT_STATE_CHALLENGING))
              (e_type (mkEvent BB_EVENT_ACC_RECEIVED 7 0 0))).
Proof.
  eexists _, _. split; [vm_compute; reflexivity |].
  apply (@AgentRun_follows_the_table Field_h_usual 0
           (mkEvent BB_EVENT_ACC_RECEIVED 7 0 0) (world_in AGENT_STATE_CHALLENGING)).
  vm_compute. reflexivity.
Defined.

(** X19 at the defender, on a shot. *)
Lemma sound_witness :
  (sound (world_in AGENT_STATE_DEFENDING) \/
   (e_type (mkEvent BB_EVENT_SHO_RECEIVED 0 0 0) = BB_EVENT_RESET_BUTTON /\
    guess_statics (world_in AGENT_STATE_DEFENDING) = guess_boot)) /\
  exists m w',
    @AgentRun Field_h_usual 0 (mkEvent BB_EVENT_SHO_RECEIVED 0 0 0)
      (world_in AGENT_STATE_DEFENDING) = Some (m, w') /\
    sound w'.
Proof.
  split; [left; apply world_in_sound |].
  eexists _, _. split; [vm_compute; reflexivity |].
  eapply (@AgentRun_keeps_the_fields_sound Field_h_usual 0
           (mkEvent BB_EVENT_SHO_RECEIVED 0 0 0) (world_in AGENT_STATE_DEFENDING));
    [left; apply world_in_sound | vm_compute; reflexivity].
Defined.

(** X20 at the agent about to send its first shot. *)
Lemma defined_witness :
  sound (world_in AGENT_STATE_WAITING_TO_SEND) /\
  (agentState (world_in AGENT_STATE_WAITING_TO_SEND) = AGENT_STATE_START ->
   e_type (mkEvent BB_EVENT_MESSAGE_SENT 0 0 0) <> BB_EVENT_START_BUTTON /\
   e_type (mkEvent BB_EVENT_MESSAGE_SENT 0 0 0) <> BB_EVENT_CHA_RECEIVED) /\
  (exists rc, status_at (oppField (world_in AGENT_STATE_WAITING_TO_SEND)) rc
              = FIELD_SQUARE_UNKNOWN) /\
  exists m w',
    @AgentRun Field_h_usual 0 (mkEvent BB_EVENT_MESSAGE_SENT 0 0 0)
      (world_in AGENT_STATE_WAITING_TO_SEND) = Some (m, w').
Proof.
  split; [apply world_in_sound |].
  split; [discriminate |].
  split; [exists (0, 0); reflexivity |].
  apply (@AgentRun_is_defined Field_h_usual 0 (mkEvent BB_EVENT_MESSAGE_SENT 0 0 0)
           (world_in AGENT_STATE_WAITING_TO_SEND));
    [apply world_in_sound | discriminate | exists (0, 0); reflexivity].
Defined.

(** X23 at a shot whose row is 256: it lands on row 0. *)
Lemma defending_reply_witness :
  agentState (world_in AGENT_STATE_DEFENDING) = AGENT_STATE_DEFENDING /\
  e_type (mkEvent BB_EVENT_SHO_RECEIVED 256 1 0) = BB_EVENT_SHO_RECEIVED /\
  well_formed (ownField (world_in AGENT_STATE_DEFENDING)) /\
  exists w',
    @AgentRun Field_h_usual 0 (mkEvent BB_EVENT_SHO_RECEIVED 256 1 0)
      (world_in AGENT_STATE_DEFENDING) =
      Some (mkMessage MESSAGE_RES
              (to_u8 (param0 (mkEvent BB_EVENT_SHO_RECEIVED 256 1 0)))
              (to_u8 (param1 (mkEvent BB_EVENT_SHO_RECEIVED 256 1 0)))
              (to_u16 (@SquareStatus_value Field_h_usual
                         (status_at (ownField (world_in AGENT_STATE_DEFENDING))
                            (to_u8 (param0 (mkEvent BB_EVENT_SHO_RECEIVED 256 1 0)),
                             to_u8 (param1 (mkEvent BB_EVENT_SHO_RECEIVED 256 1 0)))))),
            w') /\
    ownField w' =
      snd (fst (FieldRegisterEnemyAttack (ownField (world_in AGENT_STATE_DEFENDING))
                  (mkGuess (to_u8 (param0 (mkEvent BB_EVENT_SHO_RECEIVED 256 1 0)))
                     (to_u8 (param1 (mkEvent BB_EVENT_SHO_RECEIVED 256 1 0))) 0))) /\
    oppField w' = oppField (world_in AGENT_STATE_DEFENDING) /\
    agentState w' =
      (if FieldGetBoatStates (ownField w') =? 0 then AGENT_STATE_END_SCREEN
       else AGENT_STATE_WAITING_TO_SEND).
Proof.
  split; [reflexivity |]. split; [reflexivity |].
  split; [exact fresh_own_well_formed |].
  apply (@defending_reply_carries_the_old_square Field_h_usual 0
           (mkEvent BB_EVENT_SHO_RECEIVED 256 1 0) (world_in AGENT_STATE_DEFENDING));
    [reflexivity | reflexivity | exact fresh_own_well_formed].
Defined.

(** X24 at the end of a match, on an event of no interest. *)
Lemma end_screen_witness :
  agentState (world_in AGENT_STATE_END_SCREEN) = AGENT_STATE_END_SCREEN /\
  e_type ev0 <> BB_EVENT_RESET_BUTTON /\
  exists w1,
    @AgentRun Field_h_usual 0 ev0 (world_in AGENT_STATE_END_SCREEN)
      = Some (mkMessage MESSAGE_NONE 0 0 0, w1) /\
    agentState w1 = AGENT_STATE_END_SCREEN /\
    endScreenDrawn w1 = true /\
    (endScreenDrawn (world_in AGENT_STATE_END_SCREEN) = true ->
     w1 = world_in AGENT_STATE_END_SCREEN) /\
    forall fuel' event',
      e_type event' <> BB_EVENT_RESET_BUTTON ->
      @AgentRun Field_h_usual fuel' event' w1 = Some (mkMessage MESSAGE_NONE 0 0 0, w1).
Proof.
  split; [reflexivity |]. split; [discriminate |].
  apply (@end_screen_is_shown_once Field_h_usual 0 ev0 (world_in AGENT_STATE_END_SCREEN));
    [reflexivity | discriminate].
Defined.

(** X22 at a result that names another square than the one shot at. *)
Lemma attack_result_witness :
  agentState (world_in AGENT_STATE_ATTACKING) = AGENT_STATE_ATTACKING /\
  e_type (mkEvent BB_EVENT_RES_RECEIVED 5 9 1) = BB_EVENT_RES_RECEIVED /\
  exists w',
    @AgentRun Field_h_usual 0 (mkEvent BB_EVENT_RES_RECEIVED 5 9 1)
      (world_in AGENT_STATE_ATTACKING) = Some (mkMessage MESSAGE_NONE 0 0 0, w') /\
    own_guess w' = mkGuess 0 0 1 /\
    oppField w' = snd (FieldUpdateKnowledge fresh_opp (mkGuess 0 0 1)) /\
    ownField w' = fresh_own /\
    agentState w' =
      (if to_u8 (FieldGetBoatStates (oppField w')) =? 0 then AGENT_STATE_END_SCREEN
       else AGENT_STATE_DEFENDING) /\
    (~ 0 <= 1 <= 5 -> oppField w' = fresh_opp).
Proof.
  split; [reflexivity |]. split; [reflexivity |].
  apply (@attack_result_is_applied_to_the_own_guess Field_h_usual 0
           (mkEvent BB_EVENT_RES_RECEIVED 5 9 1) (world_in AGENT_STATE_ATTACKING));
    reflexivity.
Defined.

(** X21 at the challenger drawing the secret 7. *)
Lemma challenger_witness :
  agentState (world_in AGENT_STATE_START) = AGENT_STATE_START /\
  e_type (mkEvent BB_EVENT_START_BUTTON 0 0 0) = BB_EVENT_START_BUTTON /\
  e_type (mkEvent BB_EVENT_ACC_RECEIVED 9 0 0) = BB_EVENT_ACC_RECEIVED /\
  exists m1 w1,
    @AgentRun Field_h_usual 1 (mkEvent BB_EVENT_START_BUTTON 0 0 0)
      (world_in AGENT_STATE_START) = Some (m1, w1) /\
    exists m2 w2,
      @AgentRun Field_h_usual 0 (mkEvent BB_EVENT_ACC_RECEIVED 9 0 0) w1
        = Some (m2, w2) /\
      m1 = mkMessage MESSAGE_CHA (NegotiationHash (A w1)) 0 0 /\
      m2 = mkMessage MESSAGE_REV (A w1) 0 0 /\
      A w1 = fst (rand (rand_state (world_in AGENT_STATE_START))) mod 65536 /\
      NegotiationVerify (m_param0 m2) (m_param0 m1) = true /\
      agentState w2 =
        match NegotiateCoinFlip (A w1) (param0 (mkEvent BB_EVENT_ACC_RECEIVED 9 0 0)) with
        | HEADS => AGENT_STATE_WAITING_TO_SEND
        | TAILS => AGENT_STATE_DEFENDING
        end.
Proof.
  split; [reflexivity |]. split; [reflexivity |]. split; [reflexivity |].
  eexists _, _. split; [vm_compute; reflexivity |].
  apply (@challenger_reveals_what_it_committed Field_h_usual 1 0
           (mkEvent BB_EVENT_START_BUTTON 0 0 0) (mkEvent BB_EVENT_ACC_RECEIVED 9 0 0)
           (world_in AGENT_STATE_START));
    [reflexivity | reflexivity | reflexivity | vm_compute; reflexivity].
Defined.

(** X25 at a shot and the shot with its coordinates exchanged: 0x5F both. *)
Lemma reordered_payload_witness :
  Permutation (lit "SHO,2,9") (lit "SHO,9,2") /\
  Message_CalculateChecksum (lit "SHO,2,9") =
    fold_right (fun c x => Z.lxor (code c) x) 0 (lit "SHO,2,9") /\
  Message_CalculateChecksum (lit "SHO,9,2") =
    fold_right (fun c x => Z.lxor (code c) x) 0 (lit "SHO,9,2") /\
  Message_CalculateChecksum (lit "SHO,2,9") = Message_CalculateChecksum (lit "SHO,9,2") /\
  0 <= Message_CalculateChecksum (lit "SHO,2,9") < 256.
Proof.
  assert (Hp : Permutation (lit "SHO,2,9") (lit "SHO,9,2")).
  { cbn. do 4 apply perm_skip.
    eapply perm_trans; [apply perm_swap |].
    eapply perm_trans; [apply perm_skip, perm_swap |]. apply perm_swap. }
  split; [exact Hp |].
  apply (reordered_payload_has_the_same_checksum (lit "SHO,2,9") (lit "SHO,9,2") Hp).
Defined.

(** X27 at the message SHO(2, 9). *)
Lemma encode_length_witness :
  fits_template (mkMessage MESSAGE_SHO 2 9 0) /\
  snd (Message_Encode (mkMessage MESSAGE_SHO 2 9 0)) =
    Z.of_nat (length (fst (Message_Encode (mkMessage MESSAGE_SHO 2 9 0)))) /\
  snd (Message_Encode (mkMessage MESSAGE_SHO 2 9 0)) <= 27 /\
  (m_type (mkMessage MESSAGE_SHO 2 9 0) = MESSAGE_NONE ->
   Message_Encode (mkMessage MESSAGE_SHO 2 9 0) = ([], 0)) /\
  (m_type (mkMessage MESSAGE_SHO 2 9 0) <> MESSAGE_NONE ->
   11 <= snd (Message_Encode (mkMessage MESSAGE_SHO 2 9 0)) /\
   fst (Message_Encode (mkMessage MESSAGE_SHO 2 9 0)) =
     "$" :: payload_of (mkMessage MESSAGE_SHO 2 9 0) ++ "*" ::
       hex2 (Message_CalculateChecksum (payload_of (mkMessage MESSAGE_SHO 2 9 0)))
       ++ [CR; LF]).
Proof.
  assert (Hf : fits_template (mkMessage MESSAGE_SHO 2 9 0)).
  { unfold fits_template, u16. cbn. repeat split; lia. }
  split; [exact Hf |].
  apply (Message_Encode_fits_the_buffer (mkMessage MESSAGE_SHO 2 9 0) Hf).
Defined.

(** X28 at a frame that arrives while a payload is being recorded. *)
Lemma lost_frame_witness :
  decode_state frame_begun <> WAIT_FOR_START_DELIMITER /\
  forallb plain (lit "SHO,2,9") = true /\
  isxdigit "5" = true /\ isxdigit "F" = true /\
  decode_all frame_begun ev0 (frame (lit "SHO,2,9") "5" "F") =
    Some (set_decode_state WAIT_FOR_START_DELIMITER frame_begun,
          set_type BB_EVENT_NO_EVENT ev0,
          set_type BB_EVENT_ERROR ev0 ::
          map (fun _ => set_type BB_EVENT_NO_EVENT ev0)
            (lit "SHO,2,9" ++ "*" :: "5" :: "F" :: CR :: LF :: [])).
Proof.
  split; [discriminate |]. split; [reflexivity |].
  split; [reflexivity |]. split; [reflexivity |].
  apply (frame_after_an_unfinished_frame_is_lost frame_begun ev0 (lit "SHO,2,9") "5" "F");
    [discriminate | reflexivity | reflexivity | reflexivity].
Defined.

(** X29 at a shot after some noise, then its result. *)
Lemma stream_witness :
  received [] decoder_boot /\
  decode_state decoder_boot = WAIT_FOR_START_DELIMITER /\
  Forall (fun item =>
            forallb (fun c => negb (Ascii.eqb c "$")) (fst item) = true /\
            m_type (snd item) <> MESSAGE_NONE /\ fits_template (snd item))
    [(lit "noise\r\n", mkMessage MESSAGE_SHO 2 9 0);
     ([], mkMessage MESSAGE_RES 2 9 1)] /\
  exists d' ev' evs,
    decode_all decoder_boot ev0
      (on_the_wire [(lit "noise\r\n", mkMessage MESSAGE_SHO 2 9 0);
                    ([], mkMessage MESSAGE_RES 2 9 1)])
    = Some (d', ev', evs) /\
    decode_state d' = WAIT_FOR_START_DELIMITER /\
    Forall2 carries (events_of evs)
      (map snd [(lit "noise\r\n", mkMessage MESSAGE_SHO 2 9 0);
                ([], mkMessage MESSAGE_RES 2 9 1)]).
Proof.
  assert (Hall : Forall (fun item =>
            forallb (fun c => negb (Ascii.eqb c "$")) (fst item) = true /\
            m_type (snd item) <> MESSAGE_NONE /\ fits_template (snd item))
    [(lit "noise\r\n", mkMessage MESSAGE_SHO 2 9 0);
     ([], mkMessage MESSAGE_RES 2 9 1)]).
  { repeat constructor; try discriminate; cbn; unfold u16; lia. }
  split; [exact received_boot |]. split; [reflexivity |]. split; [exact Hall |].
  apply (a_stream_of_messages_is_decoded_in_order _ [] decoder_boot ev0
           received_boot eq_refl Hall).
Defined.

(** X30 at the shot SHO,2,9 received as SHO,2,8. *)
Lemma corrupted_payload_witness :
  received [] decoder_boot /\
  decode_state decoder_boot = WAIT_FOR_START_DELIMITER /\
  0 <= 0 < 8 /\
  (length (lit "SHO,2," ++ "9"%char :: []) <= 76)%nat /\
  forallb clean (lit "SHO,2," ++ flip_bit 0 "9" :: []) = true /\
  isxdigit "5" = true /\ isxdigit "F" = true /\
  fst (Message_ParseMessage (lit "SHO,2," ++ "9"%char :: []) ["5"%char; "F"%char]
         (set_type BB_EVENT_NO_EVENT ev0)) = SUCCESS /\
  exists d' evs,
    decode_all decoder_boot ev0 (frame (lit "SHO,2," ++ flip_bit 0 "9" :: []) "5" "F") =
      Some (d', set_type BB_EVENT_ERROR ev0, evs ++ [set_type BB_EVENT_ERROR ev0]) /\
    Forall (fun e => e_type e = BB_EVENT_NO_EVENT) evs /\
    decode_state d' = WAIT_FOR_START_DELIMITER.
Proof.
  split; [exact received_boot |]. split; [reflexivity |]. split; [lia |].
  split; [cbn; lia |]. split; [reflexivity |].
  split; [reflexivity |]. split; [reflexivity |]. split; [reflexivity |].
  apply (corrupted_payload_is_an_ERROR [] decoder_boot ev0 (lit "SHO,2,") "9" [] 0 "5" "F");
    [exact received_boot | reflexivity | lia | cbn; lia
    | reflexivity | reflexivity | reflexivity | reflexivity].
Defined.
